(* ===== verification/_CoqProject ===== *)
-Q . S2P
Prelude.v
Heap.v
Locks.v
Locking.v
StringMap.v
HashMap.v
Events.v
Utils.v
Logger.v
AutoBlacklist.v
BlacklistRace.v
PacketAnalyzer.v
Exceptions.v
Context.v
SysConf.v
ConfText.v
ConnTable.v
Proxying.v
ProxySafety.v
Startup.v
ProxyRuns.v
ProxyMain.v
Sessions.v
Admission.v
Words.v
CmdTree.v
Cli.v
Handshake.v
Commands.v
Keyboard.v
DbMysql.v
DbInstances.v
DbService.v
DbLookups.v
DbSessions.v
KnownClient.v
Main.v
Services.v
Threads.v
Signature.v
