(* ===== verification/Prelude.v ===== *)
(** * tcp-proxy: a verification library

    tcp-proxy accepts TCP clients, decides from a database, a white list and access
    counters to which server each of them may talk, and forwards the packets of both
    sides until one of them closes, sends too much, or falls silent.

    ** The program and its model

    The C sources are translated by hand, function by function, with the names of the
    source. Code returns an [outcome]: a result, undefined behaviour with its reason, or
    [Diverges] when a loop exceeds the fuel it was given. Pointers are options of
    locations in a [heap] (one heap per type of object), so that null dereferences, use
    after free and double frees are visible. Machine integers are [Z] with their
    wrap-around written out; where the overflow of a signed integer is undefined, it is
    checked ([checked_int], [checked_long]). What the outside decides (system calls, the database, the
    clock, the plugin) is an argument.

    - [Prelude.v]: outcomes, integers, arrays, C strings, counts, sets as lists;
      tactics and hint databases.
    - [Heap.v]: heaps, allocation, singly linked lists ([Linked] is the interface of a
      cell that carries a [next] pointer, [LinkedLaws] its laws) and the search loop
      the list-based components share.
    - [Locks.v], [Locking.v]: threads with mutexes and signals, and what every function of the
      program locks and which shared variables it touches, for its four threads and its handlers of
      signals.
    - [StringMap.v]: finite maps with string keys, the abstract state of [HashMap.v].
    - [HashMap.v]: src/hash_map.c.
    - [Events.v]: src/events.c, the table of registered descriptors and the dispatch of
      one ready descriptor.
    - [Utils.v]: src/utils.c and src/min_timer.c, time arithmetic, MAC addresses, the
      pool of text buffers, the timer's alignment.
    - [Logger.v]: src/common_logger.c, the appenders, src/null_logger.c, and the commands
      and signals of src/commands.c and src/main.c that change the log level.
    - [AutoBlacklist.v]: src/auto_blacklist.c, the sliding-window counter per address;
      [BlacklistRace.v]: the lookup in the parts its mutex divides it into.
    - [PacketAnalyzer.v]: src/packet_analyzer.c and src/exception.c, loading, using and
      unloading the plugin. [Exceptions.v]: src/exception.c with calls inside of calls, as when the
      plugin makes src/db_service.c reconnect.
    - [Context.v]: src/context.c, the registry of services and their wiring.
    - [SysConf.v]: src/sysconf.c and the actions of src/parser.y; [ConfText.v]: the scanner of
      src/lexer.l, the grammar of src/parser.y, and reading a configuration from its text, with the
      parser that yacc generates behind a class ([Yacc]).
    - [ConnTable.v], [Proxying.v], [ProxySafety.v], [Startup.v], [ProxyRuns.v], [ProxyMain.v]:
      src/proxying.c: the chain and the pool of connections, the handlers, the invariant
      they keep, the configuration and the sockets, the theorems on whole runs, and
      [proxy_main] from the configuration to its end.
    - [Admission.v]: [Proxying.v] and [AutoBlacklist.v] running together; [Sessions.v]: the
      records the database keeps of the connections, through any run.
    - [Words.v], [CmdTree.v], [Cli.v], [Handshake.v]: src/cmdlintf.c: splitting a line into
      words, the tree of commands, the command server with its client, and the start of
      the server in a thread of its own.
    - [Commands.v]: src/commands.c, the handlers of all commands over the state they act
      on, their registration, and the interactive loops of src/cmdlintf.c; [Keyboard.v]: those loops
      over the keys that are typed, and what the readline library is told.
    - [DbMysql.v], [DbInstances.v]: src/db_mysql.c, prepared statements with their parameters
      and results, and the cells of an instance with how src/db_service.c sets one up.
    - [DbService.v], [DbLookups.v], [DbSessions.v]: src/db_service.c, the connection, the cached
      statements, the clock and the product names, and the list of what was executed ([told]: the
      statement, its values, whether it succeeded); lookups in a database that answers;
      everything the proxy asks, run by these functions, and with it the ends of
      connections. [KnownClient.v]: a client the
      database knows, from its lookup to its record, with the proxy in between.
    - [Main.v]: src/main.c, the whole of [main] as the list of what it calls, up to the loop of the
      timer, which does not return; the signals, the work of every minute. [Services.v]: the objects of the services with their tables of
      functions, and what they and [main] ask src/context.c in a run.
    - [Threads.v]: the loop of src/min_timer.c with the work of a minute, and the expiring
      thread of src/auto_blacklist.c with the threads that wake it up or end it.
    - [Signature.v]: src/ds_ecdsa_impl.c and src/digital_signature.c, signing and verifying with
      the OpenSSL library behind a class.

    [Proxying.v] uses [Events.v] for its registrations, [PacketAnalyzer.v] for the data
    the plugin keeps per connection, and [ConnTable.v] for its connections; the database
    service and the blacklist service are seen through the calls made to them
    ([service_call]) and the answers in [accept_env]. [Admission.v] puts the blacklist service
    in the place of its answers. [ProxyMain.v] reads the configuration as [Startup.v] does and
    runs the events of [ProxyRuns.v]. [CmdTree.v] finds words with
    [Words.v]; [Cli.v] serves lines with [CmdTree.v] and any handlers; [Commands.v] gives
    the handlers, over [Proxying.v], [PacketAnalyzer.v] and [Logger.v]. [DbService.v] keeps
    the product names in any map that fulfils the interface of [StringMap.v], which
    [HashMap.v] implements, and binds its parameters as [DbMysql.v] does. [Main.v] reads its
    configuration with [ConfText.v] and [SysConf.v], as [Startup.v] reads the servers;
    [Services.v] runs what [Main.v] populates on [Context.v] over [HashMap.v].

    ** What the theorems show

    - The proxy ([ProxyRuns.v]): any sequence of events the kernel allows, from the
      start, in which the event loop and the expiry take turns and no connection gets 2^31 packets from
      one side, runs without undefined behaviour and keeps exactly the resources of the open
      connections; packets are forwarded in order and whole, as the plugin left them, and counted,
      or the connection is
      closed; exactly the idle connections expire; clients are admitted by the stated
      rules. From the configuration on, [proxy_main] ends
      in one of the stated ways; its end closes every connection and leaves open the event loop's
      descriptor and one socket per name that could not be resolved, and allocated the requests
      with a negative channel ([ProxyMain.v]). With the blacklist service in its place, no
      address gets more clients through in a window than the threshold ([Admission.v]). A
      client the database knows is looked up, recorded and connected ([KnownClient.v]); every
      record the database makes of a connection is completed once ([Sessions.v]), and told to
      it however often the connection to it is renewed ([DbSessions.v]). The row of a known client is
      written to a block for which 8 bytes are asked and 16 are needed: how many the allocator gives is
      a parameter ([block]), and the theorems say what happens for every value of it. The cases outside
      these theorems are shown too: the expiry thread racing with the event loop, the counters that
      overflow, a configuration without servers, a request with a negative channel.
    - Threads: the timer does the work of a minute once in every minute it sees; a termination
      of the expiring thread sets its flag and wakes it up if it is asleep, and a thread that was
      about to sleep misses it and sleeps for ever ([Threads.v]); an expiry in the
      middle of a lookup loses the access and breaks nothing else ([BlacklistRace.v]).
    - Mutexes ([Locking.v]): in any interleaving of the four threads, with signals, whoever waits for a
      mutex waits for a thread that runs, so nobody is blocked for ever, if the plugin gives back
      what it locks and no SIGINT or SIGTERM comes while the main thread wakes up the expiring thread (then
      it is: [handler_waits_for_itself]). What has a mutex is never touched
      by two threads at the same time; the plugin, the table of events, the time of the last packet
      and the address of a connection have none, and are ([races_reachable]).
    - Faults ([Exceptions.v]): a thread survives one fault in its life; a function that has called
      [try_catch] itself is not protected any more.
    - Services ([Services.v]): in every run of [main] each service that is looked up is found, and
      every function that is called through a table is there.
    - Start-up ([Startup.v]): the servers are those of the configuration; [connect_host]
      leaks a socket exactly when a name does not resolve; the logged uptime is right.
    - Refinements: the hash map is a finite map, the event loop a finite map of slots, the
      blacklist counts the accesses of a window, the application context a registry in
      which the first of a name wins, the configuration the last definition of a name.
    - Command lines ([Words.v], [CmdTree.v]): the four functions on lines agree with the list
      of words; the tree is a finite map from paths to commands; a line calls the command
      of its longest registered path; completion offers exactly the names that fit.
    - The command server ([Cli.v], [Handshake.v], [Commands.v]): a line sent to the server has
      the value and the text it has on the server itself, if the two integers before the text come
      whole; the server answers its clients
      one after the other; nothing they send makes it misbehave, on descriptors that fit into an
      [fd_set]; its start loses no wake-up;
      every command is reached by its line. A descriptor that does not fit, an integer that is cut,
      an overrun of the print buffer, a client that
      spins at the end of its input and a greeting that never comes are shown too.
    - The database ([DbMysql.v], [DbService.v], [DbLookups.v]): while the database answers, every
      client is looked up; parameters and columns keep their values,
      with the exceptions stated; preparing a statement ends within stated numbers of
      attempts and seconds; what the service is told reaches the database; a statement that
      failed once is never prepared again while clients keep coming.
    - The configuration ([ConfText.v], [SysConf.v]): the scanner computes what the
      lexical rules describe; the grammar is not ambiguous; with any parser that accepts what the grammar
      derives and its stack holds, every name has the value of its last
      definition in the text. A stray byte cuts the file off, and a string that begins with a NUL
      makes the actions copy memory outside of it.
    - The program ([Main.v]): the phases of [main] follow each other: the objects of the command
      interface and of the configuration, the change of the user, the other services, the proxy, and
      the loop of the timer, which does not return.
    - Signatures ([Signature.v]): what is signed is verified, with the public key if there is one;
      an error of the library counts as a
      valid signature; what a helper allocates is freed once, but for the texts it prints.
    - The plugin: the calls into it respect its protocol for every sequence of requests;
      a plugin that is busy is unloaded when its last datum is released; in safe mode
      the second fault kills the process.
    - Lemmas beside the main theorems: MAC addresses, level names, time differences, the text
      buffers, the default hash; what [remove] of the hash map, a failed [epoll_ctl], a short
      monitoring period and a weak version check do.

    ** Bounds and fuel

    A loop that is not structural has fuel that is proved to be enough: list searches have
    one step more than the heap has cells; the trimming loop of the event table one more
    than the slots in use; the write loop of a packet one more than its bytes, because a
    successful [write] takes at least one. The scanner of the configuration has
    two steps per character, because the rule for a whole line gives it back once. The walks over a line and the search
    of a command have one step more than the line has characters. The preparation of a
    statement has 60 rounds of at most 21 attempts to connect, which are the limits of the
    code. Theorems state that the result is [Ok], never only that a result would be right.

    ** What is not modelled

    Threads: a function that runs under a mutex is one step, and the theorems on runs are
    about sequences of such steps. The interleavings that matter inside of a function have
    models of their own: [ProxyRuns.expiry_race], [BlacklistRace.v], the expiring thread in
    [Threads.v], and [Handshake.v]; which mutexes the threads hold meanwhile, and what they may touch
    at the same time, is in [Locking.v], where tests are left open. Libraries and generated code are
    parameters: the parser yacc makes of the grammar (with the size of its stack), the C client
    library of MySQL, OpenSSL, the regular expressions, the plugin, and readline (a stream of keys gives a
    line, and [rl_completion_matches] the words its generator offers); what the theorems
    use of them are laws of their classes or hypotheses, with an instance in the witnesses. Not
    modelled are what flex makes of the rules, the terminal, and the
    text of log messages. A function that is called through a table is called directly; the
    tables themselves, with the names of their functions, are in [Services.v]. *)

From Stdlib Require Export ZArith Lia Ascii String.
From stdpp Require Export base tactics list gmap strings numbers.

#[global] Set Default Goal Selector "!".

(** ** Outcomes of C code

    A C function either returns, runs into undefined behaviour (the reason is
    kept), or does not return within the fuel its loops were given. *)
Inductive ub : Set :=
  | NullDeref        (* a NULL pointer is dereferenced *)
  | UseAfterFree     (* a freed or never allocated cell is accessed *)
  | OutOfBounds      (* an array is accessed outside its bounds *)
  | DivByZero        (* [/] or [%] with a zero divisor *)
  | IntOverflow      (* signed overflow *)
  | Uninitialised.   (* an object is read before it was ever written *)

Inductive outcome (A : Type) : Type :=
  | Ok (a : A)
  | Undefined (why : ub)
  | Diverges.
Arguments Ok {A} _.
Arguments Undefined {A} _.
Arguments Diverges {A}.

#[export] Instance outcome_ret : MRet outcome := λ A a, Ok a.
#[export] Instance outcome_bind : MBind outcome := λ A B f m,
  match m with Ok a => f a | Undefined w => Undefined w | Diverges => Diverges end.
#[export] Instance outcome_fmap : FMap outcome := λ A B f m,
  match m with Ok a => Ok (f a) | Undefined w => Undefined w | Diverges => Diverges end.

#[export] Instance ub_eq_dec : EqDecision ub.
Proof. solve_decision. Defined.

Definition returns {A} (m : outcome A) : Prop := ∃ a, m = Ok a.

Lemma bind_ok {A B} (f : A → outcome B) (a : A) : (Ok a ≫= f) = f a.
Proof. reflexivity. Qed.

Lemma bind_ok_inv {A B} (m : outcome A) (f : A → outcome B) (b : B) :
  m ≫= f = Ok b → ∃ a, m = Ok a ∧ f a = Ok b.
Proof. destruct m; simpl; intros; try discriminate. eauto. Qed.

Lemma returns_ok {A} (a : A) : returns (Ok a).
Proof. by exists a. Qed.

Create HintDb proxy discriminated.
#[export] Hint Resolve returns_ok : proxy.
#[export] Hint Constants Transparent : proxy.

(** Run the monadic binds of a hypothesis [H : m ≫= f = Ok b]. *)
Ltac inv_ok :=
  repeat match goal with
    | H : mbind _ ?m = Ok _ |- _ =>
        let a := fresh "r" in let E := fresh "E" in
        apply bind_ok_inv in H; destruct H as (a & E & H); try destruct a
    | H : Ok _ = Ok _ |- _ => injection H as H; subst
    | H : mret _ = Ok _ |- _ => injection H as H; subst
    | H : Undefined _ = Ok _ |- _ => discriminate H
    | H : Diverges = Ok _ |- _ => discriminate H
  end.

(** Case on the scrutinee of a match or an [if] of the goal, keeping the equation. *)
Ltac case_on :=
  match goal with
  | |- context [match ?x with _ => _ end] => let E := fresh "E" in destruct x eqn:E
  end.

(** ** Machine integers *)
Open Scope Z_scope.

Definition INT_MAX : Z := 2147483647.
Definition INT_MIN : Z := -2147483648.

Definition is_int (z : Z) : Prop := INT_MIN ≤ z ≤ INT_MAX.

(** Conversion to [int]: modular, what gcc does for an out-of-range value. *)
Definition int32 (z : Z) : Z := (z + 2147483648) mod 4294967296 - 2147483648.
(** Conversion to [uint32_t]. *)
Definition uint32 (z : Z) : Z := z mod 4294967296.

(** [int] arithmetic that may overflow: overflow is undefined. *)
Definition checked_int (z : Z) : outcome Z :=
  if (INT_MIN <=? z) && (z <=? INT_MAX) then Ok z else Undefined IntOverflow.

(** C's [/] and [%] truncate towards zero; a zero divisor is undefined. *)
Definition c_div (a b : Z) : outcome Z :=
  if b =? 0 then Undefined DivByZero else Ok (Z.quot a b).
Definition c_rem (a b : Z) : outcome Z :=
  if b =? 0 then Undefined DivByZero else Ok (Z.rem a b).

Lemma int32_id z : is_int z → int32 z = z.
Proof. unfold is_int, INT_MIN, INT_MAX, int32. intros. rewrite Z.mod_small; lia. Qed.

Lemma int32_range z : is_int (int32 z).
Proof.
  unfold is_int, INT_MIN, INT_MAX, int32.
  pose proof (Z.mod_pos_bound (z + 2147483648) 4294967296). lia.
Qed.

Lemma uint32_range z : 0 ≤ uint32 z < 4294967296.
Proof. apply Z.mod_pos_bound. lia. Qed.

Lemma uint32_id z : 0 ≤ z < 4294967296 → uint32 z = z.
Proof. intros. by apply Z.mod_small. Qed.

Lemma checked_int_ok z : is_int z → checked_int z = Ok z.
Proof.
  unfold is_int, checked_int, INT_MIN, INT_MAX. intros [H1 H2].
  apply Z.leb_le in H1, H2. by rewrite H1, H2.
Qed.

(** 64-bit arithmetic ([long], [ssize_t], [int64_t]) that may overflow. *)
Definition LONG_MAX : Z := 9223372036854775807.
Definition LONG_MIN : Z := -9223372036854775808.
Definition checked_long (z : Z) : outcome Z :=
  if (LONG_MIN <=? z) && (z <=? LONG_MAX) then Ok z else Undefined IntOverflow.

Lemma checked_long_ok z : LONG_MIN ≤ z ≤ LONG_MAX → checked_long z = Ok z.
Proof. unfold checked_long. intros [H1%Z.leb_le H2%Z.leb_le]. by rewrite H1, H2. Qed.

Lemma c_rem_ok a b : b ≠ 0 → c_rem a b = Ok (Z.rem a b).
Proof. unfold c_rem. intros. by destruct (Z.eqb_spec b 0). Qed.

Lemma c_div_ok a b : b ≠ 0 → c_div a b = Ok (Z.quot a b).
Proof. unfold c_div. intros. by destruct (Z.eqb_spec b 0). Qed.

Create Rewrite HintDb proxy.
#[export] Hint Rewrite @bind_ok : proxy.
#[export] Hint Resolve int32_range uint32_range : proxy.

(** ** Arrays with a C index *)
Definition zlookup {A} (l : list A) (i : Z) : option A :=
  if i <? 0 then None else l !! Z.to_nat i.
Definition array_get {A} (l : list A) (i : Z) : outcome A :=
  match zlookup l i with Some a => Ok a | None => Undefined OutOfBounds end.
Definition array_set {A} (l : list A) (i : Z) (a : A) : outcome (list A) :=
  match zlookup l i with
  | Some _ => Ok (<[Z.to_nat i := a]> l)
  | None => Undefined OutOfBounds
  end.

Lemma zlookup_Some {A} (l : list A) i a :
  zlookup l i = Some a ↔ 0 ≤ i ∧ l !! Z.to_nat i = Some a.
Proof. unfold zlookup. destruct (Z.ltb_spec i 0); intuition (try lia; done). Qed.

Lemma zlookup_is_Some {A} (l : list A) i :
  is_Some (zlookup l i) ↔ 0 ≤ i < Z.of_nat (length l).
Proof.
  unfold zlookup. destruct (Z.ltb_spec i 0).
  - split; [intros [? [=]] | lia].
  - rewrite lookup_lt_is_Some. lia.
Qed.

Lemma array_get_Some {A} (l : list A) i a : zlookup l i = Some a → array_get l i = Ok a.
Proof. unfold array_get. by intros ->. Qed.

Lemma array_get_ok {A} (l : list A) i :
  0 ≤ i < Z.of_nat (length l) → ∃ a, zlookup l i = Some a ∧ array_get l i = Ok a.
Proof.
  intros [a Ha]%zlookup_is_Some. exists a. by auto using array_get_Some.
Qed.

Lemma array_set_ok {A} (l : list A) i a :
  0 ≤ i < Z.of_nat (length l) → array_set l i a = Ok (<[Z.to_nat i := a]> l).
Proof. intros [b Hb]%zlookup_is_Some. unfold array_set. by rewrite Hb. Qed.

(** ** C strings

    A value of type [string] is the text before the terminating NUL. *)

(** The value of a [char]: the platform's [char] is signed. *)
Definition schar (c : ascii) : Z :=
  let n := Z.of_N (N_of_ascii c) in if n <? 128 then n else n - 256.

Definition is_ascii (c : ascii) : bool := Z.of_N (N_of_ascii c) <? 128.

Fixpoint str_forall (P : ascii → bool) (s : string) : bool :=
  match s with
  | EmptyString => true
  | String c s' => P c && str_forall P s'
  end.

Definition strlen (s : string) : Z := Z.of_nat (String.length s).

Definition char_code (c : ascii) : Z := Z.of_N (N_of_ascii c).

Definition tolower (c : ascii) : ascii :=
  if (65 <=? char_code c) && (char_code c <=? 90)
  then ascii_of_N (N_of_ascii c + 32) else c.

Definition isdigit (c : ascii) : bool := (48 <=? char_code c) && (char_code c <=? 57).

(** [isspace] of the C locale. *)
Definition isspace (c : ascii) : bool :=
  (char_code c =? 32) || ((9 <=? char_code c) && (char_code c <=? 13)).

(** [strcasecmp (a, b) == 0] *)
Fixpoint strcaseeq (a b : string) : bool :=
  match a, b with
  | EmptyString, EmptyString => true
  | String c a', String d b' =>
      if decide (tolower c = tolower d) then strcaseeq a' b' else false
  | _, _ => false
  end.

(** [strncasecmp (a, b, strlen (b)) == 0] *)
Fixpoint strcaseprefix (a b : string) : bool :=
  match b, a with
  | EmptyString, _ => true
  | String d b', String c a' =>
      if decide (tolower c = tolower d) then strcaseprefix a' b' else false
  | String _ _, EmptyString => false
  end.

(** [atoi]: optional white space, an optional sign, digits; [strtol] saturates
    at the range of [long] and the result is converted to [int]. *)
Fixpoint digits_value (acc : Z) (s : string) : Z :=
  match s with
  | String c s' => if isdigit c then digits_value (acc * 10 + (char_code c - 48)) s' else acc
  | EmptyString => acc
  end.

Fixpoint skip_spaces (s : string) : string :=
  match s with
  | String c s' => if isspace c then skip_spaces s' else s
  | EmptyString => s
  end.

Definition clamp_long (z : Z) : Z := Z.max (- 2 ^ 63) (Z.min (2 ^ 63 - 1) z).

Definition atoi (s : string) : Z :=
  match skip_spaces s with
  | String c s' as t =>
      if char_code c =? 45 then int32 (clamp_long (- digits_value 0 s'))
      else if char_code c =? 43 then int32 (clamp_long (digits_value 0 s'))
      else int32 (clamp_long (digits_value 0 t))
  | EmptyString => 0
  end.

Lemma strcaseeq_refl s : strcaseeq s s = true.
Proof. induction s as [|c s IH]; simpl; [done|]. by rewrite decide_True. Qed.

Lemma strcaseeq_sym a b : strcaseeq a b = strcaseeq b a.
Proof.
  revert b. induction a as [|c a IH]; intros [|d b]; simpl; try done.
  repeat case_decide; first [done | congruence | apply IH].
Qed.

Lemma strcaseeq_trans a b c :
  strcaseeq a b = true → strcaseeq b c = true → strcaseeq a c = true.
Proof.
  revert b c. induction a as [|x a IH]; intros [|y b] [|z c]; simpl; try done.
  repeat case_decide; try done; eauto; congruence.
Qed.

Lemma schar_ascii c : is_ascii c = true → 0 ≤ schar c < 128.
Proof. unfold is_ascii, schar. intros H. rewrite H. apply Z.ltb_lt in H. lia. Qed.

Lemma schar_range c : -128 ≤ schar c < 128.
Proof.
  unfold schar. destruct (Z.ltb_spec (Z.of_N (N_of_ascii c)) 128); [lia|].
  pose proof (N_ascii_bounded c). lia.
Qed.

#[export] Hint Resolve schar_ascii schar_range strcaseeq_refl : proxy.

(** ** Concatenation and prefixes of strings *)

Fixpoint str_take (n : nat) (s : string) : string :=
  match n, s with
  | S n', String c rest => String c (str_take n' rest)
  | _, _ => EmptyString
  end.

Fixpoint str_drop (n : nat) (s : string) : string :=
  match n, s with
  | S n', String _ rest => str_drop n' rest
  | _, _ => s
  end.

Lemma snoc_not_empty s c : s +:+ String c EmptyString ≠ EmptyString.
Proof. by destruct s. Qed.

Lemma string_cons_app c s t : String c s +:+ t = String c (s +:+ t).
Proof. reflexivity. Qed.

Lemma string_nil_app t : EmptyString +:+ t = t.
Proof. reflexivity. Qed.

#[export] Hint Rewrite string_cons_app string_nil_app : proxy.

Lemma string_app_nil s : s +:+ EmptyString = s.
Proof. induction s as [|c s IH]; [done|]. by rewrite string_cons_app, IH. Qed.

Lemma string_app_assoc a b c : (a +:+ b) +:+ c = a +:+ (b +:+ c).
Proof. induction a as [|x a IH]; [done|]. by rewrite !string_cons_app, IH. Qed.

Lemma str_forall_app P a b : str_forall P (a +:+ b) = str_forall P a && str_forall P b.
Proof. induction a as [|c a IH]; [done|]. rewrite string_cons_app. cbn [str_forall]. by rewrite IH, andb_assoc. Qed.

Lemma length_snoc_string s c : String.length (s +:+ String c EmptyString) = S (String.length s).
Proof. induction s as [|d s IH]; [done|]. rewrite string_cons_app. cbn [String.length]. by rewrite IH. Qed.

Lemma str_take_snoc n s c :
  str_take n (s +:+ String c EmptyString) =
    if decide (String.length s < n)%nat then s +:+ String c EmptyString else str_take n s.
Proof.
  revert n. induction s as [|d s IH]; intros [|n]; try done.
  - by destruct n.
  - rewrite string_cons_app. cbn [str_take String.length]. rewrite IH. repeat case_decide; first [done|lia].
Qed.

Lemma str_take_all n s : (String.length s ≤ n)%nat → str_take n s = s.
Proof. revert n. induction s as [|c s IH]; intros [|n]; simpl; intros Hn; try done; [lia|]. by rewrite IH by lia. Qed.

Lemma str_take_length n s : (String.length (str_take n s) ≤ n)%nat.
Proof. revert n. induction s as [|c s IH]; intros [|n]; simpl; try lia. specialize (IH n). lia. Qed.

Lemma str_take_drop n s : str_take n s +:+ str_drop n s = s.
Proof. revert n. induction s as [|c s IH]; intros [|n]; try done. cbn [str_take str_drop]. by rewrite string_cons_app, IH. Qed.

Lemma substring_take n s : String.substring 0 n s = str_take n s.
Proof. revert n. induction s as [|c s IH]; intros [|n]; simpl; try done. by rewrite IH. Qed.

(** ** Sums and counts *)

Fixpoint zsum (l : list Z) : Z := match l with [] => 0 | x :: l' => x + zsum l' end.

Lemma zsum_insert (l : list Z) i a b :
  l !! i = Some a → zsum (<[i := b]> l) = zsum l - a + b.
Proof.
  revert i. induction l as [|x l IH]; intros [|i]; simpl; try done.
  - intros [= ->]. lia.
  - intros Hi. rewrite (IH i Hi). lia.
Qed.

Lemma zsum_nonneg (l : list Z) : Forall (λ x, 0 ≤ x) l → 0 ≤ zsum l.
Proof. induction 1; simpl; lia. Qed.

(** The number of elements with a property. *)
Fixpoint countb {A} (P : A → bool) (l : list A) : Z :=
  match l with [] => 0 | x :: l' => (if P x then 1 else 0) + countb P l' end.

Lemma countb_bounds {A} (P : A → bool) (l : list A) : 0 ≤ countb P l ≤ Z.of_nat (length l).
Proof. induction l as [|x l IH]; simpl; [lia|]. destruct (P x); lia. Qed.

Lemma countb_ext {A} (P Q : A → bool) (l : list A) :
  (∀ x, x ∈ l → P x = Q x) → countb P l = countb Q l.
Proof.
  induction l as [|x l IH]; simpl; intros H; [done|].
  rewrite (H x), IH; [done| |]; set_solver.
Qed.

Lemma countb_zero {A} (P : A → bool) (l : list A) :
  countb P l = 0 ↔ ∀ x, x ∈ l → P x = false.
Proof.
  induction l as [|x l IH]; simpl.
  - split; [set_solver|done].
  - pose proof (countb_bounds P l). destruct (P x) eqn:E; split.
    + lia.
    + intros Hx. rewrite (Hx x) in E; [done|set_solver].
    + intros Hz y [->|Hy]%elem_of_cons; [done|]. apply IH; [lia|done].
    + intros Hx. rewrite (proj2 IH); [lia|]. intros y Hy. apply Hx. set_solver.
Qed.

Lemma countb_pos {A} (P : A → bool) (l : list A) : 0 < countb P l → ∃ x, x ∈ l ∧ P x = true.
Proof.
  induction l as [|x l IH]; simpl; [lia|]. destruct (P x) eqn:E.
  - intros _. exists x. split; [left|done].
  - intros (y & Hy & Hp)%IH. exists y. split; [by right|done].
Qed.

(** ** Sets as lists without duplicates *)

Section elements.
Context {A} `{Countable A}.
Implicit Types (X : gset A).

Lemma elements_remove X x l : elements X ≡ₚ x :: l → elements (X ∖ {[x]}) ≡ₚ l.
Proof.
  intros Hx. pose proof (NoDup_elements X) as Hnd. rewrite Hx in Hnd.
  apply list.NoDup_cons in Hnd as [Hl Hnd]. apply NoDup_Permutation; [apply NoDup_elements|done|].
  intros y. rewrite elem_of_elements, elem_of_difference, elem_of_singleton.
  rewrite <- (elem_of_elements X), Hx, elem_of_cons. split; [naive_solver|].
  intros Hy. split; [by right|]. by intros ->.
Qed.

Lemma elements_add X x l : x ∉ X → elements X ≡ₚ l → elements ({[x]} ∪ X) ≡ₚ x :: l.
Proof. intros Hx Hl. by rewrite elements_union_singleton, Hl. Qed.
End elements.

Lemma dom_fresh_insert {A} (m : gmap positive A) x a l :
  m !! x = None → elements (dom m) ≡ₚ l → elements (dom (<[x := a]> m)) ≡ₚ x :: l.
Proof.
  intros Hx Hl. rewrite dom_insert_L. apply elements_add; [|done]. by apply not_elem_of_dom.
Qed.

Lemma dom_delete_elements {A} (m : gmap positive A) x l :
  elements (dom m) ≡ₚ x :: l → is_Some (m !! x) ∧ elements (dom (delete x m)) ≡ₚ l.
Proof.
  intros Hx. split.
  - apply elem_of_dom, elem_of_elements. rewrite Hx. left.
  - rewrite dom_delete_L. by apply elements_remove.
Qed.
