(* ===== verification/Heap.v ===== *)
(** * Heap cells and NULL-terminated linked lists

    The program keeps its tables in singly linked lists of [malloc]ed cells:
    the chains of the hash map, the free pools, the chain of open connections,
    the chains of the access counters. This file has the heap those lists live
    in, the allocator, and the theory of a list reachable through a [next]
    field, shared by every component that owns such a list. *)

From S2P Require Import Prelude.

(** Addresses of cells, and pointers: [None] is [NULL]. *)
Abbreviation loc := positive (only parsing).
Abbreviation ptr := (option positive).
Abbreviation heap A := (gmap positive A).

Definition deref {A} (h : heap A) (p : ptr) : outcome A :=
  match p with
  | None => Undefined NullDeref
  | Some l => match h !! l with Some a => Ok a | None => Undefined UseAfterFree end
  end.

(** [*p = a] for a live cell. *)
Definition store {A} (h : heap A) (p : ptr) (a : A) : outcome (heap A) :=
  match p with
  | None => Undefined NullDeref
  | Some l => match h !! l with Some _ => Ok (<[l := a]> h) | None => Undefined UseAfterFree end
  end.

(** [free (p)]: [free (NULL)] does nothing, a second [free] is undefined. *)
Definition free_cell {A} (h : heap A) (p : ptr) : outcome (heap A) :=
  match p with
  | None => Ok h
  | Some l => match h !! l with Some _ => Ok (delete l h) | None => Undefined UseAfterFree end
  end.

(** An address that is not in use. The program never inspects an address, so
    the choice of a particular one is immaterial. *)
Definition fresh_loc {A} (h : heap A) : loc :=
  Pos.succ (map_fold (λ l _ acc, Pos.max l acc) 1%positive h).

Lemma fresh_loc_bound {A} (h : heap A) l a :
  h !! l = Some a → (l < fresh_loc h)%positive.
Proof.
  unfold fresh_loc. revert l a.
  apply (map_fold_weak_ind (λ r m, ∀ l a, m !! l = Some a → (l < Pos.succ r)%positive)).
  - intros l a. by rewrite lookup_empty.
  - intros i x m r _ IH l a. destruct (decide (i = l)) as [->|Hne].
    + intros _. lia.
    + rewrite lookup_insert_ne by done. intros H%IH. lia.
Qed.

Lemma fresh_loc_fresh {A} (h : heap A) : h !! fresh_loc h = None.
Proof.
  destruct (h !! fresh_loc h) eqn:E; [|done].
  apply fresh_loc_bound in E. lia.
Qed.

(** [malloc]: [NULL] when there is no memory. *)
Definition malloc {A} (memory : bool) (h : heap A) : ptr :=
  if memory then Some (fresh_loc h) else None.

#[export] Hint Resolve fresh_loc_fresh : proxy.

Lemma deref_Some {A} (h : heap A) l a : h !! l = Some a → deref h (Some l) = Ok a.
Proof. simpl. by intros ->. Qed.

Lemma store_Some {A} (h : heap A) l a b :
  h !! l = Some a → store h (Some l) b = Ok (<[l := b]> h).
Proof. simpl. by intros ->. Qed.

Lemma free_cell_Some {A} (h : heap A) l a :
  h !! l = Some a → free_cell h (Some l) = Ok (delete l h).
Proof. simpl. by intros ->. Qed.

(** A cell that carries its list's [next] pointer. *)
Class Linked (A : Type) := { next : A → ptr; set_next : ptr → A → A }.
Class LinkedLaws (A : Type) `{Linked A} := {
  next_set_next p a : next (set_next p a) = p;
  set_next_set_next p q a : set_next p (set_next q a) = set_next p a;
}.

Section linked_list.
Context {A : Type} `{LinkedLaws A}.
Implicit Types (h : heap A) (p q : ptr) (l : loc) (ls : list loc).

(** [lseg h p ls q]: following [next] from [p] passes the cells [ls] in this
    order and arrives at [q]. *)
Fixpoint lseg h p ls q : Prop :=
  match ls with
  | [] => p = q
  | l :: ls' => p = Some l ∧ ∃ a, h !! l = Some a ∧ lseg h (next a) ls' q
  end.

Definition is_list h p ls : Prop := lseg h p ls None.

Lemma lseg_app h p ls1 ls2 q :
  lseg h p (ls1 ++ ls2) q ↔ ∃ m, lseg h p ls1 m ∧ lseg h m ls2 q.
Proof.
  revert p. induction ls1 as [|l ls1 IH]; intros p; simpl.
  - split; [eauto | by intros (m & -> & ?)].
  - setoid_rewrite IH. clear IH. split.
    + intros (-> & a & Ha & m & H1 & H2). eauto 8.
    + intros (m & (-> & a & Ha & H1) & H2). eauto 8.
Qed.

(** Only the [next] fields of the cells on the list matter. *)
Lemma lseg_frame h h' p ls q :
  (∀ l a, l ∈ ls → h !! l = Some a → ∃ a', h' !! l = Some a' ∧ next a' = next a) →
  lseg h p ls q → lseg h' p ls q.
Proof.
  revert p. induction ls as [|l ls IH]; intros p Hf; simpl; [done|].
  intros (-> & a & Ha & Hl). split; [done|].
  destruct (Hf l a) as (a' & Ha' & Hn); [set_solver|done|].
  exists a'. split; [done|]. rewrite Hn. apply IH; [|done]. set_solver.
Qed.

Lemma is_list_insert_ne h p ls l a :
  l ∉ ls → is_list h p ls → is_list (<[l := a]> h) p ls.
Proof.
  intros Hl. apply lseg_frame. intros l' a' Hin Ha'. exists a'.
  split; [|done]. rewrite lookup_insert_ne; [done|]. set_solver.
Qed.

Lemma is_list_insert_next h p ls l a a' :
  h !! l = Some a → next a' = next a → is_list h p ls → is_list (<[l := a']> h) p ls.
Proof.
  intros Ha Hn. apply lseg_frame. intros l' b Hin Hb.
  destruct (decide (l = l')) as [->|].
  - exists a'. rewrite lookup_insert_eq. split; [done|]. congruence.
  - exists b. by rewrite lookup_insert_ne.
Qed.

Lemma is_list_delete_ne h p ls l :
  l ∉ ls → is_list h p ls → is_list (delete l h) p ls.
Proof.
  intros Hl. apply lseg_frame. intros l' a' Hin Ha'. exists a'.
  split; [|done]. rewrite lookup_delete_ne; [done|]. set_solver.
Qed.

Lemma is_list_cons h l a ls :
  l ∉ ls → is_list h (next a) ls → is_list (<[l := a]> h) (Some l) (l :: ls).
Proof.
  intros Hl Hls. split; [done|]. exists a. rewrite lookup_insert_eq.
  split; [done|]. by apply is_list_insert_ne.
Qed.

Lemma is_list_det h p ls1 ls2 : is_list h p ls1 → is_list h p ls2 → ls1 = ls2.
Proof.
  unfold is_list. revert p ls2.
  induction ls1 as [|l ls1 IH]; intros p [|l2 ls2]; simpl; try done.
  - by intros -> (? & _).
  - by intros (-> & _) ?.
  - intros (-> & a & Ha & H1) ([= ->] & b & Hb & H2). simplify_eq. f_equal. eauto.
Qed.

Lemma is_list_suffix h p ls1 l ls2 :
  is_list h p (ls1 ++ l :: ls2) → is_list h (Some l) (l :: ls2).
Proof.
  intros (m & _ & Hm)%lseg_app. simpl in Hm. destruct Hm as (-> & Hm). by split.
Qed.

(** A list that reaches [NULL] has no cycle. *)
Lemma is_list_NoDup h p ls : is_list h p ls → NoDup ls.
Proof.
  revert p. induction ls as [|l ls IH]; intros p Hl; [constructor|].
  pose proof Hl as (-> & a & Ha & Hls). constructor; [|by eapply IH].
  intros (ls1 & ls2 & ->)%list_elem_of_split.
  pose proof (is_list_suffix _ _ (l :: ls1) _ _ Hl) as Hsuf.
  pose proof (is_list_det _ _ _ _ Hl Hsuf) as Heq.
  apply (f_equal length) in Heq. simpl in Heq. rewrite length_app in Heq. simpl in Heq. lia.
Qed.

Lemma is_list_live h p ls l : is_list h p ls → l ∈ ls → is_Some (h !! l).
Proof.
  unfold is_list. revert p. induction ls as [|l' ls IH]; intros p; simpl; [set_solver|].
  intros (_ & a & Ha & Hls) [->|Hin]%elem_of_cons; eauto.
Qed.

Lemma is_list_nil h ls : is_list h None ls → ls = [].
Proof. destruct ls; [done|]. by intros (? & _). Qed.

Lemma is_list_length h p ls : is_list h p ls → (length ls ≤ size h)%nat.
Proof.
  intros Hl. pose proof (is_list_NoDup _ _ _ Hl) as Hnd.
  rewrite <- (size_list_to_set (C := gset positive)) by done.
  rewrite <- size_dom. apply subseteq_size. intros l. rewrite elem_of_list_to_set, elem_of_dom.
  by eapply is_list_live.
Qed.

(** The search loops: [while (p != NULL) { if (test (p)) break; p = p->next; }].
    The fuel bounds the number of cells visited. *)
Fixpoint find_cell (test : A → bool) (fuel : nat) h p : outcome ptr :=
  match fuel with
  | O => Diverges
  | S fuel' =>
      match p with
      | None => Ok None
      | Some l => a ← deref h p;
          if test a then Ok (Some l) else find_cell test fuel' h (next a)
      end
  end.

(** A [NULL]-terminated list visits each live cell at most once. *)
Definition list_fuel h : nat := S (size h).

Definition test_at (test : A → bool) h l : bool :=
  match h !! l with Some a => test a | None => false end.

Lemma find_cell_spec test fuel h p ls :
  is_list h p ls → (length ls < fuel)%nat →
  find_cell test fuel h p = Ok (List.find (test_at test h) ls).
Proof.
  unfold is_list. revert fuel p. induction ls as [|l ls IH]; intros [|fuel] p; simpl; try lia.
  - by intros ->.
  - intros (-> & a & Ha & Hls) Hf. simpl. rewrite Ha. simpl.
    unfold test_at at 1. rewrite Ha. destruct (test a); [done|]. apply IH; [done|lia].
Qed.

(** The loop terminates on every well-formed list, and finds a cell exactly
    when one satisfies the test. *)
Lemma find_cell_list test h p ls :
  is_list h p ls →
  find_cell test (list_fuel h) h p = Ok (List.find (test_at test h) ls).
Proof.
  intros Hl. apply find_cell_spec; [done|]. unfold list_fuel.
  pose proof (is_list_length _ _ _ Hl). lia.
Qed.

Lemma find_test_Some test h ls l :
  List.find (test_at test h) ls = Some l →
  l ∈ ls ∧ ∃ a, h !! l = Some a ∧ test a = true.
Proof.
  intros [Hin Ht]%List.find_some. split; [by apply list_elem_of_In|].
  unfold test_at in Ht. destruct (h !! l) as [a|]; [eauto|done].
Qed.

Lemma find_test_None test h ls l a :
  List.find (test_at test h) ls = None → l ∈ ls → h !! l = Some a → test a = false.
Proof.
  intros Hn Hin Ha. apply list_elem_of_In in Hin.
  pose proof (List.find_none _ _ Hn _ Hin) as Ht. unfold test_at in Ht. by rewrite Ha in Ht.
Qed.
End linked_list.

#[export] Hint Resolve is_list_insert_ne is_list_delete_ne is_list_cons : proxy.

#[global] Arguments find_cell {A _} test fuel h p : simpl never.
#[global] Arguments list_fuel {A} h : simpl never.
