(* ===== verification/Locks.v ===== *)
(** * Threads with mutexes

    What a function does with the mutexes: which it locks and unlocks, in which order, and which
    shared variables it reads and writes in between; what its tests and loops decide is left
    open. Threads run such functions one step at a time, in any interleaving. A thread that
    locks mutexes only upwards in an order and returns what it locked, as [ok] states, never
    misuses a mutex; threads that all do so cannot block each other for ever, also when signal
    handlers that do so interrupt them; and a variable that is only touched under its mutex is
    never touched by two threads at the same time.
    [Locking.v] has the functions of the program. *)

From S2P Require Import Prelude.

Inductive mode := Exclusive | Reading.

#[export] Instance mode_eq_dec : EqDecision mode.
Proof. solve_decision. Defined.

Section locks.
Context {mutex shared : Type} `{EqDecision mutex}.

(** [Trylock m p]: the lock is taken when it is free, else [p] runs. [Wait m]: the mutex is given
    back, the thread sleeps ([Asleep m]) until it is woken, by a signal or without one, and locks
    the mutex again. [If]: a test decides. [Choose]: for any connection, bucket or such. *)
Inductive lock_prog : Type :=
  | Skip
  | Lock (m : mutex)
  | Rdlock (m : mutex)
  | Unlock (m : mutex)
  | Trylock (m : mutex) (otherwise : lock_prog)
  | Wait (m : mutex)
  | Asleep (m : mutex)
  | Read (v : shared)
  | Write (v : shared)
  | Seq (p q : lock_prog)
  | If (p q : lock_prog)
  | Choose (f : nat → lock_prog)
  | Loop (p : lock_prog).

(** One after the other, and perhaps. *)
Fixpoint block (l : list lock_prog) : lock_prog := match l with [] => Skip | p :: l' => Seq p (block l') end.
Definition when (l : list lock_prog) : lock_prog := If (block l) Skip.

(** What is left to run, and the mutexes that are held, the last one first. *)
Record thread := Thread { stack : list lock_prog; held : list (mutex * mode) }.

Definition compatible (m : mutex) (md : mode) (e : mutex * mode) : Prop := fst e = m → md = Reading ∧ snd e = Reading.

#[export] Instance compatible_dec m md e : Decision (compatible m md e).
Proof. unfold compatible. apply _. Defined.

(** The mutex can be locked: by nobody held, or only for reading when that is what is wanted. *)
Definition free (ts : list thread) (m : mutex) (md : mode) : Prop := Forall (λ t, Forall (compatible m md) (held t)) ts.

#[export] Instance free_dec ts m md : Decision (free ts m md).
Proof. unfold free. apply _. Defined.

Definition release (m : mutex) (h : list (mutex * mode)) : list (mutex * mode) := filter (λ e, fst e ≠ m) h.

(** One step of a thread among the threads [ts]. *)
Inductive tstep (ts : list thread) : thread → thread → Prop :=
  | t_skip k h : tstep ts (Thread (Skip :: k) h) (Thread k h)
  | t_lock m k h : free ts m Exclusive → tstep ts (Thread (Lock m :: k) h) (Thread k ((m, Exclusive) :: h))
  | t_rdlock m k h : free ts m Reading → tstep ts (Thread (Rdlock m :: k) h) (Thread k ((m, Reading) :: h))
  | t_unlock m md k h : (m, md) ∈ h → tstep ts (Thread (Unlock m :: k) h) (Thread k (release m h))
  | t_trylock m p k h : free ts m Exclusive → tstep ts (Thread (Trylock m p :: k) h) (Thread k ((m, Exclusive) :: h))
  | t_try_fails m p k h : ¬ free ts m Exclusive → tstep ts (Thread (Trylock m p :: k) h) (Thread (p :: k) h)
  | t_wait m k h : (m, Exclusive) ∈ h → tstep ts (Thread (Wait m :: k) h) (Thread (Asleep m :: k) (release m h))
  | t_woken m k h : tstep ts (Thread (Asleep m :: k) h) (Thread (Lock m :: k) h)
  | t_read v k h : tstep ts (Thread (Read v :: k) h) (Thread k h)
  | t_write v k h : tstep ts (Thread (Write v :: k) h) (Thread k h)
  | t_seq p q k h : tstep ts (Thread (Seq p q :: k) h) (Thread (p :: q :: k) h)
  | t_then p q k h : tstep ts (Thread (If p q :: k) h) (Thread (p :: k) h)
  | t_else p q k h : tstep ts (Thread (If p q :: k) h) (Thread (q :: k) h)
  | t_choose f n k h : tstep ts (Thread (Choose f :: k) h) (Thread (f n :: k) h)
  | t_again p k h : tstep ts (Thread (Loop p :: k) h) (Thread (p :: Loop p :: k) h)
  | t_done p k h : tstep ts (Thread (Loop p :: k) h) (Thread k h).

Definition tick (ts ts' : list thread) : Prop := ∃ i t t', ts !! i = Some t ∧ tstep ts t t' ∧ ts' = <[i := t']> ts.

(** A signal: the handler [p] runs on top of what a thread does, which may be to wait for a mutex or to
    sleep. [handles i p h]: thread [i] may run it while it holds [h]. *)
Definition signal (handles : nat → lock_prog → list (mutex * mode) → Prop) (ts ts' : list thread) : Prop :=
  ∃ i t p, ts !! i = Some t ∧ stack t ≠ [] ∧ handles i p (held t) ∧ ts' = <[i := Thread (p :: stack t) (held t)]> ts.

Definition start_threads (ps : list lock_prog) : list thread := map (λ p, Thread [p] []) ps.

(** ** What a thread waits for *)

Definition wants (t : thread) (m : mutex) (md : mode) : Prop :=
  match stack t with
  | Lock m' :: _ => m = m' ∧ md = Exclusive
  | Rdlock m' :: _ => m = m' ∧ md = Reading
  | _ => False
  end.

Definition asleep (t : thread) : Prop := match stack t with Asleep _ :: _ => True | _ => False end.

(** Thread [i] wants a mutex that thread [j] holds. *)
Definition waits_for (ts : list thread) (i j : nat) : Prop :=
  ∃ t u m md e, ts !! i = Some t ∧ ts !! j = Some u ∧ wants t m md ∧ e ∈ held u ∧ ¬ compatible m md e.

(** It can take a step by itself. *)
Definition can_run (ts : list thread) (i : nat) : Prop := ∃ t t', ts !! i = Some t ∧ ¬ asleep t ∧ tstep ts t t'.

(** The next access of a thread, and whether it writes. *)
Definition accesses (t : thread) (v : shared) (writes : bool) : Prop :=
  match stack t with
  | Read v' :: _ => v = v' ∧ writes = false
  | Write v' :: _ => v = v' ∧ writes = true
  | _ => False
  end.

(** Two threads are about to touch the same variable, and one of them writes it. *)
Definition race (ts : list thread) (v : shared) : Prop :=
  ∃ i j t u w w', i ≠ j ∧ ts !! i = Some t ∧ ts !! j = Some u ∧ accesses t v w ∧ accesses u v w' ∧ w || w' = true.

(** ** The discipline *)

(** [rank]: the order; [guard]: the mutex of a variable, for those that have one. *)
Context (rank : mutex → nat) (guard : shared → option mutex).

Definition above (m : mutex) (h : list (mutex * mode)) : Prop := Forall (λ e, (rank (fst e) < rank m)%nat) h.

(** [ok h p h']: run with the mutexes [h], [p] keeps the discipline and ends with [h']. *)
Inductive ok : list (mutex * mode) → lock_prog → list (mutex * mode) → Prop :=
  | ok_skip h : ok h Skip h
  | ok_lock h m : above m h → ok h (Lock m) ((m, Exclusive) :: h)
  | ok_rdlock h m : above m h → ok h (Rdlock m) ((m, Reading) :: h)
  | ok_unlock h m md : ok ((m, md) :: h) (Unlock m) h
  | ok_trylock h m p : above m h → ok h p ((m, Exclusive) :: h) → ok h (Trylock m p) ((m, Exclusive) :: h)
  | ok_wait m : ok [(m, Exclusive)] (Wait m) [(m, Exclusive)]
  | ok_asleep m : ok [] (Asleep m) [(m, Exclusive)]
  | ok_read h v : (∀ m, guard v = Some m → ∃ md, (m, md) ∈ h) → ok h (Read v) h
  | ok_write h v : (∀ m, guard v = Some m → (m, Exclusive) ∈ h) → ok h (Write v) h
  | ok_seq h h1 h2 p q : ok h p h1 → ok h1 q h2 → ok h (Seq p q) h2
  | ok_if h h' p q : ok h p h' → ok h q h' → ok h (If p q) h'
  | ok_choose h h' f : (∀ n, ok h (f n) h') → ok h (Choose f) h'
  | ok_loop h p : ok h p h → ok h (Loop p) h.

Inductive runs : list (mutex * mode) → list lock_prog → Prop :=
  | runs_nil : runs [] []
  | runs_cons h h' p k : ok h p h' → runs h' k → runs h (p :: k).

(** The mutexes of a thread were locked upwards. *)
Fixpoint ordered (h : list (mutex * mode)) : Prop :=
  match h with [] => True | e :: h' => above (fst e) h' ∧ ordered h' end.

(** What is true of the threads at any time. *)
Record disciplined (ts : list thread) : Prop := {
  d_runs i t : ts !! i = Some t → runs (held t) (stack t) ∧ ordered (held t);
  d_apart i j t u e : ts !! i = Some t → ts !! j = Some u → i ≠ j → e ∈ held t → Forall (compatible (fst e) (snd e)) (held u);
}.

Lemma above_nil m : above m [].
Proof. constructor. Qed.
Hint Resolve above_nil : core.

Lemma above_not_in m md h : above m h → (m, md) ∉ h.
Proof. intros Ha Hin. apply (proj1 (list.Forall_forall _ _) Ha) in Hin. cbn in Hin. lia. Qed.

Lemma release_head m md h : above m h → release m ((m, md) :: h) = h.
Proof.
  intros Ha. unfold release. rewrite filter_cons_False by (cbn; tauto). induction Ha as [|[m' md'] h Hm Ha IH]; [done|].
  rewrite filter_cons_True; [by rewrite IH|]. cbn in *. intros ->. lia.
Qed.

Lemma start_threads_disciplined ps : Forall (λ p, ok [] p []) ps → disciplined (start_threads ps).
Proof.
  intros Hps. assert (∀ i t, start_threads ps !! i = Some t → runs (held t) (stack t) ∧ held t = []) as Hi.
  { intros i t Ht. apply list_lookup_fmap_Some in Ht as (p & -> & Hp). cbn. split; [|done].
    apply runs_cons with []; [|constructor]. by apply (proj1 (list.Forall_forall _ _) Hps p), list_elem_of_lookup_2 with i. }
  split.
  - intros i t Ht. destruct (Hi i t Ht) as [Hr Hh]. split; [done|]. by rewrite Hh.
  - intros i j t u e Ht _ _ He. rewrite (proj2 (Hi i t Ht)) in He. by apply elem_of_nil in He.
Qed.

(** A step keeps the discipline of the thread, and adds at most one mutex, which was free. *)
Lemma tstep_runs ts t t' : tstep ts t t' → runs (held t) (stack t) → ordered (held t) →
  runs (held t') (stack t') ∧ ordered (held t') ∧
  (∀ e, e ∈ held t' → e ∈ held t ∨ free ts (fst e) (snd e)).
Proof.
  intros Hstep Hr Ho. destruct Hstep; cbn [stack held] in *; inversion Hr as [|? h1 ? ? Hp Hk]; subst; inversion Hp; subst; cbn [ordered] in *.
  all: try (split; [eauto using runs, ok|split; [done|auto]]; fail).
  all: try (split; [done|split; [done|]]; intros e [->|]%elem_of_cons; auto; fail).
  all: rewrite ?(release_head _ _ _ (proj1 Ho)).
  all: split; [eauto using runs, ok|split; [cbn; tauto|intros e He; left; rewrite ?elem_of_cons; auto]].
Qed.

Lemma compatible_sym e e' : compatible (fst e) (snd e) e' → compatible (fst e') (snd e') e.
Proof. unfold compatible. intros H E. destruct (H (eq_sym E)). done. Qed.

Lemma free_at ts m md j u : free ts m md → ts !! j = Some u → Forall (compatible m md) (held u).
Proof. intros Hf Hu. exact (Forall_lookup_1 _ _ _ _ Hf Hu). Qed.

Lemma step_disciplined ts ts' : tick ts ts' → disciplined ts → disciplined ts'.
Proof.
  intros (i & t & t' & Ht & Hstep & ->) Hd. destruct (d_runs ts Hd i t Ht) as [Hr Ho].
  destruct (tstep_runs ts t t' Hstep Hr Ho) as (Hr' & Ho' & Hnew).
  assert (∀ j u e, ts !! j = Some u → i ≠ j → e ∈ held t' → Forall (compatible (fst e) (snd e)) (held u)) as Hone.
  { intros j u e Hu Hij He. destruct (Hnew e He) as [Hold|Hf]; [by apply (d_apart ts Hd i j t u)|by apply (free_at ts _ _ j)]. }
  split.
  - intros j u Hu. destruct (decide (i = j)) as [<-|Hij].
    + rewrite list_lookup_insert_eq in Hu by (by eapply lookup_lt_Some). by injection Hu as <-.
    + rewrite list_lookup_insert_ne in Hu by done. by apply (d_runs ts Hd j).
  - intros j k u w e Hu Hw Hjk He. destruct (decide (i = j)) as [<-|Hij], (decide (i = k)) as [<-|Hik]; [done|..].
    + rewrite list_lookup_insert_eq in Hu by (by eapply lookup_lt_Some). injection Hu as <-.
      rewrite list_lookup_insert_ne in Hw by done. by apply (Hone k).
    + rewrite list_lookup_insert_eq in Hw by (by eapply lookup_lt_Some). injection Hw as <-.
      rewrite list_lookup_insert_ne in Hu by done. apply list.Forall_forall. intros e' He'. apply compatible_sym.
      pose proof (Hone j u e' Hu Hij He') as Hf. by apply (proj1 (list.Forall_forall _ _) Hf).
    + rewrite list_lookup_insert_ne in Hu, Hw by done. by apply (d_apart ts Hd j k u w).
Qed.

Lemma steps_disciplined ts ts' : rtc tick ts ts' → disciplined ts → disciplined ts'.
Proof. induction 1; eauto using step_disciplined. Qed.

(** A handler that returns what it locks, and locks upwards from what the thread holds, keeps it too. *)
Lemma signal_disciplined handles ts ts' :
  (∀ i p h, handles i p h → ok h p h) → signal handles ts ts' → disciplined ts → disciplined ts'.
Proof.
  intros Hok (i & t & p & Ht & _ & Hp & ->) Hd. destruct (d_runs ts Hd i t Ht) as [Hr Ho].
  assert (Hheld : ∀ j u, <[i := Thread (p :: stack t) (held t)]> ts !! j = Some u → ∃ u0, ts !! j = Some u0 ∧ held u = held u0).
  { intros j u Hu. destruct (decide (i = j)) as [<-|Hij].
    - rewrite list_lookup_insert_eq in Hu by (by eapply lookup_lt_Some). injection Hu as <-. by exists t.
    - rewrite list_lookup_insert_ne in Hu by done. by exists u. }
  split.
  - intros j u Hu. destruct (decide (i = j)) as [<-|Hij].
    + rewrite list_lookup_insert_eq in Hu by (by eapply lookup_lt_Some). injection Hu as <-. split; [|done].
      apply runs_cons with (held t); [by apply (Hok i)|done].
    + rewrite list_lookup_insert_ne in Hu by done. by apply (d_runs ts Hd j).
  - intros j k u w e Hu Hw Hjk He. destruct (Hheld j u Hu) as (u0 & Hu0 & Eu), (Hheld k w Hw) as (w0 & Hw0 & Ew).
    rewrite Eu in He. rewrite Ew. by apply (d_apart ts Hd j k u0 w0).
Qed.

(** ** What the discipline gives *)

(** A thread ends, sleeps, waits for a mutex that is taken, or runs: it never unlocks a mutex that
    it does not hold. *)
Lemma thread_progress ts i t : disciplined ts → ts !! i = Some t →
  stack t = [] ∨ asleep t ∨ can_run ts i ∨ ∃ m md, wants t m md ∧ ¬ free ts m md.
Proof.
  intros Hd Ht. destruct (d_runs ts Hd i t Ht) as [Hr _]. destruct t as [k h]. cbn in Hr.
  assert (∀ t', ¬ asleep (Thread k h) → tstep ts (Thread k h) t' → can_run ts i) as Hrun.
  { intros t' Ha Hs. by exists (Thread k h), t'. }
  inversion Hr as [|h0 h1 p k' Hp Hk]; subst; [by left|]. right.
  destruct p; cbn [asleep stack] in Hrun; try (by left); right.
  all: try (left; eapply Hrun; [tauto|]; solve [by apply (t_choose ts _ 0) | by eauto using tstep]).
  - destruct (decide (free ts m Exclusive)); [left; eapply Hrun; [tauto|by constructor]|right; by exists m, Exclusive].
  - destruct (decide (free ts m Reading)); [left; eapply Hrun; [tauto|by constructor]|right; by exists m, Reading].
  - inversion Hp; subst. left. eapply Hrun; [tauto|]. apply t_unlock with md. by apply elem_of_cons; left.
  - left. destruct (decide (free ts m Exclusive)); [eapply Hrun; [tauto|]; by apply t_trylock|eapply Hrun; [tauto|by apply t_try_fails]].
  - inversion Hp; subst. left. eapply Hrun; [tauto|]. apply t_wait. by apply elem_of_cons; left.
Qed.

(** A mutex that is not free is held by some thread. *)
Lemma not_free_held ts m md : ¬ free ts m md → ∃ j u e, ts !! j = Some u ∧ e ∈ held u ∧ fst e = m ∧ ¬ compatible m md e.
Proof.
  intros Hf. unfold free in Hf. apply not_Forall_Exists, list.Exists_exists in Hf as (u & Hu & Hf); [|apply _].
  apply list_elem_of_lookup_1 in Hu as [j Hj].
  unfold compose in Hf. apply not_Forall_Exists, list.Exists_exists in Hf as (e & He & Hc); [|apply _].
  exists j, u, e. do 2 (split; [done|]). split; [|done]. destruct (decide (fst e = m)); [done|]. by destruct Hc.
Qed.

(** A thread that wants a mutex holds only lower ones. *)
Lemma wants_above ts i t m md e : disciplined ts → ts !! i = Some t → wants t m md → e ∈ held t → (rank (fst e) < rank m)%nat.
Proof.
  intros Hd Ht Hw He. destruct (d_runs ts Hd i t Ht) as [Hr _]. destruct t as [k h]. cbn in *.
  destruct k as [|p k]; [done|]. inversion Hr as [|? ? ? ? Hp]; subst. cbn in Hw.
  assert (above m h) as Ha by (destruct p; try done; destruct Hw as [-> _]; by inversion Hp).
  by apply (proj1 (list.Forall_forall _ _) Ha) in He.
Qed.

(** A thread that sleeps or has ended holds nothing. *)
Lemma idle_holds_nothing ts i t : disciplined ts → ts !! i = Some t → stack t = [] ∨ asleep t → held t = [].
Proof.
  intros Hd Ht Hs. destruct (d_runs ts Hd i t Ht) as [Hr _]. destruct t as [k h]. cbn in *.
  inversion Hr as [|? ? p ? Hp]; subst; [done|]. destruct Hs as [Hs|Hs]; [done|]. destruct p; try done. by inversion Hp.
Qed.

(** Whoever waits for a mutex waits, perhaps through others, for a thread that runs. *)
Lemma waiting_ends top ts i t m md : (∀ m, (rank m ≤ top)%nat) → disciplined ts → ts !! i = Some t → wants t m md →
  ¬ free ts m md → ∃ j, tc (waits_for ts) i j ∧ can_run ts j.
Proof.
  intros Htop Hd. remember (top - rank m)%nat as n eqn:Hn. revert i t m md Hn.
  induction (lt_wf n) as [n _ IH]. intros i t m md -> Ht Hw Hf.
  destruct (not_free_held ts m md Hf) as (j & u & e & Hu & He & <- & Hc).
  assert (waits_for ts i j) as Hij by by exists t, u, (fst e), md, e.
  destruct (thread_progress ts j u Hd Hu) as [Hs|[Hs|[Hs|(m' & md' & Hw' & Hf')]]].
  1-2: by rewrite (idle_holds_nothing ts j u Hd Hu) in He by auto; apply elem_of_nil in He.
  - exists j. split; [by apply tc_once|done].
  - pose proof (wants_above ts j u m' md' e Hd Hu Hw' He) as Hlt. specialize (Htop m') as Hm'.
    destruct (IH (top - rank m')%nat ltac:(lia) j u m' md' eq_refl Hu Hw' Hf') as (k & Hk & Hr).
    exists k. split; [by eapply tc_l|done].
Qed.

(** A variable that has a mutex is never raced for. *)
Lemma guarded_no_race ts v m : disciplined ts → guard v = Some m → ¬ race ts v.
Proof.
  intros Hd Hg (i & j & t & u & w & w' & Hij & Ht & Hu & Ha & Ha' & Hww).
  assert (∀ i t w, ts !! i = Some t → accesses t v w → ∃ md, (m, md) ∈ held t ∧ (w = true → md = Exclusive)) as Hheld.
  { clear - Hd Hg. intros i t w Ht Ha. destruct (d_runs ts Hd i t Ht) as [Hr _]. destruct t as [k h]. cbn in *.
    destruct k as [|p k]; [done|]. inversion Hr as [|? ? ? ? Hp]; subst. destruct p; try done; destruct Ha as [-> ->];
      inversion Hp as [| | | | | | |? ? Hv|? ? Hv| | | |]; subst; [destruct (Hv m Hg) as [md Hmd]; by exists md|].
    exists Exclusive. split; [by apply Hv|done]. }
  destruct (Hheld i t w Ht Ha) as (md & Hm & Hx), (Hheld j u w' Hu Ha') as (md' & Hm' & Hx').
  pose proof (d_apart ts Hd i j t u _ Ht Hu Hij Hm) as Hc.
  destruct (proj1 (list.Forall_forall _ _) Hc _ Hm' eq_refl) as [E1 E2].
  cbn in *. destruct w, w'; try done; [specialize (Hx eq_refl)|specialize (Hx eq_refl)|specialize (Hx' eq_refl)]; congruence.
Qed.

(** ** Running a schedule *)

(** The step of a thread, where a number decides what is open: 0 is the first branch, the end of
    a loop, or the first item. *)
Definition exec (ts : list thread) (c : nat) (t : thread) : option thread :=
  match stack t with
  | [] => None
  | p :: k =>
      let h := held t in
      match p with
      | Skip | Read _ | Write _ => Some (Thread k h)
      | Lock m => if decide (free ts m Exclusive) then Some (Thread k ((m, Exclusive) :: h)) else None
      | Rdlock m => if decide (free ts m Reading) then Some (Thread k ((m, Reading) :: h)) else None
      | Unlock m => if decide (Exists (λ e, fst e = m) h) then Some (Thread k (release m h)) else None
      | Trylock m q => Some (if decide (free ts m Exclusive) then Thread k ((m, Exclusive) :: h) else Thread (q :: k) h)
      | Wait m => if decide ((m, Exclusive) ∈ h) then Some (Thread (Asleep m :: k) (release m h)) else None
      | Asleep m => Some (Thread (Lock m :: k) h)
      | Seq p' q => Some (Thread (p' :: q :: k) h)
      | If p' q => Some (Thread ((if c is O then p' else q) :: k) h)
      | Choose f => Some (Thread (f c :: k) h)
      | Loop p' => Some (if c is O then Thread k h else Thread (p' :: Loop p' :: k) h)
      end
  end.

Definition decides (t : thread) : bool := match stack t with (If _ _ | Choose _ | Loop _) :: _ => true | _ => false end.

(** At most [n] steps of thread [i], which decides as the list says. *)
Fixpoint drive (n i : nat) (cs : list nat) (ts : list thread) : list thread :=
  match n, ts !! i with
  | S n', Some t =>
      let '(c, cs') := if decides t then (hd 0%nat cs, tl cs) else (0%nat, cs) in
      match exec ts c t with Some t' => drive n' i cs' (<[i := t']> ts) | None => ts end
  | _, _ => ts
  end.

(** A schedule: which thread, how many steps, and how it decides. *)
Definition schedule (l : list (nat * nat * list nat)) (ts : list thread) : list thread :=
  foldl (λ ts '(i, n, cs), drive n i cs ts) ts l.

Lemma exec_step ts c t t' : exec ts c t = Some t' → tstep ts t t'.
Proof.
  destruct t as [[|p k] h]; [done|]. cbn. destruct p; try (by intros [= <-]; constructor).
  - destruct (decide _) as [Hf|]; [|done]. intros [= <-]. by constructor.
  - destruct (decide _) as [Hf|]; [|done]. intros [= <-]. by constructor.
  - destruct (decide _) as [He|]; [|done]. intros [= <-]. apply list.Exists_exists in He as ([? md] & He & <-). by apply t_unlock with md.
  - intros [= <-]. destruct (decide _) as [Hf|Hf]; by constructor.
  - destruct (decide _) as [Hf|]; [|done]. intros [= <-]. by constructor.
  - destruct c; intros [= <-]; constructor.
  - destruct c; intros [= <-]; constructor.
Qed.

Lemma drive_steps n i : ∀ cs ts, rtc tick ts (drive n i cs ts).
Proof.
  induction n as [|n IH]; intros cs ts; [done|]. cbn. destruct (ts !! i) as [t|] eqn:Ht; [|done].
  destruct (if decides t then _ else _) as [c cs']. destruct (exec ts c t) as [t'|] eqn:He; [|done].
  eapply rtc_l; [exists i, t, t'; split; [done|split; [by apply exec_step in He|done]]|apply IH].
Qed.

Lemma schedule_steps l : ∀ ts, rtc tick ts (schedule l ts).
Proof.
  induction l as [|[[i n] cs] l IH]; intros ts; [done|]. cbn. etrans; [apply drive_steps|apply IH].
Qed.
End locks.
