(* ===== verification/Locking.v ===== *)
(** * What the threads of the program lock

    For every function that locks a mutex, or that runs under one, its locking as a program of
    [Locks.v]: the mutexes in the order of the code, the accesses to the variables that threads
    share, and the calls in between; tests are left open. The threads are the main thread with
    the minute timer, the proxy thread, the expiring thread and the command thread; the handlers
    of signals may interrupt them.

    The plugin is code that is not here: what it locks is an argument. *)

From S2P Require Import Prelude Locks.

(** The maps: the components and the variables of the context, and the product names. *)
Inductive map_name := Components | Variables | ProductNames.

Inductive mutex :=
  | WorkerMutex | InfoMutex (c : nat) | InfoMux | PoolMux      (* proxying.c *)
  | ConnectionMutex                                            (* db_service.c *)
  | HeaderMutex (i : nat) | PoolMutex | ExpiringMutex          (* auto_blacklist.c *)
  | CommandThreadMutex                                         (* cmdlintf.c *)
  | ContextMutex                                               (* context.c *)
  | Rwlock (m : map_name).                                     (* hash_map.c *)

#[export] Instance map_name_eq_dec : EqDecision map_name.
Proof. solve_decision. Defined.
#[export] Instance mutex_eq_dec : EqDecision mutex.
Proof. solve_decision. Defined.

(** What threads share. Of a connection: the fields that are written while it is open
    ([Connection]), the time of the last packet and the text of the address are apart, because
    the expiry reads them before it locks; so is [number_of_entries], which is logged. *)
Inductive shared :=
  | Chain | Pool | Connection (c : nat) | Recent (c : nat) | RemoteIp (c : nat) | NumberOfEntries | ExpiringHolder
  | Channels | EventTable
  | UseTimes | Connected | Handle | Statements
  | Buckets (i : nat) | Counters | ReleasePool | Terminate
  | Plugin | JumpBuffer | CommandState
  | HashData (m : map_name).

(** The order of the mutexes. *)
Definition rank (m : mutex) : nat :=
  match m with
  | WorkerMutex | CommandThreadMutex => 0
  | InfoMutex _ => 1
  | ExpiringMutex => 3
  | HeaderMutex _ => 4
  | PoolMutex => 5
  | _ => 2
  end.

(** The variables that are only touched under a mutex. *)
Definition guard (v : shared) : option mutex :=
  match v with
  | Chain => Some InfoMux
  | Pool => Some PoolMux
  | Connection _ => Some WorkerMutex
  | UseTimes => Some ConnectionMutex
  | ReleasePool => Some PoolMutex
  | HashData m => Some (Rwlock m)
  | _ => None
  end.

Abbreviation prog := (Locks.lock_prog (mutex := mutex) (shared := shared)).
Abbreviation ok := (Locks.ok rank guard).

(** ** hash_map.c *)

Definition exists_locks (m : map_name) : prog := block [Rdlock (Rwlock m); Read (HashData m); Unlock (Rwlock m)].
Definition get_by_key_locks (m : map_name) : prog := block [Rdlock (Rwlock m); Read (HashData m); Unlock (Rwlock m)].
Definition put_if_absent_locks (m : map_name) : prog :=
  block [Lock (Rwlock m); Read (HashData m); when [Write (HashData m)]; Unlock (Rwlock m)].
Definition overwrite_put_locks (m : map_name) : prog :=
  block [Lock (Rwlock m); Read (HashData m); If (Write (HashData m)) (Write (HashData m)); Unlock (Rwlock m)].
Definition remove_locks (m : map_name) : prog :=
  block [Lock (Rwlock m); Read (HashData m); when [Write (HashData m)]; Unlock (Rwlock m)].
Definition clear_locks (m : map_name) : prog :=
  block [Lock (Rwlock m); Loop (block [Read (HashData m); Loop (Write (HashData m))]); Unlock (Rwlock m)].

(** ** context.c *)

Definition get_application_context_locks : prog := block [Lock ContextMutex; Unlock ContextMutex].
Definition get_bean_locks : prog := get_by_key_locks Components.

(** ** db_service.c *)

Definition connect_to_database_locks : prog :=
  block [Lock ConnectionMutex; Read Connected; when [Write Handle; when [Write Connected; Write UseTimes]]; Write UseTimes;
         Unlock ConnectionMutex; Read Connected].

Definition reconnect_to_database_locks : prog :=
  block [Lock ConnectionMutex; Write Handle; Write Connected; Unlock ConnectionMutex; connect_to_database_locks].

Definition safe_reconnect_to_database_locks : prog := Loop reconnect_to_database_locks.

(** [try_catch] writes its static buffer. *)
Definition try_reconnect_locks : prog := block [Write JumpBuffer; safe_reconnect_to_database_locks].

Definition create_statement_locks : prog := Loop (block [Read Handle; when [try_reconnect_locks]]).

Definition retrieve_statement_locks : prog :=
  Loop (block [Read Statements; when [when [create_statement_locks; Write Statements]; Read Statements]]).

(** [check_available]; the other operations do not look at the error of the execution. *)
Definition check_available_locks : prog :=
  block [connect_to_database_locks; when [retrieve_statement_locks; when [Read Statements; when [try_reconnect_locks]]]].

(** [connection_close], [connection_not_allowed], [connection_blacklisted], [check_vip],
    [add_ip_to_auto_blacklist], [add_kms_details], [fail_guessing]. *)
Definition statement_locks : prog := block [connect_to_database_locks; when [retrieve_statement_locks; when [Read Statements]]].

Definition update_machine_owner_locks : prog := statement_locks.

Definition connection_established_locks : prog :=
  block [connect_to_database_locks;
    when [retrieve_statement_locks;
      when [Read Statements; retrieve_statement_locks;
        when [Read Statements; retrieve_statement_locks; when [Read Statements]]]]].

Definition reload_product_names_locks : prog :=
  block [connect_to_database_locks;
    when [retrieve_statement_locks; when [Read Statements; Loop (overwrite_put_locks ProductNames)]]].

Definition get_product_name_locks : prog := get_by_key_locks ProductNames.

Definition close_idle_locks : prog :=
  block [Lock ConnectionMutex; Read Connected;
    when [Read UseTimes; when [Write Statements; Write Handle; Write Connected]]; Unlock ConnectionMutex].

Definition db_service_done_locks : prog :=
  block [Lock ConnectionMutex; Read Connected;
    when [Read UseTimes; when [Write Statements; Write Handle; Write Connected]]; Unlock ConnectionMutex].

(** ** auto_blacklist.c *)

Definition allocate_new_entry_locks : prog := block [Lock PoolMutex; Read ReleasePool; when [Write ReleasePool]; Unlock PoolMutex].
Definition free_entry_locks : prog := block [Lock PoolMutex; Write ReleasePool; Unlock PoolMutex].

Definition find_and_increase_locks : prog :=
  Choose (λ i, block [Read (Buckets i); Lock (HeaderMutex i); Loop (Read (Buckets i));
    when [allocate_new_entry_locks; Write Counters; Write (Buckets i)]; when [Write Counters]; Unlock (HeaderMutex i); Write Counters]).

Definition expiring_locks : prog :=
  when [Loop (Choose (λ i, block [Lock (HeaderMutex i); Read (Buckets i);
    Loop (block [Write Counters; If (Write (Buckets i)) (Read (Buckets i))]); Unlock (HeaderMutex i); Loop free_entry_locks]))].

Definition expiring_main_locks : prog :=
  Loop (block [Read Terminate; Lock ExpiringMutex; Wait ExpiringMutex; expiring_locks; Unlock ExpiringMutex]).

Definition wakeup_locks : prog := block [Lock ExpiringMutex; Unlock ExpiringMutex].
Definition terminate_thread_locks : prog := block [Write Terminate; wakeup_locks].

(** [for_each], with what the callback does. *)
Definition for_each_locks (callback : prog) : prog :=
  Loop (Choose (λ i, block [Lock (HeaderMutex i); Loop (block [Read (Buckets i); when [callback]]); Unlock (HeaderMutex i)])).

(** ** The discipline of the functions below *)

Create HintDb locking discriminated.

(** A mutex that is held. *)
Ltac holding := intros ? [= <-]; first
  [ eexists; apply elem_of_cons; left; reflexivity | apply elem_of_cons; left; reflexivity
  | eexists; set_solver | set_solver ].
Ltac unguarded := solve [intros ? [=]].

(** Follow a function: the rule of its construct, or the lemma of the function it calls. *)
Ltac follow1 :=
  match goal with
  | |- Locks.ok _ _ _ (block _) _ => cbn [block]
  | |- Locks.ok _ _ _ (when _) _ => unfold when
  | |- Locks.ok _ _ _ Skip _ => apply ok_skip
  | |- Locks.ok _ _ _ (Lock _) _ => apply ok_lock; solve [eauto with locking]
  | |- Locks.ok _ _ _ (Rdlock _) _ => apply ok_rdlock; solve [eauto with locking]
  | |- Locks.ok _ _ _ (Unlock _) _ => apply ok_unlock
  | |- Locks.ok _ _ _ (Trylock _ _) _ => apply ok_trylock; [solve [eauto with locking]|]
  | |- Locks.ok _ _ _ (Wait _) _ => apply ok_wait
  | |- Locks.ok _ _ _ (Read _) _ => apply ok_read; first [unguarded | holding]
  | |- Locks.ok _ _ _ (Write _) _ => apply ok_write; first [unguarded | holding]
  | |- Locks.ok _ _ _ (Seq _ _) _ => eapply ok_seq
  | |- Locks.ok _ _ _ (If _ _) _ => eapply ok_if
  | |- Locks.ok _ _ _ (Choose _) _ => apply ok_choose; intros ?
  | |- Locks.ok _ _ _ (Loop _) _ => apply ok_loop
  | |- _ => solve [eauto with locking]
  end.
Ltac follow := repeat follow1.

(** The held mutexes are all below those of the services. *)
Definition low (n : nat) (h : list (mutex * mode)) : Prop := Forall (λ e, (rank (fst e) < n)%nat) h.

Lemma low_above n m h : low n h → (n ≤ rank m)%nat → above rank m h.
Proof. intros Hl Hm. eapply List.Forall_impl; [|exact Hl]. cbn. lia. Qed.

Lemma low_more n n' h : low n h → (n ≤ n')%nat → low n' h.
Proof. intros Hl Hn. eapply List.Forall_impl; [|exact Hl]. cbn. lia. Qed.

Lemma low_cons n m md h : low n h → (rank m < n)%nat → low n ((m, md) :: h).
Proof. intros Hl Hm. by constructor. Qed.

Lemma low_nil n : low n [].
Proof. constructor. Qed.


Lemma above_cons m m' md h : (rank m' < rank m)%nat → above rank m h → above rank m ((m', md) :: h).
Proof. intros. by constructor. Qed.

#[export] Hint Resolve low_nil above_nil : locking.
#[export] Hint Extern 1 (above rank _ (_ :: _)) => apply above_cons; [cbn; lia|] : locking.
#[export] Hint Extern 2 (low _ (_ :: _)) => apply low_cons; [|cbn; lia] : locking.
#[export] Hint Extern 3 (low _ _) => eapply low_more; [eassumption|lia] : locking.
#[export] Hint Extern 2 (above rank _ _) => eapply low_above; [eassumption|cbn; lia] : locking.

#[export] Hint Extern 1 (_ ∈ _) => solve [set_solver] : locking.

Lemma exists_keeps h m : low 2 h → ok h (exists_locks m) h.
Proof. intros. unfold exists_locks. follow. Qed.
Lemma get_by_key_keeps h m : low 2 h → ok h (get_by_key_locks m) h.
Proof. intros. unfold get_by_key_locks. follow. Qed.
Lemma put_if_absent_keeps h m : low 2 h → ok h (put_if_absent_locks m) h.
Proof. intros. unfold put_if_absent_locks. follow. Qed.

#[export] Hint Resolve exists_keeps get_by_key_keeps put_if_absent_keeps : locking.
Lemma overwrite_put_keeps h m : low 2 h → ok h (overwrite_put_locks m) h.
Proof. intros. unfold overwrite_put_locks. follow. Qed.
Lemma remove_keeps h m : low 2 h → ok h (remove_locks m) h.
Proof. intros. unfold remove_locks. follow. Qed.
Lemma clear_keeps h m : low 2 h → ok h (clear_locks m) h.
Proof. intros. unfold clear_locks. follow. Qed.
Lemma get_application_context_keeps h : low 2 h → ok h get_application_context_locks h.
Proof. intros. unfold get_application_context_locks. follow. Qed.
Lemma connect_to_database_keeps h : low 2 h → ok h connect_to_database_locks h.
Proof. intros. unfold connect_to_database_locks. follow. Qed.
#[export] Hint Resolve overwrite_put_keeps remove_keeps clear_keeps get_application_context_keeps connect_to_database_keeps : locking.

Lemma get_bean_keeps h : low 2 h → ok h get_bean_locks h.
Proof. intros. unfold get_bean_locks. follow. Qed.
#[export] Hint Resolve get_bean_keeps : locking.
Lemma reconnect_to_database_keeps h : low 2 h → ok h reconnect_to_database_locks h.
Proof. intros. unfold reconnect_to_database_locks. follow. Qed.
#[export] Hint Resolve reconnect_to_database_keeps : locking.
Lemma safe_reconnect_to_database_keeps h : low 2 h → ok h safe_reconnect_to_database_locks h.
Proof. intros. unfold safe_reconnect_to_database_locks. follow. Qed.
#[export] Hint Resolve safe_reconnect_to_database_keeps : locking.
Lemma try_reconnect_keeps h : low 2 h → ok h try_reconnect_locks h.
Proof. intros. unfold try_reconnect_locks. follow. Qed.
#[export] Hint Resolve try_reconnect_keeps : locking.
Lemma create_statement_keeps h : low 2 h → ok h create_statement_locks h.
Proof. intros. unfold create_statement_locks. follow. Qed.
#[export] Hint Resolve create_statement_keeps : locking.
Lemma retrieve_statement_keeps h : low 2 h → ok h retrieve_statement_locks h.
Proof. intros. unfold retrieve_statement_locks. follow. Qed.
#[export] Hint Resolve retrieve_statement_keeps : locking.
Lemma check_available_keeps h : low 2 h → ok h check_available_locks h.
Proof. intros. unfold check_available_locks. follow. Qed.
#[export] Hint Resolve check_available_keeps : locking.
Lemma statement_keeps h : low 2 h → ok h statement_locks h.
Proof. intros. unfold statement_locks. follow. Qed.
#[export] Hint Resolve statement_keeps : locking.
Lemma connection_established_keeps h : low 2 h → ok h connection_established_locks h.
Proof. intros. unfold connection_established_locks. follow. Qed.
#[export] Hint Resolve connection_established_keeps : locking.
Lemma reload_product_names_keeps h : low 2 h → ok h reload_product_names_locks h.
Proof. intros. unfold reload_product_names_locks. follow. Qed.
#[export] Hint Resolve reload_product_names_keeps : locking.
Lemma get_product_name_keeps h : low 2 h → ok h get_product_name_locks h.
Proof. intros. unfold get_product_name_locks. follow. Qed.
#[export] Hint Resolve get_product_name_keeps : locking.
Lemma close_idle_keeps h : low 2 h → ok h close_idle_locks h.
Proof. intros. unfold close_idle_locks. follow. Qed.
#[export] Hint Resolve close_idle_keeps : locking.
Lemma db_service_done_keeps h : low 2 h → ok h db_service_done_locks h.
Proof. intros. unfold db_service_done_locks. follow. Qed.
#[export] Hint Resolve db_service_done_keeps : locking.
Lemma allocate_new_entry_keeps h : low 5 h → ok h allocate_new_entry_locks h.
Proof. intros. unfold allocate_new_entry_locks. follow. Qed.
#[export] Hint Resolve allocate_new_entry_keeps : locking.
Lemma free_entry_keeps h : low 5 h → ok h free_entry_locks h.
Proof. intros. unfold free_entry_locks. follow. Qed.
#[export] Hint Resolve free_entry_keeps : locking.
Lemma find_and_increase_keeps h : low 4 h → ok h find_and_increase_locks h.
Proof. intros. unfold find_and_increase_locks. follow. Qed.
#[export] Hint Resolve find_and_increase_keeps : locking.

Lemma expiring_keeps h : low 4 h → ok h expiring_locks h.
Proof. intros. unfold expiring_locks. follow. Qed.
#[export] Hint Resolve expiring_keeps : locking.
Lemma expiring_main_keeps : ok [] expiring_main_locks [].
Proof. unfold expiring_main_locks. follow. Qed.
#[export] Hint Resolve expiring_main_keeps : locking.
Lemma wakeup_keeps h : low 3 h → ok h wakeup_locks h.
Proof. intros. unfold wakeup_locks. follow. Qed.
#[export] Hint Resolve wakeup_keeps : locking.
Lemma terminate_thread_keeps h : low 3 h → ok h terminate_thread_locks h.
Proof. intros. unfold terminate_thread_locks. follow. Qed.
#[export] Hint Resolve terminate_thread_keeps : locking.
Lemma for_each_keeps callback h : low 4 h → (∀ i, ok ((HeaderMutex i, Exclusive) :: h) callback ((HeaderMutex i, Exclusive) :: h)) →
  ok h (for_each_locks callback) h.
Proof. intros. unfold for_each_locks. follow. Qed.

(** ** packet_analyzer.c *)

Section program.
(** What the functions of the plugin lock. *)
Context (plugin_init plugin_allocate plugin_release plugin_analyze : prog).

Definition module_loader_locks : prog :=
  block [Read Plugin; when [Write Plugin; when [Write Plugin; when [get_application_context_locks; plugin_init]]]].

Definition module_unload_locks : prog := block [Read Plugin; when [If (Write Plugin) (Write Plugin)]].

Definition analyzer_allocate_locks : prog :=
  block [Read Plugin; when [Read Plugin; plugin_allocate; when [Write Plugin]]].

Definition analyzer_release_locks : prog :=
  block [Read Plugin; when [Read Plugin; plugin_release; Write Plugin; when [module_unload_locks]]].

(** Safe mode or not. *)
Definition analyze_packet_locks : prog :=
  block [Read Plugin; when [If (block [Write JumpBuffer; Read Plugin; plugin_analyze; when [Write Plugin]])
                               (block [Read Plugin; plugin_analyze])]].

(** ** proxying.c *)

Definition allocate_connection_info_locks : prog := block [Lock PoolMux; Read Pool; Write Pool; Unlock PoolMux].
Definition free_connection_info_locks : prog := block [Lock PoolMux; Write Pool; Unlock PoolMux].

Definition attach_connection_info_entry_locks (c : nat) : prog :=
  block [Lock InfoMux; Write NumberOfEntries; Write Chain; Write (Connection c); Unlock InfoMux].

Definition detach_connection_info_entry_locks (c : nat) : prog :=
  block [Read (Connection c);
    when [Lock InfoMux; Write NumberOfEntries; Write Chain; Unlock InfoMux; Write (Connection c); Read NumberOfEntries]].

Definition close_event_locks (c : nat) : prog :=
  block [Read (Connection c);
    when [Write EventTable; Write EventTable; analyzer_release_locks; Read EventTable; Read (Connection c); Read (RemoteIp c);
          when [statement_locks; Write (Connection c)]; Write (RemoteIp c); db_service_done_locks]].

Definition tell_time_locks : prog := block [Read EventTable; Read NumberOfEntries].

Definition clean_idle_connections_locks : prog :=
  block [Lock InfoMux;
    when [Read NumberOfEntries; when [Write ExpiringHolder]; Loop (block [Read Chain; Write ExpiringHolder])];
    Unlock InfoMux;
    Loop (Choose (λ c, block [Read ExpiringHolder; Read (Recent c);
      If (block [Trylock WorkerMutex (Lock WorkerMutex); Lock (InfoMutex c);
            detach_connection_info_entry_locks c; Read (RemoteIp c); close_event_locks c;
            Unlock (InfoMutex c); free_connection_info_locks; Unlock WorkerMutex])
         (Read (RemoteIp c))]));
    Read NumberOfEntries; when [tell_time_locks]].

Definition do_proxying_locks (c : nat) : prog :=
  block [Lock (InfoMutex c); Read (Connection c);
    when [Write (Recent c);
      when [analyze_packet_locks; Read (Connection c); when [Write (Connection c)]];
      when [detach_connection_info_entry_locks c; close_event_locks c; Read (Connection c); when [free_connection_info_locks]]];
    Unlock (InfoMutex c)].

Definition proxy_from_server_to_client_locks (c : nat) : prog := block [Lock WorkerMutex; do_proxying_locks c; Unlock WorkerMutex].
Definition proxy_from_client_to_server_locks (c : nat) : prog := block [Lock WorkerMutex; do_proxying_locks c; Unlock WorkerMutex].

(** The questions about a client of the white list. *)
Definition judge_locks : prog :=
  block [statement_locks;
    when [find_and_increase_locks; Read Counters;
      when [when [statement_locks]; when [statement_locks; when [when [statement_locks]]];
            when [Read Counters; when [statement_locks; when [statement_locks]]]]]].

Definition accepting_request_locks : prog :=
  when [Lock WorkerMutex; check_available_locks; when [Read Channels; judge_locks];
    If (block [when [Write Counters];
          when [allocate_connection_info_locks;
                Choose (λ c, block [Write (Connection c); Write (RemoteIp c); analyzer_allocate_locks; Write (Recent c);
                  Write EventTable; Write EventTable; when [connection_established_locks; Write (Connection c)];
                  attach_connection_info_entry_locks c])]])
       (block [when [Write Counters]; statement_locks]);
    Unlock WorkerMutex].

Definition main_listener_locks : prog := when [accepting_request_locks].

(** [ev_looping]: the table is searched for every ready descriptor; the handler it finds runs. *)
Definition ev_looping_locks : prog :=
  block [Read EventTable;
    Loop (Loop (block [Read EventTable;
      when [If main_listener_locks (Choose (λ c, If (proxy_from_client_to_server_locks c) (proxy_from_server_to_client_locks c)))]]))].

Definition proxy_main_locks : prog :=
  block [get_application_context_locks; get_bean_locks; get_bean_locks; get_bean_locks; get_bean_locks; Write Channels;
    reload_product_names_locks;
    when [when [Write EventTable; Loop ev_looping_locks; clean_idle_connections_locks; Write EventTable]]].

(** ** cmdlintf.c and commands.c *)

Definition change_state_and_wakeup_locks : prog := block [Write CommandState; Lock CommandThreadMutex; Unlock CommandThreadMutex].

(** The handlers that touch what other threads use. *)
Definition command_handler_locks : prog :=
  If module_loader_locks (If module_unload_locks (If (Write Plugin) (If (Write Channels) (Read Channels)))).

(** [start_server] calls back once it listens, and then serves its clients. *)
Definition command_main_locks : prog :=
  block [when [change_state_and_wakeup_locks; Loop (when [command_handler_locks])]; change_state_and_wakeup_locks].

Definition start_server_in_thread_locks : prog :=
  block [Lock CommandThreadMutex; Loop (block [Read CommandState; Wait CommandThreadMutex]); Read CommandState;
         Unlock CommandThreadMutex; Read CommandState].

(** ** main.c *)

Definition cron_locks : prog := when [close_idle_locks; clean_idle_connections_locks; wakeup_locks].

(** [main], from the start of the command server on. *)
Definition main_locks : prog :=
  block [start_server_in_thread_locks; when [Loop cron_locks; terminate_thread_locks]].

(** [interrupt], the handler of SIGINT and SIGTERM: in the main thread it terminates the expiring
    thread (and then ends the process); in another one it only sets a flag. *)
Definition interrupt_locks (main : bool) : prog := if main then when [terminate_thread_locks] else Skip.

(** [log_level_change], the handler of SIGUSR1 and SIGUSR2, locks nothing. *)
Definition log_level_change_locks : prog := Skip.

(** The main, the proxy, the expiring and the command thread. *)
Definition threads_of_program : list prog := [main_locks; proxy_main_locks; expiring_main_locks; command_main_locks].

(** *** Every thread keeps the discipline *)

(** The plugin may lock what the services lock, and gives back what it locked. *)
Definition polite (p : prog) : Prop := ∀ h, low 2 h → ok h p h.
Context (Hinit : polite plugin_init) (Hallocate : polite plugin_allocate) (Hrelease : polite plugin_release)
  (Hanalyze : polite plugin_analyze).

Lemma module_loader_keeps h : low 2 h → ok h module_loader_locks h.
Proof using All. intros. unfold module_loader_locks. follow. Qed.
#[local] Hint Resolve module_loader_keeps : locking.
Lemma module_unload_keeps h : low 2 h → ok h module_unload_locks h.
Proof using All. intros. unfold module_unload_locks. follow. Qed.
#[local] Hint Resolve module_unload_keeps : locking.
Lemma analyzer_allocate_keeps h : low 2 h → ok h analyzer_allocate_locks h.
Proof using All. intros. unfold analyzer_allocate_locks. follow. Qed.
#[local] Hint Resolve analyzer_allocate_keeps : locking.
Lemma analyzer_release_keeps h : low 2 h → ok h analyzer_release_locks h.
Proof using All. intros. unfold analyzer_release_locks. follow. Qed.
#[local] Hint Resolve analyzer_release_keeps : locking.
Lemma analyze_packet_keeps h : low 2 h → ok h analyze_packet_locks h.
Proof using All. intros. unfold analyze_packet_locks. follow. Qed.
#[local] Hint Resolve analyze_packet_keeps : locking.
Lemma allocate_connection_info_keeps h : low 2 h → ok h allocate_connection_info_locks h.
Proof using All. intros. unfold allocate_connection_info_locks. follow. Qed.
#[local] Hint Resolve allocate_connection_info_keeps : locking.
Lemma free_connection_info_keeps h : low 2 h → ok h free_connection_info_locks h.
Proof using All. intros. unfold free_connection_info_locks. follow. Qed.
#[local] Hint Resolve free_connection_info_keeps : locking.
Lemma attach_connection_info_entry_keeps h c : low 2 h → (WorkerMutex, Exclusive) ∈ h → ok h (attach_connection_info_entry_locks c) h.
Proof using All. intros. unfold attach_connection_info_entry_locks. follow. Qed.
#[local] Hint Resolve attach_connection_info_entry_keeps : locking.
Lemma detach_connection_info_entry_keeps h c : low 2 h → (WorkerMutex, Exclusive) ∈ h → ok h (detach_connection_info_entry_locks c) h.
Proof using All. intros. unfold detach_connection_info_entry_locks. follow. Qed.
#[local] Hint Resolve detach_connection_info_entry_keeps : locking.
Lemma close_event_keeps h c : low 2 h → (WorkerMutex, Exclusive) ∈ h → ok h (close_event_locks c) h.
Proof using All. intros. unfold close_event_locks. follow. Qed.
#[local] Hint Resolve close_event_keeps : locking.
Lemma tell_time_keeps : ok [] tell_time_locks [].
Proof using All. unfold tell_time_locks. follow. Qed.
#[local] Hint Resolve tell_time_keeps : locking.
Lemma clean_idle_connections_keeps : ok [] clean_idle_connections_locks [].
Proof using All. unfold clean_idle_connections_locks. follow. Qed.
#[local] Hint Resolve clean_idle_connections_keeps : locking.
Lemma do_proxying_keeps c : ok [(WorkerMutex, Exclusive)] (do_proxying_locks c) [(WorkerMutex, Exclusive)].
Proof using All. unfold do_proxying_locks. follow. Qed.
#[local] Hint Resolve do_proxying_keeps : locking.
Lemma judge_keeps h : low 2 h → ok h judge_locks h.
Proof using All. intros. unfold judge_locks. follow. Qed.
#[local] Hint Resolve judge_keeps : locking.
Lemma proxy_from_server_to_client_keeps c : ok [] (proxy_from_server_to_client_locks c) [].
Proof using All. unfold proxy_from_server_to_client_locks. follow. Qed.
#[local] Hint Resolve proxy_from_server_to_client_keeps : locking.
Lemma proxy_from_client_to_server_keeps c : ok [] (proxy_from_client_to_server_locks c) [].
Proof using All. unfold proxy_from_client_to_server_locks. follow. Qed.
#[local] Hint Resolve proxy_from_client_to_server_keeps : locking.
Lemma accepting_request_keeps : ok [] accepting_request_locks [].
Proof using All. unfold accepting_request_locks. follow. Qed.
#[local] Hint Resolve accepting_request_keeps : locking.
Lemma main_listener_keeps : ok [] main_listener_locks [].
Proof using All. unfold main_listener_locks. follow. Qed.
#[local] Hint Resolve main_listener_keeps : locking.
Lemma ev_looping_keeps : ok [] ev_looping_locks [].
Proof using All. unfold ev_looping_locks. follow. Qed.
#[local] Hint Resolve ev_looping_keeps : locking.
Lemma proxy_main_keeps : ok [] proxy_main_locks [].
Proof using All. unfold proxy_main_locks. follow. Qed.
#[local] Hint Resolve proxy_main_keeps : locking.
Lemma change_state_and_wakeup_keeps : ok [] change_state_and_wakeup_locks [].
Proof using All. unfold change_state_and_wakeup_locks. follow. Qed.
#[local] Hint Resolve change_state_and_wakeup_keeps : locking.
Lemma command_handler_keeps : ok [] command_handler_locks [].
Proof using All. unfold command_handler_locks. follow. Qed.
#[local] Hint Resolve command_handler_keeps : locking.
Lemma command_main_keeps : ok [] command_main_locks [].
Proof using All. unfold command_main_locks. follow. Qed.
#[local] Hint Resolve command_main_keeps : locking.
Lemma start_server_in_thread_keeps : ok [] start_server_in_thread_locks [].
Proof using All. unfold start_server_in_thread_locks. follow. Qed.
#[local] Hint Resolve start_server_in_thread_keeps : locking.
Lemma cron_keeps : ok [] cron_locks [].
Proof using All. unfold cron_locks. follow. Qed.
#[local] Hint Resolve cron_keeps : locking.
Lemma main_keeps : ok [] main_locks [].
Proof using All. unfold main_locks. follow. Qed.
#[local] Hint Resolve main_keeps : locking.

Lemma threads_keep : Forall (λ p, ok [] p []) threads_of_program.
Proof using All. repeat (apply list.Forall_cons; split; [by eauto with locking|]). constructor. Qed.
End program.

Lemma rank_top m : (rank m ≤ 5)%nat.
Proof. destruct m; cbn; lia. Qed.

(** A signal may interrupt any thread at any point, but the main thread, which is number 0, not
    while it holds a mutex of the blacklist: it holds [ExpiringMutex] while it runs [wakeup]. *)
Definition interrupts (i : nat) (p : prog) (h : list (mutex * mode)) : Prop :=
  p = log_level_change_locks ∨ p = interrupt_locks (i =? 0)%nat ∧ (i = 0%nat → low 3 h).

Definition step_or_signal (ts ts' : list (Locks.thread (mutex := mutex) (shared := shared))) : Prop :=
  tick ts ts' ∨ signal interrupts ts ts'.

Lemma interrupts_keep i p h : interrupts i p h → ok h p h.
Proof.
  intros [->|[-> Hh]]; [constructor|]. unfold interrupt_locks. destruct (Nat.eqb_spec i 0) as [->|_]; [|constructor].
  specialize (Hh eq_refl). pose proof (terminate_thread_keeps h Hh). follow.
Qed.

Lemma reachable_disciplined pi pa pr pz ts : polite pi → polite pa → polite pr → polite pz →
  rtc step_or_signal (start_threads (threads_of_program pi pa pr pz)) ts → disciplined rank guard ts.
Proof.
  intros Hi Ha Hr Hz Hs.
  assert (Hd : disciplined rank guard (start_threads (threads_of_program pi pa pr pz))) by (by apply start_threads_disciplined, threads_keep).
  revert Hs Hd. generalize (start_threads (threads_of_program pi pa pr pz)). intros ts0 Hs.
  induction Hs as [|x y z [Hxy|Hxy] _ IH]; [done|..]; intros Hx; apply IH.
  - by eapply step_disciplined.
  - by eapply signal_disciplined; [apply interrupts_keep|..].
Qed.

(** C6: the threads never block each other for ever. At any time of any interleaving, with the signals
    SIGINT, SIGTERM, SIGUSR1 and SIGUSR2 in any thread, a thread has ended, or sleeps on a
    condition, or runs, or waits, perhaps through others that wait, for a thread that runs; and a
    thread that has ended or sleeps holds no mutex. This needs two conditions. The plugin must give
    back what it locks, and may lock whatever the services lock. And the handler of SIGINT and
    SIGTERM must not interrupt the main thread while that holds a mutex of the blacklist service, which
    is that of the expiring thread while it wakes it up: it would wait for itself
    ([handler_waits_for_itself]). *)
Theorem no_deadlock pi pa pr pz ts i t :
  polite pi → polite pa → polite pr → polite pz →
  rtc step_or_signal (start_threads (threads_of_program pi pa pr pz)) ts → ts !! i = Some t →
  (stack t = [] ∨ asleep t) ∧ held t = [] ∨ ∃ j, rtc (waits_for ts) i j ∧ can_run ts j.
Proof.
  intros Hi Ha Hr Hz Hs Ht. pose proof (reachable_disciplined _ _ _ _ _ Hi Ha Hr Hz Hs) as Hd.
  destruct (thread_progress rank guard ts i t Hd Ht) as [H|[H|[H|(m & md & Hw & Hf)]]].
  - left. split; [by left|by apply (idle_holds_nothing rank guard ts i t); auto].
  - left. split; [by right|by apply (idle_holds_nothing rank guard ts i t); auto].
  - right. by exists i.
  - right. destruct (waiting_ends rank guard 5 ts i t m md rank_top Hd Ht Hw Hf) as (j & Hj & Hc).
    exists j. split; [by apply tc_rtc|done].
Qed.

(** C7: the links of the chain of connections and those of their pool, the fields that are written
    while a connection is open but for the time of its last packet, the times of the database
    connection, the pool of the blacklist and the data of every hash map are never touched by two
    threads at the same time, unless both only read; signals or not, under the conditions of
    [no_deadlock]. The time of the last packet, the text of the address, the plugin and the
    table of events have no such mutex: [races_reachable]. *)
Theorem guarded_never_race pi pa pr pz ts v :
  polite pi → polite pa → polite pr → polite pz →
  rtc step_or_signal (start_threads (threads_of_program pi pa pr pz)) ts → is_Some (guard v) → ¬ race ts v.
Proof.
  intros Hi Ha Hr Hz Hs [m Hm]. apply (guarded_no_race rank guard ts v m); [|done].
  by eapply (reachable_disciplined pi pa pr pz).
Qed.

(** ** Runs *)

Lemma skip_polite : polite Skip.
Proof. intros h _. constructor. Qed.

(** A plugin that tells the database what it saw. *)
Lemma statement_polite : polite statement_locks.
Proof. intros h Hh. apply statement_keeps. eauto with locking. Qed.

Definition sample_start := start_threads (threads_of_program Skip Skip Skip statement_locks).

(** The proxy thread up to a new client that it accepts and registers, and then up to the end of
    that connection; the expiry up to the connection, which it finds silent or not; the command
    that unloads the plugin. *)
Definition accept_choices : list nat := [1;1;0;0;1;1;1;0;0;0;0;1;1;1;0;1;0;0]%nat.
Definition open_choices : list nat := (accept_choices ++ [1;1])%nat.
Definition close_choices : list nat := [1;0;1;0;0;0;1;0;0;0;1;1]%nat.
Definition expiry_choices : list nat := [0;0;1;0;1;0;1;1;0;1;0]%nat.
Definition unload_choices : list nat := [0;1;0;1;0;0;0]%nat.

Lemma ticks ts ts' : rtc tick ts ts' → rtc step_or_signal ts ts'.
Proof. intros H. eapply rtc_subrel; [|exact H]. by left. Qed.

(** The expiry waits for [worker_mutex] while the proxy thread asks the database. *)
Definition waiting_threads := schedule [(1, 100, accept_choices); (0, 60, expiry_choices ++ [0])]%nat sample_start.

Lemma no_deadlock_witness : ∃ j, rtc (waits_for waiting_threads) 0%nat j ∧ can_run waiting_threads j.
Proof.
  destruct (waiting_threads !! 0%nat) as [t|] eqn:Ht; [|by vm_compute in Ht].
  destruct (no_deadlock Skip Skip Skip statement_locks waiting_threads 0%nat t) as [[[H|H] _]|H].
  - apply skip_polite.
  - apply skip_polite.
  - apply skip_polite.
  - apply statement_polite.
  - apply ticks, schedule_steps.
  - exact Ht.
  - vm_compute in Ht. injection Ht as <-. discriminate H.
  - vm_compute in Ht. injection Ht as <-. destruct H.
  - exact H.
Defined.

Example expiry_waits : wants (default (Thread [] []) (waiting_threads !! 0%nat)) WorkerMutex Exclusive ∧
  (WorkerMutex, Exclusive) ∈ held (default (Thread [] []) (waiting_threads !! 1%nat)).
Proof. vm_compute. split; [done|]. repeat (apply elem_of_cons; first [left; reflexivity|right]). Qed.

Lemma guarded_never_race_witness : ¬ race waiting_threads (Connection 0).
Proof.
  apply (guarded_never_race Skip Skip Skip statement_locks).
  - apply skip_polite.
  - apply skip_polite.
  - apply skip_polite.
  - apply statement_polite.
  - apply ticks, schedule_steps.
  - by eexists.
Defined.

(** The main thread is interrupted in [wakeup], while it holds the mutex: the handler waits for what
    its own thread holds. *)
Definition wakeup_choices : list nat := [0;0;1;0;1;1;0;1]%nat.
Definition in_wakeup := schedule [(0, 47, wakeup_choices)]%nat sample_start.
Definition interrupted := alter (λ t, Thread (interrupt_locks true :: stack t) (held t)) 0%nat in_wakeup.

Theorem handler_waits_for_itself :
  rtc tick sample_start in_wakeup ∧ ∃ ts, rtc tick interrupted ts ∧ waits_for ts 0 0.
Proof.
  split; [apply schedule_steps|]. exists (schedule [(0, 9, [0])]%nat interrupted). split; [apply schedule_steps|].
  eexists _, _, ExpiringMutex, Exclusive, (ExpiringMutex, Exclusive). split; [by vm_compute|]. split; [by vm_compute|].
  split; [by vm_compute|]. split; [apply elem_of_cons; by left|]. intros H. by destruct (H eq_refl).
Qed.

(** Variables without a mutex: the command thread unloads the plugin while the proxy thread, which
    has just seen it, is about to call it; the proxy thread frees the text of an address while
    the expiry is about to log it, and writes the time of a packet while the expiry reads it; the
    expiry removes an event while the proxy thread searches the table. *)
Theorem races_reachable :
  Forall (λ v, ∃ ts, rtc tick sample_start ts ∧ race ts v) [Plugin; RemoteIp 0; Recent 0; EventTable].
Proof.
  apply list.Forall_cons; split; [|apply list.Forall_cons; split; [|apply list.Forall_cons; split; [|apply list.Forall_cons; split; [|constructor]]]].
  - exists (schedule [(1, 136, accept_choices ++ [0]); (3, 22, unload_choices)]%nat sample_start). split; [apply schedule_steps|].
    eexists 1%nat, 3%nat, _, _, _, _. split; [done|]. by vm_compute.
  - exists (schedule [(1, 160, open_choices); (0, 58, expiry_choices ++ [1]); (1, 77, close_choices)]%nat sample_start).
    split; [apply schedule_steps|]. eexists 0%nat, 1%nat, _, _, _, _. split; [done|]. by vm_compute.
  - exists (schedule [(1, 160, open_choices); (0, 55, expiry_choices); (1, 26, [1;0;1;0;0;0])]%nat sample_start).
    split; [apply schedule_steps|]. eexists 0%nat, 1%nat, _, _, _, _. split; [done|]. by vm_compute.
  - exists (schedule [(1, 169, open_choices ++ [1]); (0, 89, expiry_choices ++ [0;0;0])]%nat sample_start).
    split; [apply schedule_steps|]. eexists 0%nat, 1%nat, _, _, _, _. split; [done|]. by vm_compute.
Qed.
