(* ===== verification/StringMap.v ===== *)
(** * The interface of a map from strings to pointers

    [struct hash_map_t] is a table of function pointers: its clients (the
    application context and the product names of the database service) only
    call [get], [put_if_absent] and [put]. [StringMap] is that interface and
    [StringMapLaws] what its clients rely on, stated over the finite map the
    object stands for. [HashMap.v] discharges the laws; the clients' theorems
    are proved against them. *)

From S2P Require Import Prelude.

Class StringMap (V M : Type) := {
  sm_get : M → string → outcome (option V);
  sm_put_if_absent : bool → M → string → option V → outcome (option V * M);
  sm_put : bool → M → string → option V → outcome (option V * M);
  (** the finite map an object stands for; a [NULL] value is [None] *)
  sm_rep : M → gmap string (option V) → Prop;
  (** the keys the object accepts *)
  sm_key : M → string → Prop;
}.

(** The pointer [get] returns: [NULL] for a missing key and for a [NULL] value. *)
Definition pointer_at {V} (gm : gmap string (option V)) (k : string) : option V :=
  mjoin (gm !! k).

Class StringMapLaws (V M : Type) `{StringMap V M} := {
  sm_get_ok m gm k :
    sm_rep m gm → sm_key m k → sm_get m k = Ok (pointer_at gm k);
  sm_put_if_absent_ok m gm k v :
    sm_rep m gm → sm_key m k →
    ∃ m', sm_put_if_absent true m k v = Ok (pointer_at gm k, m') ∧
      sm_rep m' (match gm !! k with Some _ => gm | None => <[k := v]> gm end) ∧
      ∀ k', sm_key m k' → sm_key m' k';
  sm_put_ok m gm k v :
    sm_rep m gm → sm_key m k →
    ∃ m', sm_put true m k v = Ok (pointer_at gm k, m') ∧
      sm_rep m' (<[k := v]> gm) ∧ ∀ k', sm_key m k' → sm_key m' k';
}.
