(* ===== verification/HashMap.v ===== *)
(** * hash_map.c: the chained hash map

    [struct hash_map_data_t] is [hash_map]: an array of bucket heads over a
    heap of [hash_bucket_t] cells. Every operation is translated with its
    pointer accesses; the read/write lock makes an operation atomic, so the
    state is passed explicitly. Keys are the texts the key pointers point to,
    values are pointers ([None] is [NULL]). The refinement theorems relate a
    well-formed map to the finite map [gmap string (option V)] it stands for. *)

From S2P Require Import Prelude Heap StringMap.

(** ** The default hash function *)

(** One turn of the loop: [code = (code * 13 + (int) key[i]) % 31636373]. *)
Definition hash_step (code : Z) (c : ascii) : outcome Z :=
  p ← checked_int (code * 13);
  s ← checked_int (p + schar c);
  c_rem s 31636373.

Fixpoint hash_loop (n : nat) (code : Z) (key : string) : outcome Z :=
  match n, key with
  | S n', String c key' => code' ← hash_step code c; hash_loop n' code' key'
  | _, _ => Ok code
  end.

(** [key_length] is an [int], the loop runs while [i < key_length]. *)
Definition default_hashing_function (key : string) : outcome Z :=
  let key_length := int32 (strlen key) in
  hash_loop (Z.to_nat key_length) 0 key.

Lemma hash_step_ok code c :
  -31636373 < code < 31636373 →
  ∃ code', hash_step code c = Ok code' ∧ -31636373 < code' < 31636373 ∧
    (0 ≤ code → is_ascii c = true → 0 ≤ code').
Proof.
  intros Hc. pose proof (schar_range c). unfold hash_step.
  rewrite checked_int_ok by (unfold is_int, INT_MIN, INT_MAX; lia). simpl.
  rewrite checked_int_ok by (unfold is_int, INT_MIN, INT_MAX; lia). simpl.
  rewrite c_rem_ok by lia. eexists. split; [done|]. split.
  - pose proof (Z.rem_bound_abs (code * 13 + schar c) 31636373 ltac:(lia)). lia.
  - intros H0 Ha%schar_ascii. apply Z.rem_nonneg; lia.
Qed.

Lemma hash_loop_ok n code key :
  -31636373 < code < 31636373 →
  ∃ code', hash_loop n code key = Ok code' ∧ -31636373 < code' < 31636373 ∧
    (0 ≤ code → str_forall is_ascii key = true → 0 ≤ code').
Proof.
  revert n code. induction key as [|c key IH]; intros [|n] code Hc; simpl; eauto.
  destruct (hash_step_ok code c Hc) as (code' & -> & Hr & Hp). simpl.
  destruct (IH n code' Hr) as (code'' & -> & Hr' & Hp'). exists code''. split_and!; try done; try lia.
  intros H0 [Ha Hk]%andb_true_iff. auto.
Qed.

Section hash_map.
Context {V : Type}.

(** [struct hash_bucket_t]. [prev] is only ever assigned the address of a
    bucket head, [data->buckets + i]: it is that index. *)
Record hash_bucket := HashBucket {
  key : string;
  value : option V;
  prev : Z;
  bucket_next : ptr;
}.

#[export] Instance hash_bucket_linked : Linked hash_bucket := {
  next := bucket_next;
  set_next p b := HashBucket (key b) (value b) (prev b) p;
}.
#[export] Instance hash_bucket_laws : LinkedLaws hash_bucket.
Proof. by split. Qed.

Definition set_value (v : option V) (b : hash_bucket) : hash_bucket :=
  HashBucket (key b) v (prev b) (bucket_next b).
Definition set_prev (i : Z) (b : hash_bucket) : hash_bucket :=
  HashBucket (key b) (value b) i (bucket_next b).

(** [struct hash_map_data_t], with the cells its pointers lead to. *)
Record hash_map := HashMap {
  number_of_entries : Z;
  buckets_size : Z;
  buckets : list ptr;
  hashing_function : string → outcome Z;
  cells : heap hash_bucket;
}.

Definition with_cells (h : heap hash_bucket) (m : hash_map) : hash_map :=
  HashMap (number_of_entries m) (buckets_size m) (buckets m) (hashing_function m) h.
Definition with_buckets (bs : list ptr) (m : hash_map) : hash_map :=
  HashMap (number_of_entries m) (buckets_size m) bs (hashing_function m) (cells m).

(** [data->buckets + i] with [i = hashing_function (key) % buckets_size]. *)
Definition find_head (m : hash_map) (k : string) : outcome Z :=
  code ← hashing_function m k; c_rem code (buckets_size m).

Definition find_data (m : hash_map) (head : Z) (k : string) : outcome ptr :=
  p ← array_get (buckets m) head;
  find_cell (λ b, String.eqb k (key b)) (list_fuel (cells m)) (cells m) p.

Definition exists_key (m : hash_map) (k : string) : outcome bool :=
  head ← find_head m k;
  r ← find_data m head k;
  Ok (bool_decide (r ≠ None)).

Definition get_by_key (m : hash_map) (k : string) : outcome (option V) :=
  head ← find_head m k;
  r ← find_data m head k;
  match r with
  | Some l => b ← deref (cells m) (Some l); Ok (value b)
  | None => Ok None
  end.

(** The insertion both [put] functions share: a new cell in front of the
    chain; nothing happens when [malloc] fails. *)
Definition push_front (memory : bool) (m : hash_map) (head : Z) (k : string) (v : option V)
    : outcome hash_map :=
  match malloc memory (cells m) with
  | None => Ok m
  | Some l =>
      first ← array_get (buckets m) head;
      let cell := HashBucket k v head first in
      bs ← array_set (buckets m) head (Some l);
      Ok (with_buckets bs (with_cells (<[l := cell]> (cells m)) m))
  end.

Definition put_if_absent (memory : bool) (m : hash_map) (k : string) (v : option V)
    : outcome (option V * hash_map) :=
  head ← find_head m k;
  r ← find_data m head k;
  match r with
  | Some l => b ← deref (cells m) (Some l); Ok (value b, m)
  | None => m' ← push_front memory m head k v; Ok (None, m')
  end.

Definition overwrite_put (memory : bool) (m : hash_map) (k : string) (v : option V)
    : outcome (option V * hash_map) :=
  head ← find_head m k;
  r ← find_data m head k;
  match r with
  | Some l =>
      b ← deref (cells m) (Some l);
      h ← store (cells m) (Some l) (set_value v b);
      Ok (value b, with_cells h m)
  | None => m' ← push_front memory m head k v; Ok (None, m')
  end.

(** [( *ptr->prev)->next = ptr->next; ptr->next->prev = ptr->prev;] then the
    value is read and the cell is freed. *)
Definition remove (m : hash_map) (k : string) : outcome (option V * hash_map) :=
  head ← find_head m k;
  r ← find_data m head k;
  match r with
  | None => Ok (None, m)
  | Some l =>
      b ← deref (cells m) (Some l);
      front ← array_get (buckets m) (prev b);
      fb ← deref (cells m) front;
      h1 ← store (cells m) front (set_next (next b) fb);
      b1 ← deref h1 (Some l);
      nb ← deref h1 (next b1);
      h2 ← store h1 (next b1) (set_prev (prev b1) nb);
      b2 ← deref h2 (Some l);
      h3 ← free_cell h2 (Some l);
      Ok (value b2, with_cells h3 m)
  end.

(** The inner loop of [clear]: free the cells of one chain. *)
Fixpoint clear_chain (fuel : nat) (h : heap hash_bucket) (p : ptr)
    : outcome (heap hash_bucket * ptr) :=
  match fuel with
  | O => Diverges
  | S fuel' =>
      match p with
      | None => Ok (h, None)
      | Some l =>
          b ← deref h p;
          h' ← free_cell h p;
          clear_chain fuel' h' (next b)
      end
  end.

(** [for (i = 0; i < buckets_size; i++)], with [n] buckets left. *)
Fixpoint clear_from (n : nat) (i : Z) (m : hash_map) : outcome hash_map :=
  match n with
  | O => Ok m
  | S n' =>
      p ← array_get (buckets m) i;
      match p with
      | None => clear_from n' (i + 1) m
      | Some _ =>
          '(h, p') ← clear_chain (list_fuel (cells m)) (cells m) p;
          bs ← array_set (buckets m) i p';
          h' ← free_cell h p';
          clear_from n' (i + 1) (with_buckets bs (with_cells h' m))
      end
  end.

Definition clear (m : hash_map) : outcome hash_map :=
  clear_from (Z.to_nat (buckets_size m)) 0 m.

(** [dispose]: the cells that are left when the map itself is freed. *)
Definition dispose (m : hash_map) : outcome (heap hash_bucket) :=
  m' ← clear m; Ok (cells m').

(** What [new_hash_map] returns: [NULL], a map, or the address of an object
    it has just disposed of. *)
Inductive new_result := NewNull | NewDangling | NewMap (m : hash_map).

Definition empty_map (size : Z) (hash : option (string → outcome Z)) : hash_map :=
  HashMap 0 size (replicate (Z.to_nat size) None)
    (match hash with Some f => f | None => default_hashing_function end) ∅.

(** The three flags are the outcomes of the three allocations, in order. *)
Definition new_hash_map (self_mem data_mem buckets_mem : bool)
    (size : Z) (hash : option (string → outcome Z)) : new_result :=
  if self_mem then
    if data_mem then
      if buckets_mem then NewMap (empty_map size hash) else NewDangling
    else NewDangling
  else NewNull.

(** ** Well-formed maps and the finite map they stand for *)

(** [ch i] lists the cells of bucket [i]; every cell is in the bucket of its
    key's hash and its [prev] is the address of that bucket's head. *)
Record hm_shape (m : hash_map) (ch : Z → list loc) : Prop := {
  hm_size : 0 < buckets_size m;
  hm_buckets : Z.of_nat (length (buckets m)) = buckets_size m;
  hm_chain i : 0 ≤ i < buckets_size m →
    ∃ p, zlookup (buckets m) i = Some p ∧ is_list (cells m) p (ch i);
  hm_home i l b : 0 ≤ i < buckets_size m → l ∈ ch i → cells m !! l = Some b →
    find_head m (key b) = Ok i;
  hm_cell l b : cells m !! l = Some b →
    ∃ i, 0 ≤ i < buckets_size m ∧ l ∈ ch i ∧ prev b = i;
}.

(** The cells hold the entries of [gm], one cell per key. *)
Record contents (h : heap hash_bucket) (gm : gmap string (option V)) : Prop := {
  contents_inj l1 l2 b1 b2 :
    h !! l1 = Some b1 → h !! l2 = Some b2 → key b1 = key b2 → l1 = l2;
  contents_abs k v : gm !! k = Some v ↔ ∃ l b, h !! l = Some b ∧ key b = k ∧ value b = v;
}.

Definition hm_rep (m : hash_map) (gm : gmap string (option V)) : Prop :=
  (∃ ch, hm_shape m ch) ∧ contents (cells m) gm.

(** A key the map's hash function sends to a bucket. *)
Definition key_ok (m : hash_map) (k : string) : Prop :=
  ∃ i, find_head m k = Ok i ∧ 0 ≤ i < buckets_size m.

Lemma contents_cell h gm l b : contents h gm → h !! l = Some b → gm !! key b = Some (value b).
Proof. intros Hc Hb. apply (contents_abs _ _ Hc). eauto. Qed.

Lemma contents_none h gm l b : contents h gm → gm !! key b = None → h !! l = Some b → False.
Proof. intros Hc Hn Hb. pose proof (contents_cell _ _ _ _ Hc Hb). congruence. Qed.

Lemma contents_insert h gm l b :
  contents h gm → h !! l = None → gm !! key b = None →
  contents (<[l := b]> h) (<[key b := value b]> gm).
Proof.
  intros Hc Hl Hk. split.
  - intros l1 l2 b1 b2. rewrite !lookup_insert. do 2 case_decide; intros; simplify_eq; try done.
    + exfalso. eapply contents_none; [exact Hc| |eassumption]. congruence.
    + exfalso. eapply contents_none; [exact Hc| |eassumption]. congruence.
    + by eapply (contents_inj _ _ Hc).
  - intros k v. rewrite lookup_insert. case_decide as Ek.
    + subst k. split.
      * intros [= <-]. exists l, b. by rewrite lookup_insert_eq.
      * intros (l' & b' & Hb & Hk' & <-). rewrite lookup_insert in Hb.
        case_decide; [congruence|]. exfalso. eapply contents_none; [exact Hc| |exact Hb]. congruence.
    + rewrite (contents_abs _ _ Hc). split; intros (l' & b' & Hb & Hk' & Hv).
      * exists l', b'. rewrite lookup_insert_ne; [done|]. congruence.
      * exists l', b'. rewrite lookup_insert in Hb. case_decide; [congruence|done].
Qed.

Lemma contents_update h gm l b b' :
  contents h gm → h !! l = Some b → key b' = key b →
  contents (<[l := b']> h) (<[key b := value b']> gm).
Proof.
  intros Hc Hl Hk. split.
  - intros l1 l2 b1 b2. rewrite !lookup_insert.
    do 2 case_decide; intros; simplify_eq; try done; eapply (contents_inj _ _ Hc); eauto; congruence.
  - intros k v. rewrite lookup_insert. case_decide as Ek.
    + subst k. split.
      * intros [= <-]. exists l, b'. by rewrite lookup_insert_eq.
      * intros (l2 & b2 & Hb & Hk' & <-). rewrite lookup_insert in Hb.
        case_decide; [congruence|]. assert (l = l2) by (by eapply (contents_inj _ _ Hc)). done.
    + rewrite (contents_abs _ _ Hc). split; intros (l2 & b2 & Hb & Hk' & Hv); exists l2, b2.
      * rewrite lookup_insert_ne; [done|]. congruence.
      * rewrite lookup_insert in Hb. case_decide; [congruence|done].
Qed.

Lemma hm_find m gm k :
  hm_rep m gm → key_ok m k →
  ∃ head r, find_head m k = Ok head ∧ 0 ≤ head < buckets_size m ∧ find_data m head k = Ok r ∧
    match r with
    | Some l => ∃ b, cells m !! l = Some b ∧ key b = k ∧ gm !! k = Some (value b)
    | None => gm !! k = None
    end.
Proof.
  intros [[ch Hm] Hc] (i & Hi & Hr). destruct (hm_chain _ _ Hm i Hr) as (p & Hp & Hls).
  set (test := λ b : hash_bucket, String.eqb k (key b)).
  exists i, (List.find (test_at test (cells m)) (ch i)).
  split; [done|]. split; [done|]. split.
  { unfold find_data. rewrite (array_get_Some _ _ _ Hp). simpl. by apply find_cell_list. }
  destruct (List.find _ _) as [l|] eqn:Ef.
  - apply find_test_Some in Ef as (Hin & b & Hb & Heq). apply String.eqb_eq in Heq. subst k.
    exists b. eauto using contents_cell.
  - destruct (gm !! k) as [v|] eqn:Eg; [|done].
    apply (contents_abs _ _ Hc) in Eg as (l & b & Hb & Hk & Hv).
    destruct (hm_cell _ _ Hm l b Hb) as (j & Hj & Hin & _).
    pose proof (hm_home _ _ Hm j l b Hj Hin Hb) as Hh. rewrite Hk, Hi in Hh. injection Hh as <-.
    pose proof (find_test_None _ _ _ _ _ Ef Hin Hb) as Ht. subst test. simpl in Ht.
    by rewrite Hk, String.eqb_refl in Ht.
Qed.

(** The cells of two chains are disjoint, and a fresh address is on none. *)
Lemma chain_live m ch i l :
  hm_shape m ch → 0 ≤ i < buckets_size m → l ∈ ch i → is_Some (cells m !! l).
Proof. intros Hm Hi Hin. destruct (hm_chain _ _ Hm i Hi) as (p & _ & Hl). by eapply is_list_live. Qed.

Lemma push_front_shape m ch head k v :
  hm_shape m ch → find_head m k = Ok head → 0 ≤ head < buckets_size m →
  ∃ first m' (l := fresh_loc (cells m)), push_front true m head k v = Ok m' ∧
    m' = with_buckets (<[Z.to_nat head := Some l]> (buckets m))
           (with_cells (<[l := HashBucket k v head first]> (cells m)) m) ∧
    hm_shape m' (λ j, if decide (j = head) then l :: ch head else ch j).
Proof.
  intros Hm Hh Hr. destruct (hm_chain _ _ Hm head Hr) as (first & Hf & Hls).
  pose proof (hm_buckets _ _ Hm) as Hlen.
  pose proof (fresh_loc_fresh (cells m)) as Hfresh. set (l := fresh_loc (cells m)) in *.
  assert (Hn : ∀ i, 0 ≤ i < buckets_size m → l ∉ ch i).
  { intros i Hi Hin. destruct (chain_live _ _ _ _ Hm Hi Hin). congruence. }
  exists first. eexists. split; [|split; [done|]].
  { unfold push_front. simpl. by rewrite (array_get_Some _ _ _ Hf), array_set_ok by lia. }
  split; simpl.
  - apply (hm_size _ _ Hm).
  - by rewrite length_insert.
  - intros i Hi. destruct (hm_chain _ _ Hm i Hi) as (p & Hp & Hpl).
    apply zlookup_Some in Hp as [_ Hp]. case_decide as Ei.
    + subst i. exists (Some l). split.
      * apply zlookup_Some. split; [lia|]. rewrite list_lookup_insert_eq; [done|lia].
      * apply is_list_cons; [by apply Hn|]. done.
    + exists p. split; [|by apply is_list_insert_ne; auto].
      apply zlookup_Some. split; [lia|]. rewrite list_lookup_insert_ne; [done|lia].
  - intros i x b Hi Hin. destruct (decide (l = x)) as [<-|Ex].
    + rewrite lookup_insert_eq. intros [= <-]. case_decide as Ei; [by subst i|]. by destruct (Hn i Hi).
    + rewrite lookup_insert_ne by done. intros Hb.
      case_decide as Ei; [subst i|by eapply (hm_home _ _ Hm)].
      apply elem_of_cons in Hin as [->|Hin]; [done|]. by eapply (hm_home _ _ Hm head).
  - intros x b. destruct (decide (l = x)) as [<-|Ex].
    + rewrite lookup_insert_eq. intros [= <-]. exists head. split; [done|].
      rewrite decide_True by done. split; [set_solver|done].
    + rewrite lookup_insert_ne by done. intros Hb.
      destruct (hm_cell _ _ Hm x b Hb) as (i & Hi & Hin & Hp).
      exists i. split; [done|]. split; [|done]. case_decide; [|done]. subst. set_solver.
Qed.

(** Replacing the value of a cell changes no chain. *)
Lemma set_value_shape m ch l b v :
  hm_shape m ch → cells m !! l = Some b →
  hm_shape (with_cells (<[l := set_value v b]> (cells m)) m) ch.
Proof.
  intros Hm Hb. split; simpl.
  - apply (hm_size _ _ Hm).
  - apply (hm_buckets _ _ Hm).
  - intros i Hi. destruct (hm_chain _ _ Hm i Hi) as (p & Hp & Hl). exists p. split; [done|].
    by eapply is_list_insert_next.
  - intros i x c Hi Hin. rewrite lookup_insert. case_decide as Ex.
    + intros [= <-]. subst x. simpl. by eapply (hm_home _ _ Hm).
    + by eapply (hm_home _ _ Hm).
  - intros x c. rewrite lookup_insert. case_decide as Ex.
    + intros [= <-]. subst x. by apply (hm_cell _ _ Hm l b).
    + by apply (hm_cell _ _ Hm).
Qed.

(** What an operation leaves unchanged besides its cells and bucket heads. *)
Definition same_config (m m' : hash_map) : Prop :=
  buckets_size m' = buckets_size m ∧ hashing_function m' = hashing_function m ∧
  number_of_entries m' = number_of_entries m.

Lemma same_config_key_ok m m' k : same_config m m' → key_ok m k → key_ok m' k.
Proof. intros (H1 & H2 & _). unfold key_ok, find_head. by rewrite H1, H2. Qed.

Lemma push_front_rep m gm head k v :
  hm_rep m gm → find_head m k = Ok head → 0 ≤ head < buckets_size m → gm !! k = None →
  ∃ m', push_front true m head k v = Ok m' ∧ hm_rep m' (<[k := v]> gm) ∧ same_config m m'.
Proof.
  intros [[ch Hm] Hc] Hh Hr Hk.
  destruct (push_front_shape _ _ _ _ v Hm Hh Hr) as (first & m' & Hp & -> & Hs).
  eexists. split; [exact Hp|]. split; [|done]. split; [by eexists|]. simpl.
  apply (contents_insert _ _ _ (HashBucket k v head first) Hc); [|done]. apply fresh_loc_fresh.
Qed.

(** ** Clearing *)

Lemma clear_chain_ok fuel h p ls :
  is_list h p ls → (length ls < fuel)%nat →
  ∃ h', clear_chain fuel h p = Ok (h', None) ∧
    ∀ l, h' !! l = if decide (l ∈ ls) then None else h !! l.
Proof.
  unfold is_list. revert fuel h p. induction ls as [|l ls IH]; intros [|fuel] h p Hl Hf;
    cbn [lseg length clear_chain] in *; try lia.
  - subst p. exists h. split; [done|]. intros l. by rewrite decide_False by set_solver.
  - pose proof (is_list_NoDup h p (l :: ls) Hl) as Hnd. apply list.NoDup_cons in Hnd as [Hn _].
    destruct Hl as (-> & b & Hb & Hl). rewrite (deref_Some _ _ _ Hb). simpl. rewrite Hb. simpl.
    destruct (IH fuel (delete l h) (bucket_next b)) as (h' & -> & Hh').
    + by apply is_list_delete_ne.
    + lia.
    + exists h'. split; [done|]. intros x. rewrite Hh'. destruct (decide (l = x)) as [<-|Hx].
      * rewrite lookup_delete_eq, (decide_True (P := l ∈ l :: ls)) by set_solver. by case_decide.
      * rewrite lookup_delete_ne by done.
        destruct (decide (x ∈ ls)), (decide (x ∈ l :: ls)); set_solver.
Qed.

(** Emptying bucket [i] of a well-formed map leaves a well-formed map. *)
Lemma clear_bucket_shape m ch i h' :
  hm_shape m ch → 0 ≤ i < buckets_size m →
  (∀ l, h' !! l = if decide (l ∈ ch i) then None else cells m !! l) →
  hm_shape (with_buckets (<[Z.to_nat i := None]> (buckets m)) (with_cells h' m))
           (λ j, if decide (j = i) then [] else ch j).
Proof.
  intros Hm Hi Hh. pose proof (hm_buckets _ _ Hm) as Hlen. split; simpl.
  - apply (hm_size _ _ Hm).
  - by rewrite length_insert.
  - intros j Hj. destruct (hm_chain _ _ Hm j Hj) as (p & Hp & Hpl).
    apply zlookup_Some in Hp as [_ Hp]. destruct (decide (j = i)) as [->|Hne].
    + exists None. split; [|done]. apply zlookup_Some. split; [lia|].
      rewrite list_lookup_insert_eq; [done|lia].
    + exists p. split.
      * apply zlookup_Some. split; [lia|]. rewrite list_lookup_insert_ne; [done|lia].
      * revert Hpl. apply lseg_frame. intros l b Hin Hb. exists b. split; [|done].
        rewrite Hh, decide_False; [done|]. intros Hin'.
        pose proof (hm_home _ _ Hm _ _ _ Hi Hin' Hb) as H1.
        pose proof (hm_home _ _ Hm _ _ _ Hj Hin Hb) as H2. congruence.
  - intros j l b Hj Hin. destruct (decide (j = i)); [set_solver|]. rewrite Hh.
    case_decide; [done|]. by apply (hm_home _ _ Hm).
  - intros l b. rewrite Hh. case_decide as Hl; [done|]. intros Hb.
    destruct (hm_cell _ _ Hm l b Hb) as (j & Hj & Hin & Hp). exists j.
    rewrite decide_False by congruence. done.
Qed.

#[local] Arguments clear_chain fuel h p : simpl never.

Lemma clear_from_ok n i m ch :
  hm_shape m ch → 0 ≤ i → i + Z.of_nat n = buckets_size m → (∀ j, 0 ≤ j < i → ch j = []) →
  ∃ m', clear_from n i m = Ok m' ∧ cells m' = ∅.
Proof.
  revert i m ch. induction n as [|n IH]; intros i m ch Hm Hi Hsz Hempty; simpl.
  - exists m. split; [done|]. apply map_eq. intros l. rewrite lookup_empty.
    destruct (cells m !! l) as [b|] eqn:Hb; [|done].
    destruct (hm_cell _ _ Hm l b Hb) as (j & Hj & Hin & _). rewrite Hempty in Hin by lia. set_solver.
  - destruct (hm_chain _ _ Hm i ltac:(lia)) as (p & Hp & Hpl).
    rewrite (array_get_Some _ _ _ Hp). simpl. destruct p as [l|].
    + destruct (clear_chain_ok (list_fuel (cells m)) _ _ _ Hpl) as (h' & -> & Hh').
      { unfold list_fuel. pose proof (is_list_length _ _ _ Hpl). lia. }
      simpl. rewrite array_set_ok by (pose proof (hm_buckets _ _ Hm); lia). simpl.
      apply (IH (i + 1) _ (λ j, if decide (j = i) then [] else ch j)).
      * apply clear_bucket_shape; [done|lia|done].
      * lia.
      * simpl. lia.
      * intros j Hj. simpl. case_decide; [done|]. apply Hempty. lia.
    + apply (IH _ _ ch); [done|lia|lia|]. intros j Hj. destruct (decide (j = i)) as [->|].
      * by eapply is_list_nil.
      * apply Hempty. lia.
Qed.

(** [dispose] terminates, frees every cell of a well-formed map exactly once and
    leaves none allocated; it never touches a freed cell. *)
Theorem dispose_frees_all m gm : hm_rep m gm → dispose m = Ok ∅.
Proof.
  intros [[ch Hm] _]. unfold dispose, clear.
  destruct (clear_from_ok (Z.to_nat (buckets_size m)) 0 m ch Hm) as (m' & -> & Hc); [lia| |lia|].
  - pose proof (hm_size _ _ Hm). lia.
  - simpl. by rewrite Hc.
Qed.

(** ** The operations refine those of a finite map *)

Lemma get_by_key_ok m gm k :
  hm_rep m gm → key_ok m k → get_by_key m k = Ok (pointer_at gm k).
Proof.
  intros Hm Hk. destruct (hm_find m gm k Hm Hk) as (hd & r & Hh & Hr & Hf & Hres).
  unfold get_by_key, pointer_at. rewrite Hh, bind_ok, Hf, bind_ok.
  destruct r as [l|]; [|by rewrite Hres].
  destruct Hres as (b & Hb & _ & ->). by rewrite (deref_Some _ _ _ Hb).
Qed.

Lemma exists_key_ok m gm k :
  hm_rep m gm → key_ok m k → exists_key m k = Ok (bool_decide (is_Some (gm !! k))).
Proof.
  intros Hm Hk. destruct (hm_find m gm k Hm Hk) as (hd & r & Hh & Hr & Hf & Hres).
  unfold exists_key. rewrite Hh, bind_ok, Hf, bind_ok. f_equal. apply bool_decide_ext.
  destruct r as [l|].
  - destruct Hres as (b & _ & _ & ->). split; [by eexists|done].
  - rewrite Hres. split; [done|]. by intros [? [=]].
Qed.

Lemma put_if_absent_ok m gm k v :
  hm_rep m gm → key_ok m k →
  ∃ m', put_if_absent true m k v = Ok (pointer_at gm k, m') ∧
    hm_rep m' (match gm !! k with Some _ => gm | None => <[k := v]> gm end) ∧ same_config m m'.
Proof.
  intros Hm Hk. destruct (hm_find m gm k Hm Hk) as (hd & r & Hh & Hr & Hf & Hres).
  unfold put_if_absent, pointer_at. rewrite Hh, bind_ok, Hf, bind_ok. destruct r as [l|].
  - destruct Hres as (b & Hb & _ & Hg). rewrite Hg, (deref_Some _ _ _ Hb), bind_ok. by exists m.
  - rewrite Hres. destruct (push_front_rep m gm hd k v Hm Hh Hr Hres) as (m' & -> & Hm' & Hc).
    by exists m'.
Qed.

Lemma overwrite_put_ok m gm k v :
  hm_rep m gm → key_ok m k →
  ∃ m', overwrite_put true m k v = Ok (pointer_at gm k, m') ∧
    hm_rep m' (<[k := v]> gm) ∧ same_config m m'.
Proof.
  intros Hm Hk. destruct (hm_find m gm k Hm Hk) as (hd & r & Hh & Hr & Hf & Hres).
  unfold overwrite_put, pointer_at. rewrite Hh, bind_ok, Hf, bind_ok. destruct r as [l|].
  - destruct Hres as (b & Hb & <- & Hg). rewrite Hg, (deref_Some _ _ _ Hb), bind_ok.
    rewrite (store_Some _ _ _ _ Hb), bind_ok. eexists. split; [done|]. split; [|done].
    destruct Hm as [[ch Hm] Hc]. split; [exists ch; by apply set_value_shape|].
    by apply (contents_update _ _ _ _ (set_value v b) Hc Hb).
  - rewrite Hres. destruct (push_front_rep m gm hd k v Hm Hh Hr Hres) as (m' & -> & Hm' & Hc).
    by exists m'.
Qed.

Lemma empty_map_rep size hash : 0 < size → hm_rep (empty_map size hash) ∅.
Proof.
  intros Hs. split; [exists (λ _, [])|].
  - split; simpl; try done.
    + rewrite length_replicate. lia.
    + intros i Hi. exists None. split; [|done]. apply zlookup_Some.
      split; [lia|]. apply lookup_replicate_2. lia.
  - split; [done|]. intros k v. rewrite lookup_empty. split; [done|].
    intros (l & b & Hb & _). simpl in Hb. by rewrite lookup_empty in Hb.
Qed.

Lemma ascii_key_ok m k :
  hashing_function m = default_hashing_function → 0 < buckets_size m →
  str_forall is_ascii k = true → key_ok m k.
Proof.
  intros Hf Hs Ha. unfold key_ok, find_head. rewrite Hf. unfold default_hashing_function.
  destruct (hash_loop_ok (Z.to_nat (int32 (strlen k))) 0 k ltac:(lia)) as (c & -> & _ & Hp).
  rewrite bind_ok, c_rem_ok by lia. eexists. split; [done|]. apply Z.rem_bound_pos; [|lia].
  by apply Hp.
Qed.

#[export] Instance hash_map_string_map : StringMap V hash_map := {
  sm_get := get_by_key;
  sm_put_if_absent := put_if_absent;
  sm_put := overwrite_put;
  sm_rep := hm_rep;
  sm_key := key_ok;
}.

(** The hash map provides what its clients rely on. *)
#[export] Instance hash_map_string_map_laws : StringMapLaws V hash_map.
Proof.
  split.
  - apply get_by_key_ok.
  - intros m gm k v Hm Hk. destruct (put_if_absent_ok m gm k v Hm Hk) as (m' & H1 & H2 & H3).
    exists m'. split; [done|]. split; [done|]. intros k'. by apply same_config_key_ok.
  - intros m gm k v Hm Hk. destruct (overwrite_put_ok m gm k v Hm Hk) as (m' & H1 & H2 & H3).
    exists m'. split; [done|]. split; [done|]. intros k'. by apply same_config_key_ok.
Qed.

(** A client's calls, and what each returns. *)
Inductive map_call := CallExists (k : string) | CallGet (k : string)
  | CallPutIfAbsent (k : string) (v : option V) | CallPut (k : string) (v : option V).
Inductive reply := Found (b : bool) | Pointer (v : option V).

Definition call_key (c : map_call) : string :=
  match c with CallExists k | CallGet k | CallPutIfAbsent k _ | CallPut k _ => k end.

Definition run_call (m : hash_map) (c : map_call) : outcome (reply * hash_map) :=
  match c with
  | CallExists k => b ← exists_key m k; Ok (Found b, m)
  | CallGet k => v ← get_by_key m k; Ok (Pointer v, m)
  | CallPutIfAbsent k v => '(o, m') ← put_if_absent true m k v; Ok (Pointer o, m')
  | CallPut k v => '(o, m') ← overwrite_put true m k v; Ok (Pointer o, m')
  end.

Fixpoint run_calls (m : hash_map) (cs : list map_call) : outcome (list reply * hash_map) :=
  match cs with
  | [] => Ok ([], m)
  | c :: cs' =>
      '(r, m') ← run_call m c;
      '(rs, m'') ← run_calls m' cs';
      Ok (r :: rs, m'')
  end.

(** The same calls on a finite map. *)
Definition spec_call (gm : gmap string (option V)) (c : map_call) : reply * gmap string (option V) :=
  match c with
  | CallExists k => (Found (bool_decide (is_Some (gm !! k))), gm)
  | CallGet k => (Pointer (pointer_at gm k), gm)
  | CallPutIfAbsent k v =>
      (Pointer (pointer_at gm k), match gm !! k with Some _ => gm | None => <[k := v]> gm end)
  | CallPut k v => (Pointer (pointer_at gm k), <[k := v]> gm)
  end.

Fixpoint spec_calls (gm : gmap string (option V)) (cs : list map_call)
    : list reply * gmap string (option V) :=
  match cs with
  | [] => ([], gm)
  | c :: cs' =>
      let '(r, gm') := spec_call gm c in
      let '(rs, gm'') := spec_calls gm' cs' in (r :: rs, gm'')
  end.

Lemma run_call_ok m gm c :
  hm_rep m gm → key_ok m (call_key c) →
  ∃ m', run_call m c = Ok ((spec_call gm c).1, m') ∧ hm_rep m' (spec_call gm c).2 ∧ same_config m m'.
Proof.
  intros Hm Hk. destruct c as [k|k|k v|k v]; simpl in *.
  - rewrite (exists_key_ok m gm k Hm Hk). by exists m.
  - rewrite (get_by_key_ok m gm k Hm Hk). by exists m.
  - destruct (put_if_absent_ok m gm k v Hm Hk) as (m' & -> & ? & ?). by exists m'.
  - destruct (overwrite_put_ok m gm k v Hm Hk) as (m' & -> & ? & ?). by exists m'.
Qed.

Lemma run_calls_ok m gm cs :
  hm_rep m gm → Forall (λ c, key_ok m (call_key c)) cs →
  ∃ m', run_calls m cs = Ok ((spec_calls gm cs).1, m') ∧ hm_rep m' (spec_calls gm cs).2.
Proof.
  revert m gm. induction cs as [|c cs IH]; intros m gm Hm Hk; [by exists m|].
  inversion_clear Hk as [|?? Hc Hcs]. simpl.
  destruct (run_call_ok m gm c Hm Hc) as (m1 & -> & Hm1 & Hcfg). simpl.
  destruct (spec_call gm c) as [r gm1] eqn:Es. simpl in *.
  destruct (IH m1 gm1 Hm1) as (m2 & -> & Hm2).
  { revert Hcs. apply Forall_impl. intros c'. by apply same_config_key_ok. }
  simpl. destruct (spec_calls gm1 cs). simpl in *. by exists m2.
Qed.

(** C35: every sequence of [exists], [get], [put_if_absent] and [put] calls on a new map
    with ASCII keys returns (no undefined behaviour, no endless chain) exactly the
    pointers the same calls return on a finite map, and the final map stands for the
    final finite map. *)
Theorem hash_map_refines size cs :
  0 < size → Forall (λ c, str_forall is_ascii (call_key c) = true) cs →
  ∃ m', run_calls (empty_map size None) cs = Ok ((spec_calls ∅ cs).1, m') ∧
    hm_rep m' (spec_calls ∅ cs).2.
Proof.
  intros Hs Ha. apply run_calls_ok; [by apply empty_map_rep|].
  revert Ha. apply Forall_impl. intros c Hc. by apply ascii_key_ok.
Qed.

(** ** [remove] *)

Lemma find_present m gm head l b :
  hm_rep m gm → find_head m (key b) = Ok head → 0 ≤ head < buckets_size m →
  cells m !! l = Some b →
  prev b = head ∧ find_data m head (key b) = Ok (Some l) ∧
  ∃ f fb, zlookup (buckets m) head = Some (Some f) ∧ cells m !! f = Some fb.
Proof.
  intros Hm Hh Hr Hb.
  destruct (hm_find m gm (key b) Hm) as (hd & r & Hh' & _ & Hf & Hres); [by exists head|].
  rewrite Hh in Hh'. injection Hh' as <-. destruct Hm as [[ch Hm] Hc].
  destruct (hm_cell _ _ Hm l b Hb) as (i & Hi & Hin & Hp).
  pose proof (hm_home _ _ Hm _ _ _ Hi Hin Hb) as Hi'. rewrite Hh in Hi'. injection Hi' as <-.
  split; [done|]. split.
  - destruct r as [l'|]; [|by destruct (contents_none _ _ _ _ Hc Hres Hb)].
    destruct Hres as (b' & Hb' & Hk & _). rewrite Hf. do 2 f_equal.
    by eapply (contents_inj _ _ Hc).
  - destruct (hm_chain _ _ Hm head Hr) as (p & Hp' & Hl). unfold is_list in Hl.
    destruct (ch head) as [|f fs]; [set_solver|]. destruct Hl as (-> & fb & Hfb & _). eauto.
Qed.

(** [remove] is wrong at both ends of a chain. When the key's cell is the last of its
    chain (so whenever it is alone in it), [ptr->next->prev] dereferences [NULL]. When it
    is the first and has a successor, the bucket head keeps pointing to the freed cell and
    the next lookup of the key reads freed memory. *)
Theorem remove_broken m gm head l b :
  hm_rep m gm → find_head m (key b) = Ok head → 0 ≤ head < buckets_size m →
  cells m !! l = Some b →
  (bucket_next b = None → remove m (key b) = Undefined NullDeref) ∧
  (∀ n nb, zlookup (buckets m) head = Some (Some l) → bucket_next b = Some n →
     cells m !! n = Some nb → n ≠ l →
     ∃ m', remove m (key b) = Ok (value b, m') ∧
           get_by_key m' (key b) = Undefined UseAfterFree).
Proof.
  intros Hm Hh Hr Hb.
  destruct (find_present _ _ _ _ _ Hm Hh Hr Hb) as (Hp & Hf & f & fb & Hfr & Hfb).
  unfold remove. rewrite Hh, bind_ok, Hf, bind_ok, (deref_Some _ _ _ Hb), bind_ok, Hp.
  rewrite (array_get_Some _ _ _ Hfr), bind_ok, (deref_Some _ _ _ Hfb), bind_ok.
  rewrite (store_Some _ _ _ _ Hfb), bind_ok. split.
  - intros Hn. simpl. rewrite Hn, lookup_insert. destruct (decide (f = l)) as [->|Hne]; simpl.
    + done.
    + rewrite Hb. simpl. by rewrite Hn.
  - intros n nb Hl Hn Hnb Hne. rewrite Hl in Hfr. injection Hfr as <-.
    rewrite Hb in Hfb. injection Hfb as <-. simpl. rewrite Hn, lookup_insert_eq. simpl.
    rewrite lookup_insert_ne, Hnb by done. simpl. rewrite lookup_insert_ne by done.
    rewrite lookup_insert_eq. simpl. eexists. split; [done|].
    unfold get_by_key, find_head in *. simpl. rewrite Hh, bind_ok. unfold find_data. simpl.
    rewrite (array_get_Some _ _ _ Hl), bind_ok. unfold list_fuel, find_cell. simpl.
    by rewrite lookup_delete_eq.
Qed.
End hash_map.
Arguments hash_bucket : clear implicits.
Arguments hash_map : clear implicits.
Arguments new_result : clear implicits.
Arguments map_call : clear implicits.
Arguments reply : clear implicits.

(** The default hash function never overflows an [int] and stays within
    (-31636373, 31636373); on ASCII keys it is non-negative, so the bucket index is in range
    for every table size. On a key with a byte above 127 it can be negative ([char] is
    signed), and the lookup then reads before the bucket array. *)
Theorem default_hash_bounds :
  (∀ key, ∃ code, default_hashing_function key = Ok code ∧ -31636373 < code < 31636373 ∧
     (str_forall is_ascii key = true →
        ∀ (V : Type) size, 0 < size → ∃ i, find_head (empty_map (V := V) size None) key = Ok i ∧
          0 ≤ i < size)) ∧
  get_by_key (empty_map (V := unit) 97 None) (String "255"%char "") = Undefined OutOfBounds.
Proof.
  split; [|reflexivity]. intros key. unfold default_hashing_function at 1.
  destruct (hash_loop_ok (Z.to_nat (int32 (strlen key))) 0 key ltac:(lia)) as (c & Hc & Hr & _).
  exists c. split; [done|]. split; [done|]. intros Ha V size Hs.
  by apply (ascii_key_ok (empty_map (V := V) size None)).
Qed.

(** ** Witnesses *)

Definition sample_calls : list (map_call nat) :=
  [CallPut "a" (Some 1%nat); CallPut "b" (Some 2%nat); CallPutIfAbsent "a" (Some 3%nat);
   CallGet "a"; CallExists "c"].

Definition sample_map : hash_map nat :=
  match run_calls (empty_map 1 None) sample_calls with Ok (_, m) => m | _ => empty_map 1 None end.

Lemma sample_map_rep : hm_rep sample_map (spec_calls ∅ sample_calls).2.
Proof.
  unfold sample_map.
  destruct (run_calls_ok (empty_map 1 None) ∅ sample_calls) as (m & -> & Hm).
  - by apply empty_map_rep.
  - repeat constructor; by apply ascii_key_ok.
  - exact Hm.
Qed.

Lemma hash_map_refines_witness :
  ∃ m', run_calls (empty_map 5 None) sample_calls =
    Ok ([Pointer None; Pointer None; Pointer (Some 1%nat); Pointer (Some 1%nat); Found false], m').
Proof.
  destruct (hash_map_refines 5 sample_calls) as (m' & Hm' & _).
  - lia.
  - repeat constructor.
  - exists m'. exact Hm'.
Defined.

Lemma dispose_frees_all_witness : dispose sample_map = Ok ∅.
Proof. exact (dispose_frees_all sample_map _ sample_map_rep). Defined.

Lemma remove_broken_witness :
  remove sample_map "a" = Undefined NullDeref ∧
  ∃ m', remove sample_map "b" = Ok (Some 2%nat, m') ∧ get_by_key m' "b" = Undefined UseAfterFree.
Proof.
  split.
  - refine (proj1 (remove_broken sample_map _ 0 2%positive (HashBucket "a" (Some 1%nat) 0 None)
      sample_map_rep eq_refl _ eq_refl) eq_refl). vm_compute. split; congruence.
  - refine (proj2 (remove_broken sample_map _ 0 3%positive
      (HashBucket "b" (Some 2%nat) 0 (Some 2%positive)) sample_map_rep eq_refl _ eq_refl)
      2%positive (HashBucket "a" (Some 1%nat) 0 None) eq_refl eq_refl eq_refl _).
    + vm_compute. split; congruence.
    + congruence.
Defined.
