(* ===== verification/Events.v ===== *)
(** * events.c: the event loop

    [struct event_loop_data_t] is [event_loop]: parallel arrays of descriptors,
    handlers and arguments of which the first [max_events] slots are in use; a
    free slot has descriptor -1. The kernel's answers ([epoll_ctl],
    [epoll_wait]) are arguments. A well-formed loop stands for a finite map
    from slot indices to registrations. *)

From S2P Require Import Prelude.

Definition MAX_EVENTS : Z := 1024.

Section events.
(** Handler functions and the [args] pointers they are called with. *)
Context {H P : Type}.

Record event_loop := EventLoop {
  max_events : Z;
  num_of_events : Z;
  fds : list Z;
  handlers : list (option H);
  args : list (option P);
}.

(** [new_event_loop]: the statically allocated arrays are zero. *)
Definition new_event_loop : event_loop :=
  EventLoop 0 0 (replicate (Z.to_nat MAX_EVENTS) 0)
    (replicate (Z.to_nat MAX_EVENTS) None) (replicate (Z.to_nat MAX_EVENTS) None).

(** The scan for a free slot among the slots [i .. i + n - 1]. *)
Fixpoint scan_free (n : nat) (i : Z) (l : list Z) : outcome (option Z) :=
  match n with
  | O => Ok None
  | S n' => fd ← array_get l i; if fd =? -1 then Ok (Some i) else scan_free n' (i + 1) l
  end.

Definition with_counts (mx num : Z) (d : event_loop) : event_loop :=
  EventLoop mx num (fds d) (handlers d) (args d).

Definition find_first_free (d : event_loop) : outcome (Z * event_loop) :=
  free ← scan_free (Z.to_nat (max_events d)) 0 (fds d);
  match free with
  | Some i => Ok (i, with_counts (max_events d) (num_of_events d + 1) d)
  | None =>
      if max_events d <? MAX_EVENTS
      then Ok (max_events d, with_counts (max_events d + 1) (num_of_events d + 1) d)
      else Ok (-1, d)
  end.

(** [while (max_events > 0 && fds[max_events - 1] < 0) max_events--;] *)
Fixpoint trim (fuel : nat) (mx : Z) (l : list Z) : outcome Z :=
  match fuel with
  | O => Diverges
  | S fuel' =>
      if 0 <? mx then
        fd ← array_get l (mx - 1);
        if fd <? 0 then trim fuel' (mx - 1) l else Ok mx
      else Ok mx
  end.

Definition ev_remove_event (index : Z) (d : event_loop) : outcome (bool * event_loop) :=
  if (0 <=? index) && (index <? max_events d) then
    l ← array_set (fds d) index (-1);
    mx ← trim (S (Z.to_nat (max_events d))) (max_events d) l;
    Ok (true, EventLoop mx (num_of_events d - 1) l (handlers d) (args d))
  else Ok (false, d).

(** [epoll_ok]: whether [epoll_ctl (EPOLL_CTL_ADD)] succeeds. *)
Definition ev_add_event (epoll_ok : bool) (fd : Z) (handler : H) (arg : option P) (d : event_loop)
    : outcome (Z * event_loop) :=
  '(index, d1) ← find_first_free d;
  if 0 <=? index then
    if epoll_ok then
      l ← array_set (fds d1) index fd;
      hs ← array_set (handlers d1) index (Some handler);
      az ← array_set (args d1) index arg;
      Ok (index, EventLoop (max_events d1) (num_of_events d1) l hs az)
    else Ok (-1, d1)
  else Ok (-2, d1).

(** The handler a ready descriptor leads to: the lowest slot that has it. *)
Fixpoint scan_handler (n : nat) (i : Z) (fd : Z) (d : event_loop) : outcome (option Z) :=
  match n with
  | O => Ok None
  | S n' => f ← array_get (fds d) i; if fd =? f then Ok (Some i) else scan_handler n' (i + 1) fd d
  end.

(** The call [ev_looping] makes: a handler, its descriptor and its argument.
    [ready] is what [epoll_wait] returned, [None] for -1; the function handles
    one event and returns 0 in every case. *)
Fixpoint dispatch (ready : list Z) (d : event_loop) : outcome (option (H * Z * option P)) :=
  match ready with
  | [] => Ok None
  | fd :: ready' =>
      slot ← scan_handler (Z.to_nat (max_events d)) 0 fd d;
      match slot with
      | Some i =>
          h ← array_get (handlers d) i;
          f ← array_get (fds d) i;
          a ← array_get (args d) i;
          match h with
          | Some h' => Ok (Some (h', f, a))
          | None => Undefined NullDeref
          end
      | None => dispatch ready' d
      end
  end.

Definition ev_looping (ready : option (list Z)) (d : event_loop)
    : outcome (option (H * Z * option P)) :=
  match ready with None => Ok None | Some l => dispatch l d end.

Definition ev_count (d : event_loop) : Z := num_of_events d.

(** ** The registrations a loop stands for *)

Abbreviation registration := (Z * H * option P)%type.

Record ev_shape (d : event_loop) (gm : gmap nat registration) : Prop := {
  ev_fds : Z.of_nat (length (fds d)) = MAX_EVENTS;
  ev_handlers : Z.of_nat (length (handlers d)) = MAX_EVENTS;
  ev_args : Z.of_nat (length (args d)) = MAX_EVENTS;
  ev_max : 0 ≤ max_events d ≤ MAX_EVENTS;
  (** a slot in use is free or registered with a real descriptor *)
  ev_slots i : Z.of_nat i < max_events d →
    (fds d !! i = Some (-1) ∧ gm !! i = None) ∨
    (∃ fd h a, fds d !! i = Some fd ∧ 0 ≤ fd ∧ handlers d !! i = Some (Some h) ∧
       args d !! i = Some a ∧ gm !! i = Some (fd, h, a));
  ev_unused i : max_events d ≤ Z.of_nat i → gm !! i = None;
  (** the last slot in use is registered *)
  ev_trimmed i : Z.of_nat i + 1 = max_events d → is_Some (gm !! i);
}.

Definition ev_rep (d : event_loop) (gm : gmap nat registration) : Prop :=
  ev_shape d gm ∧ num_of_events d = Z.of_nat (size gm).

Lemma zlookup_nat {A} (l : list A) (i : nat) : zlookup l (Z.of_nat i) = l !! i.
Proof. unfold zlookup. destruct (Z.ltb_spec (Z.of_nat i) 0); [lia|]. by rewrite Nat2Z.id. Qed.

Lemma array_get_nat {A} (l : list A) (i : nat) a : l !! i = Some a → array_get l (Z.of_nat i) = Ok a.
Proof. intros Hi. apply array_get_Some. by rewrite zlookup_nat. Qed.

(** The scan returns the lowest free slot, or none when every slot in use is
    registered. *)
Lemma scan_free_ok d gm n i :
  ev_shape d gm → Z.of_nat i + Z.of_nat n = max_events d →
  ∃ r, scan_free n (Z.of_nat i) (fds d) = Ok r ∧
    match r with
    | Some j => ∃ k : nat, j = Z.of_nat k ∧ (i ≤ k)%nat ∧ Z.of_nat k < max_events d ∧
                  gm !! k = None ∧ ∀ x : nat, (i ≤ x < k)%nat → is_Some (gm !! x)
    | None => ∀ x : nat, (i ≤ x)%nat → Z.of_nat x < max_events d → is_Some (gm !! x)
    end.
Proof.
  intros Hd. revert i. induction n as [|n IH]; intros i Hi; simpl.
  - exists None. split; [done|]. intros x. lia.
  - destruct (ev_slots _ _ Hd i ltac:(lia)) as [[Hf Hg]|(fd & h & a & Hf & Hfd & _ & _ & Hg)].
    + rewrite (array_get_nat _ _ _ Hf). simpl. exists (Some (Z.of_nat i)). split; [done|].
      exists i. split_and!; try done; lia.
    + rewrite (array_get_nat _ _ _ Hf). simpl. destruct (Z.eqb_spec fd (-1)); [lia|].
      replace (Z.of_nat i + 1) with (Z.of_nat (S i)) by lia.
      destruct (IH (S i) ltac:(lia)) as (r & -> & Hr). exists r. split; [done|].
      destruct r as [j|].
      * destruct Hr as (k & -> & Hk & Hk' & Hn & Hall). exists k. split_and!; try done; [lia|].
        intros x Hx. destruct (decide (x = i)) as [->|]; [by eexists|]. apply Hall. lia.
      * intros x Hx Hx'. destruct (decide (x = i)) as [->|]; [by eexists|]. apply Hr; lia.
Qed.

Lemma dom_below_max d gm :
  ev_shape d gm → dom gm ⊆ list_to_set (C := gset nat) (seq 0 (Z.to_nat (max_events d))).
Proof.
  intros Hd x. pose proof (ev_max _ _ Hd).
  rewrite elem_of_dom, elem_of_list_to_set, elem_of_seq. intros [r Hr].
  destruct (decide (Z.of_nat x < max_events d)); [lia|].
  rewrite (ev_unused _ _ Hd) in Hr by lia. done.
Qed.

Lemma slots_size (n : nat) : size (list_to_set (C := gset nat) (seq 0 n)) = n.
Proof. rewrite size_list_to_set, length_seq; [done|]. apply NoDup_seq. Qed.

Lemma size_le_max d gm : ev_shape d gm → Z.of_nat (size gm) ≤ max_events d.
Proof.
  intros Hd. pose proof (ev_max _ _ Hd). pose proof (dom_below_max _ _ Hd) as Hsub.
  apply subseteq_size in Hsub. rewrite size_dom, slots_size in Hsub. lia.
Qed.

(** There are as many registrations as slots in use exactly when all of these
    are registered. *)
Lemma full_size d gm :
  ev_shape d gm →
  Z.of_nat (size gm) = max_events d ↔ ∀ x : nat, Z.of_nat x < max_events d → is_Some (gm !! x).
Proof.
  intros Hd. pose proof (ev_max _ _ Hd). pose proof (dom_below_max _ _ Hd) as Hsub. split.
  - intros Hs x Hx. rewrite <- elem_of_dom. eapply set_subseteq_size_eq in Hsub.
    + rewrite Hsub, elem_of_list_to_set, elem_of_seq. lia.
    + rewrite slots_size, size_dom. lia.
  - intros Hall. rewrite <- size_dom.
    assert (dom gm = list_to_set (C := gset nat) (seq 0 (Z.to_nat (max_events d)))) as ->.
    + apply (anti_symm (⊆)); [done|]. intros x.
      rewrite elem_of_list_to_set, elem_of_seq, elem_of_dom. intros. apply Hall. lia.
    + rewrite slots_size. lia.
Qed.

(** The slot a registration will use: the lowest one that is not registered. *)
Lemma find_first_free_ok d gm :
  ev_shape d gm → Z.of_nat (size gm) < MAX_EVENTS →
  ∃ k : nat, find_first_free d =
      Ok (Z.of_nat k, with_counts (Z.max (max_events d) (Z.of_nat k + 1)) (num_of_events d + 1) d) ∧
    gm !! k = None ∧ Z.of_nat k ≤ max_events d ∧ Z.of_nat k < MAX_EVENTS ∧
    ∀ x : nat, (x < k)%nat → is_Some (gm !! x).
Proof.
  intros Hd Hs. pose proof (ev_max _ _ Hd) as Hm. unfold find_first_free.
  destruct (scan_free_ok d gm (Z.to_nat (max_events d)) 0 Hd ltac:(lia)) as (r & Hr & Hspec).
  change (Z.of_nat 0) with 0 in Hr. rewrite Hr. simpl. destruct r as [j|].
  - destruct Hspec as (k & -> & _ & Hk & Hn & Hall). exists k.
    rewrite Z.max_l by lia. split; [done|]. split_and!; try done; try lia.
    intros x Hx. apply Hall. lia.
  - pose proof (proj2 (full_size d gm Hd) ltac:(intros x; apply Hspec; lia)) as Hfull.
    destruct (Z.ltb_spec (max_events d) MAX_EVENTS); [|lia].
    exists (Z.to_nat (max_events d)). rewrite !Z2Nat.id by lia. rewrite Z.max_r by lia.
    split; [done|]. split_and!; try lia.
    + apply (ev_unused _ _ Hd). lia.
    + intros x Hx. apply Hspec; lia.
Qed.

Lemma ev_add_event_ok d gm fd h a :
  ev_rep d gm → 0 ≤ fd → Z.of_nat (size gm) < MAX_EVENTS →
  ∃ (k : nat) d', ev_add_event true fd h a d = Ok (Z.of_nat k, d') ∧ gm !! k = None ∧
    (∀ x : nat, (x < k)%nat → is_Some (gm !! x)) ∧ ev_rep d' (<[k := (fd, h, a)]> gm).
Proof.
  intros [Hd Hn] Hfd Hs.
  destruct (find_first_free_ok d gm Hd Hs) as (k & Hf & Hk & Hk1 & Hk2 & Hall).
  unfold ev_add_event. rewrite Hf, bind_ok. destruct (Z.leb_spec 0 (Z.of_nat k)); [|lia].
  pose proof (ev_fds _ _ Hd). pose proof (ev_handlers _ _ Hd). pose proof (ev_args _ _ Hd).
  simpl. rewrite !array_set_ok by lia. simpl. rewrite Nat2Z.id.
  exists k. eexists. split; [done|]. split; [done|]. split; [done|]. split.
  + split; simpl; try (rewrite length_insert; done).
    * pose proof (ev_max _ _ Hd). lia.
    * intros i Hi. destruct (decide (i = k)) as [->|Hne].
      { right. exists fd, h, a. rewrite !list_lookup_insert_eq by lia.
        by rewrite lookup_insert_eq. }
      rewrite !list_lookup_insert_ne, lookup_insert_ne by done.
      apply (ev_slots _ _ Hd). lia.
    * intros i Hi. rewrite lookup_insert_ne by lia. apply (ev_unused _ _ Hd). lia.
    * intros i Hi. destruct (decide (i = k)) as [->|Hne]; [by rewrite lookup_insert_eq|].
      rewrite lookup_insert_ne by done. apply (ev_trimmed _ _ Hd). lia.
  + simpl. rewrite map_size_insert_None by done. lia.
Qed.

Lemma ev_add_event_full d gm fd h a :
  ev_rep d gm → Z.of_nat (size gm) = MAX_EVENTS → ev_add_event true fd h a d = Ok (-2, d).
Proof.
  intros [Hd Hn] Hs. pose proof (size_le_max _ _ Hd) as Hle. pose proof (ev_max _ _ Hd) as Hm.
  pose proof (proj1 (full_size _ _ Hd) ltac:(lia)) as Hall.
  unfold ev_add_event, find_first_free.
  destruct (scan_free_ok d gm (Z.to_nat (max_events d)) 0 Hd ltac:(lia)) as (r & Hr & Hspec).
  change (Z.of_nat 0) with 0 in Hr. rewrite Hr. simpl. destruct r as [j|].
  - destruct Hspec as (k & -> & _ & Hk & Hnone & _). destruct (Hall k Hk). congruence.
  - destruct (Z.ltb_spec (max_events d) MAX_EVENTS); [lia|]. done.
Qed.

(** Registering a descriptor when [epoll_ctl] succeeds and a slot is left uses the
    lowest slot that is not registered, changes no other registration, keeps the loop
    well-formed and counts one more event; a loop with 1024 registrations refuses with -2
    and is unchanged. *)
Theorem ev_add_event_spec d gm fd h a :
  ev_rep d gm → 0 ≤ fd →
  (Z.of_nat (size gm) < MAX_EVENTS →
     ∃ (k : nat) d', ev_add_event true fd h a d = Ok (Z.of_nat k, d') ∧ gm !! k = None ∧
       (∀ x : nat, (x < k)%nat → is_Some (gm !! x)) ∧ ev_rep d' (<[k := (fd, h, a)]> gm)) ∧
  (Z.of_nat (size gm) = MAX_EVENTS → ev_add_event true fd h a d = Ok (-2, d)).
Proof.
  intros Hrep Hfd. split; intros Hs; [by apply ev_add_event_ok|by eapply ev_add_event_full].
Qed.

(** When [epoll_ctl] fails, [add_event] returns -1 but the event stays counted: the
    slot was reserved before the call and is not given back. On a new loop the reserved slot
    even counts as a registration of descriptor 0 without a handler. *)
Theorem ev_add_event_failure d gm fd h a :
  ev_rep d gm → Z.of_nat (size gm) < MAX_EVENTS →
  (∃ d', ev_add_event false fd h a d = Ok (-1, d') ∧ ev_count d' = Z.of_nat (size gm) + 1) ∧
  (∃ d', ev_add_event false fd h a new_event_loop = Ok (-1, d') ∧
     ev_looping (Some [0]) d' = Undefined NullDeref).
Proof.
  intros [Hd Hn] Hs. split.
  - destruct (find_first_free_ok d gm Hd Hs) as (k & Hf & _).
    unfold ev_add_event. rewrite Hf, bind_ok. destruct (Z.leb_spec 0 (Z.of_nat k)); [|lia].
    eexists. split; [done|]. simpl. lia.
  - eexists. by split.
Qed.

Lemma trim_ok n mx l :
  (Z.to_nat mx < n)%nat → mx ≤ Z.of_nat (length l) → 0 ≤ mx →
  ∃ mx', trim n mx l = Ok mx' ∧ 0 ≤ mx' ≤ mx ∧
    (∀ i fd, mx' ≤ Z.of_nat i < mx → l !! i = Some fd → fd < 0) ∧
    (∀ i fd, Z.of_nat i + 1 = mx' → l !! i = Some fd → 0 ≤ fd).
Proof.
  revert mx. induction n as [|n IH]; intros mx Hn Hl H0; [lia|]. simpl.
  destruct (Z.ltb_spec 0 mx) as [Hpos|]; [|by exists mx; split_and!; intros; try lia].
  destruct (array_get_ok l (mx - 1) ltac:(lia)) as (fd & Hfd & ->). simpl.
  apply zlookup_Some in Hfd as [_ Hfd]. destruct (Z.ltb_spec fd 0).
  - destruct (IH (mx - 1) ltac:(lia) ltac:(lia) ltac:(lia)) as (mx' & -> & Hr & Hneg & Hlast).
    exists mx'. split; [done|]. split_and!; try lia.
    + intros i f Hi Hf. destruct (decide (i = Z.to_nat (mx - 1))) as [->|]; [congruence|].
      eapply Hneg; [|done]. lia.
    + done.
  - exists mx. split; [done|]. split; [lia|]. split; intros i f Hi Hf; [lia|].
    replace i with (Z.to_nat (mx - 1)) in Hf by lia. congruence.
Qed.

Lemma ev_remove_event_ok d gm i :
  ev_rep d gm → is_Some (gm !! i) →
  ∃ d', ev_remove_event (Z.of_nat i) d = Ok (true, d') ∧ ev_rep d' (delete i gm).
Proof.
  intros [Hd Hn] [r Hr]. pose proof (ev_max _ _ Hd) as Hm. pose proof (ev_fds _ _ Hd) as Hlen.
  assert (Hi : Z.of_nat i < max_events d).
  { destruct (decide (Z.of_nat i < max_events d)); [done|].
    rewrite (ev_unused _ _ Hd) in Hr by lia. done. }
  unfold ev_remove_event. rewrite (proj2 (Z.leb_le _ _)), (proj2 (Z.ltb_lt _ _)) by lia.
  rewrite array_set_ok by lia. rewrite bind_ok, Nat2Z.id.
  destruct (trim_ok (S (Z.to_nat (max_events d))) (max_events d) (<[i:=-1]> (fds d)))
    as (mx & Ht & Hmx & Hneg & Hlast); try (rewrite ?length_insert; lia).
  rewrite Ht, bind_ok. eexists. split; [done|]. split.
  + assert (Hsame : ∀ x : nat, Z.of_nat x < max_events d →
              <[i:=-1]> (fds d) !! x = Some (-1) ∧ delete i gm !! x = None ∨
              (∃ fd h a, <[i:=-1]> (fds d) !! x = Some fd ∧ 0 ≤ fd ∧ handlers d !! x = Some (Some h) ∧
                 args d !! x = Some a ∧ delete i gm !! x = Some (fd, h, a))).
    { intros x Hx. destruct (decide (x = i)) as [->|Hne].
      - left. rewrite list_lookup_insert_eq by lia. by rewrite lookup_delete_eq.
      - rewrite list_lookup_insert_ne, lookup_delete_ne by done. by apply (ev_slots _ _ Hd). }
    split; simpl; try apply Hd.
    * by rewrite length_insert.
    * lia.
    * intros x Hx. apply Hsame. lia.
    * intros x Hx. destruct (decide (Z.of_nat x < max_events d)) as [Hlt|].
      { destruct (Hsame x Hlt) as [[_ ?]|(fd & h & a & Hf & Hfd & _)]; [done|].
        specialize (Hneg x fd ltac:(lia) Hf). lia. }
      apply lookup_delete_None. right. apply (ev_unused _ _ Hd). lia.
    * intros x Hx. destruct (Hsame x ltac:(lia)) as [[Hf _]|(fd & h & a & _ & _ & _ & _ & ->)]; [|by eexists].
      specialize (Hlast x _ Hx Hf). lia.
  + simpl. rewrite map_size_delete, Hr. pose proof (map_size_non_empty_iff gm) as [_ Hne].
    assert (size gm ≠ 0%nat) by (intros Hz%map_size_empty_iff; subst gm; by rewrite lookup_empty in Hr).
    lia.
Qed.

Lemma ev_remove_event_out d j : j < 0 ∨ max_events d ≤ j → ev_remove_event j d = Ok (false, d).
Proof.
  intros Hj. unfold ev_remove_event. destruct (Z.leb_spec 0 j), (Z.ltb_spec j (max_events d)); try done. lia.
Qed.

(** Removing a registered slot unregisters exactly that slot, keeps the loop well-formed
    (the slots in use end with a registered one) and counts one event less; an index out of
    range, such as the -1 or -2 of a failed [add_event], changes nothing. *)
Theorem ev_remove_event_spec d gm i :
  ev_rep d gm →
  (is_Some (gm !! i) →
     ∃ d', ev_remove_event (Z.of_nat i) d = Ok (true, d') ∧ ev_rep d' (delete i gm)) ∧
  (∀ j, j < 0 ∨ max_events d ≤ j → ev_remove_event j d = Ok (false, d)).
Proof.
  intros Hrep. split; [by apply ev_remove_event_ok|intros j; apply ev_remove_event_out].
Qed.

Lemma scan_handler_ok d gm fd n i :
  ev_shape d gm → 0 ≤ fd → Z.of_nat i + Z.of_nat n = max_events d →
  ∃ r, scan_handler n (Z.of_nat i) fd d = Ok r ∧
    match r with
    | Some j => ∃ (k : nat) h a, j = Z.of_nat k ∧ gm !! k = Some (fd, h, a)
    | None => ∀ (x : nat) h a, (i ≤ x)%nat → gm !! x ≠ Some (fd, h, a)
    end.
Proof.
  intros Hd Hfd. revert i. induction n as [|n IH]; intros i Hi; simpl.
  - exists None. split; [done|]. intros x h a Hx. rewrite (ev_unused _ _ Hd) by lia. done.
  - destruct (ev_slots _ _ Hd i ltac:(lia)) as [[Hf Hg]|(f & h & a & Hf & Hfd' & _ & _ & Hg)];
      rewrite (array_get_nat _ _ _ Hf); simpl.
    + destruct (Z.eqb_spec fd (-1)); [lia|]. replace (Z.of_nat i + 1) with (Z.of_nat (S i)) by lia.
      destruct (IH (S i) ltac:(lia)) as (r & -> & Hr). exists r. split; [done|].
      destruct r; [done|]. intros x h a Hx. destruct (decide (x = i)) as [->|]; [congruence|].
      apply Hr. lia.
    + destruct (Z.eqb_spec fd f) as [->|Hne].
      * exists (Some (Z.of_nat i)). split; [done|]. by exists i, h, a.
      * replace (Z.of_nat i + 1) with (Z.of_nat (S i)) by lia.
        destruct (IH (S i) ltac:(lia)) as (r & -> & Hr). exists r. split; [done|].
        destruct r; [done|]. intros x h' a' Hx. destruct (decide (x = i)) as [->|]; [congruence|].
        apply Hr. lia.
Qed.

(** Whatever is ready, a handler is only called with a registration. *)
Lemma ev_looping_ok d gm ready :
  ev_rep d gm → (∀ l fd, ready = Some l → fd ∈ l → 0 ≤ fd) →
  ∃ r, ev_looping ready d = Ok r ∧
    match r with Some (h, fd, a) => ∃ i, gm !! i = Some (fd, h, a) | None => True end.
Proof.
  intros [Hd _] Hpos. pose proof (ev_max _ _ Hd) as Hm. destruct ready as [l|]; [|by exists None].
  specialize (Hpos l). induction l as [|fd l IH]; [by exists None|]. simpl.
  destruct (scan_handler_ok d gm fd (Z.to_nat (max_events d)) 0 Hd) as (r & Hr & Hspec);
    [apply Hpos; set_solver|lia|].
  change (Z.of_nat 0) with 0 in Hr. rewrite Hr. simpl. destruct r as [j|].
  - destruct Hspec as (k & h & a & -> & Hk).
    assert (Hlt : Z.of_nat k < max_events d).
    { destruct (decide (Z.of_nat k < max_events d)); [done|]. rewrite (ev_unused _ _ Hd) in Hk by lia. done. }
    destruct (ev_slots _ _ Hd k Hlt) as [[_ ?]|(f & h' & a' & Hf & _ & Hh & Ha & Hg)]; [congruence|].
    rewrite (array_get_nat _ _ _ Hh), (array_get_nat _ _ _ Hf), (array_get_nat _ _ _ Ha). simpl.
    eexists. split; [done|]. by exists k.
  - apply IH. intros f _ Hin. apply Hpos; [done|]. by right.
Qed.

(** The event loop calls the right handler: if the first ready descriptor is registered,
    in one slot, the handler called is the one it was registered with, with that descriptor
    and that argument; if no ready descriptor is registered, or [epoll_wait] fails, nothing
    is called. *)
Theorem ev_looping_spec d gm :
  ev_rep d gm →
  (∀ fd ready i h a, gm !! i = Some (fd, h, a) →
     (∀ j r, gm !! j = Some r → r.1.1 = fd → j = i) →
     ev_looping (Some (fd :: ready)) d = Ok (Some (h, fd, a))) ∧
  (∀ ready, (∀ i fd h a, fd ∈ ready → gm !! i ≠ Some (fd, h, a)) → (∀ fd, fd ∈ ready → 0 ≤ fd) →
     ev_looping (Some ready) d = Ok None) ∧
  ev_looping None d = Ok None.
Proof.
  intros [Hd _]. pose proof (ev_max _ _ Hd) as Hm. split_and!; [| |done].
  - intros fd ready i h a Hi Huniq.
    assert (Hlt : Z.of_nat i < max_events d).
    { destruct (decide (Z.of_nat i < max_events d)); [done|].
      rewrite (ev_unused _ _ Hd) in Hi by lia. done. }
    destruct (ev_slots _ _ Hd i Hlt) as [[_ ?]|(f & h' & a' & Hf & Hfd & Hh & Ha & Hg)]; [congruence|].
    rewrite Hi in Hg. injection Hg as <- <- <-. simpl.
    destruct (scan_handler_ok d gm fd (Z.to_nat (max_events d)) 0 Hd Hfd ltac:(lia)) as (r & Hr & Hspec).
    change (Z.of_nat 0) with 0 in Hr. rewrite Hr. simpl. destruct r as [j|].
    + destruct Hspec as (k & h' & a' & -> & Hk). rewrite (Huniq k _ Hk eq_refl).
      by rewrite (array_get_nat _ _ _ Hh), (array_get_nat _ _ _ Hf), (array_get_nat _ _ _ Ha).
    + by destruct (Hspec i h a ltac:(lia)).
  - intros ready Hnone Hpos. simpl. induction ready as [|fd ready IH]; [done|]. simpl.
    destruct (scan_handler_ok d gm fd (Z.to_nat (max_events d)) 0 Hd) as (r & Hr & Hspec);
      [apply Hpos; set_solver|lia|].
    change (Z.of_nat 0) with 0 in Hr. rewrite Hr. simpl. destruct r as [j|].
    + destruct Hspec as (k & h & a & -> & Hk). exfalso. eapply Hnone; [|exact Hk]. set_solver.
    + apply IH; [intros i f h a Hin; apply Hnone; set_solver|intros f Hin; apply Hpos; set_solver].
Qed.

Lemma new_event_loop_rep : ev_rep new_event_loop ∅.
Proof.
  split; [|done]. split; try done; simpl.
  - intros i Hi. lia.
  - intros i Hi. lia.
Qed.
End events.
Arguments event_loop : clear implicits.


(** ** Witnesses *)

Definition sample_loop : event_loop nat nat :=
  match ev_add_event true 5 7%nat (Some 9%nat) new_event_loop with
  | Ok (_, d) => d | _ => new_event_loop
  end.

Lemma sample_loop_rep : ev_rep sample_loop {[ 0%nat := (5, 7%nat, Some 9%nat) ]}.
Proof.
  destruct (ev_add_event_ok (H := nat) (P := nat) new_event_loop ∅ 5 7%nat (Some 9%nat))
    as (k & d & Hadd & _ & Hlow & Hd).
  - apply new_event_loop_rep.
  - lia.
  - done.
  - assert (k = 0%nat) as ->.
    { destruct k as [|k]; [done|]. destruct (Hlow 0%nat ltac:(lia)) as [? Hr]. by rewrite lookup_empty in Hr. }
    unfold sample_loop. by rewrite Hadd.
Qed.

Lemma ev_add_event_spec_witness :
  ∃ (k : nat) d', ev_add_event true 6 8%nat None sample_loop = Ok (Z.of_nat k, d') ∧
    ev_rep d' (<[k := (6, 8%nat, None)]> {[ 0%nat := (5, 7%nat, Some 9%nat) ]}).
Proof.
  destruct (proj1 (ev_add_event_spec sample_loop _ 6 8%nat None sample_loop_rep ltac:(lia)))
    as (k & d' & H1 & _ & _ & H2).
  - vm_compute. reflexivity.
  - by exists k, d'.
Defined.

Lemma ev_add_event_failure_witness :
  ∃ d', ev_add_event false 6 8%nat None sample_loop = Ok (-1, d') ∧ ev_count d' = 2.
Proof.
  exact (proj1 (ev_add_event_failure sample_loop _ 6 8%nat None sample_loop_rep eq_refl)).
Defined.

Lemma ev_remove_event_spec_witness :
  ∃ d', ev_remove_event 0 sample_loop = Ok (true, d') ∧
    ev_rep d' (delete 0%nat {[ 0%nat := (5, 7%nat, Some 9%nat) ]}).
Proof.
  apply (proj1 (ev_remove_event_spec sample_loop _ 0 sample_loop_rep)). by eexists.
Defined.

Lemma ev_looping_spec_witness : ev_looping (Some [5; 6]) sample_loop = Ok (Some (7%nat, 5, Some 9%nat)).
Proof.
  apply (proj1 (ev_looping_spec sample_loop _ sample_loop_rep)) with (i := 0%nat).
  - by rewrite lookup_singleton_eq.
  - intros j r. rewrite lookup_singleton_Some. by intros [<- _].
Defined.
