(* ===== verification/Utils.v ===== *)
(** * utils.c and min_timer.c: times, addresses as text, and the timer

    Times are [struct timeval]s. [elapsed_time] returns a [double]: its value is
    kept exactly, as a number of microseconds, and compared with thresholds in
    microseconds. (A difference of less than 2^33 seconds and its [double] lie
    on the same side of every integer number of seconds, the spacing of doubles
    there being under a microsecond.) The functions that print into the static
    [anybuffer] thread it as a [text_pool]. *)

From stdpp Require Import pretty.
From S2P Require Import Prelude.

(** ** Times *)

Record timeval := Timeval { tv_sec : Z; tv_usec : Z }.

Definition usec_of (t : timeval) : Z := tv_sec t * 1000000 + tv_usec t.

Definition tv_normal (t : timeval) : Prop := 0 ≤ tv_usec t < 1000000.

Definition tvsub (t1 t0 : timeval) : timeval :=
  let sec := tv_sec t1 - tv_sec t0 in
  let usec := tv_usec t1 - tv_usec t0 in
  if usec <? 0 then Timeval (sec - 1) (usec + 1000000) else Timeval sec usec.

(** [elapsed_time], in microseconds. *)
Definition elapsed_time (t1 t0 : timeval) : Z := usec_of (tvsub t1 t0).

(** [(long) elapsed_time (..)]: whole seconds, truncated towards zero. *)
Definition elapsed_sec (t1 t0 : timeval) : Z := Z.quot (elapsed_time t1 t0) 1000000.

(** The broken-down uptime, computed the same way in [uptime], [tell_time],
    [connect_to_database] and [cmd_uptime]: day, hour, minute, second. *)
Definition uptime_parts (duration : Z) : Z * Z * Z * Z :=
  let day := int32 (Z.quot duration 86400) in
  let seconds := int32 (Z.rem duration 86400) in
  (day, Z.quot seconds 3600, Z.quot (Z.rem seconds 3600) 60, Z.rem seconds 60).

(** [tvsub] of normalised times is normalised and exact to the microsecond, so
    [elapsed_time] is the difference of the two instants. *)
Theorem tvsub_exact t1 t0 :
  tv_normal t1 → tv_normal t0 →
  tv_normal (tvsub t1 t0) ∧ elapsed_time t1 t0 = usec_of t1 - usec_of t0.
Proof.
  unfold tv_normal, elapsed_time, usec_of, tvsub. intros H1 H0.
  destruct (Z.ltb_spec (tv_usec t1 - tv_usec t0) 0); simpl; lia.
Qed.

Lemma elapsed_time_exact t1 t0 : elapsed_time t1 t0 = usec_of t1 - usec_of t0.
Proof.
  unfold elapsed_time, usec_of, tvsub.
  destruct (Z.ltb_spec (tv_usec t1 - tv_usec t0) 0); simpl; lia.
Qed.

(** The printed uptime is the duration: its parts are in their ranges and add up, for
    every duration whose number of days fits an [int]. *)
Theorem uptime_parts_exact duration :
  0 ≤ duration < 86400 * INT_MAX →
  let '(day, hour, min, sec) := uptime_parts duration in
  duration = 86400 * day + 3600 * hour + 60 * min + sec ∧
  0 ≤ day ∧ 0 ≤ hour < 24 ∧ 0 ≤ min < 60 ∧ 0 ≤ sec < 60.
Proof.
  unfold uptime_parts, INT_MAX. intros Hd. rewrite !int32_id; unfold is_int, INT_MIN, INT_MAX;
    Z.to_euclidean_division_equations; lia.
Qed.

(** ** The minute timer *)

Record tm := Tm { tm_sec : Z; tm_min : Z; tm_hour : Z; tm_mday : Z; tm_mon : Z;
                  tm_year : Z; tm_yday : Z }.

Definition time_unit : Z := 5.

Record timer := Timer { last_unit : Z; day_of_year : Z; prev_day_of_year : Z }.

Definition init_minute_timer (tv : timeval) (t : tm) : timer :=
  Timer (Z.quot (tv_sec tv) time_unit) (tm_yday t) (tm_yday t).

Inductive timer_action := Usleep (usec : Z) | Callback (tv : timeval) (t : tm).

(** One turn of the loop of [start_minute_timer]: sleep to the end of the unit,
    or call back once in a new unit. *)
Definition timer_step (tv : timeval) (t : tm) (s : timer) : timer * timer_action :=
  let current_unit := Z.quot (tv_sec tv) time_unit in
  if current_unit =? last_unit s then
    (Timer (last_unit s) (tm_yday t) (day_of_year s),
     Usleep ((time_unit - Z.rem (tv_sec tv) time_unit - 1) * 1000000 + 1000000 - tv_usec tv))
  else (Timer current_unit (tm_yday t) (day_of_year s), Callback tv t).

(** When the timer sleeps it wakes exactly at the start of the next five-second unit,
    after at most five seconds; otherwise it calls back, and the next turn in the same unit
    sleeps, so each unit gets at most one call. *)
Theorem timer_step_aligned tv t s :
  0 ≤ tv_sec tv → tv_normal tv →
  (∀ s' usec, timer_step tv t s = (s', Usleep usec) →
     0 < usec ≤ 5000000 ∧ usec_of tv + usec = (last_unit s + 1) * 5000000) ∧
  (∀ s' tv' t', timer_step tv t s = (s', Callback tv' t') →
     tv' = tv ∧ last_unit s' = Z.quot (tv_sec tv) time_unit ∧
     ∀ tv2 t2, Z.quot (tv_sec tv2) time_unit = Z.quot (tv_sec tv) time_unit →
       ∃ s2 usec, timer_step tv2 t2 s' = (s2, Usleep usec)).
Proof.
  unfold tv_normal, timer_step, usec_of, time_unit. intros Hs Hn.
  destruct (Z.eqb_spec (Z.quot (tv_sec tv) 5) (last_unit s)) as [He|He]; split; intros.
  - simplify_eq. Z.to_euclidean_division_equations; lia.
  - simplify_eq.
  - simplify_eq.
  - simplify_eq. simpl. split; [done|]. split; [done|]. intros tv2 t2 ->.
    rewrite Z.eqb_refl. eauto.
Qed.

(** ** The static text buffers *)

Definition NUM_OF_BUCKET : Z := 20.

Record text_pool := TextPool { idx : Z; anybuffer : list string }.

Definition new_pool : text_pool := TextPool 0 (replicate (Z.to_nat NUM_OF_BUCKET) ""%string).

(** [idx = (idx + 1) % NUM_OF_BUCKET; sprintf (anybuffer[idx], ..); return anybuffer[idx];]
    The result is the index of the buffer. *)
Definition print_text (text : string) (p : text_pool) : outcome (Z * text_pool) :=
  let i := Z.rem (idx p + 1) NUM_OF_BUCKET in
  bufs ← array_set (anybuffer p) i text;
  Ok (i, TextPool i bufs).

Definition hexdigit (n : Z) : ascii := ascii_of_N (Z.to_N (if n <? 10 then 48 + n else 87 + n)).

(** [%02x] of an [unsigned char] *)
Definition hex2 (b : Z) : string :=
  String (hexdigit (b / 16)) (String (hexdigit (b mod 16)) "").

(** [%u] *)
Definition udec (n : Z) : string := pretty (Z.to_N n).

Definition ip_text (ip : list Z) : outcome string :=
  a ← array_get ip 0; b ← array_get ip 1; c ← array_get ip 2; d ← array_get ip 3;
  Ok (udec a +:+ "." +:+ udec b +:+ "." +:+ udec c +:+ "." +:+ udec d).

Definition print_ip (ip : list Z) (p : text_pool) : outcome (Z * text_pool) :=
  t ← ip_text ip; print_text t p.

Definition ether_text (mac : list Z) : outcome string :=
  a ← array_get mac 0; b ← array_get mac 1; c ← array_get mac 2;
  d ← array_get mac 3; e ← array_get mac 4; f ← array_get mac 5;
  Ok (hex2 a +:+ ":" +:+ hex2 b +:+ ":" +:+ hex2 c +:+ ":" +:+
      hex2 d +:+ ":" +:+ hex2 e +:+ ":" +:+ hex2 f).

Definition print_ether (mac : list Z) (p : text_pool) : outcome (Z * text_pool) :=
  t ← ether_text mac; print_text t p.

Definition mac_text (mac : list Z) : outcome string :=
  a ← array_get mac 0; b ← array_get mac 1; c ← array_get mac 2;
  d ← array_get mac 3; e ← array_get mac 4; f ← array_get mac 5;
  Ok (hex2 a +:+ hex2 b +:+ hex2 c +:+ hex2 d +:+ hex2 e +:+ hex2 f).

Definition print_mac (mac : list Z) (p : text_pool) : outcome (Z * text_pool) :=
  t ← mac_text mac; print_text t p.

Definition pool_ok (p : text_pool) : Prop :=
  Z.of_nat (length (anybuffer p)) = NUM_OF_BUCKET ∧ 0 ≤ idx p < NUM_OF_BUCKET.

Fixpoint print_texts (ts : list string) (p : text_pool) : outcome text_pool :=
  match ts with
  | [] => Ok p
  | t :: ts' => '(_, p') ← print_text t p; print_texts ts' p'
  end.

Lemma print_text_ok t p :
  pool_ok p →
  ∃ p', print_text t p = Ok (Z.rem (idx p + 1) NUM_OF_BUCKET, p') ∧ pool_ok p' ∧
    idx p' = Z.rem (idx p + 1) NUM_OF_BUCKET ∧ zlookup (anybuffer p') (idx p') = Some t ∧
    ∀ j, j ≠ idx p' → zlookup (anybuffer p') j = zlookup (anybuffer p) j.
Proof.
  unfold pool_ok, print_text, NUM_OF_BUCKET. intros [Hl Hi].
  set (i := Z.rem (idx p + 1) 20).
  assert (Hr : 0 ≤ i < 20) by (subst i; Z.to_euclidean_division_equations; lia).
  rewrite array_set_ok by lia. simpl. eexists. split; [done|]. simpl. split_and!; try lia.
  - by rewrite length_insert.
  - apply zlookup_Some. split; [lia|]. apply list_lookup_insert_eq. lia.
  - intros j Hj. unfold zlookup. destruct (Z.ltb_spec j 0); [done|].
    apply list_lookup_insert_ne. lia.
Qed.

Lemma print_texts_keep ts p i t :
  pool_ok p → 0 ≤ i < 20 → zlookup (anybuffer p) i = Some t →
  Z.of_nat (length ts) ≤ (i - idx p - 1) mod 20 →
  ∃ p', print_texts ts p = Ok p' ∧ zlookup (anybuffer p') i = Some t.
Proof.
  revert p. induction ts as [|u ts IH]; intros p Hp Hi Ht Hn; [by exists p|]. simpl.
  destruct (print_text_ok u p Hp) as (p' & -> & Hp' & Hidx & _ & Hsame). simpl.
  destruct Hp as [_ Hr]. unfold NUM_OF_BUCKET in *. simpl in Hn.
  assert (Hidx' : idx p' = (idx p + 1) mod 20) by (rewrite Hidx; apply Z.rem_mod_nonneg; lia).
  apply IH; [done|done| |].
  - rewrite Hsame; [done|]. rewrite Hidx'. Z.to_euclidean_division_equations; lia.
  - rewrite Hidx'. Z.to_euclidean_division_equations; lia.
Qed.

(** The text a print function returns stays in its buffer while the following calls
    print up to nineteen other texts; the buffers are indexed within bounds. *)
Theorem print_text_survives t ts p :
  pool_ok p → (length ts ≤ 19)%nat →
  ∃ i p1 p2, print_text t p = Ok (i, p1) ∧ print_texts ts p1 = Ok p2 ∧
    0 ≤ i < NUM_OF_BUCKET ∧ zlookup (anybuffer p2) i = Some t.
Proof.
  intros Hp Hn. destruct (print_text_ok t p Hp) as (p1 & H1 & Hp1 & Hi & Ht & _).
  rewrite <- Hi in H1. pose proof Hp1 as [_ Hr].
  destruct (print_texts_keep ts p1 (idx p1) t Hp1) as (p2 & H2 & H3); [apply Hr|done| |].
  - replace (idx p1 - idx p1 - 1) with (-1) by lia. change (-1 mod 20) with 19. lia.
  - eauto 10.
Qed.

(** ** Parsing a hardware address *)

Definition hexval (c : ascii) : option Z :=
  let n := char_code c in
  if (48 <=? n) && (n <=? 57) then Some (n - 48)
  else if (65 <=? n) && (n <=? 70) then Some (n - 65 + 10)
  else if (97 <=? n) && (n <=? 102) then Some (n - 97 + 10)
  else None.

Definition is_colon (c : ascii) : bool := char_code c =? 58.

Fixpoint count_colons (s : string) : Z :=
  match s with
  | EmptyString => 0
  | String c s' => (if is_colon c then 1 else 0) + count_colons s'
  end.

(** [str[j]]; the byte after the text is the NUL. *)
Definition char_at (s : string) (j : Z) : outcome ascii :=
  if j =? strlen s then Ok "000"%char
  else match String.get (Z.to_nat j) s with
       | Some c => if j <? 0 then Undefined OutOfBounds else Ok c
       | None => Undefined OutOfBounds
       end.

(** [dot *= 16; dot += digit], or the early [return NULL]. *)
Definition add_digit (dot : Z) (c : ascii) : outcome (option Z) :=
  match hexval c with
  | Some v => d ← checked_int (dot * 16); d' ← checked_int (d + v); Ok (Some d')
  | None => Ok None
  end.

(** The form without colons. [k] is incremented by the assignment and again by
    the loop header. The result tells whether the address is returned, and
    holds the bytes of the destination. *)
Fixpoint mac_plain (fuel : nat) (k : Z) (str : string) (out : list Z) : outcome (bool * list Z) :=
  match fuel with
  | O => Diverges
  | S fuel' =>
      if k <? 6 then
        c1 ← char_at str (k * 2);
        d1 ← add_digit 0 c1;
        match d1 with
        | None => Ok (false, out)
        | Some dot1 =>
            c2 ← char_at str (k * 2 + 1);
            d2 ← add_digit dot1 c2;
            match d2 with
            | None => Ok (false, out)
            | Some dot => out' ← array_set out k (dot mod 256); mac_plain fuel' (k + 1 + 1) str out'
            end
        end
      else Ok (true, out)
  end.

(** The form with colons: [Some (k, dot)] when the scan ends, [None] when it
    meets another character. *)
Fixpoint mac_colon (str : string) (k dot : Z) (out : list Z) : outcome (option (Z * Z) * list Z) :=
  match str with
  | EmptyString => Ok (Some (k, dot), out)
  | String c str' =>
      if k <? 6 then
        d ← add_digit dot c;
        match d with
        | Some dot' => mac_colon str' k dot' out
        | None =>
            if is_colon c
            then out' ← array_set out k (dot mod 256); mac_colon str' (k + 1) 0 out'
            else Ok (None, out)
        end
      else Ok (Some (k, dot), out)
  end.

(** [text2macaddr] into a caller's buffer [out] (a [char] store is modulo 256). *)
Definition text2macaddr (str : string) (out : list Z) : outcome (bool * list Z) :=
  let len := strlen str in
  let dot := count_colons str in
  if negb (dot =? 0) && negb (dot =? 5) then Ok (false, out)
  else if (dot =? 0) && negb (len =? 12) then Ok (false, out)
  else if dot =? 0 then mac_plain 4 0 str out
  else
    '(r, out1) ← mac_colon str 0 0 out;
    match r with
    | None => Ok (false, out1)
    | Some (k, d) =>
        if negb (k =? 5) then Ok (false, out1)
        else out2 ← array_set out1 k (d mod 256); Ok (true, out2)
    end.

Definition is_byte (b : Z) : Prop := 0 ≤ b < 256.

(** Case on a number known to be below sixteen. *)
Ltac nibbles n :=
  let H := fresh in
  assert (n = 0 ∨ n = 1 ∨ n = 2 ∨ n = 3 ∨ n = 4 ∨ n = 5 ∨ n = 6 ∨ n = 7 ∨ n = 8 ∨ n = 9 ∨
          n = 10 ∨ n = 11 ∨ n = 12 ∨ n = 13 ∨ n = 14 ∨ n = 15) as H by lia;
  repeat destruct H as [->|H]; [..|subst n].

Lemma hexval_hexdigit n : 0 ≤ n < 16 → hexval (hexdigit n) = Some n.
Proof. intros Hn. nibbles n; reflexivity. Qed.

Lemma hexdigit_not_colon n : 0 ≤ n < 16 → is_colon (hexdigit n) = false.
Proof. intros Hn. nibbles n; reflexivity. Qed.

Lemma byte_nibbles b : is_byte b → 0 ≤ b / 16 < 16 ∧ 0 ≤ b mod 16 < 16 ∧ b / 16 * 16 + b mod 16 = b.
Proof. unfold is_byte. intros. Z.to_euclidean_division_equations; lia. Qed.

Lemma add_digit_hex dot n :
  0 ≤ dot < 16 → 0 ≤ n < 16 → add_digit dot (hexdigit n) = Ok (Some (dot * 16 + n)).
Proof.
  intros Hd Hn. unfold add_digit. rewrite hexval_hexdigit by done.
  rewrite checked_int_ok by (unfold is_int, INT_MIN, INT_MAX; lia). rewrite bind_ok.
  by rewrite checked_int_ok by (unfold is_int, INT_MIN, INT_MAX; lia).
Qed.

(** The two digits [%02x] prints for a byte read back as the byte. *)
Lemma add_hex2 b :
  is_byte b →
  add_digit 0 (hexdigit (b / 16)) = Ok (Some (b / 16)) ∧
  add_digit (b / 16) (hexdigit (b mod 16)) = Ok (Some b).
Proof.
  intros (H1 & H2 & H3)%byte_nibbles. rewrite !add_digit_hex, H3 by lia. split; [|done].
  by rewrite Z.mul_0_l.
Qed.

Lemma count_colons_hex b s : is_byte b → count_colons (hex2 b +:+ s) = count_colons s.
Proof. intros (H1 & H2 & _)%byte_nibbles. simpl. by rewrite !hexdigit_not_colon by lia. Qed.

Lemma mac_colon_hex b s k out :
  is_byte b → k < 6 → mac_colon (hex2 b +:+ s) k 0 out = mac_colon s k b out.
Proof.
  intros Hb Hk. destruct (add_hex2 b Hb) as [H1 H2]. simpl.
  destruct (Z.ltb_spec k 6); [|lia]. by rewrite H1, bind_ok, H2, bind_ok.
Qed.

Lemma count_colons_sep s : count_colons (":" +:+ s) = 1 + count_colons s.
Proof. reflexivity. Qed.

Lemma mac_colon_sep s k dot out :
  0 ≤ k < 6 → k < Z.of_nat (length out) → is_byte dot →
  mac_colon (":" +:+ s) k dot out = mac_colon s (k + 1) 0 (<[Z.to_nat k := dot]> out).
Proof.
  intros Hk Hl Hd. simpl. destruct (Z.ltb_spec k 6); [|lia]. simpl.
  rewrite array_set_ok by lia. simpl. by rewrite Z.mod_small.
Qed.

(** Read the six bytes of a text written with [hex2]. *)
Ltac read_hex :=
  repeat first
    [ rewrite count_colons_hex by done | rewrite count_colons_sep
    | rewrite mac_colon_hex by done | rewrite mac_colon_sep by (simpl; first [done | lia]) ].

(** Parsing the text [print_ether] prints for a six-byte address succeeds and stores
    the same six bytes. *)
Theorem ether_roundtrip a b c d e f o :
  is_byte a → is_byte b → is_byte c → is_byte d → is_byte e → is_byte f → length o = 6%nat →
  ∃ t, ether_text [a; b; c; d; e; f] = Ok t ∧
       text2macaddr t o = Ok (true, [a; b; c; d; e; f]).
Proof.
  intros Ha Hb Hc Hd He Hf Ho. eexists. split; [reflexivity|].
  do 6 (destruct o as [|? o]; [discriminate|]). destruct o; [|discriminate].
  change (hex2 f) with (hex2 f +:+ "")%string. unfold text2macaddr. read_hex.
  change (count_colons "") with 0. simpl (negb _ && _). cbn iota. simpl.
  by rewrite Z.mod_small.
Qed.

(** Parsing a plain twelve-digit address, such as the text [print_mac] prints, reports
    success but stores only every other byte: bytes 1, 3 and 5 of the destination keep
    their old contents. *)
Theorem plain_mac_drops_bytes a b c d e f o0 o1 o2 o3 o4 o5 :
  is_byte a → is_byte b → is_byte c → is_byte d → is_byte e → is_byte f →
  ∃ t, mac_text [a; b; c; d; e; f] = Ok t ∧
       text2macaddr t [o0; o1; o2; o3; o4; o5] = Ok (true, [a; o1; c; o3; e; o5]).
Proof.
  intros Ha Hb Hc Hd He Hf. eexists. split; [reflexivity|].
  change (hex2 f) with (hex2 f +:+ "")%string. unfold text2macaddr. read_hex.
  change (count_colons "") with 0. simpl.
  destruct (add_hex2 a Ha) as [Ha1 Ha2], (add_hex2 c Hc) as [Hc1 Hc2], (add_hex2 e He) as [He1 He2].
  unfold char_at; simpl. rewrite Ha1; simpl. rewrite Ha2; simpl.
  rewrite Hc1; simpl. rewrite Hc2; simpl. rewrite He1; simpl. rewrite He2; simpl.
  by rewrite !Z.mod_small.
Qed.

(** ** The remaining helpers *)

(** [%0nd] of a non-negative number *)
Fixpoint zeros (n : nat) : string :=
  match n with O => "" | S n' => String "0" (zeros n') end.
Definition pad_dec (width : nat) (n : Z) : string :=
  let t := udec n in zeros (width - String.length t) +:+ t.

(** [timet_2_mysql_datetime], from the fields [localtime] returns. *)
Definition datetime_text (t : tm) : string :=
  pad_dec 4 (tm_year t + 1900) +:+ "-" +:+ pad_dec 2 (tm_mon t + 1) +:+ "-" +:+ pad_dec 2 (tm_mday t)
  +:+ " " +:+ pad_dec 2 (tm_hour t) +:+ ":" +:+ pad_dec 2 (tm_min t) +:+ ":" +:+ pad_dec 2 (tm_sec t).

Definition timet_2_mysql_datetime (t : tm) (p : text_pool) : outcome (Z * text_pool) :=
  print_text (datetime_text t) p.

(** [check_byte_ending]: [load] is how the machine reads four bytes as a word. *)
Definition check_byte_ending (load : list Z → Z) : Z :=
  let buffer := [1; 2; 3; 4] in
  let bsum := foldl (λ acc b, acc * 256 + b) 0 buffer in
  let lsum := foldl (λ acc b, acc * 256 + b) 0 (reverse buffer) in
  if bsum =? load buffer then 1 else if lsum =? load buffer then -1 else 0.

(** ** Witnesses *)

Lemma tvsub_exact_witness :
  tvsub (Timeval 10 250000) (Timeval 8 750000) = Timeval 1 500000 ∧
  elapsed_time (Timeval 10 250000) (Timeval 8 750000) = 1500000.
Proof.
  split; [reflexivity|].
  exact (proj2 (tvsub_exact (Timeval 10 250000) (Timeval 8 750000)
    ltac:(unfold tv_normal; simpl; lia) ltac:(unfold tv_normal; simpl; lia))).
Defined.

Lemma uptime_parts_exact_witness : 93784 = 86400 * 1 + 3600 * 2 + 60 * 3 + 4.
Proof. exact (proj1 (uptime_parts_exact 93784 ltac:(unfold INT_MAX; lia))). Defined.

Lemma timer_step_aligned_witness :
  0 < 2500000 ≤ 5000000 ∧ usec_of (Timeval 12 500000) + 2500000 = (2 + 1) * 5000000.
Proof.
  exact (proj1 (timer_step_aligned (Timeval 12 500000) (Tm 0 0 0 0 0 0 0) (Timer 2 0 0)
    ltac:(simpl; lia) ltac:(unfold tv_normal; simpl; lia)) _ _ eq_refl).
Defined.

Lemma print_text_survives_witness :
  ∃ i p1 p2, print_text "a" new_pool = Ok (i, p1) ∧ print_texts ["b"; "c"]%string p1 = Ok p2 ∧
    0 ≤ i < NUM_OF_BUCKET ∧ zlookup (anybuffer p2) i = Some "a"%string.
Proof.
  apply (print_text_survives "a" ["b"; "c"]%string new_pool).
  - unfold pool_ok, NUM_OF_BUCKET. simpl. lia.
  - simpl. lia.
Defined.

Lemma ether_roundtrip_witness :
  ∃ t, ether_text [1; 35; 69; 103; 137; 171] = Ok t ∧
    text2macaddr t [0; 0; 0; 0; 0; 0] = Ok (true, [1; 35; 69; 103; 137; 171]).
Proof. apply ether_roundtrip; unfold is_byte; try lia; reflexivity. Defined.

Lemma plain_mac_drops_bytes_witness :
  ∃ t, mac_text [1; 35; 69; 103; 137; 171] = Ok t ∧
    text2macaddr t [0; 0; 0; 0; 0; 0] = Ok (true, [1; 0; 69; 0; 137; 0]).
Proof. apply plain_mac_drops_bytes; unfold is_byte; lia. Defined.
