(* ===== verification/Logger.v ===== *)
(** * common_logger.c, the appenders, and the run-time control of the log level

    The logger's static state is [logger]; a log call returns the writes it
    makes, in order, and the new state. The format string and its arguments are
    represented by the text they print. The priority is also changed by the
    signals SIGUSR1/SIGUSR2 (main.c) and by the console commands (commands.c). *)

From S2P Require Import Prelude Utils.

Inductive log_priority :=
  | log_fatal | log_error | log_warning | log_notice | log_info | log_debug | log_trace.

#[export] Instance log_priority_eq_dec : EqDecision log_priority.
Proof. solve_decision. Defined.

Definition prio (p : log_priority) : Z :=
  match p with
  | log_fatal => 1 | log_error => 2 | log_warning => 3 | log_notice => 4
  | log_info => 5 | log_debug => 6 | log_trace => 7
  end.

Definition logLevels : list (log_priority * string) :=
  [(log_fatal, "fatal"); (log_error, "error"); (log_warning, "warning"); (log_notice, "notice");
   (log_info, "info"); (log_debug, "debug"); (log_trace, "trace")]%string.

Fixpoint level_by_name (name : string) (l : list (log_priority * string)) : log_priority :=
  match l with
  | [] => log_notice
  | (p, n) :: l' => if strcaseeq name n then p else level_by_name name l'
  end.

Definition logger_get_priority_by_name (name : string) : log_priority := level_by_name name logLevels.

Fixpoint level_name (p : log_priority) (l : list (log_priority * string)) : string :=
  match l with
  | [] => ""
  | (q, n) :: l' => if decide (q = p) then n else level_name p l'
  end.

Definition logger_get_priority_name (p : log_priority) : string := level_name p logLevels.

Section logger.
(** Appenders are identified by their [write] function. *)
Context {A : Type} (excalibur_stderr_appender : A).

Record logger := Logger {
  appender_list : list A;
  priority : log_priority;
  have_initialized : bool;
}.

Definition new_logger : logger := Logger [] log_info false.

Definition con_addAppender (memory : bool) (a : A) (s : logger) : logger :=
  if memory then Logger (a :: appender_list s) (priority s) true else s.

Definition con_clearAppender (s : logger) : logger := Logger [] (priority s) (have_initialized s).

Definition con_getPriority (s : logger) : log_priority := priority s.

Definition con_setPriority (p : log_priority) (s : logger) : log_priority * logger :=
  (priority s, Logger (appender_list s) p (have_initialized s)).

Definition con_isEnable (p : log_priority) (s : logger) : bool := prio p <=? prio (priority s).

(** [con_dolog]: the writes made, and the state. [memory] is the outcome of the
    allocation in [addAppender]. *)
Definition con_dolog (memory : bool) (p : log_priority) (text : string) (s : logger)
    : list (A * log_priority * string) * logger :=
  if prio (priority s) <? prio p then ([], s)
  else
    let s1 :=
      if have_initialized s then s
      else con_addAppender memory excalibur_stderr_appender
             (Logger (appender_list s) (priority s) true) in
    (map (λ a, (a, p, text)) (appender_list s1), s1).

(** The functions of the logger's table, over the printed text. *)
Definition con_log (memory : bool) (p : log_priority) (text : string) (s : logger) := con_dolog memory p text s.
Definition con_fatal (memory : bool) (text : string) (s : logger) := con_dolog memory log_fatal text s.
Definition con_error (memory : bool) (text : string) (s : logger) := con_dolog memory log_error text s.
Definition con_warning (memory : bool) (text : string) (s : logger) := con_dolog memory log_warning text s.
Definition con_notice (memory : bool) (text : string) (s : logger) := con_dolog memory log_notice text s.
Definition con_info (memory : bool) (text : string) (s : logger) := con_dolog memory log_info text s.
Definition con_debug (memory : bool) (text : string) (s : logger) := con_dolog memory log_debug text s.
Definition con_trace (memory : bool) (text : string) (s : logger) := con_dolog memory log_trace text s.

(** ** The log level at run time *)

Inductive signal := SIGUSR1 | SIGUSR2 | SIGOTHER.

Definition lower (p : log_priority) : log_priority :=
  match p with
  | log_trace => log_debug | log_debug => log_info | log_info => log_notice
  | log_notice => log_warning | log_warning => log_error | _ => log_fatal
  end.
Definition raise (p : log_priority) : log_priority :=
  match p with
  | log_fatal => log_error | log_error => log_warning | log_warning => log_notice
  | log_notice => log_info | log_info => log_debug | _ => log_trace
  end.

(** [current_log_priority--] and [++], guarded as in the handler. *)
Definition next_priority (signo : signal) (current : log_priority) : log_priority :=
  match signo with
  | SIGUSR1 => if prio log_warning <? prio current then lower current else current
  | SIGUSR2 => if prio current <? prio log_trace then raise current else current
  | SIGOTHER => current
  end.

(** The handler acts in the main thread only. *)
Definition log_level_change (in_main_thread : bool) (signo : signal)
    (current : log_priority) (s : logger) : log_priority * logger :=
  if in_main_thread
  then let current' := next_priority signo current in (current', (con_setPriority current' s).2)
  else (current, s).

(** The console commands [set logging level ..]: the text printed, and the state. *)
Definition cmd_set_log_level (p : log_priority) (s : logger) : string * logger :=
  ("Logging level: " +:+ logger_get_priority_name p +:+ "
"%string, (con_setPriority p s).2).

Definition cmd_logging_trace := cmd_set_log_level log_trace.
Definition cmd_logging_debug := cmd_set_log_level log_debug.
Definition cmd_logging_info := cmd_set_log_level log_info.
Definition cmd_logging_notice := cmd_set_log_level log_notice.
Definition cmd_logging_warning := cmd_set_log_level log_notice.
Definition cmd_logging_error := cmd_set_log_level log_error.

(** A message is written to every appender, last added first, exactly when its priority
    is at most the logger's; otherwise nothing is written or changed. [isEnable] predicts
    this. The first message of a logger to which no appender was ever added goes to standard
    error. *)
Theorem con_dolog_spec p text s :
  (con_isEnable p s = false → con_dolog true p text s = ([], s)) ∧
  (con_isEnable p s = true →
     con_dolog true p text s =
       if have_initialized s then (map (λ a, (a, p, text)) (appender_list s), s)
       else (map (λ a, (a, p, text)) (excalibur_stderr_appender :: appender_list s),
             con_addAppender true excalibur_stderr_appender s)).
Proof.
  unfold con_dolog, con_isEnable. destruct (Z.leb_spec (prio p) (prio (priority s))).
  - split; [done|]. intros _. rewrite (proj2 (Z.ltb_ge _ _)) by done.
    by destruct (have_initialized s).
  - split; [|done]. intros _. by rewrite (proj2 (Z.ltb_lt _ _)).
Qed.

Fixpoint signals (l : list signal) (current : log_priority) (s : logger) : log_priority * logger :=
  match l with
  | [] => (current, s)
  | x :: l' => let '(c, s') := log_level_change true x current s in signals l' c s'
  end.

(** After any sequence of SIGUSR1 and SIGUSR2 the level moved one step per signal, clamped
    between warning and trace, and the logger's priority is the level the handler keeps.
    (A level below warning, set by the configuration, is only ever raised.) *)
Theorem log_level_change_clamped l current s :
  prio log_warning ≤ prio current → priority s = current →
  let '(c, s') := signals l current s in
  priority s' = c ∧ prio log_warning ≤ prio c ≤ prio log_trace ∧
  prio c = foldl (λ z x, match x with
                         | SIGUSR1 => Z.max 3 (z - 1)
                         | SIGUSR2 => Z.min 7 (z + 1)
                         | SIGOTHER => z
                         end) (prio current) l.
Proof.
  revert current s. induction l as [|x l IH]; intros current s Hw Hs.
  - simpl. split_and!; try done. by destruct current.
  - assert (Hstep : prio (next_priority x current) =
      match x with SIGUSR1 => Z.max 3 (prio current - 1) | SIGUSR2 => Z.min 7 (prio current + 1)
                 | SIGOTHER => prio current end ∧ prio log_warning ≤ prio (next_priority x current))
      by (destruct x, current; simpl in *; lia).
    destruct Hstep as [Hp Hw']. specialize (IH (next_priority x current)
      (Logger (appender_list s) (next_priority x current) (have_initialized s)) Hw' eq_refl).
    simpl. unfold log_level_change, con_setPriority. simpl.
    destruct (signals l _ _) as [c s']. by rewrite Hp in IH.
Qed.

(** Each command sets the level its name says, and prints it, except
    [set logging level warning], which sets the level to notice. *)
Theorem cmd_logging_levels s :
  (priority (cmd_logging_trace s).2 = log_trace ∧ priority (cmd_logging_debug s).2 = log_debug ∧
   priority (cmd_logging_info s).2 = log_info ∧ priority (cmd_logging_notice s).2 = log_notice ∧
   priority (cmd_logging_error s).2 = log_error) ∧
  (priority (cmd_logging_warning s).2 = log_notice ∧
   con_isEnable log_notice (cmd_logging_warning s).2 = true).
Proof. done. Qed.
End logger.
Arguments logger : clear implicits.

Lemma priority_name_table p :
  logger_get_priority_name p =
    match p with
    | log_fatal => "fatal" | log_error => "error" | log_warning => "warning" | log_notice => "notice"
    | log_info => "info" | log_debug => "debug" | log_trace => "trace"
    end%string.
Proof. by destruct p. Qed.

(** The names of the levels round trip, in any letter case, and a name that is no level's
    stands for notice. *)
Theorem priority_names_roundtrip :
  (∀ p name, strcaseeq name (logger_get_priority_name p) = true → logger_get_priority_by_name name = p) ∧
  (∀ name, (∀ p, strcaseeq name (logger_get_priority_name p) = false) →
     logger_get_priority_by_name name = log_notice).
Proof.
  split.
  - intros p name Hn. unfold logger_get_priority_by_name, logLevels. simpl.
    repeat match goal with
      | |- context [strcaseeq name ?n] =>
          let E := fresh in destruct (strcaseeq name n) eqn:E;
            [ rewrite strcaseeq_sym in Hn; pose proof (strcaseeq_trans _ _ _ Hn E); by destruct p |]
      end.
    rewrite priority_name_table in Hn. destruct p; cbv iota in Hn; congruence.
  - intros name Hn. unfold logger_get_priority_by_name, logLevels. simpl.
    by rewrite (Hn log_fatal : strcaseeq name "fatal" = false),
      (Hn log_error : strcaseeq name "error" = false),
      (Hn log_warning : strcaseeq name "warning" = false),
      (Hn log_notice : strcaseeq name "notice" = false),
      (Hn log_info : strcaseeq name "info" = false),
      (Hn log_debug : strcaseeq name "debug" = false),
      (Hn log_trace : strcaseeq name "trace" = false).
Qed.

(** ** The appenders: the text each writes *)

Definition newline : string := String "010"%char "".

(** A message is cut to what an 8192-byte buffer holds: [vsnprintf] is given
    8191 bytes and keeps one for the NUL. *)
Definition cut (text : string) : string := String.substring 0 (Z.to_nat 8190) text.

Definition stamp (now : tm) : string :=
  pad_dec 4 (tm_year now + 1900) +:+ "-" +:+ pad_dec 2 (tm_mon now + 1) +:+ "-" +:+
  pad_dec 2 (tm_mday now) +:+ " " +:+ pad_dec 2 (tm_hour now) +:+ ":" +:+
  pad_dec 2 (tm_min now) +:+ ":" +:+ pad_dec 2 (tm_sec now).

Definition console_writer (now : tm) (file : string) (line : Z) (p : log_priority) (text : string)
    : string :=
  if prio p <=? prio log_error
  then stamp now +:+ " [" +:+ logger_get_priority_name p +:+ "] " +:+ cut text +:+
       " [ at " +:+ file +:+ ":" +:+ udec line +:+ " ]" +:+ newline
  else stamp now +:+ " [" +:+ logger_get_priority_name p +:+ "] " +:+ cut text +:+ newline.

Definition syslog_write (file : string) (line : Z) (p : log_priority) (text : string) : string :=
  if prio p <=? prio log_error
  then "[" +:+ logger_get_priority_name p +:+ "] " +:+ cut text +:+
       " [ at " +:+ file +:+ ":" +:+ udec line +:+ " ]"
  else "[" +:+ logger_get_priority_name p +:+ "] " +:+ cut text.

Definition stderr_write (file : string) (line : Z) (p : log_priority) (text : string) : string :=
  text +:+ newline +:+ String "009"%char "at " +:+ file +:+ " (" +:+ udec line +:+ ") [" +:+
  logger_get_priority_name p +:+ "]" +:+ newline.

(** *** The daily log: one file per day *)

Record dailylog := Dailylog {
  fp : option string;      (* the open file, by its name *)
  path : string; prefix : string; subfix : string;
  yearday : Z;
}.

Definition init_dailylog_appender (filepath fileprefix filesubfix : string) (d : dailylog) : dailylog :=
  Dailylog (fp d) filepath fileprefix filesubfix (yearday d).

Definition dailylog_name (t : tm) (d : dailylog) : string :=
  path d +:+ "/" +:+ prefix d +:+ "-" +:+ pad_dec 4 (tm_year t + 1900) +:+ pad_dec 2 (tm_mon t + 1) +:+
  pad_dec 2 (tm_mday t) +:+ "-" +:+ pad_dec 2 (tm_hour t) +:+ pad_dec 2 (tm_min t) +:+
  pad_dec 2 (tm_sec t) +:+ "." +:+ subfix d.

(** [can_open]: whether [fopen] succeeds. The result is the file and the text
    written to it, if any. *)
Definition dailylog_write (can_open : bool) (t : tm) (file : string) (line : Z) (text : string)
    (d : dailylog) : option (string * string) * dailylog :=
  let d1 :=
    if tm_yday t =? yearday d then d
    else Dailylog (if can_open then Some (dailylog_name t d) else None)
           (path d) (prefix d) (subfix d) (tm_yday t) in
  (match fp d1 with
   | Some f => Some (f, text +:+ newline +:+ String "009"%char "at " +:+ file +:+ "(" +:+
                        udec line +:+ ")" +:+ newline)
   | None => None
   end, d1).

(** The first message of a day decides where the day's messages go: if its file opens,
    every message of that day is written to that file; if it does not, every message of that
    day is lost, [fopen] being tried again only on the next day. *)
Theorem dailylog_one_file_per_day can_open t0 f0 l0 x0 d :
  tm_yday t0 ≠ yearday d →
  let d1 := (dailylog_write can_open t0 f0 l0 x0 d).2 in
  fp d1 = (if can_open then Some (dailylog_name t0 d) else None) ∧
  ∀ can_open' t f l x, tm_yday t = tm_yday t0 →
    (dailylog_write can_open' t f l x d1).2 = d1 ∧
    fst <$> (dailylog_write can_open' t f l x d1).1 = fp d1.
Proof.
  intros Hd. unfold dailylog_write. simpl. destruct (Z.eqb_spec (tm_yday t0) (yearday d)); [done|].
  simpl. split; [done|]. intros can_open' t f l x ->. rewrite Z.eqb_refl. simpl.
  split; [done|]. by destruct can_open.
Qed.

(** ** null_logger.c

    A logger with the same operations that does nothing. [null_isEnable] is the field the
    structure leaves [NULL]. *)

Definition null_log {A S} (p : log_priority) (text : string) (s : S) : list (A * log_priority * string) * S := ([], s).
Definition null_getPriority : Z := 0.
Definition null_setPriority (p : log_priority) : Z := 0.
Definition null_clearAppender {S} (s : S) : S := s.
Definition null_addAppender {A S} (a : A) (s : S) : S := s.
Definition null_isEnable : option (log_priority → bool) := None.

(** [logger->isEnable (p)] *)
Definition call_isEnable (f : option (log_priority → bool)) (p : log_priority) : outcome bool :=
  match f with Some g => Ok (g p) | None => Undefined NullDeref end.

(** The null logger can be set to no level, answers with a level that does not exist, and the
    components that ask a logger whether a level is enabled crash with it. *)
Lemma null_logger_behaviour p :
  null_setPriority p = null_getPriority ∧ (∀ q, prio q ≠ null_getPriority) ∧
  call_isEnable null_isEnable p = Undefined NullDeref.
Proof. split; [done|]. split; [by intros []|done]. Qed.

(** ** Witnesses *)

Lemma log_level_change_clamped_witness :
  let '(c, s') := signals [SIGUSR1; SIGUSR1; SIGUSR1; SIGUSR2] log_info (new_logger (A := nat)) in
  priority s' = c ∧ prio log_warning ≤ prio c ≤ prio log_trace ∧ prio c = 4.
Proof.
  apply (log_level_change_clamped [SIGUSR1; SIGUSR1; SIGUSR1; SIGUSR2] log_info (new_logger (A := nat))).
  - simpl. lia.
  - reflexivity.
Defined.

Lemma dailylog_one_file_per_day_witness :
  let t0 := Tm 0 0 0 1 0 122 0 in
  let d := Dailylog None "/var/log" "proxy" "log" (-1) in
  fp (dailylog_write true t0 "a.c" 1 "m" d).2 = Some "/var/log/proxy-20220101-000000.log"%string.
Proof. exact (proj1 (dailylog_one_file_per_day true (Tm 0 0 0 1 0 122 0) "a.c" 1 "m"
  (Dailylog None "/var/log" "proxy" "log" (-1)) ltac:(simpl; lia))). Defined.
