(* ===== verification/AutoBlacklist.v ===== *)
(** * auto_blacklist.c: how often an address connected lately

    The service counts the connections of every IPv4 address in a ring of
    twelve time slots. The entries are cells of chains, one chain per hash
    bucket, and a pool keeps the cells that expired. The state is [blacklist];
    the clock, the outcome of [malloc] and the time of day are arguments. The
    functions that run under a bucket's mutex are translated as one step; the
    abstract service is the list of all accesses with their time slots. *)

From S2P Require Import Prelude Heap Utils.

Definition RESERVED_ENTRY : Z := 12.

(** [struct access_entry_t] *)
Record access_entry := AccessEntry { a_counter : Z; a_slot : Z }.

(** [struct ip_access_entry_t], without [recent], which nothing reads or writes. *)
Record ip_entry := IpEntry {
  ipaddr : Z;
  access_count : list access_entry;
  counter : Z;
  success_counter : Z;
  log_time : timeval;
  entry_next : ptr;
}.

#[export] Instance ip_entry_linked : Linked ip_entry := {
  next := entry_next;
  set_next p e := IpEntry (ipaddr e) (access_count e) (counter e) (success_counter e) (log_time e) p;
}.
#[export] Instance ip_entry_laws : LinkedLaws ip_entry.
Proof. by split. Qed.

Definition with_counts (acs : list access_entry) (c : Z) (e : ip_entry) : ip_entry :=
  IpEntry (ipaddr e) acs c (success_counter e) (log_time e) (entry_next e).

(** The static variables; [recent_index] is the static local of [expiring]. *)
Record blacklist := Blacklist {
  hash_buffer_size : Z;
  frequency_in_seconds : Z;
  ip_access_buffer : list ptr;
  release_pool : ptr;
  recent_index : Z;
  entries : heap ip_entry;
}.

Definition with_entries (h : heap ip_entry) (s : blacklist) : blacklist :=
  Blacklist (hash_buffer_size s) (frequency_in_seconds s) (ip_access_buffer s) (release_pool s)
    (recent_index s) h.
Definition with_pool (p : ptr) (s : blacklist) : blacklist :=
  Blacklist (hash_buffer_size s) (frequency_in_seconds s) (ip_access_buffer s) p
    (recent_index s) (entries s).
Definition with_heads (bs : list ptr) (s : blacklist) : blacklist :=
  Blacklist (hash_buffer_size s) (frequency_in_seconds s) bs (release_pool s)
    (recent_index s) (entries s).

Definition new_auto_blacklist_service (hash_size monitor_period : Z) : blacklist :=
  Blacklist hash_size (Z.quot monitor_period RESERVED_ENTRY)
    (replicate (Z.to_nat hash_size) None) None (-1) ∅.

(** The cell an entry is built in: one of the pool, or a new one. *)
Definition allocate_new_entry (memory : bool) (s : blacklist) : outcome (ptr * blacklist) :=
  match release_pool s with
  | Some l => e ← deref (entries s) (Some l); Ok (Some l, with_pool (next e) s)
  | None => Ok (malloc memory (entries s), s)
  end.

Definition free_entry (l : loc) (s : blacklist) : outcome blacklist :=
  e ← deref (entries s) (Some l);
  h ← store (entries s) (Some l) (set_next (release_pool s) e);
  Ok (with_pool (Some l) (with_entries h s)).

(** The position in the ring and the slot number, an [int]. *)
Definition current_time_index (now : Z) (s : blacklist) : outcome (Z * Z) :=
  q ← c_div now (frequency_in_seconds s);
  let simplified := int32 q in
  Ok (Z.rem simplified RESERVED_ENTRY, simplified).

(** The body of the loop of [clear_outdated_data]. *)
Definition clear_slot (i s : Z) (e : ip_entry) : outcome ip_entry :=
  a ← array_get (access_count e) i;
  if a_slot a =? s then Ok e
  else if 0 <? a_counter a then
    total ← checked_int (counter e - a_counter a);
    acs ← array_set (access_count e) i (AccessEntry 0 s);
    Ok (with_counts acs total e)
  else
    acs ← array_set (access_count e) i (AccessEntry (a_counter a) s);
    Ok (with_counts acs (counter e) e).

Fixpoint clear_slots (n : nat) (i s : Z) (e : ip_entry) : outcome ip_entry :=
  match n with
  | O => Ok e
  | S n' =>
      e' ← clear_slot i s e;
      clear_slots n' (Z.rem (i + RESERVED_ENTRY - 1) RESERVED_ENTRY) (s - 1) e'
  end.

Definition clear_outdated_data (e : ip_entry) (index slot_index : Z) : outcome ip_entry :=
  clear_slots (Z.to_nat RESERVED_ENTRY) index slot_index e.

(** [htonl] on the little-endian host. *)
Definition htonl (z : Z) : Z :=
  Z.lor (Z.lor (Z.shiftl (Z.land z 255) 24) (Z.shiftl (Z.land (Z.shiftr z 8) 255) 16))
        (Z.lor (Z.shiftl (Z.land (Z.shiftr z 16) 255) 8) (Z.land (Z.shiftr z 24) 255)).

(** A new entry: all counters zero, in front of its chain. *)
Definition first_entry (ip : Z) (tv : timeval) (p : ptr) : ip_entry :=
  IpEntry ip (replicate (Z.to_nat RESERVED_ENTRY) (AccessEntry 0 0)) 0 0 tv p.

Definition insert_entry (memory : bool) (ip hash_index : Z) (tv : timeval) (s : blacklist)
    : outcome (loc * blacklist) :=
  '(p, s1) ← allocate_new_entry memory s;
  match p with
  | None => Undefined NullDeref
  | Some l =>
      first ← array_get (ip_access_buffer s1) hash_index;
      bs ← array_set (ip_access_buffer s1) hash_index (Some l);
      Ok (l, with_heads bs (with_entries (<[l := first_entry ip tv first]> (entries s1)) s1))
  end.

(** Counting one access in the entry: outdated slots are cleared when the
    current one is not yet in the ring. *)
Definition hit (index slot_index : Z) (e : ip_entry) : outcome ip_entry :=
  a ← array_get (access_count e) index;
  e1 ← (if a_slot a =? slot_index then Ok e else clear_outdated_data e index slot_index);
  a1 ← array_get (access_count e1) index;
  count ← checked_int (a_counter a1 + 1);
  acs ← array_set (access_count e1) index (AccessEntry count (a_slot a1));
  total ← checked_int (counter e1 + 1);
  Ok (with_counts acs total e1).

(** [tv] is what [gettimeofday] returns if a new entry is made. The result is
    the entry's address. *)
Definition find_and_increase (memory : bool) (s_addr now : Z) (tv : timeval) (s : blacklist)
    : outcome (loc * blacklist) :=
  let ip := htonl s_addr in
  hash_index ← c_rem ip (uint32 (hash_buffer_size s));
  first ← array_get (ip_access_buffer s) (int32 hash_index);
  '(index, slot_index) ← current_time_index now s;
  r ← find_cell (λ e, ipaddr e =? ip) (list_fuel (entries s)) (entries s) first;
  '(l, s1) ← match r with
             | Some l => Ok (l, s)
             | None => insert_entry memory ip (int32 hash_index) tv s
             end;
  e ← deref (entries s1) (Some l);
  e' ← hit index slot_index e;
  h ← store (entries s1) (Some l) e';
  Ok (l, with_entries h s1).

(** *** Expiring *)

(** [struct ip_access_entry_t **prev]: a bucket head or a [next] field. *)
Inductive link := BucketHead (k : Z) | NextOf (l : loc).

Definition read_link (p : link) (s : blacklist) : outcome ptr :=
  match p with
  | BucketHead k => array_get (ip_access_buffer s) k
  | NextOf l => e ← deref (entries s) (Some l); Ok (next e)
  end.

Definition write_link (p : link) (q : ptr) (s : blacklist) : outcome blacklist :=
  match p with
  | BucketHead k => bs ← array_set (ip_access_buffer s) k q; Ok (with_heads bs s)
  | NextOf l =>
      e ← deref (entries s) (Some l);
      h ← store (entries s) (Some l) (set_next q e);
      Ok (with_entries h s)
  end.

(** The walk over one chain: entries whose counter is zero once aged move to
    [free_list]. Result: the free list, how many were released, how many are
    left. *)
Fixpoint expire_chain (fuel : nat) (index slot_index : Z) (entry : ptr) (prev : link)
    (free_list : ptr) (released left : Z) (s : blacklist) : outcome (ptr * Z * Z * blacklist) :=
  match fuel with
  | O => Diverges
  | S fuel' =>
      match entry with
      | None => Ok (free_list, released, left, s)
      | Some l =>
          e ← deref (entries s) entry;
          e1 ← clear_outdated_data e index slot_index;
          h1 ← store (entries s) entry e1;
          let s1 := with_entries h1 s in
          if counter e1 =? 0 then
            s2 ← write_link prev (next e1) s1;
            e2 ← deref (entries s2) entry;
            h3 ← store (entries s2) entry (set_next free_list e2);
            let s3 := with_entries h3 s2 in
            entry' ← read_link prev s3;
            expire_chain fuel' index slot_index entry' prev (Some l) (released + 1) left s3
          else expire_chain fuel' index slot_index (next e1) (NextOf l) free_list released (left + 1) s1
      end
  end.

(** [while ((entry = free_list) != NULL) { free_list = free_list->next; free_entry (entry); }] *)
Fixpoint release_all (fuel : nat) (free_list : ptr) (s : blacklist) : outcome blacklist :=
  match fuel with
  | O => Diverges
  | S fuel' =>
      match free_list with
      | None => Ok s
      | Some l =>
          e ← deref (entries s) (Some l);
          s' ← free_entry l s;
          release_all fuel' (next e) s'
      end
  end.

(** The buckets [k .. k + n - 1]; the result is the number of released and of
    remaining entries. *)
Fixpoint expire_buckets (n : nat) (k index slot_index released left : Z) (s : blacklist)
    : outcome (Z * Z * blacklist) :=
  match n with
  | O => Ok (released, left, s)
  | S n' =>
      first ← array_get (ip_access_buffer s) k;
      '(fl, released', left', s1) ←
        expire_chain (list_fuel (entries s)) index slot_index first (BucketHead k) None released left s;
      s2 ← release_all (list_fuel (entries s1)) fl s1;
      expire_buckets n' (k + 1) index slot_index released' left' s2
  end.

Definition expiring (now : Z) (s : blacklist) : outcome (Z * blacklist) :=
  '(index, slot_index) ← current_time_index now s;
  if index =? recent_index s then Ok (0, s)
  else
    '(released, _, s1) ← expire_buckets (Z.to_nat (hash_buffer_size s)) 0 index slot_index 0 0 s;
    Ok (released, Blacklist (hash_buffer_size s1) (frequency_in_seconds s1) (ip_access_buffer s1)
                    (release_pool s1) index (entries s1)).

(** [for_each]: the entries the callback is called on, in order. *)
Fixpoint visit_chain (fuel : nat) (entry : ptr) (s : blacklist) : outcome (list loc) :=
  match fuel with
  | O => Diverges
  | S fuel' =>
      match entry with
      | None => Ok []
      | Some l =>
          e ← deref (entries s) entry;
          ls ← visit_chain fuel' (next e) s;
          Ok (if 0 <? counter e then l :: ls else ls)
      end
  end.

Fixpoint visit_buckets (n : nat) (k : Z) (s : blacklist) : outcome (list loc) :=
  match n with
  | O => Ok []
  | S n' =>
      first ← array_get (ip_access_buffer s) k;
      ls ← visit_chain (list_fuel (entries s)) first s;
      ls' ← visit_buckets n' (k + 1) s;
      Ok (ls ++ ls')
  end.

Definition for_each (s : blacklist) : outcome (list loc) :=
  visit_buckets (Z.to_nat (hash_buffer_size s)) 0 s.

(** ** The ring of one entry *)

Ltac ring_lia := unfold RESERVED_ENTRY in *; Z.to_euclidean_division_equations; lia.

(** The slot number position [x] of the ring has in the window that ends at [c]. *)
Definition slot_of (c x : Z) : Z := c - (c - x) mod RESERVED_ENTRY.

Definition sum_counters (acs : list access_entry) : Z := zsum (a_counter <$> acs).

(** The entry's total is the sum of its ring and no number overflows. *)
Record entry_ok (e : ip_entry) : Prop := {
  entry_length : length (access_count e) = 12%nat;
  entry_nonneg : Forall (λ a, 0 ≤ a_counter a) (access_count e);
  entry_total : counter e = sum_counters (access_count e);
  entry_bound : counter e ≤ INT_MAX;
}.

(** Clearing one position: its slot number becomes [s], its count is dropped
    unless it already was the count of slot [s]. *)
Definition clear_cell (s : Z) (a : access_entry) : access_entry :=
  if a_slot a =? s then a else AccessEntry 0 s.

Lemma sum_counters_insert acs i a b :
  acs !! i = Some a → sum_counters (<[i := b]> acs) = sum_counters acs - a_counter a + a_counter b.
Proof.
  intros Ha. unfold sum_counters. rewrite list_fmap_insert.
  apply zsum_insert. by rewrite list_lookup_fmap, Ha.
Qed.

Lemma sum_counters_nonneg acs : Forall (λ a, 0 ≤ a_counter a) acs → 0 ≤ sum_counters acs.
Proof. intros H. apply zsum_nonneg. by apply Forall_fmap. Qed.

(** A count is at most the total. *)
Lemma sum_counters_le acs i a :
  Forall (λ a, 0 ≤ a_counter a) acs → acs !! i = Some a → a_counter a ≤ sum_counters acs.
Proof.
  intros Hn Ha. pose proof (sum_counters_insert acs i a (AccessEntry 0 0) Ha) as Hs. simpl in Hs.
  assert (0 ≤ sum_counters (<[i:=AccessEntry 0 0]> acs)); [|lia].
  apply sum_counters_nonneg. by apply Forall_insert.
Qed.

Definition same_header (e e' : ip_entry) : Prop :=
  ipaddr e' = ipaddr e ∧ success_counter e' = success_counter e ∧ log_time e' = log_time e ∧
  entry_next e' = entry_next e.

Lemma clear_slot_ok i s e :
  entry_ok e → 0 ≤ i < 12 →
  ∃ a, access_count e !! Z.to_nat i = Some a ∧
    clear_slot i s e =
      Ok (with_counts (<[Z.to_nat i := clear_cell s a]> (access_count e))
            (sum_counters (<[Z.to_nat i := clear_cell s a]> (access_count e))) e) ∧
    entry_ok (with_counts (<[Z.to_nat i := clear_cell s a]> (access_count e))
            (sum_counters (<[Z.to_nat i := clear_cell s a]> (access_count e))) e).
Proof.
  intros [Hlen Hnn Htot Hb] Hi.
  destruct (array_get_ok (access_count e) i ltac:(lia)) as (a & Ha & Hg).
  apply zlookup_Some in Ha as [_ Ha]. exists a. split; [done|].
  pose proof (sum_counters_insert _ _ _ (clear_cell s a) Ha) as Hsum.
  pose proof (proj1 (Forall_lookup _ _) Hnn _ _ Ha) as Ha0. simpl in Ha0.
  pose proof (sum_counters_le _ _ _ Hnn Ha) as Hle. split.
  - unfold clear_slot. rewrite Hg, bind_ok. unfold clear_cell in *.
    destruct (Z.eqb_spec (a_slot a) s) as [He|He].
    + rewrite list_insert_id by done. rewrite <- Htot. by destruct e.
    + simpl in Hsum. rewrite Hsum, Htot. destruct (Z.ltb_spec 0 (a_counter a)).
      * rewrite checked_int_ok, bind_ok by (unfold is_int, INT_MIN, INT_MAX in *; lia).
        rewrite array_set_ok, bind_ok by lia. do 2 f_equal. lia.
      * rewrite array_set_ok, bind_ok by lia. replace (a_counter a) with 0 by lia. do 2 f_equal. lia.
  - split; simpl.
    + by rewrite length_insert.
    + apply Forall_insert; [done|]. unfold clear_cell. case_match; simpl; lia.
    + done.
    + rewrite Hsum. unfold clear_cell. case_match; simpl; lia.
Qed.

(** After clearing [n] positions backwards from slot [s], exactly the positions
    of the slots [s - n + 1 .. s] are cleared. *)
Lemma clear_slots_ok n s e :
  entry_ok e → (n ≤ 12)%nat →
  ∃ e', clear_slots n (s mod 12) s e = Ok e' ∧ entry_ok e' ∧ same_header e e' ∧
    ∀ x : nat, (x < 12)%nat →
      access_count e' !! x =
        (if (s - Z.of_nat x) mod 12 <? Z.of_nat n then clear_cell (slot_of s (Z.of_nat x)) else id)
          <$> access_count e !! x.
Proof.
  revert s e. induction n as [|n IH]; intros s e He Hn.
  - exists e. split; [done|]. split; [done|]. split; [done|]. intros x Hx.
    destruct (Z.ltb_spec ((s - Z.of_nat x) mod 12) (Z.of_nat 0)); [ring_lia|].
    by rewrite option_fmap_id.
  - destruct (clear_slot_ok (s mod 12) s e He ltac:(ring_lia)) as (a & Ha & Hc & He1). simpl.
    rewrite Hc, bind_ok. replace (Z.rem (s mod 12 + RESERVED_ENTRY - 1) RESERVED_ENTRY)
      with ((s - 1) mod 12) by ring_lia.
    destruct (IH (s - 1) _ He1 ltac:(lia)) as (e' & -> & He' & Hh & Hx'). exists e'.
    split; [done|]. split; [done|]. split; [done|]. intros x Hx. rewrite (Hx' x Hx). simpl.
    destruct (decide (x = Z.to_nat (s mod 12))) as [->|Hne].
    + rewrite list_lookup_insert_eq by (rewrite (entry_length _ He); lia). rewrite Ha. simpl.
      rewrite Z2Nat.id by ring_lia.
      destruct (Z.ltb_spec ((s - 1 - s mod 12) mod 12) (Z.of_nat n)); [ring_lia|].
      destruct (Z.ltb_spec ((s - s mod 12) mod 12) (Z.of_nat (S n))); [|ring_lia].
      unfold slot_of, id. do 2 f_equal. ring_lia.
    + rewrite list_lookup_insert_ne by done.
      assert (Hs : (s - 1 - Z.of_nat x) mod 12 = (s - Z.of_nat x) mod 12 - 1) by ring_lia.
      rewrite Hs. unfold slot_of, RESERVED_ENTRY. rewrite Hs.
      destruct (Z.ltb_spec ((s - Z.of_nat x) mod 12 - 1) (Z.of_nat n)),
        (Z.ltb_spec ((s - Z.of_nat x) mod 12) (Z.of_nat (S n))); try lia; [|done].
      by replace (s - 1 - ((s - Z.of_nat x) mod 12 - 1)) with (s - (s - Z.of_nat x) mod 12) by lia.
Qed.

(** The ring holds the window that ends at slot [c]: each position counts the
    accesses [hs] of its slot. *)
Record aligned (e : ip_entry) (c : Z) (hs : list Z) : Prop := {
  aligned_ok : entry_ok e;
  aligned_past t : t ∈ hs → t ≤ c;
  aligned_ring (x : nat) : (x < 12)%nat →
    access_count e !! x = Some (AccessEntry (countb (Z.eqb (slot_of c (Z.of_nat x))) hs)
                                  (slot_of c (Z.of_nat x)));
}.

(** Clearing with slot [s] would align the ring: a position that already has its
    slot number for the window ending at [s] has the right count, and no access
    is missing from the others. *)
Record ready (e : ip_entry) (s : Z) (hs : list Z) : Prop := {
  ready_ok : entry_ok e;
  ready_past t : t ∈ hs → t ≤ s;
  ready_ring (x : nat) : (x < 12)%nat → ∃ a, access_count e !! x = Some a ∧
    countb (Z.eqb (slot_of s (Z.of_nat x))) hs =
      if a_slot a =? slot_of s (Z.of_nat x) then a_counter a else 0;
  ready_now a : access_count e !! Z.to_nat (s mod 12) = Some a → a_slot a = s → aligned e s hs;
}.

Lemma slot_of_now s : slot_of s (s mod 12) = s.
Proof. unfold slot_of. ring_lia. Qed.

Lemma clear_outdated_ok e s hs :
  ready e s hs →
  ∃ e', clear_outdated_data e (s mod 12) s = Ok e' ∧ aligned e' s hs ∧ same_header e e'.
Proof.
  intros [He Hp Hr _]. unfold clear_outdated_data.
  destruct (clear_slots_ok 12 s e He ltac:(lia)) as (e' & Hc & He' & Hh & Hx).
  change (Z.to_nat RESERVED_ENTRY) with 12%nat. exists e'. split; [done|]. split; [|done].
  split; [done|done|]. intros x Hlt. destruct (Hr x Hlt) as (a & Ha & Hcount).
  rewrite (Hx x Hlt), Ha. destruct (Z.ltb_spec ((s - Z.of_nat x) mod 12) (Z.of_nat 12)); [|ring_lia].
  simpl. rewrite Hcount. unfold clear_cell. destruct (Z.eqb_spec (a_slot a) (slot_of s (Z.of_nat x))) as [<-|].
  - by destruct a.
  - done.
Qed.

(** A ring aligned at [c] is ready for any later slot. *)
Lemma aligned_ready e c s hs : aligned e c hs → c ≤ s → ready e s hs.
Proof.
  intros He Hc. pose proof He as [Hok Hp Hr]. split; [done| | |].
  - intros t Ht. specialize (Hp t Ht). lia.
  - intros x Hx. eexists. split; [by apply Hr|]. simpl.
    destruct (Z.eqb_spec (slot_of c (Z.of_nat x)) (slot_of s (Z.of_nat x))) as [->|Hne]; [done|].
    apply countb_zero. intros t Ht. apply Z.eqb_neq. intros <-.
    specialize (Hp _ Ht). unfold slot_of in *. ring_lia.
  - intros a. rewrite Hr by ring_lia. intros [= <-]. simpl. rewrite Z2Nat.id by ring_lia.
    intros Hs. replace s with c; [done|]. unfold slot_of in Hs. ring_lia.
Qed.

(** A new entry is ready when no access is in the window. *)
Lemma first_entry_ready ip tv p s hs :
  0 < s → (∀ t, t ∈ hs → t ≤ s - 12) → ready (first_entry ip tv p) s hs.
Proof.
  intros Hs Hold. split.
  - split; simpl; try done; repeat constructor; done.
  - intros t Ht. specialize (Hold t Ht). lia.
  - intros x Hx. exists (AccessEntry 0 0). split.
    { by apply (lookup_replicate_2 12). }
    cbn [a_slot a_counter]. destruct (0 =? slot_of s (Z.of_nat x)); apply countb_zero; intros t Ht; apply Z.eqb_neq; intros <-;
      specialize (Hold _ Ht); unfold slot_of in Hold; ring_lia.
  - intros a [-> _]%(lookup_replicate_1 12). simpl. lia.
Qed.

(** The total is the number of accesses in the window. *)
Lemma window_partition c hs :
  (∀ t, t ∈ hs → t ≤ c) →
  zsum (map (λ x, countb (Z.eqb (slot_of c (Z.of_nat x))) hs) (seq 0 12)) =
  countb (λ t, c - 12 <? t) hs.
Proof.
  induction hs as [|t hs IH]; intros Hp; [reflexivity|].
  assert (IH' := IH ltac:(intros; apply Hp; set_solver)). assert (Ht : t ≤ c) by (apply Hp; set_solver).
  clear IH Hp. simpl in *. rewrite <- IH'. clear IH'. unfold slot_of.
  assert (Hx : ∀ x, (c - (c - x) mod RESERVED_ENTRY =? t) = (x mod 12 =? t mod 12) && (c - 12 <? t)).
  { intros x. apply eq_true_iff_eq. rewrite andb_true_iff, !Z.eqb_eq, Z.ltb_lt. split; intros; ring_lia. }
  rewrite !Hx. pose proof (Z.mod_pos_bound t 12 ltac:(lia)) as Hr.
  destruct (c - 12 <? t).
  - rewrite !andb_true_r. revert Hr. generalize (t mod 12). intros r Hr. clear Hx.
    assert (r = 0 ∨ r = 1 ∨ r = 2 ∨ r = 3 ∨ r = 4 ∨ r = 5 ∨ r = 6 ∨ r = 7 ∨ r = 8 ∨ r = 9 ∨
            r = 10 ∨ r = 11) as H by lia.
    repeat destruct H as [->|H]; [..|subst r]; simpl; lia.
  - rewrite !andb_false_r. simpl. lia.
Qed.

Lemma aligned_total e c hs : aligned e c hs → counter e = countb (λ t, c - 12 <? t) hs.
Proof.
  intros [Hok Hp Hr]. rewrite (entry_total _ Hok), <- window_partition by done.
  unfold sum_counters. f_equal. apply list_eq. intros x.
  rewrite list_lookup_fmap. destruct (decide (x < 12)%nat) as [Hx|Hx].
  - rewrite Hr by done. rewrite list_lookup_fmap, lookup_seq_lt by done. done.
  - rewrite !lookup_ge_None_2; [done| |].
    + rewrite length_map, length_seq. lia.
    + rewrite (entry_length _ Hok). lia.
Qed.

Lemma hit_ok e s hs :
  ready e s hs → Z.of_nat (length hs) < INT_MAX →
  ∃ e', hit (s mod 12) s e = Ok e' ∧ aligned e' s (s :: hs) ∧ same_header e e'.
Proof.
  intros Hready Hlen. unfold hit. assert (Hmod : 0 ≤ s mod 12 < 12) by ring_lia.
  destruct (ready_ring _ _ _ Hready (Z.to_nat (s mod 12)) ltac:(ring_lia)) as (a & Ha & _).
  rewrite (array_get_Some _ _ a), bind_ok by (apply zlookup_Some; split; [ring_lia|done]).
  assert (∃ e1, (if a_slot a =? s then Ok e else clear_outdated_data e (s mod 12) s) = Ok e1 ∧
            aligned e1 s hs ∧ same_header e e1) as (e1 & -> & Hal & Hh).
  { destruct (Z.eqb_spec (a_slot a) s) as [Hs|_]; [|by apply clear_outdated_ok].
    exists e. split; [done|]. split; [by eapply ready_now|done]. }
  rewrite bind_ok. pose proof Hal as [Hok Hp Hr]. pose proof (Hr (Z.to_nat (s mod 12)) ltac:(ring_lia)) as Hnow.
  rewrite Z2Nat.id, slot_of_now in Hnow by ring_lia.
  rewrite (array_get_Some (access_count e1) (s mod 12) (AccessEntry (countb (Z.eqb s) hs) s)), bind_ok
    by (apply zlookup_Some; split; [lia|done]).
  pose proof (entry_length _ Hok) as Hl12.
  pose proof (countb_bounds (Z.eqb s) hs) as Hc1. pose proof (countb_bounds (λ t, s - 12 <? t) hs) as Hc2.
  rewrite <- (aligned_total _ _ _ Hal) in Hc2.
  cbn [a_counter a_slot]. rewrite (checked_int_ok (countb (Z.eqb s) hs + 1)), bind_ok by (unfold is_int, INT_MIN, INT_MAX in *; lia).
  rewrite array_set_ok, bind_ok by lia.
  rewrite checked_int_ok, bind_ok by (unfold is_int, INT_MIN, INT_MAX in *; lia).
  eexists. split; [done|]. split; [|done]. split; simpl.
  - pose proof (sum_counters_insert _ _ _ (AccessEntry (countb (Z.eqb s) hs + 1) s) Hnow) as Hsum.
    simpl in Hsum. split; simpl.
    + rewrite length_insert. apply Hok.
    + apply Forall_insert; [apply Hok|]. simpl. lia.
    + rewrite Hsum, (entry_total _ Hok). lia.
    + unfold INT_MAX in *. lia.
  - intros t [->|Ht]%elem_of_cons; [lia|by apply Hp].
  - intros x Hx. destruct (decide (x = Z.to_nat (s mod 12))) as [->|Hne].
    + rewrite list_lookup_insert_eq by (rewrite (entry_length _ Hok); lia).
      rewrite Z2Nat.id, slot_of_now, Z.eqb_refl by ring_lia. do 2 f_equal. lia.
    + rewrite list_lookup_insert_ne, Hr by done. do 2 f_equal.
      rewrite (proj2 (Z.eqb_neq _ _)); [done|]. unfold slot_of. ring_lia.
Qed.

(** ** The table *)

(** The slots of the accesses of one address in the log of all accesses. *)
Definition hits (ip : Z) (log : list (Z * Z)) : list Z :=
  map snd (List.filter (λ a, fst a =? ip) log).

Definition live (log : list (Z * Z)) (c : Z) (e : ip_entry) : Prop :=
  ∃ c', c' ≤ c ∧ aligned e c' (hits (ipaddr e) log).

(** The addresses that hash to chain [k]. *)
Definition home (s : blacklist) (ip : Z) : Z := Z.rem ip (hash_buffer_size s).

Definition bucket (s : blacklist) (k : Z) : Prop := 0 ≤ k < hash_buffer_size s.

(** [table log c s ch pool fp fl]: at slot [c], after the accesses [log], chain
    [k] has the cells [ch k] and the pool has the cells [pool]; [fl] are the cells
    of a free list that starts at [fp], while one is being built. *)
Record table (log : list (Z * Z)) (c : Z) (s : blacklist) (ch : Z → list loc) (pool : list loc)
    (fp : ptr) (fl : list loc) : Prop := {
  t_size : 0 < hash_buffer_size s ≤ INT_MAX;
  t_freq : 0 < frequency_in_seconds s;
  t_len : Z.of_nat (length (ip_access_buffer s)) = hash_buffer_size s;
  t_chain k : bucket s k →
    ∃ p, zlookup (ip_access_buffer s) k = Some p ∧ is_list (entries s) p (ch k);
  t_pool : is_list (entries s) (release_pool s) pool;
  t_free : is_list (entries s) fp fl;
  (** every cell of a chain is at home, and counts the accesses of its address *)
  t_entry k l : bucket s k → l ∈ ch k →
    ∃ e, entries s !! l = Some e ∧ home s (ipaddr e) = k ∧ live log c e;
  t_unique k l l' e e' : bucket s k → l ∈ ch k → l' ∈ ch k →
    entries s !! l = Some e → entries s !! l' = Some e' → ipaddr e = ipaddr e' → l = l';
  (** chains, pool and free list share no cell, and no cell is lost *)
  t_apart k l : bucket s k → l ∈ pool ++ fl → l ∉ ch k;
  t_nodup : NoDup (pool ++ fl);
  t_owned l : is_Some (entries s !! l) → l ∈ pool ++ fl ∨ (∃ k, bucket s k ∧ l ∈ ch k);
  (** an address with an access in the window has an entry *)
  t_ips ip t : (ip, t) ∈ log → 0 ≤ ip ∧ t ≤ c;
  t_complete ip t : (ip, t) ∈ log → c - 12 < t →
    ∃ l e, l ∈ ch (home s ip) ∧ entries s !! l = Some e ∧ ipaddr e = ip;
}.

Lemma hits_elem ip t log : t ∈ hits ip log ↔ (ip, t) ∈ log.
Proof.
  unfold hits. rewrite !list_elem_of_In, in_map_iff. split.
  - intros ([ip' t'] & <- & [Hin Heq]%List.filter_In). simpl in *. by apply Z.eqb_eq in Heq as ->.
  - intros Hin. exists (ip, t). split; [done|]. apply List.filter_In. simpl. by rewrite Z.eqb_refl.
Qed.

Lemma hits_length ip log : (length (hits ip log) ≤ length log)%nat.
Proof. unfold hits. rewrite length_map. apply List.filter_length_le. Qed.

Lemma hits_cons_eq ip t log : hits ip ((ip, t) :: log) = t :: hits ip log.
Proof. unfold hits. simpl. by rewrite Z.eqb_refl. Qed.

Lemma hits_cons_ne ip ip' t log : ip ≠ ip' → hits ip' ((ip, t) :: log) = hits ip' log.
Proof. intros Hne. unfold hits. simpl. by rewrite (proj2 (Z.eqb_neq _ _) Hne). Qed.

Lemma home_bucket s ip : 0 < hash_buffer_size s → 0 ≤ ip → bucket s (home s ip).
Proof. intros. apply Z.rem_bound_pos; lia. Qed.

Lemma live_later log c s e : c ≤ s → live log c e → live log s e.
Proof. intros Hc (c' & Hc' & He). exists c'. split; [lia|done]. Qed.

Lemma table_later log c s st ch pool fp fl :
  c ≤ s → table log c st ch pool fp fl → table log s st ch pool fp fl.
Proof.
  intros Hc []. split; try done.
  - intros k l Hk Hl. destruct (t_entry0 k l Hk Hl) as (e & He & Hh & Hlive).
    eauto using live_later.
  - intros ip t Hin. destruct (t_ips0 ip t Hin). lia.
  - intros ip t Hin Ht. apply (t_complete0 ip t Hin). lia.
Qed.

(** Each cell belongs to one chain. *)
Lemma chains_apart log c s ch pool fp fl k k' l :
  table log c s ch pool fp fl → bucket s k → bucket s k' → l ∈ ch k → l ∈ ch k' → k = k'.
Proof.
  intros Ht Hk Hk' Hl Hl'. destruct (t_entry _ _ _ _ _ _ _ Ht k l Hk Hl) as (e & He & <- & _).
  destruct (t_entry _ _ _ _ _ _ _ Ht k' l Hk' Hl') as (e' & He' & <- & _). by simplify_eq.
Qed.

(** [log'] differs from [log] in the accesses of [ip] only. *)
Definition same_but (ip c : Z) (log log' : list (Z * Z)) : Prop :=
  (∀ ip', ip' ≠ ip → hits ip' log' = hits ip' log) ∧
  (∀ ip' t, (ip', t) ∈ log' → 0 ≤ ip' ∧ t ≤ c).

Lemma same_but_complete ip c log log' ip' t :
  same_but ip c log log' → ip' ≠ ip → (ip', t) ∈ log' → (ip', t) ∈ log.
Proof. intros [Hs _] Hne. rewrite <- !hits_elem. by rewrite Hs. Qed.

Lemma same_but_live ip c log log' e :
  same_but ip c log log' → ipaddr e ≠ ip → live log c e → live log' c e.
Proof. intros [Hs _] Hne (c' & Hc & He). exists c'. by rewrite Hs. Qed.

(** The counts of an entry may be rewritten, when they then are those of [log']. *)
Lemma table_update log log' c s ch pool fp fl k l e e' :
  table log c s ch pool fp fl → bucket s k → l ∈ ch k → entries s !! l = Some e →
  ipaddr e' = ipaddr e → entry_next e' = entry_next e → same_but (ipaddr e) c log log' → live log' c e' →
  table log' c (with_entries (<[l := e']> (entries s)) s) ch pool fp fl.
Proof.
  intros Ht Hk Hl He Hip Hn Hlog Hlive. pose proof Ht as [].
  assert (Hlist : ∀ p ls, is_list (entries s) p ls → is_list (<[l:=e']> (entries s)) p ls).
  { intros p ls. by apply (is_list_insert_next _ _ _ _ e). }
  assert (Hold : ∀ l' e1, <[l:=e']> (entries s) !! l' = Some e1 →
            ∃ e0, entries s !! l' = Some e0 ∧ ipaddr e1 = ipaddr e0).
  { intros l' e1. destruct (decide (l = l')) as [<-|Hne].
    - rewrite lookup_insert_eq. intros [= <-]. eauto.
    - rewrite lookup_insert_ne by done. eauto. }
  destruct (t_entry0 k l Hk Hl) as (e0 & He0 & Hh & _). simplify_eq.
  split; try done; simpl in *.
  - intros k' Hk'. destruct (t_chain0 k' Hk') as (p & Hp & Hls). eauto.
  - by apply Hlist.
  - by apply Hlist.
  - intros k' l' Hk' Hl'. destruct (decide (l = l')) as [<-|Hne].
    + exists e'. rewrite lookup_insert_eq, Hip. split_and!; try done.
      by eapply (chains_apart _ _ _ _ _ _ _ _ _ l Ht).
    + rewrite lookup_insert_ne by done. destruct (t_entry0 k' l' Hk' Hl') as (e1 & He1 & Hh1 & Hl1).
      exists e1. split_and!; try done. eapply same_but_live; [done| |done].
      intros Heq. apply Hne. unfold home in *. rewrite Heq in Hh1. subst k'. eauto.
  - intros k' l1 l2 e1 e2 Hk' Hl1 Hl2 (e3 & He3 & ->)%Hold (e4 & He4 & ->)%Hold. eauto.
  - intros l' Hs. apply t_owned0. destruct (decide (l = l')) as [<-|Hne]; [by eexists|].
    by rewrite lookup_insert_ne in Hs.
  - by apply Hlog.
  - intros ip t Hin Hc. destruct (decide (ip = ipaddr e)) as [->|Hne].
    { exists l, e'. by rewrite lookup_insert_eq. }
    destruct (t_complete0 ip t) as (l' & e1 & Hl' & He1 & Hip0); [by eapply same_but_complete|done|].
    exists l', e1. rewrite lookup_insert_ne; [done|]. congruence.
Qed.

Lemma lor_bound a b n : 0 ≤ n → 0 ≤ a < 2 ^ n → 0 ≤ b < 2 ^ n → 0 ≤ Z.lor a b < 2 ^ n.
Proof.
  intros Hn Ha Hb. destruct (Z.eq_dec a 0) as [->|]; [by rewrite Z.lor_0_l|].
  destruct (Z.eq_dec b 0) as [->|]; [by rewrite Z.lor_0_r|].
  assert (0 ≤ Z.lor a b) by (apply Z.lor_nonneg; lia). split; [done|].
  destruct (Z.eq_dec (Z.lor a b) 0) as [->|Hne]; [lia|].
  apply Z.log2_lt_pow2; [lia|]. rewrite Z.log2_lor by lia.
  apply Z.max_lub_lt; apply Z.log2_lt_pow2; lia.
Qed.

Lemma htonl_range z : 0 ≤ htonl z < 2 ^ 32.
Proof.
  assert (Hb : ∀ x i, 0 ≤ i ≤ 24 → 0 ≤ Z.shiftl (Z.land x 255) i < 2 ^ 32).
  { intros x i Hi. rewrite Z.shiftl_mul_pow2 by lia. change 255 with (Z.ones 8).
    rewrite Z.land_ones by lia. pose proof (Z.mod_pos_bound x (2 ^ 8) ltac:(lia)).
    pose proof (Z.pow_le_mono_r 2 i 24 ltac:(lia) ltac:(lia)). change (2 ^ 32) with (2 ^ 8 * 2 ^ 24).
    pose proof (Z.pow_pos_nonneg 2 i). nia. }
  assert (H0 : 0 ≤ Z.land (Z.shiftr z 24) 255 < 2 ^ 32).
  { rewrite <- (Z.shiftl_0_r (Z.land _ 255)). apply Hb. lia. }
  unfold htonl. repeat apply lor_bound; try apply Hb; try done; lia.
Qed.

(** The cell for a new entry: it belongs to no chain and leaves the pool. *)
Lemma allocate_ok log c s ch pool :
  table log c s ch pool None [] →
  ∃ l s1 pool', allocate_new_entry true s = Ok (Some l, s1) ∧
    s1 = with_pool (release_pool s1) s ∧ is_list (entries s) (release_pool s1) pool' ∧
    (l ∉ pool') ∧ NoDup pool' ∧ (∀ k, bucket s k → l ∉ ch k) ∧
    (∀ k x, bucket s k → x ∈ pool' → x ∉ ch k) ∧
    (∀ x, is_Some (entries s !! x) → x = l ∨ x ∈ pool' ∨ (∃ k, bucket s k ∧ x ∈ ch k)) ∧
    (entries s !! l = None ∨ pool = l :: pool').
Proof.
  intros []. rewrite app_nil_r in *. unfold allocate_new_entry. destruct (release_pool s) as [l|] eqn:Hpool.
  - destruct pool as [|l' pool]; [done|]. simpl in t_pool0. destruct t_pool0 as ([= <-] & e & He & Hls).
    rewrite (deref_Some _ _ _ He), bind_ok. apply list.NoDup_cons in t_nodup0 as [Hni Hnd].
    exists l, (with_pool (next e) s), pool. split_and!; try done.
    + intros k Hk. apply t_apart0; [done|]. left.
    + intros k x Hk Hx. apply t_apart0; [done|]. by right.
    + intros x [[->|Hx]%elem_of_cons|Hx]%t_owned0; auto.
    + by right.
  - apply is_list_nil in t_pool0 as ->.
    assert (Hf : ∀ k, bucket s k → fresh_loc (entries s) ∉ ch k).
    { intros k Hk Hin. destruct (t_entry0 k _ Hk Hin) as (e & He & _).
      by rewrite fresh_loc_fresh in He. }
    exists (fresh_loc (entries s)), s, []. rewrite Hpool. simpl. split_and!; try done.
    + by destruct s; simpl in *; subst.
    + apply not_elem_of_nil.
    + intros x [Hx|Hx]%t_owned0; [set_solver|auto].
    + left. apply fresh_loc_fresh.
Qed.

Definition at_bucket (k : Z) (ls : list loc) (ch : Z → list loc) : Z → list loc :=
  λ j, if j =? k then ls else ch j.

Lemma at_bucket_eq k ls ch : at_bucket k ls ch k = ls.
Proof. unfold at_bucket. by rewrite Z.eqb_refl. Qed.
Lemma at_bucket_ne k ls ch j : j ≠ k → at_bucket k ls ch j = ch j.
Proof. unfold at_bucket. by intros ->%Z.eqb_neq. Qed.

Lemma zlookup_insert_eq {A} (l : list A) i a b :
  zlookup l i = Some b → zlookup (<[Z.to_nat i := a]> l) i = Some a.
Proof.
  intros [Hi Hb]%zlookup_Some. apply zlookup_Some. split; [done|].
  apply list_lookup_insert_eq. by eapply lookup_lt_Some.
Qed.

Lemma zlookup_insert_ne {A} (l : list A) i j a :
  0 ≤ i → j ≠ i → zlookup (<[Z.to_nat i := a]> l) j = zlookup l j.
Proof.
  intros Hi Hne. unfold zlookup. destruct (Z.ltb_spec j 0); [done|].
  apply list_lookup_insert_ne. lia.
Qed.

(** A new entry [e'] in front of its chain, in a cell no chain has. *)
Lemma table_push log log' c s ch pool pool' p l e' :
  let k := home s (ipaddr e') in
  table log c s ch pool None [] → bucket s k →
  zlookup (ip_access_buffer s) k = Some (entry_next e') →
  (∀ l' e0, l' ∈ ch k → entries s !! l' = Some e0 → ipaddr e0 ≠ ipaddr e') →
  is_list (entries s) p pool' → l ∉ pool' → NoDup pool' → (∀ k, bucket s k → l ∉ ch k) →
  (∀ k x, bucket s k → x ∈ pool' → x ∉ ch k) →
  (∀ x, is_Some (entries s !! x) → x = l ∨ x ∈ pool' ∨ (∃ k, bucket s k ∧ x ∈ ch k)) →
  same_but (ipaddr e') c log log' → live log' c e' →
  table log' c
    (with_entries (<[l := e']> (entries s))
      (with_heads (<[Z.to_nat k := Some l]> (ip_access_buffer s)) (with_pool p s)))
    (at_bucket k (l :: ch k) ch) pool' None [].
Proof.
  intros k Ht Hk Hhead Hnew Hpool Hlp Hnd Hlc Hpc Hown Hlog Hlive. pose proof Ht as [].
  assert (Hat : ∀ j x, x ∈ at_bucket k (l :: ch k) ch j → (j = k ∧ x = l) ∨ x ∈ ch j).
  { intros j x. destruct (decide (j = k)) as [->|Hj].
    - rewrite at_bucket_eq. intros [->|Hx]%elem_of_cons; auto.
    - rewrite at_bucket_ne by done. auto. }
  assert (Hin : ∀ j x, x ∈ ch j → x ∈ at_bucket k (l :: ch k) ch j).
  { intros j x Hx. destruct (decide (j = k)) as [->|Hj].
    - rewrite at_bucket_eq. by right.
    - by rewrite at_bucket_ne. }
  assert (Hkeep : ∀ j x, bucket s j → x ∈ ch j → <[l:=e']> (entries s) !! x = entries s !! x).
  { intros j x Hj Hx. apply lookup_insert_ne. intros <-. by eapply Hlc. }
  unfold bucket, home in *. split; simpl; rewrite ?app_nil_r; try done.
  - rewrite length_insert. done.
  - intros j Hj. destruct (decide (j = k)) as [->|Hne].
    + exists (Some l). split; [by eapply zlookup_insert_eq|]. rewrite at_bucket_eq.
      apply is_list_cons; [by apply Hlc|]. destruct (t_chain0 k Hk) as (q & Hq & Hls). simpl. congruence.
    + destruct (t_chain0 j Hj) as (q & Hq & Hls). exists q.
      rewrite zlookup_insert_ne, at_bucket_ne by (done || apply Hk). split; [done|].
      apply is_list_insert_ne; [by apply Hlc|done].
  - by apply is_list_insert_ne.
  - intros j x Hj [[-> ->]|Hx]%Hat.
    + exists e'. by rewrite lookup_insert_eq.
    + rewrite (Hkeep j x Hj Hx). destruct (t_entry0 j x Hj Hx) as (e0 & He0 & Hh & Hl0).
      exists e0. split_and!; try done. eapply same_but_live; [done| |done].
      intros Heq. apply (Hnew x e0); [|done|done]. unfold k. by rewrite <- Heq, Hh.
  - intros j x y ex ey Hj [[-> ->]|Hx]%Hat [[Hjk ->]|Hy]%Hat; try done.
    + rewrite lookup_insert_eq, (Hkeep _ _ Hj Hy). intros [= <-] Hey Heq. by destruct (Hnew y ey Hy Hey).
    + subst j. rewrite lookup_insert_eq, (Hkeep _ _ Hj Hx). intros Hex [= <-] Heq.
      by destruct (Hnew x ex Hx Hex).
    + rewrite (Hkeep _ _ Hj Hx), (Hkeep _ _ Hj Hy). eauto.
  - intros j x Hj Hx [[-> ->]|Hxj]%Hat; [done|]. by eapply Hpc.
  - intros x Hx. destruct (decide (l = x)) as [<-|Hne].
    + right. exists k. split; [done|]. rewrite at_bucket_eq. left.
    + rewrite lookup_insert_ne in Hx by done. destruct (Hown x Hx) as [->|[?|(j & ? & ?)]]; [done|auto|].
      right. exists j. auto.
  - apply Hlog.
  - intros ip t Hlt Hc. destruct (decide (ip = ipaddr e')) as [->|Hne].
    + exists l, e'. rewrite lookup_insert_eq. split; [|done]. fold k. rewrite at_bucket_eq. left.
    + destruct (t_complete0 ip t) as (x & e0 & Hx & He0 & Hip); [by eapply same_but_complete|done|].
      exists x, e0. split; [by apply Hin|]. rewrite (Hkeep (home s ip)); [done| |done].
      eapply home_bucket; [apply t_size0|]. by apply (t_ips0 ip t), (same_but_complete _ _ _ _ _ _ Hlog).
Qed.

Lemma same_but_access ip t c log :
  0 ≤ ip → t ≤ c → (∀ ip' t', (ip', t') ∈ log → 0 ≤ ip' ∧ t' ≤ c) →
  same_but ip c log ((ip, t) :: log).
Proof.
  intros Hip Ht Hlog. split.
  - intros ip' Hne. by apply hits_cons_ne.
  - intros ip' t' [[= -> ->]|Hin]%elem_of_cons; [done|by apply Hlog].
Qed.

(** The number of accesses of [ip] in the window that ends at slot [c]. *)
Definition window_count (log : list (Z * Z)) (c ip : Z) : Z :=
  countb (λ t, c - 12 <? t) (hits ip log).

Definition slot (s : blacklist) (now : Z) : Z := Z.quot now (frequency_in_seconds s).

(** A time the service can express as a slot number. *)
Definition time_ok (s : blacklist) (c now : Z) : Prop := 0 < slot s now ≤ INT_MAX ∧ c ≤ slot s now.

Lemma current_time_index_ok c s now :
  0 < frequency_in_seconds s → time_ok s c now →
  current_time_index now s = Ok (slot s now mod 12, slot s now).
Proof.
  intros Hf [Hs _]. unfold current_time_index. rewrite c_div_ok, bind_ok by lia. unfold slot in *.
  rewrite int32_id by (unfold is_int, INT_MIN, INT_MAX in *; lia).
  do 2 f_equal. unfold RESERVED_ENTRY. rewrite Z.rem_mod_nonneg; lia.
Qed.

(** Storing the counted entry, in the cell that was found. *)
Lemma access_found log c s ch pool ip l e :
  table log c s ch pool None [] → 0 ≤ ip → l ∈ ch (home s ip) → entries s !! l = Some e →
  ipaddr e = ip → Z.of_nat (length log) < INT_MAX →
  ∃ e', hit (c mod 12) c e = Ok e' ∧ ipaddr e' = ip ∧
    table ((ip, c) :: log) c (with_entries (<[l := e']> (entries s)) s) ch pool None [] ∧
    counter e' = window_count ((ip, c) :: log) c ip.
Proof.
  intros Ht Hip Hl He <- Hlen. pose proof Ht as [].
  pose proof (home_bucket s (ipaddr e) (proj1 t_size0) Hip) as Hk.
  destruct (t_entry0 _ _ Hk Hl) as (e0 & He0 & _ & c' & Hc' & Hal). simplify_eq.
  destruct (hit_ok e c (hits (ipaddr e) log)) as (e' & Hhit & Hal' & Hh).
  - by eapply aligned_ready.
  - pose proof (hits_length (ipaddr e) log). lia.
  - exists e'. split; [done|]. split; [apply Hh|]. rewrite <- hits_cons_eq in Hal'. split.
    + eapply table_update; try done.
      * by apply Hh.
      * by apply Hh.
      * apply same_but_access; [done|done|done].
      * exists c. rewrite (proj1 Hh). done.
    + by apply aligned_total.
Qed.

(** The same in a new entry. *)
Lemma access_new log c s ch pool ip tv :
  table log c s ch pool None [] → 0 ≤ ip → 0 < c →
  (∀ l e, l ∈ ch (home s ip) → entries s !! l = Some e → ipaddr e ≠ ip) →
  Z.of_nat (length log) < INT_MAX →
  ∃ l s1 e e' ch' pool', insert_entry true ip (home s ip) tv s = Ok (l, s1) ∧
    entries s1 !! l = Some e ∧ hit (c mod 12) c e = Ok e' ∧ ipaddr e' = ip ∧
    hash_buffer_size s1 = hash_buffer_size s ∧ frequency_in_seconds s1 = frequency_in_seconds s ∧
    recent_index s1 = recent_index s ∧
    table ((ip, c) :: log) c (with_entries (<[l := e']> (entries s1)) s1) ch' pool' None [] ∧
    counter e' = window_count ((ip, c) :: log) c ip ∧ l ∈ ch' (home s ip).
Proof.
  intros Ht Hip Hc Hnew Hlen. pose proof (home_bucket s ip (proj1 (t_size _ _ _ _ _ _ _ Ht)) Hip) as Hk.
  destruct (allocate_ok _ _ _ _ _ Ht) as (l & s1 & pool' & Ha & Hs1 & Hp & Hlp & Hnd & Hlc & Hpc & Hown & _).
  destruct (t_chain _ _ _ _ _ _ _ Ht _ Hk) as (first & Hfirst & _).
  unfold insert_entry. rewrite Ha, bind_ok. rewrite Hs1. simpl.
  rewrite (array_get_Some _ _ _ Hfirst), bind_ok.
  rewrite array_set_ok, bind_ok by (apply zlookup_is_Some; by eexists).
  destruct (hit_ok (first_entry ip tv first) c (hits ip log)) as (e' & Hhit & Hal & Hh & _ & _ & Hn).
  - apply first_entry_ready; [done|]. intros t Ht'%hits_elem.
    destruct (decide (c - 12 < t)) as [Hlt|]; [|lia].
    destruct (t_complete _ _ _ _ _ _ _ Ht ip t Ht' Hlt) as (x & e & Hx & He & Heq).
    by destruct (Hnew x e Hx He).
  - pose proof (hits_length ip log). lia.
  - rewrite <- hits_cons_eq in Hal. simpl in Hh, Hn. subst ip first.
    pose proof (table_push log ((ipaddr e', c) :: log) c s ch pool pool' (release_pool s1) l e') as Htab.
    eexists l, _, _, e', _, _. split; [done|]. simpl. rewrite lookup_insert_eq, insert_insert_eq.
    split_and!; try done; [|by apply aligned_total|rewrite at_bucket_eq; by left]. apply Htab; try done.
    + apply same_but_access; [done|done|]. by apply (t_ips _ _ _ _ _ _ _ Ht).
    + by exists c.
Qed.

Definition same_sizes (s s' : blacklist) : Prop :=
  hash_buffer_size s' = hash_buffer_size s ∧ frequency_in_seconds s' = frequency_in_seconds s.

Lemma find_and_increase_ok log c s ch pool s_addr now tv :
  let ip := htonl s_addr in let t := slot s now in
  table log c s ch pool None [] → time_ok s c now → Z.of_nat (length log) < INT_MAX →
  ∃ l s' ch' pool' e, find_and_increase true s_addr now tv s = Ok (l, s') ∧
    table ((ip, t) :: log) t s' ch' pool' None [] ∧ same_sizes s s' ∧
    recent_index s' = recent_index s ∧ entries s' !! l = Some e ∧ ipaddr e = ip ∧
    counter e = window_count ((ip, t) :: log) t ip ∧ l ∈ ch' (home s' ip).
Proof.
  intros ip t Ht0 Htime Hlen. apply (table_later _ _ t) in Ht0 as Ht; [|apply Htime]. pose proof Ht as [].
  pose proof (htonl_range s_addr) as Hip. fold ip in Hip. destruct t_size0 as [Hs1 Hs2].
  pose proof (home_bucket s ip Hs1 (proj1 Hip)) as Hk. pose proof Hk as Hk'. unfold bucket in Hk'.
  destruct (t_chain0 _ Hk) as (first & Hfirst & Hls).
  assert (Hhash : c_rem ip (uint32 (hash_buffer_size s)) = Ok (home s ip)).
  { rewrite uint32_id by (unfold INT_MAX in *; lia). rewrite c_rem_ok by lia. done. }
  unfold find_and_increase. fold ip. rewrite Hhash, bind_ok.
  rewrite int32_id by (unfold is_int, INT_MIN, INT_MAX in *; lia).
  rewrite (array_get_Some _ _ _ Hfirst), bind_ok.
  rewrite (current_time_index_ok c), bind_ok by done. fold t.
  rewrite (find_cell_list _ _ _ _ Hls), bind_ok.
  destruct (List.find _ _) as [l|] eqn:Hf.
  - apply find_test_Some in Hf as (Hl & e & He & Htest%Z.eqb_eq).
    destruct (access_found _ _ _ _ _ _ _ _ Ht (proj1 Hip) Hl He Htest Hlen) as (e' & Hhit & He' & Ht' & Hc').
    rewrite bind_ok, (deref_Some _ _ _ He), bind_ok, Hhit, bind_ok, (store_Some _ _ _ _ He), bind_ok.
    eexists l, _, ch, pool, e'. split; [done|]. split_and!; try done. simpl. by rewrite lookup_insert_eq.
  - destruct (access_new _ _ _ _ _ ip tv Ht (proj1 Hip)) as
      (l & s1 & e & e' & ch' & pool' & Hi & He & Hhit & He' & Hsz & Hfr & Hri & Ht' & Hc' & Hl); [apply Htime| |done|].
    { intros l e Hl He. by apply Z.eqb_neq, (find_test_None _ _ _ _ _ Hf Hl He). }
    rewrite Hi, bind_ok, (deref_Some _ _ _ He), bind_ok, Hhit, bind_ok, (store_Some _ _ _ _ He), bind_ok.
    eexists l, _, ch', pool', e'. split; [done|]. split_and!; try done; [by simpl; rewrite lookup_insert_eq|].
    unfold home. simpl. by rewrite Hsz.
Qed.

(** ** Expiring *)

(** Where the walk over chain [k] writes when the cells [kept] are behind it. *)
Definition link_after (k : Z) (kept : list loc) : link :=
  match list.last kept with None => BucketHead k | Some l => NextOf l end.

Lemma lseg_last (h : heap ip_entry) p ls l rest :
  is_list h p ((ls ++ [l]) ++ rest) → ∃ e, h !! l = Some e ∧ is_list h (entry_next e) rest.
Proof.
  rewrite <- app_assoc. intros Hl%is_list_suffix. simpl in Hl. destruct Hl as (_ & e & He & Hn). eauto.
Qed.

(** Reading the link gives the rest of the chain. *)
Lemma read_link_ok s k kept rest p :
  zlookup (ip_access_buffer s) k = Some p → is_list (entries s) p (kept ++ rest) →
  ∃ q, read_link (link_after k kept) s = Ok q ∧ is_list (entries s) q rest.
Proof.
  intros Hp Hls. unfold link_after. destruct kept as [|l kept _] using rev_ind; simpl.
  - rewrite (array_get_Some _ _ _ Hp). eauto.
  - rewrite last_snoc. apply lseg_last in Hls as (e & He & Hls). simpl. rewrite He. simpl. eauto.
Qed.

(** The link of the last cell of [kept], rewritten to [q]. *)
Definition relink (q : ptr) (kept : list loc) (h : heap ip_entry) : heap ip_entry :=
  match list.last kept with
  | None => h
  | Some l => match h !! l with Some e => <[l := set_next q e]> h | None => h end
  end.

Definition rehead (k : Z) (q : ptr) (kept : list loc) (bs : list ptr) : list ptr :=
  match list.last kept with None => <[Z.to_nat k := q]> bs | Some _ => bs end.

Lemma write_link_ok s k kept rest p q :
  zlookup (ip_access_buffer s) k = Some p → is_list (entries s) p (kept ++ rest) →
  write_link (link_after k kept) q s =
    Ok (with_heads (rehead k q kept (ip_access_buffer s)) (with_entries (relink q kept (entries s)) s)).
Proof.
  intros Hp Hls. unfold link_after, relink, rehead. destruct kept as [|l kept _] using rev_ind.
  - simpl. rewrite array_set_ok by (apply zlookup_is_Some; by eexists). simpl. by destruct s.
  - rewrite last_snoc. apply lseg_last in Hls as (e & He & Hls). simpl. rewrite He. simpl. by destruct s.
Qed.

Lemma relink_lookup q kept (h : heap ip_entry) x :
  relink q kept h !! x = h !! x ∨
  (x ∈ kept ∧ ∃ e, h !! x = Some e ∧ relink q kept h !! x = Some (set_next q e)).
Proof.
  unfold relink. destruct kept as [|l kept _] using rev_ind; [by left|]. rewrite last_snoc.
  destruct (h !! l) as [e|] eqn:He; [|by left].
  destruct (decide (x = l)) as [->|Hne].
  - right. split; [set_solver|]. exists e. by rewrite lookup_insert_eq.
  - left. by rewrite lookup_insert_ne.
Qed.

Lemma relink_ne q kept (h : heap ip_entry) x : x ∉ kept → relink q kept h !! x = h !! x.
Proof. intros Hx. by destruct (relink_lookup q kept h x) as [?|[? _]]. Qed.

(** The chain without the cell [l]. *)
Lemma unlink_list (h : heap ip_entry) p kept l rest e :
  is_list h p (kept ++ l :: rest) → h !! l = Some e →
  is_list (relink (next e) kept h) (match kept with [] => next e | _ => p end) (kept ++ rest).
Proof.
  intros Hls He. unfold relink. destruct kept as [|m kept _] using rev_ind.
  - destruct Hls as (-> & e' & He' & Hls). by simplify_eq.
  - rewrite last_snoc. assert (match kept ++ [m] with [] => next e | _ => p end = p) as -> by by destruct kept.
    pose proof (is_list_NoDup _ _ _ Hls) as Hnd. rewrite <- app_assoc in *.
    pose proof Hls as (m0 & H1 & -> & em & Hem & H2)%lseg_app. simpl in H2. destruct H2 as (Hn & e' & He' & H3).
    rewrite Hem. apply lseg_app. exists (Some m).
    apply list.NoDup_app in Hnd as (_ & Hk & [Hm _]%list.NoDup_cons). split.
    + revert H1. apply lseg_frame. intros x a Hx Ha. exists a. rewrite lookup_insert_ne; [done|].
      intros ->. apply (Hk x Hx). left.
    + split; [done|]. eexists. rewrite lookup_insert_eq. split; [done|]. simplify_eq.
      revert H3. apply lseg_frame. intros x a Hx Ha. exists a. rewrite lookup_insert_ne; [done|].
      intros ->. apply Hm. by right.
Qed.

Lemma live_set_next log c q e : live log c e → live log c (set_next q e).
Proof. intros (c' & Hc & [[] Hp Hr]). exists c'. split; [done|]. by repeat split. Qed.

(** Lists that do not meet the rewritten cells stay. *)
Lemma relink_list q kept (h : heap ip_entry) l e p ls :
  is_list h p ls → (∀ x, x ∈ ls → (x ∉ kept) ∧ x ≠ l) → is_list (<[l := e]> (relink q kept h)) p ls.
Proof.
  intros Hls Hx. revert Hls. apply lseg_frame. intros x a Hin Ha. exists a.
  destruct (Hx x Hin). rewrite lookup_insert_ne, relink_ne by done. done.
Qed.

(** Unlinking [l] only rewrites [next] fields. *)
Lemma unlink_cells q fp kept (h : heap ip_entry) l e log c :
  h !! l = Some e →
  let h' := <[l := set_next fp e]> (relink q kept h) in
  (∀ x ex, h !! x = Some ex →
     ∃ ex', h' !! x = Some ex' ∧ ipaddr ex' = ipaddr ex ∧ (live log c ex → live log c ex')) ∧
  (∀ x ex', h' !! x = Some ex' → ∃ ex, h !! x = Some ex ∧ ipaddr ex' = ipaddr ex).
Proof.
  intros He h'. unfold h'. split.
  - intros x ex Hx. destruct (decide (x = l)) as [->|Hne].
    + rewrite lookup_insert_eq. simplify_eq. eauto using live_set_next.
    + rewrite lookup_insert_ne by done.
      destruct (relink_lookup q kept h x) as [->|(_ & e0 & He0 & ->)]; [eauto|].
      simplify_eq. eauto using live_set_next.
  - intros x ex'. destruct (decide (x = l)) as [->|Hne].
    + rewrite lookup_insert_eq. intros [= <-]. eauto.
    + rewrite lookup_insert_ne by done.
      destruct (relink_lookup q kept h x) as [->|(_ & e0 & He0 & ->)]; [eauto|].
      intros [= <-]. eauto.
Qed.

Lemma elem_of_unlinked (kept rest : list loc) l x :
  x ∈ kept ++ l :: rest → x ≠ l → x ∈ kept ++ rest.
Proof. rewrite !elem_of_app, elem_of_cons. intuition. Qed.

Lemma rehead_lookup k q kept bs p :
  zlookup bs k = Some p →
  zlookup (rehead k q kept bs) k = Some (match kept with [] => q | _ => p end).
Proof.
  intros Hp. unfold rehead. destruct kept as [|m kept _] using rev_ind.
  - simpl. by eapply zlookup_insert_eq.
  - rewrite last_snoc. by destruct kept.
Qed.

Lemma rehead_other k j q kept bs :
  0 ≤ k → j ≠ k → zlookup (rehead k q kept bs) j = zlookup bs j.
Proof. intros. unfold rehead. case_match; [done|]. by apply zlookup_insert_ne. Qed.

(** Moving the cell [l] of chain [k] to the free list, when its window is empty. *)
Lemma table_unlink log c s ch pool fp fl k kept l rest e :
  table log c s ch pool fp fl → bucket s k → ch k = kept ++ l :: rest → entries s !! l = Some e →
  window_count log c (ipaddr e) = 0 →
  table log c
    (with_entries (<[l := set_next fp e]> (relink (next e) kept (entries s)))
      (with_heads (rehead k (next e) kept (ip_access_buffer s)) s))
    (at_bucket k (kept ++ rest) ch) pool (Some l) (l :: fl).
Proof.
  intros Ht Hk Hch He Hzero. pose proof Ht as [].
  assert (Hlk : l ∈ ch k) by (rewrite Hch; set_solver).
  assert (Hsub : ∀ j x, x ∈ at_bucket k (kept ++ rest) ch j → x ∈ ch j).
  { intros j x. destruct (decide (j = k)) as [->|Hj]; [|by rewrite at_bucket_ne].
    rewrite at_bucket_eq, Hch. set_solver. }
  destruct (t_chain0 k Hk) as (p & Hp & Hls). rewrite Hch in Hls.
  assert (Hl : l ∉ kept ++ rest).
  { pose proof (is_list_NoDup _ _ _ Hls) as Hnd. rewrite <- Permutation_middle in Hnd.
    by apply list.NoDup_cons in Hnd as [? _]. }
  assert (Hoff : ∀ x, x ∉ ch k → (x ∉ kept) ∧ x ≠ l) by (rewrite Hch; set_solver).
  destruct (unlink_cells (next e) fp kept _ _ _ log c He) as [Hto Hfrom].
  assert (Hpl : ∀ x, x ∈ pool ++ fl → x ∉ ch k) by (intros x; by apply t_apart0).
  unfold bucket, home in *. split; simpl; try done.
  - unfold rehead. case_match; [done|]. by rewrite length_insert.
  - intros j Hj. destruct (decide (j = k)) as [->|Hne].
    + eexists. rewrite (rehead_lookup _ _ _ _ _ Hp), at_bucket_eq. split; [done|].
      apply is_list_insert_ne; [done|]. by eapply unlink_list.
    + destruct (t_chain0 j Hj) as (q & Hq & Hlq). exists q. rewrite rehead_other, at_bucket_ne by (done || apply Hk).
      split; [done|]. apply relink_list; [done|]. intros x Hx. apply Hoff. intros Hx'.
      by apply Hne, (chains_apart _ _ _ _ _ _ _ j k x Ht).
  - apply relink_list; [done|]. intros x Hx. apply Hoff, Hpl. set_solver.
  - split; [done|]. eexists. rewrite lookup_insert_eq. split; [done|].
    simpl. apply relink_list; [done|]. intros x Hx. apply Hoff, Hpl. set_solver.
  - intros j x Hj Hx%Hsub. destruct (t_entry0 j x Hj Hx) as (ex & Hex & Hh & Hlive).
    destruct (Hto x ex Hex) as (ex' & Hex' & Hip & Hlive'). exists ex'. rewrite Hip. auto.
  - intros j x y ex ey Hj Hx%Hsub Hy%Hsub (ex0 & Hex & ->)%Hfrom (ey0 & Hey & ->)%Hfrom. eauto.
  - intros j x Hj. rewrite <- Permutation_middle. intros [->|Hx]%elem_of_cons.
    + destruct (decide (j = k)) as [->|Hne]; [by rewrite at_bucket_eq|]. rewrite at_bucket_ne by done.
      intros Hx. by apply Hne, (chains_apart _ _ _ _ _ _ _ j k l Ht).
    + intros Hx'%Hsub. by eapply t_apart0.
  - rewrite <- Permutation_middle. constructor; [|done]. intros Hx. by eapply Hpl.
  - intros x [ex' Hx]. apply Hfrom in Hx as (ex & Hex & _). rewrite <- Permutation_middle.
    destruct (t_owned0 x) as [Hx|(j & Hj & Hx)]; [by eexists|left; by right|].
    destruct (decide (j = k)) as [->|Hne].
    + rewrite Hch in Hx. destruct (decide (x = l)) as [->|]; [left; left|]. right. exists k.
      rewrite at_bucket_eq. eauto using elem_of_unlinked.
    + right. exists j. by rewrite at_bucket_ne.
  - intros ip t Hin Hc. destruct (t_complete0 ip t Hin Hc) as (x & ex & Hx & Hex & Hip).
    destruct (Hto x ex Hex) as (ex' & Hex' & Hip' & _). exists x, ex'. split_and!; [|done|congruence].
    unfold home. simpl. destruct (decide (Z.rem ip (hash_buffer_size s) = k)) as [Hjk|Hne]; [|by rewrite at_bucket_ne].
    rewrite Hjk in Hx |- *. rewrite at_bucket_eq. rewrite Hch in Hx.
    eapply elem_of_unlinked; [done|]. intros ->. simplify_eq.
    unfold window_count in Hzero. rewrite countb_zero in Hzero.
    apply hits_elem in Hin. apply Hzero in Hin. apply Z.ltb_ge in Hin. lia.
Qed.

(** The cell counts a non-empty window that ends at slot [c]. *)
Definition current (log : list (Z * Z)) (c : Z) (s : blacklist) (l : loc) : Prop :=
  ∃ e, entries s !! l = Some e ∧ aligned e c (hits (ipaddr e) log) ∧ counter e ≠ 0.

Lemma aligned_set_next e c hs q : aligned e c hs → aligned (set_next q e) c hs.
Proof. intros [[] Hp Hr]. by repeat split. Qed.

Lemma current_relink log c s q kept l e x bs :
  current log c s x → x ≠ l →
  current log c (with_entries (<[l := e]> (relink q kept (entries s))) (with_heads bs s)) x.
Proof.
  intros (ex & Hx & Ha & Hc) Hne. unfold current. simpl. rewrite lookup_insert_ne by done.
  destruct (relink_lookup q kept (entries s) x) as [->|(_ & e0 & He0 & ->)]; [eauto|]. simplify_eq.
  eexists. split; [done|]. split; [by apply aligned_set_next|done].
Qed.

(** What the walk has left to do, and what it leaves. *)
Record walked (log : list (Z * Z)) (c k : Z) (s s' : blacklist) (ch ch' : Z → list loc)
    (fl fl' : list loc) : Prop := {
  w_sizes : same_sizes s s';
  w_index : recent_index s' = recent_index s;
  w_cells : dom (entries s') = dom (entries s);
  w_perm : ch' k ++ fl' ≡ₚ ch k ++ fl;
  w_other j : j ≠ k → ch' j = ch j;
  w_same x : x ∉ ch k → entries s' !! x = entries s !! x;
  w_current l : l ∈ ch' k → current log c s' l;
}.

(** Ageing the cell [l] of the chain. *)
Lemma age_cell log c s ch pool fp fl k l :
  table log c s ch pool fp fl → bucket s k → l ∈ ch k →
  ∃ e e1, entries s !! l = Some e ∧ clear_outdated_data e (c mod 12) c = Ok e1 ∧
    aligned e1 c (hits (ipaddr e1) log) ∧ next e1 = next e ∧
    table log c (with_entries (<[l := e1]> (entries s)) s) ch pool fp fl.
Proof.
  intros Ht Hk Hl. destruct (t_entry _ _ _ _ _ _ _ Ht k l Hk Hl) as (e & He & _ & c' & Hc' & Hal).
  destruct (clear_outdated_ok e c (hits (ipaddr e) log)) as (e1 & Hcl & Hal1 & Hh); [by eapply aligned_ready|].
  exists e, e1. pose proof Hh as (Hip & _ & _ & Hn). rewrite Hip. split_and!; try done.
  eapply table_update; try done.
  - split; [done|]. apply (t_ips _ _ _ _ _ _ _ Ht).
  - exists c. by rewrite Hip.
Qed.

(** Unlinking the cell [l] of the chain, empty at slot [c]. *)
Lemma unlink_cell log c s ch pool fp fl k kept l rest e :
  table log c s ch pool fp fl → bucket s k → ch k = kept ++ l :: rest → entries s !! l = Some e →
  aligned e c (hits (ipaddr e) log) → counter e = 0 →
  ∃ s2 s3 q, write_link (link_after k kept) (next e) s = Ok s2 ∧ deref (entries s2) (Some l) = Ok e ∧
    store (entries s2) (Some l) (set_next fp e) = Ok (entries s3) ∧ s3 = with_entries (entries s3) s2 ∧
    read_link (link_after k kept) s3 = Ok q ∧ is_list (entries s3) q rest ∧
    table log c s3 (at_bucket k (kept ++ rest) ch) pool (Some l) (l :: fl) ∧
    same_sizes s s3 ∧ recent_index s3 = recent_index s ∧ dom (entries s3) = dom (entries s) ∧
    (∀ x, x ∉ ch k → entries s3 !! x = entries s !! x) ∧
    (∀ x, x ∈ kept → current log c s x → current log c s3 x).
Proof.
  intros Ht Hk Hch He Hal Hz. destruct (t_chain _ _ _ _ _ _ _ Ht k Hk) as (p & Hp & Hls). rewrite Hch in Hls.
  assert (Hl : l ∉ kept).
  { pose proof (is_list_NoDup _ _ _ Hls) as (_ & Hd & _)%list.NoDup_app. intros Hin. apply (Hd l Hin). left. }
  rewrite (write_link_ok _ _ _ _ _ _ Hp Hls).
  assert (Hzero : window_count log c (ipaddr e) = 0) by (unfold window_count; by rewrite <- (aligned_total _ _ _ Hal)).
  pose proof (table_unlink _ _ _ _ _ _ _ _ _ _ _ _ Ht Hk Hch He Hzero) as Ht3.
  set (s2 := with_heads _ (with_entries _ s)).
  set (s3 := with_entries (<[l:=set_next fp e]> (relink (next e) kept (entries s)))
               (with_heads (rehead k (next e) kept (ip_access_buffer s)) s)) in *.
  destruct (t_chain _ _ _ _ _ _ _ Ht3 k Hk) as (p3 & Hp3 & Hls3). rewrite at_bucket_eq in Hls3.
  destruct (read_link_ok _ _ _ _ _ Hp3 Hls3) as (q & Hq & Hlsq).
  assert (He2 : entries s2 !! l = Some e) by (simpl; by rewrite relink_ne).
  exists s2, s3, q. rewrite (deref_Some _ _ _ He2), (store_Some _ _ _ _ He2). split_and!; try done.
  - apply set_eq. intros x. simpl. rewrite !elem_of_dom. destruct (decide (x = l)) as [->|Hne].
    + rewrite lookup_insert_eq, He. split; by eexists.
    + rewrite lookup_insert_ne by done.
      pose proof (relink_lookup (next e) kept (entries s) x) as Hr. simpl in Hr.
      destruct Hr as [->|(_ & e0 & -> & ->)]; split; eauto.
  - intros x Hx. rewrite Hch in Hx. simpl. rewrite lookup_insert_ne, relink_ne; [done| |]; set_solver.
  - intros x Hx Hcur. apply current_relink; [done|]. by intros ->.
Qed.

Lemma current_ext log c s s' l :
  entries s' !! l = entries s !! l → current log c s l → current log c s' l.
Proof. intros Heq (e & He & ?). exists e. by rewrite Heq. Qed.

Lemma same_sizes_trans s1 s2 s3 : same_sizes s1 s2 → same_sizes s2 s3 → same_sizes s1 s3.
Proof. unfold same_sizes. intros [-> ->] [-> ->]. done. Qed.

Lemma expire_chain_ok log c k rest : ∀ fuel s ch pool fp fl kept entry released left,
  table log c s ch pool fp fl → bucket s k → ch k = kept ++ rest → is_list (entries s) entry rest →
  (∀ l, l ∈ kept → current log c s l) → (length rest < fuel)%nat →
  ∃ fp' released' left' s' ch' fl',
    expire_chain fuel (c mod 12) c entry (link_after k kept) fp released left s =
      Ok (fp', released', left', s') ∧
    table log c s' ch' pool fp' fl' ∧ walked log c k s s' ch ch' fl fl' ∧
    released' = released + Z.of_nat (length fl') - Z.of_nat (length fl).
Proof.
  induction rest as [|l rest IH]; intros [|fuel] s ch pool fp fl kept entry released left Ht Hk Hch Hls Hcur Hf;
    simpl in Hf; try lia.
  - unfold is_list in Hls. simpl in Hls. subst entry. simpl. rewrite app_nil_r in Hch.
    exists fp, released, left, s, ch, fl. split_and!; try done; [|lia].
    split; try done. by rewrite Hch.
  - pose proof Hls as (-> & e' & He' & Hnext).
    assert (Hl : l ∈ ch k) by (rewrite Hch; set_solver).
    assert (Hnk : ∀ x, x ∈ kept → x ≠ l).
    { intros x Hx ->. destruct (t_chain _ _ _ _ _ _ _ Ht k Hk) as (p & _ & Hp). rewrite Hch in Hp.
      pose proof (is_list_NoDup _ _ _ Hp) as (_ & Hd & _)%list.NoDup_app. apply (Hd l Hx). left. }
    destruct (age_cell _ _ _ _ _ _ _ _ _ Ht Hk Hl) as (e & e1 & He & Hcl & Hal & Hn & Ht1).
    rewrite He in He'. injection He' as <-. cbn [expire_chain]. rewrite (deref_Some _ _ _ He), bind_ok, Hcl, bind_ok, (store_Some _ _ _ _ He), bind_ok.
    set (s1 := with_entries _ s) in *.
    assert (He1 : entries s1 !! l = Some e1) by apply lookup_insert_eq.
    assert (Hcur1 : ∀ x, x ∈ kept → current log c s1 x).
    { intros x Hx. eapply current_ext; [|by apply Hcur]. apply lookup_insert_ne. intros ->. by eapply Hnk. }
    assert (Hdom : dom (entries s1) = dom (entries s)).
    { apply dom_insert_lookup_L. by eexists. }
    assert (Hsame : ∀ x, x ∉ ch k → entries s1 !! x = entries s !! x).
    { intros x Hx. apply lookup_insert_ne. by intros ->. }
    destruct (Z.eqb_spec (counter e1) 0) as [Hz|Hz].
    + destruct (unlink_cell _ _ _ _ _ _ _ _ _ _ _ _ Ht1 Hk Hch He1 Hal Hz) as
        (s2 & s3 & q & Hw & Hd & Hst & Hs3 & Hr & Hlsq & Ht3 & Hsz & Hri & Hdom3 & Hsame3 & Hcur3).
      rewrite Hw, bind_ok, Hd, bind_ok, Hst, bind_ok. cbv zeta. rewrite <- Hs3, Hr, bind_ok.
      edestruct (IH fuel s3 _ _ _ _ kept q (released + 1) left Ht3) as
        (fp' & r' & l' & s' & ch' & fl' & Hgo & Ht' & Hw' & Hr'); try done.
      * unfold bucket. by rewrite (proj1 Hsz).
      * by rewrite at_bucket_eq.
      * intros x Hx. by apply Hcur3, Hcur1.
      * lia.
      * rewrite Hgo. exists fp', r', l', s', ch', fl'. split_and!; [done|done| |simpl in Hr'; lia].
        destruct Hw'. rewrite at_bucket_eq in *. split; try done.
        -- by eapply same_sizes_trans.
        -- by rewrite w_index0.
        -- congruence.
        -- rewrite w_perm0, Hch, <- !app_assoc. apply Permutation_app_head. symmetry. apply Permutation_middle.
        -- intros j Hj. by rewrite w_other0, at_bucket_ne.
        -- intros x Hx. rewrite w_same0, Hsame3, Hsame; try done. rewrite Hch in Hx. set_solver.
    + edestruct (IH fuel s1 _ _ _ _ (kept ++ [l]) (next e1) released (left + 1) Ht1) as
        (fp' & r' & l' & s' & ch' & fl' & Hgo & Ht' & Hw' & Hr'); try done.
      * by rewrite <- app_assoc.
      * rewrite Hn. apply is_list_insert_ne; [|done].
        pose proof (is_list_NoDup _ _ _ Hls) as Hnd. by apply list.NoDup_cons in Hnd as [].
      * intros x [Hx| ->%list_elem_of_singleton]%elem_of_app; [by apply Hcur1|].
        exists e1. done.
      * lia.
      * unfold link_after in Hgo at 1. rewrite last_snoc in Hgo. rewrite Hgo.
        exists fp', r', l', s', ch', fl'. split_and!; try done. destruct Hw'. split; try done.
        -- congruence.
        -- intros x Hx. by rewrite w_same0, Hsame.
Qed.

(** [free_entry] on the first cell of the free list. *)
Lemma table_free log c s ch pool l fl e :
  table log c s ch pool (Some l) (l :: fl) → entries s !! l = Some e →
  ∃ s', free_entry l s = Ok s' ∧ table log c s' ch (l :: pool) (next e) fl ∧
    same_sizes s s' ∧ recent_index s' = recent_index s ∧
    (∀ x, x ≠ l → entries s' !! x = entries s !! x).
Proof.
  intros Ht He. pose proof Ht as []. unfold free_entry.
  rewrite (deref_Some _ _ _ He), bind_ok, (store_Some _ _ _ _ He), bind_ok.
  eexists. split; [done|]. rewrite <- Permutation_middle in t_nodup0.
  pose proof (proj1 (list.NoDup_cons _ _) t_nodup0) as [Hl Hnd].
  assert (Hne : ∀ k x, bucket s k → x ∈ ch k → l ≠ x).
  { intros k x Hk Hx ->. apply (t_apart0 k x Hk); [set_solver|done]. }
  split; [|split_and!; try done; intros x Hx; simpl; by rewrite lookup_insert_ne].
  destruct t_free0 as (_ & e' & He' & Hfl). simplify_eq. split; simpl; try done.
  - intros k Hk. destruct (t_chain0 k Hk) as (p & Hp & Hls). exists p. split; [done|].
    apply is_list_insert_ne; [|done]. intros Hx. by apply (Hne k l).
  - split; [done|]. eexists. rewrite lookup_insert_eq. split; [done|]. simpl.
    apply is_list_insert_ne; [set_solver|done].
  - apply is_list_insert_ne; [set_solver|done].
  - intros k x Hk Hx. rewrite lookup_insert_ne by (by apply (Hne k)). by apply t_entry0.
  - intros k x y ex ey Hk Hx Hy. rewrite !lookup_insert_ne by (by apply (Hne k)). by eapply t_unique0.
  - intros k x Hk Hx. apply t_apart0; [done|]. rewrite <- Permutation_middle. done.
  - intros x Hx. setoid_rewrite <- Permutation_middle in t_owned0. apply t_owned0. revert Hx.
    destruct (decide (l = x)) as [<-|Hlx]; [by eexists|]. by rewrite lookup_insert_ne.
  - intros ip t Hin Hc. destruct (t_complete0 ip t Hin Hc) as (x & ex & Hx & Hex & Hip).
    exists x, ex. rewrite lookup_insert_ne; [done|]. apply (Hne (home s ip)); [|done].
    apply home_bucket; [apply t_size0|]. by eapply t_ips0.
Qed.

Lemma release_all_ok log c ch fl : ∀ fuel s pool fp,
  table log c s ch pool fp fl → (length fl < fuel)%nat →
  ∃ s' pool', release_all fuel fp s = Ok s' ∧ table log c s' ch pool' None [] ∧
    length pool' = (length pool + length fl)%nat ∧ same_sizes s s' ∧ recent_index s' = recent_index s ∧
    (∀ x, x ∉ fl → entries s' !! x = entries s !! x).
Proof.
  induction fl as [|l fl IH]; intros [|fuel] s pool fp Ht Hf; simpl in Hf; try lia.
  - pose proof (t_free _ _ _ _ _ _ _ Ht) as Hfp. unfold is_list in Hfp. simpl in Hfp. subst fp.
    exists s, pool. split_and!; try done; simpl; lia.
  - pose proof (t_free _ _ _ _ _ _ _ Ht) as (-> & e & He & Hls).
    destruct (table_free _ _ _ _ _ _ _ _ Ht He) as (s1 & Hfree & Ht1 & Hsz & Hri & Hsame).
    destruct (IH fuel s1 _ _ Ht1 ltac:(lia)) as (s' & pool' & Hgo & Ht' & Hlen & Hsz' & Hri' & Hsame').
    exists s', pool'. cbn [release_all]. rewrite (deref_Some _ _ _ He), bind_ok, Hfree, bind_ok, Hgo.
    split_and!; try done.
    + simpl in *. lia.
    + by eapply same_sizes_trans.
    + congruence.
    + intros x Hx. rewrite Hsame', Hsame; set_solver.
Qed.

Lemma chain_length log c s ch pool fp fl k :
  table log c s ch pool fp fl → bucket s k → (length (ch k) < list_fuel (entries s))%nat.
Proof.
  intros Ht Hk. destruct (t_chain _ _ _ _ _ _ _ Ht k Hk) as (p & _ & Hls).
  apply is_list_length in Hls. unfold list_fuel. lia.
Qed.

(** One bucket: walk, then release. *)
Lemma expire_bucket_ok log c k s ch pool released left :
  table log c s ch pool None [] → bucket s k →
  ∃ first fl released' left' s1 s2 ch' pool',
    array_get (ip_access_buffer s) k = Ok first ∧
    expire_chain (list_fuel (entries s)) (c mod 12) c first (BucketHead k) None released left s =
      Ok (fl, released', left', s1) ∧
    release_all (list_fuel (entries s1)) fl s1 = Ok s2 ∧ table log c s2 ch' pool' None [] ∧
    same_sizes s s2 ∧ recent_index s2 = recent_index s ∧
    released' = released + Z.of_nat (length pool') - Z.of_nat (length pool) ∧
    (∀ l, l ∈ ch' k → current log c s2 l) ∧
    (∀ j, bucket s j → j ≠ k → ch' j = ch j ∧ ∀ l, l ∈ ch j → current log c s l → current log c s2 l).
Proof.
  intros Ht Hk. destruct (t_chain _ _ _ _ _ _ _ Ht k Hk) as (first & Hfirst & Hls).
  destruct (expire_chain_ok log c k (ch k) (list_fuel (entries s)) s ch pool None [] [] first released left)
    as (fp & r & lf & s1 & ch' & fl & Hgo & Ht1 & [] & Hr); try done; [set_solver|by eapply chain_length|].
  destruct (release_all_ok log c ch' fl (list_fuel (entries s1)) s1 pool fp Ht1) as
    (s2 & pool' & Hrel & Ht2 & Hlen & Hsz & Hri & Hsame).
  { pose proof (is_list_length _ _ _ (t_free _ _ _ _ _ _ _ Ht1)). unfold list_fuel. lia. }
  exists first, fp, r, lf, s1, s2, ch', pool'. rewrite (array_get_Some _ _ _ Hfirst).
  assert (Hb : ∀ j, bucket s j → bucket s1 j) by (intros j; unfold bucket; by rewrite (proj1 w_sizes0)).
  assert (Hfl : ∀ j l, bucket s j → l ∈ ch' j → l ∉ fl).
  { intros j l Hj Hl Hin. apply (t_apart _ _ _ _ _ _ _ Ht1 j l); [by apply Hb|set_solver|done]. }
  split_and!; try done.
  - by eapply same_sizes_trans.
  - congruence.
  - simpl in *. lia.
  - intros l Hl. eapply current_ext; [by eapply Hsame, Hfl|]. by apply w_current0.
  - intros j Hj Hne. split; [by apply w_other0|]. intros l Hl.
    rewrite <- (w_other0 j Hne) in Hl. apply current_ext. rewrite Hsame by (by eapply Hfl).
    apply w_same0. rewrite w_other0 in Hl by done. intros Hlk. by apply Hne, (chains_apart _ _ _ _ _ _ _ j k l Ht).
Qed.

Lemma expire_buckets_ok log c n : ∀ k s ch pool released left,
  table log c s ch pool None [] → 0 ≤ k → k + Z.of_nat n = hash_buffer_size s →
  (∀ j l, 0 ≤ j < k → l ∈ ch j → current log c s l) →
  ∃ released' left' s' ch' pool',
    expire_buckets n k (c mod 12) c released left s = Ok (released', left', s') ∧
    table log c s' ch' pool' None [] ∧ same_sizes s s' ∧ recent_index s' = recent_index s ∧
    released' = released + Z.of_nat (length pool') - Z.of_nat (length pool) ∧
    (∀ j l, bucket s j → l ∈ ch' j → current log c s' l).
Proof.
  induction n as [|n IH]; intros k s ch pool released left Ht Hk Hn Hcur.
  - exists released, left, s, ch, pool. split_and!; try done; [lia|].
    intros j l Hj. apply Hcur. unfold bucket in Hj. lia.
  - assert (Hkb : bucket s k) by (unfold bucket; lia).
    destruct (expire_bucket_ok log c k s ch pool released left Ht Hkb) as
      (first & fl & r & lf & s1 & s2 & ch1 & pool1 & Hfirst & Hgo & Hrel & Ht2 & Hsz & Hri & Hr & Hck & Hco).
    cbn [expire_buckets]. rewrite Hfirst, bind_ok, Hgo, bind_ok, Hrel, bind_ok.
    destruct (IH (k + 1) s2 ch1 pool1 r lf Ht2) as (r' & lf' & s' & ch' & pool' & -> & Ht' & Hsz' & Hri' & Hr' & Hc').
    + lia.
    + rewrite (proj1 Hsz). lia.
    + intros j l Hj Hl. destruct (decide (j = k)) as [->|Hne]; [by apply Hck|].
      destruct (Hco j ltac:(unfold bucket in *; lia) Hne) as [Heq Hkeep]. rewrite Heq in Hl.
      apply Hkeep; [done|]. apply (Hcur j); [lia|done].
    + exists r', lf', s', ch', pool'. split_and!; try done.
      * by eapply same_sizes_trans.
      * congruence.
      * lia.
      * intros j l Hj. apply Hc'. unfold bucket. by rewrite (proj1 Hsz).
Qed.

Lemma expiring_ok log c s ch pool now :
  let t := slot s now in
  table log c s ch pool None [] → time_ok s c now →
  ∃ n s' ch' pool', expiring now s = Ok (n, s') ∧ table log t s' ch' pool' None [] ∧ same_sizes s s' ∧
    n = Z.of_nat (length pool') - Z.of_nat (length pool) ∧
    (recent_index s ≠ t mod 12 → ∀ k l, bucket s k → l ∈ ch' k → current log t s' l).
Proof.
  intros t Ht0 Htime. apply (table_later _ _ t) in Ht0 as Ht; [|apply Htime].
  unfold expiring. rewrite (current_time_index_ok c), bind_ok by (done || apply Ht). fold t.
  destruct (Z.eqb_spec (t mod 12) (recent_index s)) as [Hi|Hi].
  - exists 0, s, ch, pool. split_and!; first [done|lia].
  - pose proof (t_size _ _ _ _ _ _ _ Ht).
    destruct (expire_buckets_ok log t (Z.to_nat (hash_buffer_size s)) 0 s ch pool 0 0 Ht) as
      (n & lf & s' & ch' & pool' & -> & Ht' & Hsz & _ & Hn & Hc); try lia.
    rewrite bind_ok. eexists n, _, ch', pool'. split; [done|]. split; [by destruct Ht'; split|].
    split; [done|]. split; [lia|]. intros _ k l Hk Hl. destruct (Hc k l Hk Hl) as (e & ?). by exists e.
Qed.

(** *** Visiting *)

Definition positive_at (s : blacklist) (l : loc) : bool :=
  match entries s !! l with Some e => 0 <? counter e | None => false end.

Lemma visit_chain_ok s ls : ∀ fuel p,
  is_list (entries s) p ls → (length ls < fuel)%nat →
  visit_chain fuel p s = Ok (List.filter (positive_at s) ls).
Proof.
  unfold is_list. induction ls as [|l ls IH]; intros [|fuel] p Hls Hf; simpl in Hf; try lia.
  - simpl in Hls. by subst p.
  - destruct Hls as (-> & e & He & Hls). cbn [visit_chain]. rewrite (deref_Some _ _ _ He), bind_ok.
    rewrite (IH fuel _ Hls) by lia. simpl.
    assert (positive_at s l = (0 <? counter e)) as -> by (unfold positive_at; by rewrite He).
    by destruct (0 <? counter e).
Qed.

Lemma visit_buckets_ok log c s ch pool n : ∀ k,
  table log c s ch pool None [] → 0 ≤ k → k + Z.of_nat n = hash_buffer_size s →
  ∃ ls, visit_buckets n k s = Ok ls ∧ NoDup ls ∧
    ∀ l, l ∈ ls ↔ ∃ j, k ≤ j < hash_buffer_size s ∧ l ∈ ch j ∧ positive_at s l = true.
Proof.
  induction n as [|n IH]; intros k Ht Hk Hn.
  - exists []. split; [done|]. split; [constructor|]. intros l. rewrite elem_of_nil. split; [done|].
    intros (j & Hj & _). lia.
  - assert (Hkb : bucket s k) by (unfold bucket; lia).
    destruct (t_chain _ _ _ _ _ _ _ Ht k Hkb) as (p & Hp & Hls).
    cbn [visit_buckets]. rewrite (array_get_Some _ _ _ Hp), bind_ok.
    rewrite (visit_chain_ok _ _ _ _ Hls), bind_ok by (by eapply chain_length).
    destruct (IH (k + 1) Ht ltac:(lia) ltac:(lia)) as (ls & -> & Hnd & Hin).
    eexists. split; [done|]. split.
    + apply list.NoDup_app. split; [|split; [|done]].
      * apply base.NoDup_ListNoDup, List.NoDup_filter, base.NoDup_ListNoDup. by eapply is_list_NoDup.
      * intros l Hl%list_elem_of_In. apply List.filter_In in Hl as [Hl%list_elem_of_In _].
        rewrite Hin. intros (j & Hj & Hlj & _).
        assert (k = j); [|lia]. eapply (chains_apart _ _ _ _ _ _ _ k j l Ht); try done. unfold bucket. lia.
    + intros l. rewrite elem_of_app, Hin, list_elem_of_In, List.filter_In, <- list_elem_of_In. split.
      * intros [[Hl Hp']|(j & Hj & Hl)]; [exists k|exists j]; (split; [lia|done]).
      * intros (j & Hj & Hl & Hp'). destruct (decide (j = k)) as [->|]; [by left|right].
        exists j. split; [lia|done].
Qed.

(** What the callback of [for_each] reads: addresses and counts. *)
Definition report (s : blacklist) (ls : list loc) : list (Z * Z) :=
  map (λ l, match entries s !! l with Some e => (ipaddr e, counter e) | None => (-1, 0) end) ls.

(** When every entry is current, the visit reports the addresses with an access
    in the window, each once and with the size of its window. *)
Lemma for_each_ok log c s ch pool :
  table log c s ch pool None [] → (∀ k l, bucket s k → l ∈ ch k → current log c s l) →
  ∃ ls, for_each s = Ok ls ∧ NoDup (map fst (report s ls)) ∧
    ∀ ip n, (ip, n) ∈ report s ls ↔ n = window_count log c ip ∧ 0 < n.
Proof.
  intros Ht Hcur. pose proof (t_size _ _ _ _ _ _ _ Ht).
  destruct (visit_buckets_ok _ _ _ _ _ (Z.to_nat (hash_buffer_size s)) 0 Ht) as (ls & Hgo & Hnd & Hin); [lia|lia|].
  assert (Hl : ∀ l, l ∈ ls → ∃ e, entries s !! l = Some e ∧ l ∈ ch (home s (ipaddr e)) ∧
             bucket s (home s (ipaddr e)) ∧ counter e = window_count log c (ipaddr e) ∧ 0 < counter e).
  { intros l (j & Hj & Hl & Hp)%Hin. destruct (Hcur j l Hj Hl) as (e & He & Ha & Hc).
    destruct (t_entry _ _ _ _ _ _ _ Ht j l Hj Hl) as (e' & He' & Hh & _). simplify_eq.
    exists e. split_and!; try done; [by eapply aligned_total|].
    unfold positive_at in Hp. rewrite He in Hp. lia. }
  exists ls. split; [done|]. unfold report. rewrite map_map. split.
  - apply NoDup_fmap_2_strong; [|done]. intros x y Hx Hy. destruct (Hl x Hx) as (ex & Hex & Hxc & Hb & _).
    destruct (Hl y Hy) as (ey & Hey & Hyc & _). rewrite Hex, Hey. simpl. intros Heq. rewrite <- Heq in Hyc.
    by eapply (t_unique _ _ _ _ _ _ _ Ht (home s (ipaddr ex)) x y).
  - intros ip n. rewrite list_elem_of_In, in_map_iff. split.
    + intros (l & Heq & Hx%list_elem_of_In). destruct (Hl l Hx) as (e & He & _ & _ & Hc & Hpos).
      rewrite He in Heq. injection Heq as <- <-. done.
    + intros [-> Hpos]. assert (∃ t, t ∈ hits ip log ∧ c - 12 < t) as (t & Ht'%hits_elem & Hw).
      { apply countb_pos in Hpos as (t & Hin' & Hw%Z.ltb_lt). eauto. }
      destruct (t_complete _ _ _ _ _ _ _ Ht ip t Ht' Hw) as (l & e & Hlc & He & <-).
      assert (Hb : bucket s (home s (ipaddr e))).
      { apply home_bucket; [lia|]. by apply (t_ips _ _ _ _ _ _ _ Ht _ t). }
      destruct (Hcur _ _ Hb Hlc) as (e' & He' & Ha & Hc). simplify_eq.
      pose proof (aligned_total _ _ _ Ha) as Hct. exists l. rewrite He, Hct. split; [done|].
      apply list_elem_of_In, Hin. eexists. split; [apply Hb|]. split; [done|].
      unfold positive_at. rewrite He. apply Z.ltb_lt. unfold window_count in Hpos. lia.
Qed.

(** ** The service *)

Lemma new_service_table hash_size monitor_period :
  0 < hash_size ≤ INT_MAX → 12 ≤ monitor_period →
  table [] 0 (new_auto_blacklist_service hash_size monitor_period) (λ _, []) [] None [].
Proof.
  intros Hh Hm. split; simpl; try done; try set_solver.
  - unfold RESERVED_ENTRY. Z.to_euclidean_division_equations. lia.
  - rewrite length_replicate. lia.
  - intros k Hk. exists None. split; [|done]. unfold bucket in Hk. simpl in Hk.
    apply zlookup_Some. split; [lia|]. apply lookup_replicate_2. lia.
  - constructor.
  - intros l Hl. rewrite lookup_empty in Hl. by destruct Hl.
Qed.

(** The calls the program makes: [find_and_increase] for every connection and
    [expiring] from the expiring thread, each at the time it is made. *)
Inductive bl_call :=
  | Access (s_addr now : Z) (tv : timeval)
  | Expire (now : Z).

Definition call_time (x : bl_call) : Z := match x with Access _ now _ => now | Expire now => now end.

(** An access returns the count of the entry, an expiry 0. *)
Definition bl_step (x : bl_call) (s : blacklist) : outcome (Z * blacklist) :=
  match x with
  | Access a now tv =>
      '(l, s') ← find_and_increase true a now tv s;
      e ← deref (entries s') (Some l);
      Ok (counter e, s')
  | Expire now => '(_, s') ← expiring now s; Ok (0, s')
  end.

Fixpoint bl_run (xs : list bl_call) (s : blacklist) : outcome (list Z * blacklist) :=
  match xs with
  | [] => Ok ([], s)
  | x :: xs' =>
      '(r, s1) ← bl_step x s;
      '(rs, s2) ← bl_run xs' s1;
      Ok (r :: rs, s2)
  end.

(** The specification: the log of all accesses, and counting in the log. *)
Fixpoint counts_spec (freq : Z) (xs : list bl_call) (log : list (Z * Z)) : list Z * list (Z * Z) :=
  match xs with
  | [] => ([], log)
  | Access a now _ :: xs' =>
      let t := Z.quot now freq in
      let log' := (htonl a, t) :: log in
      let '(rs, log'') := counts_spec freq xs' log' in
      (window_count log' t (htonl a) :: rs, log'')
  | Expire _ :: xs' => let '(rs, log'') := counts_spec freq xs' log in (0 :: rs, log'')
  end.

(** The clock does not run backwards over a slot, and its slots fit an [int]. *)
Fixpoint clock_ok (freq c : Z) (xs : list bl_call) : Prop :=
  match xs with
  | [] => True
  | x :: xs' => let t := Z.quot (call_time x) freq in
      (0 < t ≤ INT_MAX ∧ c ≤ t) ∧ clock_ok freq t xs'
  end.

Definition last_slot (freq : Z) (xs : list bl_call) : Z :=
  List.last (map (λ x, Z.quot (call_time x) freq) xs) 0.

Lemma bl_step_ok x log c s ch pool :
  table log c s ch pool None [] → time_ok s c (call_time x) → Z.of_nat (length log) < INT_MAX →
  ∃ r s' ch' pool', bl_step x s = Ok (r, s') ∧ same_sizes s s' ∧
    let t := slot s (call_time x) in
    match x with
    | Access a _ _ => table ((htonl a, t) :: log) t s' ch' pool' None [] ∧
        r = window_count ((htonl a, t) :: log) t (htonl a)
    | Expire _ => table log t s' ch' pool' None [] ∧ r = 0
    end.
Proof.
  intros Ht Htime Hlen. destruct x as [a now tv|now]; cbn [bl_step call_time] in *.
  - destruct (find_and_increase_ok log c s ch pool a now tv Ht Htime Hlen) as
      (l & s' & ch' & pool' & e & -> & Ht' & Hsz & _ & He & _ & Hc & _).
    rewrite bind_ok, (deref_Some _ _ _ He), bind_ok. by eexists _, s', ch', pool'.
  - destruct (expiring_ok log c s ch pool now Ht Htime) as (n & s' & ch' & pool' & -> & Ht' & Hsz & _).
    rewrite bind_ok. by eexists 0, s', ch', pool'.
Qed.

Lemma bl_run_ok xs : ∀ log c s ch pool,
  table log c s ch pool None [] → clock_ok (frequency_in_seconds s) c xs →
  Z.of_nat (length log) + Z.of_nat (length xs) < INT_MAX →
  let '(rs, log') := counts_spec (frequency_in_seconds s) xs log in
  ∃ s' ch' pool', bl_run xs s = Ok (rs, s') ∧ same_sizes s s' ∧
    table log' (List.last (map (λ x, Z.quot (call_time x) (frequency_in_seconds s)) xs) c) s' ch' pool' None [].
Proof.
  induction xs as [|x xs IH]; intros log c s ch pool Ht Hclock Hlen; simpl in *.
  - by exists s, ch, pool.
  - destruct Hclock as [Htime Hclock].
    destruct (bl_step_ok x log c s ch pool Ht Htime ltac:(lia)) as (r & s1 & ch1 & pool1 & Hstep & Hsz & Hx).
    assert (Hlast : ∀ (ls : list Z) (t d : Z), match ls with [] => t | _ :: _ => List.last ls d end = List.last ls t).
    { intros ls t d. induction ls as [|y [|z ls] IHl]; simpl in *; congruence. }
    rewrite Hstep, bind_ok. pose proof (proj2 Hsz) as Hf. destruct x as [a now tv|now]; simpl in *;
      destruct Hx as [Ht1 ->]; specialize (IH _ _ _ _ _ Ht1); rewrite Hf in IH;
      specialize (IH Hclock); simpl in IH; (destruct (counts_spec _ xs _) as [rs log']);
      (destruct IH as (s' & ch' & pool' & -> & Hsz' & Ht'); [lia|]);
      exists s', ch', pool'; rewrite Hlast; (split; [done|]); (split; [by eapply same_sizes_trans|done]).
Qed.

(** C36: the auto-blacklist service counts sliding windows. On a new service, any
    sequence of accesses and expiries at non-decreasing times runs to the end
    without undefined behaviour (every loop terminates, no freed or shared cell
    is touched, no counter overflows), and every access returns an entry whose
    counter is the number of accesses from the same address in the last twelve
    time slots, the current one included. *)
Theorem blacklist_counts_windows hash_size monitor_period xs :
  0 < hash_size ≤ INT_MAX → 12 ≤ monitor_period →
  clock_ok (Z.quot monitor_period 12) 0 xs → Z.of_nat (length xs) < INT_MAX →
  ∃ s', bl_run xs (new_auto_blacklist_service hash_size monitor_period) =
    Ok (fst (counts_spec (Z.quot monitor_period 12) xs []), s').
Proof.
  intros Hh Hm Hclock Hlen.
  pose proof (bl_run_ok xs _ _ _ _ _ (new_service_table _ _ Hh Hm) Hclock ltac:(simpl; lia)) as Hrun.
  simpl in Hrun. unfold RESERVED_ENTRY in Hrun. destruct (counts_spec _ xs []) as [rs log'].
  destruct Hrun as (s' & _ & _ & -> & _). by exists s'.
Qed.

(** Three accesses in one window, the first of which has left it at the fourth. *)
Lemma blacklist_counts_windows_witness :
  let xs := [Access 1 100 (Timeval 0 0); Access 1 110 (Timeval 0 0); Expire 115;
             Access 2 120 (Timeval 0 0); Access 1 220 (Timeval 0 0)] in
  fst (counts_spec 10 xs []) = [1; 2; 0; 1; 2] ∧
  ∃ s', bl_run xs (new_auto_blacklist_service 1 120) = Ok (fst (counts_spec 10 xs []), s').
Proof.
  intros xs. split; [by vm_compute|].
  apply (blacklist_counts_windows 1 120); [by vm_compute|by vm_compute| |by vm_compute].
  repeat split; by vm_compute.
Defined.

(** An expiry is exact. After any run of the service, an expiry at a later time
    (in a ring position other than that of the previous expiry) terminates and
    leaves exactly the entries of the addresses with an access in the last twelve
    slots: [for_each] then visits each such address once, with the number of its
    accesses, and no other. *)
Theorem expiring_keeps_windows hash_size monitor_period xs s now :
  let freq := Z.quot monitor_period 12 in
  let t := Z.quot now freq in
  0 < hash_size ≤ INT_MAX → 12 ≤ monitor_period →
  clock_ok freq 0 xs → Z.of_nat (length xs) < INT_MAX →
  bl_run xs (new_auto_blacklist_service hash_size monitor_period) = Ok (fst (counts_spec freq xs []), s) →
  0 < t ≤ INT_MAX → last_slot freq xs ≤ t → recent_index s ≠ t mod 12 →
  ∃ n s' ls, expiring now s = Ok (n, s') ∧ for_each s' = Ok ls ∧ NoDup (map fst (report s' ls)) ∧
    ∀ ip c, (ip, c) ∈ report s' ls ↔ c = window_count (snd (counts_spec freq xs [])) t ip ∧ 0 < c.
Proof.
  intros freq t Hh Hm Hclock Hlen Hgo Ht Hlast Hidx.
  pose proof (bl_run_ok xs _ _ _ _ _ (new_service_table _ _ Hh Hm) Hclock ltac:(simpl; lia)) as Hrun.
  change (frequency_in_seconds (new_auto_blacklist_service hash_size monitor_period)) with freq in Hrun.
  unfold last_slot in Hlast. destruct (counts_spec freq xs []) as [rs log].
  destruct Hrun as (s1 & ch & pool & Hgo' & Hsz & Htab). rewrite Hgo in Hgo'. injection Hgo' as <-.
  assert (Hslot : slot s now = t) by (unfold slot; by rewrite (proj2 Hsz)).
  destruct (expiring_ok _ _ _ _ _ now Htab) as (n & s' & ch' & pool' & He & Htab' & Hsz' & _ & Hcur).
  { split; rewrite Hslot; done. }
  rewrite Hslot in *. destruct (for_each_ok _ _ _ _ _ Htab') as (ls & Hls & Hnd & Hin).
  { intros k l Hk. apply Hcur; [done|]. unfold bucket in *. by rewrite <- (proj1 Hsz'). }
  by exists n, s', ls.
Qed.

(** Address 1 (16777216 in host order) has left the window, address 2 has not. *)
Lemma expiring_keeps_windows_witness :
  let xs := [Access 1 100 (Timeval 0 0); Access 2 150 (Timeval 0 0); Access 2 200 (Timeval 0 0)] in
  ∃ s n s' ls, bl_run xs (new_auto_blacklist_service 7 120) = Ok ([1; 1; 2], s) ∧
    expiring 240 s = Ok (n, s') ∧ for_each s' = Ok ls ∧ NoDup (map fst (report s' ls)) ∧
    ∀ ip c, (ip, c) ∈ report s' ls ↔ c = window_count (snd (counts_spec 10 xs [])) 24 ip ∧ 0 < c.
Proof.
  intros xs. eexists. 
  edestruct (expiring_keeps_windows 7 120 xs) as (n & s' & ls & H); cycle -1.
  - exists n, s', ls. split; [|exact H]. by vm_compute.
  - by vm_compute.
  - by vm_compute.
  - repeat split; by vm_compute.
  - by vm_compute.
  - by vm_compute.
  - by vm_compute.
  - by vm_compute.
  - by vm_compute.
Defined.

(** A monitor period below twelve seconds makes the slot length zero, and the
    first access as well as the first expiry divides by zero. *)
Theorem short_period_divides_by_zero memory hash_size monitor_period s_addr now tv :
  0 < hash_size ≤ INT_MAX → 0 ≤ monitor_period < 12 →
  let s := new_auto_blacklist_service hash_size monitor_period in
  find_and_increase memory s_addr now tv s = Undefined DivByZero ∧ expiring now s = Undefined DivByZero.
Proof.
  intros Hh Hm s. assert (Hf : frequency_in_seconds s = 0).
  { unfold s. simpl. unfold RESERVED_ENTRY. by apply Z.quot_small. }
  assert (Hidx : current_time_index now s = Undefined DivByZero).
  { unfold current_time_index. by rewrite Hf. }
  split; [|unfold expiring; by rewrite Hidx].
  pose proof (htonl_range s_addr) as Hip. unfold INT_MAX in *.
  pose proof (Z.rem_bound_pos (htonl s_addr) hash_size ltac:(lia) ltac:(lia)) as Hr.
  unfold find_and_increase. change (hash_buffer_size s) with hash_size.
  change (ip_access_buffer s) with (replicate (Z.to_nat hash_size) (None : ptr)).
  rewrite uint32_id by lia. rewrite c_rem_ok, bind_ok by lia.
  rewrite int32_id by (unfold is_int, INT_MIN, INT_MAX; lia).
  destruct (array_get_ok (replicate (Z.to_nat hash_size) (None : ptr)) (Z.rem (htonl s_addr) hash_size))
    as (p & _ & ->); [rewrite length_replicate; lia|].
  by rewrite bind_ok, Hidx.
Qed.

Lemma short_period_divides_by_zero_witness :
  find_and_increase true 16777343 1700000000 (Timeval 0 0) (new_auto_blacklist_service 997 10) =
    Undefined DivByZero.
Proof. apply (short_period_divides_by_zero true 997 10); by vm_compute. Defined.
