(* ===== verification/BlacklistRace.v ===== *)
(** * auto_blacklist.c: what the mutexes do not protect

    First, what no operation of the service does to a cell: only making an entry writes
    its address and its count of successes. Then [find_and_increase] in the three parts
    that its mutex separates: the head of the chain is read before the mutex is taken, and
    the counters are increased after it is released. Uninterrupted, the parts are
    [find_and_increase] of [AutoBlacklist.v]; when the expiry runs before the last one, the
    access of a new address is lost. *)

From S2P Require Import Prelude Heap Utils AutoBlacklist.

(** The two fields are the same. *)
Definition same_cell (e e' : ip_entry) : Prop := ipaddr e' = ipaddr e ∧ success_counter e' = success_counter e.

Lemma clear_slots_same n : ∀ i t e e', clear_slots n i t e = Ok e' → same_cell e e'.
Proof.
  induction n as [|n IH]; intros i t e e' Hc; simpl in Hc; [by simplify_eq|].
  apply bind_ok_inv in Hc as (e1 & H1 & [Hi Hs]%IH). unfold clear_slot in H1. apply bind_ok_inv in H1 as (a & _ & H1).
  assert (same_cell e e1) as [H2 H3] by (repeat case_match; inv_ok; done). split; congruence.
Qed.

Lemma hit_same index t e e' : hit index t e = Ok e' → same_cell e e'.
Proof.
  unfold hit. intros Hh. apply bind_ok_inv in Hh as (a & _ & Hh). apply bind_ok_inv in Hh as (e1 & H1 & Hh).
  assert (same_cell e e1) as [H2 H3] by (destruct (a_slot a =? t); [by simplify_eq|by eapply clear_slots_same]).
  apply bind_ok_inv in Hh as (a1 & _ & Hh). apply bind_ok_inv in Hh as (n & _ & Hh).
  apply bind_ok_inv in Hh as (acs & _ & Hh). by apply bind_ok_inv in Hh as (m & _ & [= <-]).
Qed.

Section frame.
(** A fact about the cells that survives the changes [R] to a cell; the service changes a
    cell by clearing its ring, by counting an access, and by linking it elsewhere. *)
Context (Q : heap ip_entry → Prop) (R : ip_entry → ip_entry → Prop).
Context (Q_update : ∀ h l e e', Q h → h !! l = Some e → R e e' → Q (<[l := e']> h)).
Context (R_clear : ∀ n i t e e', clear_slots n i t e = Ok e' → R e e').
Context (R_next : ∀ p e, R e (set_next p e)).
Context (R_hit : ∀ i t e e', hit i t e = Ok e' → R e e').
Implicit Types (h : heap ip_entry) (s : blacklist) (e : ip_entry).

Lemma cells_update h p e e' h' :
  Q h → deref h p = Ok e → store h p e' = Ok h' → R e e' → Q h'.
Proof.
  intros Hh Hd Hs HR. destruct p as [l|]; [|done]. simpl in *. destruct (h !! l) as [e0|] eqn:Hl; simplify_eq.
  by eapply Q_update.
Qed.

Lemma write_link_cells p q s s' : Q (entries s) → write_link p q s = Ok s' → Q (entries s').
Proof.
  intros Hs Hw. destruct p as [k|l]; cbn [write_link] in Hw.
  - by apply bind_ok_inv in Hw as (bs & _ & [= <-]).
  - apply bind_ok_inv in Hw as (e & He & Hw). apply bind_ok_inv in Hw as (h & Hh & [= <-]).
    by eapply cells_update.
Qed.

Lemma insert_entry_cells memory ip k tv s l s' :
  (∀ h x e, Q h → ipaddr e = ip → success_counter e = 0 → Q (<[x := e]> h)) → Q (entries s) → insert_entry memory ip k tv s = Ok (l, s') → Q (entries s').
Proof.
  intros H0 Hs Hi. unfold insert_entry in Hi. apply bind_ok_inv in Hi as ([p s1] & Ha & Hi).
  assert (entries s1 = entries s) as Hs1.
  { unfold allocate_new_entry in Ha. destruct (release_pool s) as [x|]; [|by simplify_eq].
    by apply bind_ok_inv in Ha as (e & _ & [= <- <-]). }
  destruct p as [x|]; [|done]. apply bind_ok_inv in Hi as (first & _ & Hi). apply bind_ok_inv in Hi as (bs & _ & [= <- <-]).
  simpl. rewrite Hs1. by apply H0.
Qed.

Lemma find_and_increase_cells memory a now tv s l s' :
  (∀ h x e, Q h → ipaddr e = htonl a → success_counter e = 0 → Q (<[x := e]> h)) → Q (entries s) → find_and_increase memory a now tv s = Ok (l, s') → Q (entries s').
Proof.
  intros H0 Hs Hf. unfold find_and_increase in Hf. apply bind_ok_inv in Hf as (k & _ & Hf).
  apply bind_ok_inv in Hf as (first & _ & Hf). apply bind_ok_inv in Hf as ([index t] & _ & Hf).
  apply bind_ok_inv in Hf as (r & _ & Hf). apply bind_ok_inv in Hf as ([x s1] & Hr & Hf).
  assert (Q (entries s1)) as Hs1.
  { destruct r as [y|]; [by simplify_eq|]. by eapply insert_entry_cells. }
  apply bind_ok_inv in Hf as (e & He & Hf). apply bind_ok_inv in Hf as (e' & Hh%R_hit & Hf).
  apply bind_ok_inv in Hf as (h & Hst & [= <- <-]). by eapply cells_update.
Qed.

Lemma expire_chain_cells fuel : ∀ index t entry prev fl n m s r,
  Q (entries s) → expire_chain fuel index t entry prev fl n m s = Ok r → Q (entries r.2).
Proof.
  induction fuel as [|fuel IH]; intros index t entry prev fl n m s r Hs Hx; [done|]. cbn [expire_chain] in Hx.
  destruct entry as [l|]; [|by simplify_eq].
  apply bind_ok_inv in Hx as (e & He & Hx). apply bind_ok_inv in Hx as (e1 & Hc%R_clear & Hx).
  apply bind_ok_inv in Hx as (h1 & H1 & Hx). assert (Q h1) as Hh1 by exact (cells_update _ _ _ _ _ Hs He H1 Hc).
  cbv zeta in Hx. destruct (counter e1 =? 0); [|eapply IH; [|exact Hx]; exact Hh1].
  apply bind_ok_inv in Hx as (s2 & H2 & Hx). apply write_link_cells in H2; [|done].
  apply bind_ok_inv in Hx as (e2 & He2 & Hx). apply bind_ok_inv in Hx as (h3 & H3 & Hx).
  apply bind_ok_inv in Hx as (entry' & _ & Hx). eapply IH; [|exact Hx]. exact (cells_update _ _ _ _ _ H2 He2 H3 (R_next _ _)).
Qed.

Lemma release_Q fuel : ∀ fl s s',
  Q (entries s) → release_all fuel fl s = Ok s' → Q (entries s').
Proof.
  induction fuel as [|fuel IH]; intros fl s s' Hs Hr; [done|]. cbn [release_all] in Hr. destruct fl as [l|]; [|by simplify_eq].
  apply bind_ok_inv in Hr as (e & _ & Hr). apply bind_ok_inv in Hr as (s1 & Hf & Hr). eapply IH; [|exact Hr].
  unfold free_entry in Hf. apply bind_ok_inv in Hf as (e1 & He1 & Hf). apply bind_ok_inv in Hf as (h & Hh & [= <-]).
  by eapply cells_update.
Qed.

Lemma expire_buckets_cells n : ∀ k index t a b s r,
  Q (entries s) → expire_buckets n k index t a b s = Ok r → Q (entries r.2).
Proof.
  induction n as [|n IH]; intros k index t a b s r Hs Hx; cbn [expire_buckets] in Hx; [by simplify_eq|].
  apply bind_ok_inv in Hx as (first & _ & Hx). apply bind_ok_inv in Hx as ([[[fl a'] b'] s1] & H1 & Hx).
  apply expire_chain_cells in H1; [|done]. apply bind_ok_inv in Hx as (s2 & H2 & Hx).
  apply release_Q in H2; [|done]. by eapply IH.
Qed.

Lemma expiring_cells now s n s' :
  Q (entries s) → expiring now s = Ok (n, s') → Q (entries s').
Proof.
  intros Hs Hx. unfold expiring in Hx. apply bind_ok_inv in Hx as ([index t] & _ & Hx).
  destruct (index =? recent_index s); [by simplify_eq|].
  apply bind_ok_inv in Hx as ([[a b] s1] & H1 & Hx). apply expire_buckets_cells in H1; [|done]. by simplify_eq.
Qed.
End frame.

(** ** The three parts of [find_and_increase] *)

(** The local variables it has when it takes the mutex. *)
Record lookup_vars := LookupVars {
  lv_ip : Z;
  lv_hash : Z;
  lv_head : ptr;            (* [header->entries], read without the mutex *)
  lv_index : Z;
  lv_slot : Z;
}.

Definition find_begin (s_addr now : Z) (s : blacklist) : outcome lookup_vars :=
  let ip := htonl s_addr in
  hash_index ← c_rem ip (uint32 (hash_buffer_size s));
  first ← array_get (ip_access_buffer s) (int32 hash_index);
  '(index, slot_index) ← current_time_index now s;
  Ok (LookupVars ip (int32 hash_index) first index slot_index).

(** Under the mutex of the chain. *)
Definition find_locked (memory : bool) (tv : timeval) (v : lookup_vars) (s : blacklist) : outcome (loc * blacklist) :=
  r ← find_cell (λ e, ipaddr e =? lv_ip v) (list_fuel (entries s)) (entries s) (lv_head v);
  '(l, s1) ← match r with
             | Some l => Ok (l, s)
             | None => insert_entry memory (lv_ip v) (lv_hash v) tv s
             end;
  e ← deref (entries s1) (Some l);
  a ← array_get (access_count e) (lv_index v);
  e1 ← (if a_slot a =? lv_slot v then Ok e else clear_outdated_data e (lv_index v) (lv_slot v));
  h ← store (entries s1) (Some l) e1;
  Ok (l, with_entries h s1).

(** The two counters, after the mutex is released. *)
Definition find_count (l : loc) (v : lookup_vars) (s : blacklist) : outcome blacklist :=
  e ← deref (entries s) (Some l);
  a ← array_get (access_count e) (lv_index v);
  count ← checked_int (a_counter a + 1);
  acs ← array_set (access_count e) (lv_index v) (AccessEntry count (a_slot a));
  total ← checked_int (counter e + 1);
  h ← store (entries s) (Some l) (with_counts acs total e);
  Ok (with_entries h s).

Definition find_in_parts (memory : bool) (s_addr now : Z) (tv : timeval) (s : blacklist) : outcome (loc * blacklist) :=
  v ← find_begin s_addr now s;
  '(l, s1) ← find_locked memory tv v s;
  s2 ← find_count l v s1;
  Ok (l, s2).

(** Uninterrupted, the parts are the whole. *)
Lemma find_parts memory s_addr now tv s :
  find_in_parts memory s_addr now tv s = find_and_increase memory s_addr now tv s.
Proof.
  unfold find_in_parts, find_and_increase, find_begin. destruct (c_rem _ _) as [k| |]; [|done..]. rewrite !bind_ok.
  destruct (array_get _ (int32 k)) as [first| |]; [|done..]. rewrite !bind_ok.
  destruct (current_time_index now s) as [[index t]| |]; [|done..]. rewrite !bind_ok. unfold find_locked, find_count. cbn [lv_ip lv_hash lv_head lv_index lv_slot].
  destruct (find_cell _ _ _ _) as [r| |]; [|done..]. rewrite !bind_ok.
  destruct (match r with Some _ => _ | None => _ end) as [[l s1]| |]; [|done..]. rewrite !bind_ok.
  destruct (deref (entries s1) (Some l)) as [e| |] eqn:He; [|done..]. rewrite !bind_ok. unfold hit.
  destruct (array_get (access_count e) index) as [a| |]; [|done..]. rewrite !bind_ok.
  destruct (if a_slot a =? t then _ else _) as [e1| |]; [|done..]. rewrite !bind_ok.
  assert (is_Some (entries s1 !! l)) as [e0 He0]. { simpl in He. by destruct (entries s1 !! l). }
  rewrite (store_Some _ _ _ _ He0), bind_ok, bind_ok. cbn [entries with_entries].
  rewrite (deref_Some (<[l := e1]> (entries s1)) l e1), bind_ok by apply lookup_insert_eq.
  destruct (array_get (access_count e1) index) as [a1| |]; [|done..]. rewrite !bind_ok.
  destruct (checked_int (a_counter a1 + 1)) as [n| |]; [|done..]. rewrite !bind_ok.
  destruct (array_set _ _ _) as [acs| |]; [|done..]. rewrite !bind_ok.
  destruct (checked_int (counter e1 + 1)) as [m| |]; [|done..]. rewrite !bind_ok.
  rewrite (store_Some _ _ _ _ He0), (store_Some (<[l := e1]> (entries s1)) l e1), !bind_ok by apply lookup_insert_eq.
  by rewrite insert_insert_eq.
Qed.

(** ** The expiry before the count *)

(** The address has no entry. *)
Definition unknown (s : blacklist) (ch : Z → list loc) (ip : Z) : Prop :=
  ∀ l e, l ∈ ch (home s ip) → entries s !! l = Some e → ipaddr e ≠ ip.

Lemma unknown_old log c s ch pool ip t :
  table log c s ch pool None [] → unknown s ch ip → t ∈ hits ip log → t ≤ c - 12.
Proof.
  intros Ht Hun Hin%hits_elem. destruct (decide (c - 12 < t)) as [Hlt|]; [|lia].
  destruct (t_complete _ _ _ _ _ _ _ Ht ip t Hin Hlt) as (l & e & Hl & He & Heq). by destruct (Hun l e Hl He).
Qed.

Lemma find_begin_ok log c s ch pool a now :
  table log c s ch pool None [] → time_ok s c now →
  ∃ first, find_begin a now s = Ok (LookupVars (htonl a) (home s (htonl a)) first (slot s now mod 12) (slot s now)) ∧
    zlookup (ip_access_buffer s) (home s (htonl a)) = Some first ∧ is_list (entries s) first (ch (home s (htonl a))).
Proof.
  intros Ht Htime. pose proof Ht as []. destruct t_size as [Hs1 Hs2].
  pose proof (home_bucket s (htonl a) Hs1 (proj1 (htonl_range a))) as Hk. pose proof Hk as Hk'. unfold bucket in Hk'.
  destruct (t_chain _ Hk) as (first & Hfirst & Hls). exists first. split; [|done]. unfold find_begin.
  rewrite uint32_id by (unfold INT_MAX in *; lia). rewrite c_rem_ok, bind_ok by lia. fold (home s (htonl a)).
  rewrite int32_id by (unfold is_int, INT_MIN, INT_MAX in *; lia).
  by rewrite (array_get_Some _ _ _ Hfirst), bind_ok, (current_time_index_ok c), bind_ok.
Qed.

(** Aging a ring: it stays well-formed and its total does not grow. *)
Definition aged (e e' : ip_entry) : Prop :=
  ipaddr e' = ipaddr e ∧ (entry_ok e → entry_ok e' ∧ counter e' ≤ counter e).

Lemma clear_slot_aged i t e e' : clear_slot i t e = Ok e' → entry_ok e → entry_ok e' ∧ counter e' ≤ counter e.
Proof.
  intros Hc He. assert (0 ≤ i < 12) as Hi.
  { unfold clear_slot in Hc. apply bind_ok_inv in Hc as (a & Ha & _). unfold array_get in Ha.
    destruct (zlookup (access_count e) i) eqn:Hz; [|done].
    assert (is_Some (zlookup (access_count e) i)) as Hs%zlookup_is_Some by (by rewrite Hz).
    by rewrite (entry_length _ He) in Hs. }
  destruct (clear_slot_ok i t e He Hi) as (a & Ha & Hc' & He'). rewrite Hc in Hc'. injection Hc' as ->. split; [done|].
  cbn [counter with_counts]. rewrite (entry_total _ He), (sum_counters_insert _ _ _ _ Ha).
  pose proof (proj1 (Forall_lookup _ _) (entry_nonneg _ He) _ _ Ha) as H0. cbv beta in H0.
  unfold clear_cell. destruct (_ =? _); simpl; lia.
Qed.

Lemma clear_slots_aged n : ∀ i t e e', clear_slots n i t e = Ok e' → aged e e'.
Proof.
  intros i t e e' Hc. split; [by apply (clear_slots_same _ _ _ _ _ Hc)|]. revert i t e Hc.
  induction n as [|n IH]; intros i t e Hc He; simpl in Hc; [by simplify_eq|].
  apply bind_ok_inv in Hc as (e1 & H1 & H2). destruct (clear_slot_aged _ _ _ _ H1 He) as [He1 Hle].
  destruct (IH _ _ _ H2 He1). split; [done|lia].
Qed.

Lemma set_next_aged p e : aged e (set_next p e).
Proof. split; [done|]. intros []. split; [by split|done]. Qed.

(** A live cell of this address whose ring counts nothing. *)
Definition empty_at (l : loc) (ip : Z) (h : heap ip_entry) : Prop :=
  ∃ e, h !! l = Some e ∧ ipaddr e = ip ∧ entry_ok e ∧ counter e ≤ 0.

Lemma empty_at_update l ip h x e e' : empty_at l ip h → h !! x = Some e → aged e e' → empty_at l ip (<[x := e']> h).
Proof.
  intros (e0 & He0 & Hip & Hok & Hc) He [Hs Hk]. unfold empty_at. destruct (decide (x = l)) as [->|Hne].
  - simplify_eq. destruct (Hk Hok). exists e'. rewrite lookup_insert_eq. split_and!; try done. lia.
  - exists e0. by rewrite lookup_insert_ne.
Qed.

Lemma expiring_empty_at l ip now s n s' :
  empty_at l ip (entries s) → expiring now s = Ok (n, s') → empty_at l ip (entries s').
Proof. apply expiring_cells with (R := aged); [apply empty_at_update|apply clear_slots_aged|apply set_next_aged]. Qed.

(** The second part makes an entry that counts nothing yet. *)
Lemma find_locked_new log s ch pool tv ip first t :
  table log t s ch pool None [] → unknown s ch ip → 0 ≤ ip → 0 < t →
  zlookup (ip_access_buffer s) (home s ip) = Some first → is_list (entries s) first (ch (home s ip)) →
  ∃ l s1 ch1 pool1, find_locked true tv (LookupVars ip (home s ip) first (t mod 12) t) s = Ok (l, s1) ∧
    empty_at l ip (entries s1) ∧ table log t s1 ch1 pool1 None [] ∧ same_sizes s s1 ∧
    recent_index s1 = recent_index s.
Proof.
  intros Ht Hun Hip Hpos Hfirst Hls. pose proof (home_bucket s ip (proj1 (t_size _ _ _ _ _ _ _ Ht)) Hip) as Hk.
  unfold find_locked. cbn [lv_ip lv_hash lv_head lv_index lv_slot]. rewrite (find_cell_list _ _ _ _ Hls), bind_ok.
  destruct (List.find _ _) as [l|] eqn:Hf.
  { apply find_test_Some in Hf as (Hl & e & He & Htest%Z.eqb_eq). by destruct (Hun l e Hl He). }
  destruct (allocate_ok _ _ _ _ _ Ht) as (l & s1 & pool' & Ha & Hs1 & Hp & Hlp & Hnd & Hlc & Hpc & Hown & _).
  unfold insert_entry. rewrite Ha, bind_ok, Hs1. cbn [ip_access_buffer with_pool].
  rewrite (array_get_Some _ _ _ Hfirst), bind_ok.
  rewrite array_set_ok, !bind_ok by (apply zlookup_is_Some; by eexists). cbn [entries with_heads with_entries with_pool].
  rewrite (deref_Some _ l (first_entry ip tv first)), bind_ok by apply lookup_insert_eq.
  rewrite (array_get_Some _ _ (AccessEntry 0 0)), bind_ok.
  2: { apply zlookup_Some. split; [ring_lia|]. apply (lookup_replicate_2 12). ring_lia. }
  cbn [a_slot]. rewrite (proj2 (Z.eqb_neq 0 t)) by lia.
  destruct (clear_outdated_ok (first_entry ip tv first) t (hits ip log)) as (e1 & -> & Hal & Hh1 & _ & _ & Hh4).
  { apply first_entry_ready; [done|]. intros x Hx. by apply (unknown_old _ _ _ _ _ _ _ Ht Hun). }
  rewrite bind_ok, (store_Some _ _ (first_entry ip tv first)), bind_ok by apply lookup_insert_eq.
  simpl in Hh1, Hh4. subst ip first. eexists l, _, _, _. split; [done|]. cbn [entries with_entries].
  rewrite insert_insert_eq. split; [|split; [|done]].
  { exists e1. rewrite lookup_insert_eq. split_and!; [done..|by apply Hal|]. rewrite (aligned_total _ _ _ Hal).
    rewrite (proj2 (countb_zero _ _)); [done|]. intros x Hx. apply Z.ltb_ge. by apply (unknown_old _ _ _ _ _ _ _ Ht Hun). }
  eapply (table_push log log); try done.
  - split; [done|]. apply (t_ips _ _ _ _ _ _ _ Ht).
  - by exists t.
Qed.

(** A cell that is in no chain counts nothing, whatever is written to its ring. *)
Lemma table_stray log c s ch pool l e acs n :
  table log c s ch pool None [] → (∀ k, bucket s k → l ∉ ch k) → entries s !! l = Some e →
  table log c (with_entries (<[l := with_counts acs n e]> (entries s)) s) ch pool None [].
Proof.
  intros [] Hl He.
  assert (Hlist : ∀ p ls, is_list (entries s) p ls → is_list (<[l:=with_counts acs n e]> (entries s)) p ls).
  { intros p ls. by apply (is_list_insert_next _ _ _ _ e). }
  assert (Hkeep : ∀ k x, bucket s k → x ∈ ch k → <[l:=with_counts acs n e]> (entries s) !! x = entries s !! x).
  { intros k x Hk Hx. apply lookup_insert_ne. intros <-. by eapply Hl. }
  split; try done; simpl in *.
  - intros k Hk. destruct (t_chain k Hk) as (p & Hp & Hls). eauto.
  - by apply Hlist.
  - intros k x Hk Hx. rewrite (Hkeep k) by done. by apply t_entry.
  - intros k x y ex ey Hk Hx Hy. rewrite !(Hkeep k) by done. by apply t_unique with k.
  - intros x Hs. apply t_owned. destruct (decide (l = x)) as [<-|Hne]; [by eexists|]. by rewrite lookup_insert_ne in Hs.
  - intros ip t Hin Hc. destruct (t_complete ip t Hin Hc) as (x & ex & Hx & Hex & Heq). exists x, ex.
    rewrite (Hkeep (home s ip)); [done| |done]. apply home_bucket; [lia|]. by apply (t_ips ip t).
Qed.

(** Such a cell can be counted on. *)
Lemma find_count_empty l v s :
  empty_at l (lv_ip v) (entries s) → 0 ≤ lv_index v < 12 →
  ∃ e acs m, entries s !! l = Some e ∧ find_count l v s = Ok (with_entries (<[l := with_counts acs m e]> (entries s)) s).
Proof.
  intros (e & He & _ & Hok & Hc) Hi. pose proof (entry_length _ Hok) as Hlen. unfold find_count. rewrite (deref_Some _ _ _ He), bind_ok.
  destruct (array_get_ok (access_count e) (lv_index v)) as (a & Ha & ->); [lia|]. rewrite bind_ok.
  apply zlookup_Some in Ha as [_ Ha]. pose proof (entry_total _ Hok) as Htot.
  pose proof (sum_counters_le _ _ _ (entry_nonneg _ Hok) Ha) as Hle.
  pose proof (sum_counters_nonneg _ (entry_nonneg _ Hok)) as Hnn.
  pose proof (proj1 (Forall_lookup _ _) (entry_nonneg _ Hok) _ _ Ha) as H0. cbv beta in H0.
  rewrite (checked_int_ok (a_counter a + 1)), bind_ok by (unfold is_int, INT_MIN, INT_MAX; lia).
  rewrite array_set_ok, bind_ok by lia. rewrite checked_int_ok, bind_ok by (unfold is_int, INT_MIN, INT_MAX; lia).
  rewrite (store_Some _ _ _ _ He), bind_ok. by eexists e, _, _.
Qed.

(** Such a cell is in no chain whose entries all count something. *)
Lemma empty_not_current log t s (ch : Z → list loc) l ip :
  (∀ k l, bucket s k → l ∈ ch k → current log t s l) → empty_at l ip (entries s) → ∀ k, bucket s k → l ∉ ch k.
Proof.
  intros Hcur (e & He & _ & Hok & Hc) k Hk Hin. destruct (Hcur k l Hk Hin) as (e0 & He0 & _ & Hne). simplify_eq.
  apply Hne. rewrite (entry_total _ Hok). pose proof (sum_counters_nonneg _ (entry_nonneg _ Hok)).
  pose proof (entry_total _ Hok). lia.
Qed.

(** A lost access. If the expiry runs between the second and the third part of the lookup
    of an address without an entry, in a ring position it has not seen yet, then nothing
    undefined happens, but the entry is released before it counts anything, and the access
    is lost: the service is in a state that represents the accesses before, and the next
    access of the address in the same slot is answered with 1, not with 2. *)
Theorem expiry_loses_access log c s ch pool a now tv :
  let ip := htonl a in
  table log c s ch pool None [] → time_ok s c now → unknown s ch ip →
  recent_index s ≠ slot s now mod 12 → Z.of_nat (length log) < INT_MAX →
  ∃ v l s1 n s2 s3 l4 s4 e4,
    find_begin a now s = Ok v ∧ find_locked true tv v s = Ok (l, s1) ∧
    expiring now s1 = Ok (n, s2) ∧ find_count l v s2 = Ok s3 ∧
    (∃ ch3 pool3, table log (slot s now) s3 ch3 pool3 None []) ∧
    find_and_increase true a now tv s3 = Ok (l4, s4) ∧ entries s4 !! l4 = Some e4 ∧ counter e4 = 1.
Proof.
  intros ip Ht0 Htime Hun Hri Hlen. destruct (find_begin_ok _ _ _ _ _ a now Ht0 Htime) as (first & Hbegin & Hfirst & Hls).
  fold ip in Hbegin, Hfirst, Hls. set (t := slot s now) in *.
  assert (Ht : table log t s ch pool None []) by (eapply table_later; [apply Htime|done]).
  assert (Hip : 0 ≤ ip) by apply htonl_range.
  destruct (find_locked_new log s ch pool tv ip first t) as (l & s1 & ch1 & pool1 & Hlock & He1 & Ht1 & Hsz1 & Hri1);
    try done; [apply Htime|].
  assert (Hslot : ∀ s', same_sizes s s' → slot s' now = t) by (intros s' Hs; unfold slot; by rewrite (proj2 Hs)).
  assert (Htime' : ∀ s', same_sizes s s' → time_ok s' t now).
  { intros s' Hs. unfold time_ok. rewrite (Hslot s' Hs). split; [apply Htime|done]. }
  destruct (expiring_ok _ _ _ _ _ now Ht1 (Htime' _ Hsz1)) as (n & s2 & ch2 & pool2 & Hx & Ht2 & Hsz2 & _ & Hcur).
  rewrite (Hslot _ Hsz1) in *. specialize (Hcur ltac:(congruence)).
  pose proof (expiring_empty_at _ _ _ _ _ _ He1 Hx) as He2. assert (Hsz : same_sizes s s2) by by eapply same_sizes_trans.
  assert (Hun2 : ∀ k x, bucket s2 k → x ∈ ch2 k → current log t s2 x).
  { intros k x Hk. apply Hcur. unfold bucket in *. by rewrite <- (proj1 Hsz2). }
  set (v := LookupVars ip (home s ip) first (t mod 12) t) in *.
  destruct (find_count_empty l v s2 He2) as (e2 & acs & m & Hl2 & Hcount); [cbn; ring_lia|].
  set (s3 := with_entries _ s2) in Hcount.
  assert (Ht3 : table log t s3 ch2 pool2 None []).
  { apply table_stray; [done| |done]. by eapply empty_not_current. }
  destruct (find_and_increase_ok log t s3 ch2 pool2 a now tv Ht3) as (l4 & s4 & ch4 & pool4 & e4 & Hf & _ & _ & _ & Hl4 & _ & Hc4 & _);
    [by apply Htime'|done|].
  exists v, l, s1, n, s2, s3, l4, s4, e4. split_and!; try done; [by exists ch2, pool2|].
  rewrite Hc4. unfold window_count. fold ip. rewrite (Hslot s3 Hsz), hits_cons_eq. cbn [countb].
  rewrite (proj2 (Z.ltb_lt (t - 12) t)), (proj2 (countb_zero _ _)); [done| |lia].
  intros x Hin. apply Z.ltb_ge. by apply (unknown_old _ _ _ _ _ _ _ Ht Hun).
Qed.

(** A new service that is asked for its first address. *)
Lemma expiry_loses_access_witness :
  ∃ v l s1 n s2 s3 l4 s4 e4,
    find_begin 1 100 (new_auto_blacklist_service 7 120) = Ok v ∧
    find_locked true (Timeval 100 0) v (new_auto_blacklist_service 7 120) = Ok (l, s1) ∧
    expiring 100 s1 = Ok (n, s2) ∧ find_count l v s2 = Ok s3 ∧
    find_and_increase true 1 100 (Timeval 100 0) s3 = Ok (l4, s4) ∧ entries s4 !! l4 = Some e4 ∧ counter e4 = 1.
Proof.
  destruct (expiry_loses_access [] 0 (new_auto_blacklist_service 7 120) (λ _, []) [] 1 100 (Timeval 100 0))
    as (v & l & s1 & n & s2 & s3 & l4 & s4 & e4 & H1 & H2 & H3 & H4 & _ & H5 & H6 & H7).
  - by apply new_service_table; vm_compute.
  - by vm_compute.
  - intros l e Hl. by apply not_elem_of_nil in Hl.
  - by vm_compute.
  - by vm_compute.
  - exists v, l, s1, n, s2, s3, l4, s4, e4. exact (conj H1 (conj H2 (conj H3 (conj H4 (conj H5 (conj H6 H7)))))).
Defined.
