(* ===== verification/PacketAnalyzer.v ===== *)
(** * packet_analyzer.c and exception.c: the plugin for packet inspection

    A shared object is loaded, enabled, asked for per-connection data, shown the
    packets of the connection, and unloaded when no data is outstanding. The
    static variables are [analyzer]; the answers of [dlopen], [dlsym], [dlclose],
    of the configuration and of the plugin's own functions are arguments. Every
    operation also yields the calls it makes into the plugin and the dynamic
    linker, so that the order of these calls can be stated: [watch] is the
    specification of a correct order. *)

From S2P Require Import Prelude.

Section packet_analyzer.
(** Addresses of plugins (the symbol's), library handles, and what a plugin allocates. *)
Context {I L D : Type} `{EqDecision I} `{EqDecision D}.

Record analyzer := Analyzer {
  pluggableAnalyzer : option I;
  library : option L;
  reference_count : Z;
  plugin_enable : bool;
  auto_unload : bool;
  safe_mode : bool;
}.

Definition init_analyzer : analyzer := Analyzer None None 0 false false false.

(** The calls into the plugin and [dlclose]. *)
Inductive call :=
  | CallInit (i : I)
  | CallAllocate (i : I) (r : option D)
  | CallRelease (i : I) (d : D)
  | CallAnalyze (i : I) (d : D)
  | CallDlclose (l : L).

(** [dlsym]: an error, or an address (which may be [NULL]). *)
Inductive symbol := SymError | SymAddress (p : option I).

Definition module_loader (dlopen : option L) (dlsym : symbol) (s : analyzer)
    : outcome (bool * analyzer * list call) :=
  match pluggableAnalyzer s with
  | Some _ => Ok (false, s, [])
  | None =>
      match dlopen with
      | None => Ok (false, Analyzer None None (reference_count s) (plugin_enable s) (auto_unload s) (safe_mode s), [])
      | Some l =>
          match dlsym with
          | SymError => Ok (false, Analyzer None (Some l) (reference_count s) false false (safe_mode s), [])
          | SymAddress None => Undefined NullDeref
          | SymAddress (Some i) =>
              Ok (true, Analyzer (Some i) (Some l) (reference_count s) false false (safe_mode s), [CallInit i])
          end
      end
  end.

Definition module_unload (dlclose_ok : bool) (s : analyzer) : bool * analyzer * list call :=
  match pluggableAnalyzer s with
  | Some _ =>
      if reference_count s <=? 0 then
        let s1 := Analyzer None (library s) (reference_count s) (plugin_enable s) (auto_unload s) (safe_mode s) in
        match library s with
        | Some l =>
            if dlclose_ok
            then (true, Analyzer None None (reference_count s) (plugin_enable s) (auto_unload s) (safe_mode s),
                  [CallDlclose l])
            else (false, s1, [CallDlclose l])
        | None => (true, s1, [])
        end
      else
        (false, Analyzer (pluggableAnalyzer s) (library s) (reference_count s) (plugin_enable s) true (safe_mode s), [])
  | None => (false, s, [])
  end.

Definition set_enable (on_off : bool) (s : analyzer) : bool * analyzer :=
  let e := on_off && bool_decide (is_Some (pluggableAnalyzer s)) in
  (e, Analyzer (pluggableAnalyzer s) (library s) (reference_count s) e (auto_unload s) (safe_mode s)).

Definition set_safe_mode (on_off : bool) (s : analyzer) : analyzer :=
  Analyzer (pluggableAnalyzer s) (library s) (reference_count s) (plugin_enable s) (auto_unload s) on_off.

Definition get_safe_mode (s : analyzer) : bool := safe_mode s.

Definition with_count (n : Z) (s : analyzer) : analyzer :=
  Analyzer (pluggableAnalyzer s) (library s) n (plugin_enable s) (auto_unload s) (safe_mode s).

(** [r] is what the plugin's [allocate] would return. *)
Definition analyzer_allocate (r : option D) (s : analyzer) : option D * analyzer * list call :=
  match pluggableAnalyzer s with
  | Some i =>
      if plugin_enable s
      then (r, match r with Some _ => with_count (reference_count s + 1) s | None => s end, [CallAllocate i r])
      else (None, s, [])
  | None => (None, s, [])
  end.

Definition analyzer_release (data : option D) (dlclose_ok : bool) (s : analyzer) : analyzer * list call :=
  match data, pluggableAnalyzer s with
  | Some d, Some i =>
      let s1 := with_count (reference_count s - 1) s in
      if (reference_count s1 =? 0) && auto_unload s1 then
        let '(_, s2, cs) := module_unload dlclose_ok s1 in (s2, CallRelease i d :: cs)
      else (s1, [CallRelease i d])
  | _, _ => (s, [])
  end.

(** ** exception.c

    The handler leaves by [longjmp] to a [setjmp] that does not save the signal
    mask, so SIGSEGV, which is blocked while its handler runs, stays blocked for
    the thread. A fault with the signal blocked, or with no handler installed,
    kills the process. *)
Inductive process (A : Type) := Alive (a : A) | Killed.
Arguments Alive {A} _.
Arguments Killed {A}.

(** [f] is what the body computes, [None] if it faults. The result is [caught],
    and the mask afterwards. *)
Definition try_catch {A} (f : option A) (segv_blocked : bool) : process (bool * option A * bool) :=
  match f with
  | Some a => Alive (false, Some a, segv_blocked)
  | None => if segv_blocked then Killed else Alive (true, None, true)
  end.

(** [data] is [info->packet_analyzer_data]; [verdict] is what the plugin's
    [analyze] returns, [None] if it faults. *)
Definition analyze_packet (data : option D) (verdict : option Z) (segv_blocked : bool) (s : analyzer)
    : process (Z * analyzer * bool) * list call :=
  match data, pluggableAnalyzer s with
  | Some d, Some i =>
      if plugin_enable s then
        (if safe_mode s then
           match try_catch verdict segv_blocked with
           | Alive (true, _, b) =>
               Alive (0, Analyzer (pluggableAnalyzer s) (library s) (reference_count s) false true (safe_mode s), b)
           | Alive (false, Some v, b) => Alive (v, s, b)
           | Alive (false, None, b) => Alive (0, s, b)
           | Killed => Killed
           end
         else
           match verdict with Some v => Alive (v, s, segv_blocked) | None => Killed end,
         [CallAnalyze i d])
      else (Alive (0, s, segv_blocked), [])
  | _, _ => (Alive (0, s, segv_blocked), [])
  end.

(** [load_on_boot], [enable_on_boot]: what the configuration says.  A missing
    name is replaced by the configured one, which has a default, so the answer 3
    never arises. *)
Definition load_packet_analyzer (boot : bool) (load_on_boot enable_on_boot : Z)
    (dlopen : option L) (dlsym : symbol) (s : analyzer) : outcome (Z * analyzer * list call) :=
  if boot && (load_on_boot =? 0) then Ok (1, s, [])
  else
    '(loaded, s1, cs) ← module_loader dlopen dlsym s;
    if (loaded : bool) then
      Ok (0, if boot && negb (enable_on_boot =? 0) then (set_enable true s1).2 else s1, cs)
    else Ok (2, s1, cs).

(** The plugin is shown a packet when the connection has data of it and it is enabled. *)
Lemma analyze_called data verdict b s :
  (match (analyze_packet data verdict b s).2 with [] => false | _ => true end) =
    match data, pluggableAnalyzer s with Some _, Some _ => plugin_enable s | _, _ => false end.
Proof. unfold analyze_packet. by repeat case_match. Qed.

(** ** The order of the plugin's calls *)

(** What an observer of the calls knows: the plugin that was initialised and not
    yet given up, and the data it allocated that was not released. *)
Record observer := Observer { loaded : option I; live : list D }.

Fixpoint remove_one (d : D) (l : list D) : list D :=
  match l with [] => [] | x :: l' => if decide (x = d) then l' else x :: remove_one d l' end.

(** A call at a correct moment, or [None]. *)
Definition watch (c : call) (o : observer) : option observer :=
  match c with
  | CallInit i => match loaded o, live o with None, [] => Some (Observer (Some i) []) | _, _ => None end
  | CallAllocate i r =>
      if decide (loaded o = Some i)
      then Some (match r with Some d => Observer (loaded o) (d :: live o) | None => o end) else None
  | CallRelease i d =>
      if decide (loaded o = Some i) then
        if decide (d ∈ live o) then Some (Observer (loaded o) (remove_one d (live o))) else None
      else None
  | CallAnalyze i d =>
      if decide (loaded o = Some i) then if decide (d ∈ live o) then Some o else None else None
  | CallDlclose _ =>
      match loaded o, live o with Some _, [] => Some (Observer None []) | _, _ => None end
  end.

Fixpoint watch_all (cs : list call) (o : observer) : option observer :=
  match cs with [] => Some o | c :: cs' => o' ← watch c o; watch_all cs' o' end.

(** What the rest of the program does with the analyzer. *)
Inductive request :=
  | Load (boot : bool) (load_on_boot enable_on_boot : Z) (dlopen : option L) (dlsym : symbol)
  | Unload (dlclose_ok : bool)
  | SetEnable (on_off : bool)
  | SetSafeMode (on_off : bool)
  | Allocate (r : option D)
  | Release (data : option D) (dlclose_ok : bool)
  | Analyze (data : option D) (verdict : option Z).

(** The analyzer, the data the connections hold, the thread's signal mask, and
    whether the process still runs. *)
Record world := World { an : analyzer; held : list D; blocked : bool; running : bool }.

Definition step (r : request) (w : world) : outcome (world * list call) :=
  if running w then
    match r with
    | Load boot lb eb dl sym =>
        '(_, s, cs) ← load_packet_analyzer boot lb eb dl sym (an w);
        Ok (World s (held w) (blocked w) true, cs)
    | Unload ok => let '(_, s, cs) := module_unload ok (an w) in Ok (World s (held w) (blocked w) true, cs)
    | SetEnable b => Ok (World (set_enable b (an w)).2 (held w) (blocked w) true, [])
    | SetSafeMode b => Ok (World (set_safe_mode b (an w)) (held w) (blocked w) true, [])
    | Allocate r =>
        let '(p, s, cs) := analyzer_allocate r (an w) in
        Ok (World s (match p with Some d => d :: held w | None => held w end) (blocked w) true, cs)
    | Release p ok =>
        let '(s, cs) := analyzer_release p ok (an w) in
        Ok (World s (match p with Some d => remove_one d (held w) | None => held w end) (blocked w) true, cs)
    | Analyze p v =>
        match analyze_packet p v (blocked w) (an w) with
        | (Alive (_, s, b), cs) => Ok (World s (held w) b true, cs)
        | (Killed, cs) => Ok (World (an w) (held w) (blocked w) false, cs)
        end
    end
  else Ok (w, []).

Fixpoint steps (rs : list request) (w : world) : outcome (world * list call) :=
  match rs with
  | [] => Ok (w, [])
  | r :: rs' =>
      '(w1, cs1) ← step r w;
      '(w2, cs2) ← steps rs' w1;
      Ok (w2, cs1 ++ cs2)
  end.

(** A client only releases, and only shows the analyzer, data it was given and
    has not released; a symbol that is found has an address. *)
Definition request_ok (r : request) (w : world) : Prop :=
  match r with
  | Load _ _ _ _ sym => sym ≠ SymAddress None
  | Release (Some d) _ | Analyze (Some d) _ => d ∈ held w
  | _ => True
  end.

Fixpoint fair (rs : list request) (w : world) : Prop :=
  match rs with
  | [] => True
  | r :: rs' => request_ok r w ∧ ∀ w' cs, step r w = Ok (w', cs) → fair rs' w'
  end.

(** The reference count is the number of outstanding data, and data is only
    outstanding while its plugin is loaded. *)
Record tracked (w : world) (o : observer) : Prop := {
  tr_loaded : loaded o = pluggableAnalyzer (an w);
  tr_live : live o = held w;
  tr_count : reference_count (an w) = Z.of_nat (length (held w));
  tr_none : pluggableAnalyzer (an w) = None → held w = [];
  tr_library : is_Some (pluggableAnalyzer (an w)) → is_Some (library (an w));
}.

Lemma remove_one_length d l : d ∈ l → S (length (remove_one d l)) = length l.
Proof.
  induction l as [|x l IH]; intros Hd; [by apply elem_of_nil in Hd|]. simpl.
  case_decide as Hx; [done|]. apply elem_of_cons in Hd as [->|Hd]; [done|]. simpl. by rewrite IH.
Qed.

Lemma init_tracked : tracked (World init_analyzer [] false true) (Observer None []).
Proof. by split; simpl. Qed.

Lemma module_unload_tracked ok w o :
  tracked w o →
  let '(_, s, cs) := module_unload ok (an w) in
  ∃ o', watch_all cs o = Some o' ∧ tracked (World s (held w) (blocked w) (running w)) o'.
Proof.
  intros [Hl Hv Hc Hn Hlib]. unfold module_unload. destruct (pluggableAnalyzer (an w)) as [i|] eqn:Hp.
  - destruct (Z.leb_spec (reference_count (an w)) 0).
    + assert (Hnil : held w = []) by (destruct (held w); [done|simpl in *; lia]).
      destruct Hlib as [l Hlib]; [by eexists|]. rewrite Hlib. destruct ok; simpl; rewrite Hl, Hv, Hnil;
        (eexists; split; [done|]); rewrite Hnil in *; by split; simpl.
    + exists o. split; [done|]. by split; simpl.
  - exists o. split; [done|]. split; simpl; rewrite ?Hp; try done.
Qed.

Lemma tracked_running s h b r o : tracked (World s h b r) o → tracked (World s h b true) o.
Proof. intros []. by split. Qed.

Lemma watch_all_app cs1 cs2 o : watch_all (cs1 ++ cs2) o = watch_all cs1 o ≫= watch_all cs2.
Proof.
  revert o. induction cs1 as [|c cs1 IH]; intros o; [done|]. simpl.
  destruct (watch c o); [apply IH|done].
Qed.

Lemma load_tracked boot lb eb dl sym w o :
  tracked w o → sym ≠ SymAddress None →
  ∃ r s cs o', load_packet_analyzer boot lb eb dl sym (an w) = Ok (r, s, cs) ∧
    watch_all cs o = Some o' ∧ tracked (World s (held w) (blocked w) true) o'.
Proof.
  intros [Hl Hv Hc Hn Hlib] Hsym. unfold load_packet_analyzer.
  destruct (boot && (lb =? 0)).
  { eexists _, _, _, o. split; [done|]. split; [done|]. by split. }
  unfold module_loader. destruct (pluggableAnalyzer (an w)) as [i|] eqn:Hp.
  { eexists _, _, _, o. split; [done|]. split; [done|]. by split; simpl; rewrite ?Hp. }
  specialize (Hn eq_refl). rewrite Hn in *.
  destruct dl as [l|]; [destruct sym as [|[i|]]; [| |done]|].
  - eexists _, _, _, o. split; [done|]. split; [done|]. by split; simpl.
  - eexists _, _, _, _. split; [done|]. simpl. rewrite Hl, Hv. split; [done|].
    destruct (boot && negb (eb =? 0)); by split; simpl.
  - eexists _, _, _, o. split; [done|]. split; [done|]. by split; simpl.
Qed.

Lemma allocate_tracked r w o :
  tracked w o → let '(p, s, cs) := analyzer_allocate r (an w) in
  ∃ o', watch_all cs o = Some o' ∧
    tracked (World s (match p with Some d => d :: held w | None => held w end) (blocked w) true) o'.
Proof.
  intros [Hl Hv Hc Hn Hlib]. unfold analyzer_allocate.
  destruct (pluggableAnalyzer (an w)) as [i|] eqn:Hp; [destruct (plugin_enable (an w))|].
  - simpl. rewrite decide_True by done. destruct r as [d|]; simpl; eexists; (split; [done|]).
    + split; simpl; rewrite ?Hp; try done; [by rewrite Hv|lia].
    + by split; simpl; rewrite ?Hp.
  - exists o. split; [done|]. by split; simpl; rewrite ?Hp.
  - exists o. split; [done|]. by split; simpl; rewrite ?Hp.
Qed.

Lemma release_tracked p ok w o :
  tracked w o → (∀ d, p = Some d → d ∈ held w) →
  let '(s, cs) := analyzer_release p ok (an w) in
  ∃ o', watch_all cs o = Some o' ∧
    tracked (World s (match p with Some d => remove_one d (held w) | None => held w end) (blocked w) true) o'.
Proof.
  intros Ht Hin. pose proof Ht as [Hl Hv Hc Hn Hlib]. unfold analyzer_release. destruct p as [d|].
  - specialize (Hin d eq_refl). destruct (pluggableAnalyzer (an w)) as [i|] eqn:Hp.
    + set (w1 := World (with_count (reference_count (an w) - 1) (an w)) (remove_one d (held w)) (blocked w) true).
      assert (Hw1 : watch (CallRelease i d) o = Some (Observer (loaded o) (remove_one d (live o)))).
      { simpl. rewrite decide_True by done. by rewrite decide_True by by rewrite Hv. }
      assert (Ht1 : tracked w1 (Observer (loaded o) (remove_one d (live o)))).
      { split; simpl; rewrite ?Hp; try done; [by rewrite Hv|].
        pose proof (remove_one_length d (held w) Hin). lia. }
      destruct (_ && _).
      * pose proof (module_unload_tracked ok _ _ Ht1) as Hu. unfold w1 in Hu. simpl an in Hu.
        destruct (module_unload ok _) as [[b s] cs]. destruct Hu as (o' & Hcs & Ht').
        exists o'. split; [|done]. cbn [watch_all]. by rewrite Hw1.
      * eexists. split; [cbn [watch_all]; by rewrite Hw1|done].
    + rewrite (Hn eq_refl) in Hin. by apply elem_of_nil in Hin.
  - exists o. split; [done|]. by split.
Qed.

Lemma analyze_tracked p v w o :
  tracked w o → (∀ d, p = Some d → d ∈ held w) →
  let '(r, cs) := analyze_packet p v (blocked w) (an w) in
  watch_all cs o = Some o ∧
  match r with Alive (_, s, b) => tracked (World s (held w) b true) o | Killed => True end.
Proof.
  intros Ht Hin. pose proof Ht as [Hl Hv Hc Hn Hlib]. unfold analyze_packet.
  assert (Hsame : tracked (World (an w) (held w) (blocked w) true) o) by by split.
  destruct p as [d|]; [|done]. destruct (pluggableAnalyzer (an w)) as [i|] eqn:Hp; [|done].
  destruct (plugin_enable (an w)); [|done]. split.
  - simpl. rewrite decide_True by done. by rewrite decide_True by (rewrite Hv; auto).
  - destruct (safe_mode (an w)), v as [v|]; simpl; try done. destruct (blocked w); [done|].
    by split; simpl; rewrite ?Hp.
Qed.

Lemma step_tracked r w o :
  tracked w o → request_ok r w →
  ∃ w' cs o', step r w = Ok (w', cs) ∧ watch_all cs o = Some o' ∧ tracked w' o'.
Proof.
  intros Ht Hok. pose proof Ht as [Hl Hv Hc Hn Hlib]. unfold step.
  destruct (running w); [|by exists w, [], o].
  destruct r as [boot lb eb dl sym|ok|b|b|r|p ok|p v].
  - destruct (load_tracked boot lb eb dl sym w o Ht Hok) as (r & s & cs & o' & -> & ? & ?).
    rewrite bind_ok. by eexists _, _, o'.
  - pose proof (module_unload_tracked ok w o Ht) as Hu. destruct (module_unload _ _) as [[b s] cs].
    destruct Hu as (o' & ? & ?%tracked_running). by eexists _, _, o'.
  - eexists _, _, o. split; [done|]. by split.
  - eexists _, _, o. split; [done|]. by split.
  - pose proof (allocate_tracked r w o Ht) as Ha. destruct (analyzer_allocate _ _) as [[p s] cs].
    destruct Ha as (o' & ? & ?). by eexists _, _, o'.
  - pose proof (release_tracked p ok w o Ht) as Hr. destruct (analyzer_release _ _ _) as [s cs].
    destruct Hr as (o' & ? & ?); [intros d ->; done|]. by eexists _, _, o'.
  - pose proof (analyze_tracked p v w o Ht) as Ha. destruct (analyze_packet _ _ _ _) as [[[[z s] b]|] cs];
      (destruct Ha as [? ?]; [intros d ->; done|]); by eexists _, _, o.
Qed.

Lemma steps_tracked rs w o :
  tracked w o → fair rs w →
  ∃ w' cs o', steps rs w = Ok (w', cs) ∧ watch_all cs o = Some o' ∧ tracked w' o'.
Proof.
  revert w o. induction rs as [|r rs IH]; intros w o Ht; [by exists w, [], o|]. simpl. intros [Hok Hfair].
  destruct (step_tracked r w o Ht Hok) as (w1 & cs1 & o1 & Hs & Hw & Ht1). rewrite Hs, bind_ok.
  destruct (IH w1 o1 Ht1 (Hfair _ _ Hs)) as (w2 & cs2 & o2 & -> & Hw2 & Ht2).
  exists w2, (cs1 ++ cs2), o2. split; [done|]. split; [|done]. by rewrite watch_all_app, Hw.
Qed.

(** The state after some requests from the start of the program. *)
Definition analyzer_start : world := World init_analyzer [] false true.

Definition reached (rs : list request) (w : world) : Prop :=
  fair rs analyzer_start ∧ ∃ cs, steps rs analyzer_start = Ok (w, cs).

Lemma reached_tracked rs w : reached rs w → ∃ o, tracked w o.
Proof.
  intros [Hf [cs Hs]]. destruct (steps_tracked rs analyzer_start _ init_tracked Hf) as (w' & cs' & o & Hs' & _ & Ht).
  rewrite Hs in Hs'. injection Hs' as <- <-. eauto.
Qed.

(** C37: the plugin is used correctly. Whatever is loaded, unloaded, enabled, allocated,
    released and analysed, in any order, by connections that release what they were given
    at most once: the plugin is initialised before it is used, only asked to analyse or
    release data it allocated itself and has not released, and its library is closed only
    when it has no outstanding data; the reference count is the number of outstanding data. *)
Theorem plugin_used_correctly rs :
  fair rs analyzer_start →
  ∃ w cs o, steps rs analyzer_start = Ok (w, cs) ∧
    watch_all cs (Observer None []) = Some o ∧ loaded o = pluggableAnalyzer (an w) ∧
    live o = held w ∧ reference_count (an w) = Z.of_nat (length (held w)).
Proof.
  intros Hfair. destruct (steps_tracked rs analyzer_start _ init_tracked Hfair) as (w & cs & o & ? & ? & []).
  by exists w, cs, o.
Qed.

Lemma remove_one_perm d l : d ∈ l → d :: remove_one d l ≡ₚ l.
Proof.
  induction l as [|x l IH]; intros Hd; [by apply elem_of_nil in Hd|]. simpl.
  case_decide as Hx; [by subst|]. apply elem_of_cons in Hd as [->|Hd]; [done|].
  rewrite <- (IH Hd) at 2. apply Permutation_swap.
Qed.

(** The releases that follow a refused unload. *)
Lemma releases_unload i l ds : ∀ w,
  running w = true → pluggableAnalyzer (an w) = Some i → library (an w) = Some l →
  auto_unload (an w) = true → reference_count (an w) = Z.of_nat (length (held w)) →
  ds ≠ [] → ds ≡ₚ held w →
  ∃ w', steps (map (λ d, Release (Some d) true) ds) w = Ok (w', map (CallRelease i) ds ++ [CallDlclose l]) ∧
    pluggableAnalyzer (an w') = None ∧ library (an w') = None ∧ held w' = [].
Proof.
  induction ds as [|d ds IH]; intros w Hrun Hp Hlib Hau Hc Hne Hperm; [done|].
  assert (Hd : d ∈ held w) by (rewrite <- Hperm; left).
  pose proof (remove_one_length d _ Hd) as Hlen.
  assert (Hperm' : ds ≡ₚ remove_one d (held w)).
  { apply (Permutation_cons_inv (a := d)). by rewrite remove_one_perm. }
  cbn [map steps]. unfold step at 1. rewrite Hrun. unfold analyzer_release. rewrite Hp. simpl. rewrite Hau.
  destruct ds as [|d' ds].
  - rewrite <- (Permutation_length Hperm') in Hlen. simpl in Hlen. apply Permutation_nil_l in Hperm'.
    rewrite (proj2 (Z.eqb_eq _ _)) by lia. simpl. unfold module_unload. simpl. rewrite Hp, Hlib.
    rewrite (proj2 (Z.leb_le _ _)) by lia. simpl. by eexists.
  - pose proof (Permutation_length Hperm') as Hlen'. simpl in Hlen'.
    rewrite (proj2 (Z.eqb_neq _ _)) by lia. simpl.
    destruct (IH (World (with_count (reference_count (an w) - 1) (an w)) (remove_one d (held w)) (blocked w) true))
      as (w' & Hs & Hrest); simpl; try done; [lia|]. simpl in Hs. rewrite Hs. simpl. by eexists.
Qed.

(** A busy plugin is unloaded as soon as it is idle. While data is outstanding an unload
    is refused and nothing is closed; once every outstanding datum is released, in any
    order, the last release closes the library and the plugin is gone. *)
Theorem busy_plugin_unloads_when_idle rs w i ds :
  reached rs w → running w = true → pluggableAnalyzer (an w) = Some i →
  ds ≠ [] → ds ≡ₚ held w →
  ∃ l w1 w2, library (an w) = Some l ∧
    module_unload true (an w) = (false, an w1, []) ∧ pluggableAnalyzer (an w1) = Some i ∧
    step (Unload true) w = Ok (w1, []) ∧
    steps (map (λ d, Release (Some d) true) ds) w1 = Ok (w2, map (CallRelease i) ds ++ [CallDlclose l]) ∧
    pluggableAnalyzer (an w2) = None ∧ library (an w2) = None ∧ held w2 = [].
Proof.
  intros Hr Hrun Hp Hne Hperm. destruct (reached_tracked _ _ Hr) as [o [_ _ Hc _ Hlib]].
  destruct Hlib as [l Hlib]; [by rewrite Hp|].
  assert (Hpos : 0 < reference_count (an w)).
  { rewrite Hc. apply Permutation_length in Hperm. destruct ds; [done|]. simpl in *. lia. }
  unfold step, module_unload. rewrite Hrun, Hp, (proj2 (Z.leb_gt _ _)) by lia.
  set (w1 := World (Analyzer (Some i) (library (an w)) (reference_count (an w)) (plugin_enable (an w)) true
    (safe_mode (an w))) (held w) (blocked w) true).
  destruct (releases_unload i l ds w1) as (w2 & ? & ? & ? & ?); try done.
  exists l, w1, w2. by split_and!.
Qed.

(** In safe mode a first fault of the plugin is survived: the analysis yields 0, the
    plugin is disabled, and no later packet or connection reaches it. But the signal stays
    blocked: when the plugin is enabled again, its next fault ends the process. *)
Theorem second_fault_kills rs w i d :
  reached rs w → running w = true → pluggableAnalyzer (an w) = Some i → plugin_enable (an w) = true →
  safe_mode (an w) = true → blocked w = false → d ∈ held w →
  ∃ w1, step (Analyze (Some d) None) w = Ok (w1, [CallAnalyze i d]) ∧ running w1 = true ∧
    (∀ p v, step (Analyze p v) w1 = Ok (w1, [])) ∧ (∀ r, step (Allocate r) w1 = Ok (w1, [])) ∧
    ∃ w2, steps [SetEnable true; Analyze (Some d) None] w1 = Ok (w2, [CallAnalyze i d]) ∧ running w2 = false.
Proof.
  intros Hr Hrun Hp He Hs Hb Hd. unfold step at 1, analyze_packet, try_catch. rewrite Hrun, Hp, He, Hs, Hb.
  eexists. split; [done|]. simpl. split_and!.
  - done.
  - intros [p|] v; simpl; [|done]. unfold step, analyze_packet. simpl. by rewrite ?Hp, ?Hs.
  - intros r. unfold step, analyzer_allocate. simpl. by rewrite ?Hp.
  - unfold step, set_enable, analyze_packet, try_catch. simpl. rewrite ?Hp, ?Hs. simpl. by eexists.
Qed.
End packet_analyzer.
Arguments Alive {A} _.
Arguments Killed {A}.

(** ** Witnesses *)

Ltac run_fair := repeat (split; [first [done | by left | by right; left] | intros ? ? [= <- <-]]); try done.

Definition sample_load : request (I := nat) (L := nat) (D := nat) :=
  Load false 0 0 (Some 7%nat) (SymAddress (Some 1%nat)).

Lemma plugin_used_correctly_witness :
  let rs := [sample_load; SetEnable true; Allocate (Some 5%nat); Analyze (Some 5%nat) (Some 3); Unload true;
             Release (Some 5%nat) true] in
  ∃ w cs o, steps rs analyzer_start = Ok (w, cs) ∧ watch_all cs (Observer None []) = Some o ∧
    loaded o = pluggableAnalyzer (an w) ∧ live o = held w ∧
    reference_count (an w) = Z.of_nat (length (held w)).
Proof. intros rs. apply (plugin_used_correctly rs). run_fair. Defined.

Lemma busy_plugin_unloads_when_idle_witness :
  let rs := [sample_load; SetEnable true; Allocate (Some 5%nat); Allocate (Some 6%nat)] in
  ∃ w l w1 w2, (∃ cs, steps rs analyzer_start = Ok (w, cs)) ∧ library (an w) = Some l ∧
    module_unload (D := nat) true (an w) = (false, an w1, []) ∧ pluggableAnalyzer (an w1) = Some 1%nat ∧
    step (Unload true) w = Ok (w1, []) ∧
    steps (map (λ d, Release (Some d) true) [5%nat; 6%nat]) w1 =
      Ok (w2, map (CallRelease 1%nat) [5%nat; 6%nat] ++ [CallDlclose l]) ∧
    pluggableAnalyzer (an w2) = None ∧ library (an w2) = None ∧ held w2 = [].
Proof.
  intros rs. set (w := World (Analyzer (Some 1%nat) (Some 7%nat) 2 true false false) [6%nat; 5%nat] false true).
  destruct (busy_plugin_unloads_when_idle rs w 1%nat [5%nat; 6%nat]) as (l & w1 & w2 & H).
  - split; [run_fair|by eexists].
  - done.
  - done.
  - done.
  - apply Permutation_swap.
  - exists w, l, w1, w2. split; [by eexists|exact H].
Defined.

Lemma second_fault_kills_witness :
  let rs := [sample_load; SetEnable true; SetSafeMode true; Allocate (Some 5%nat)] in
  ∃ w w1, (∃ cs, steps rs analyzer_start = Ok (w, cs)) ∧
    step (Analyze (Some 5%nat) None) w = Ok (w1, [CallAnalyze 1%nat 5%nat]) ∧ running w1 = true ∧
    (∀ p v, step (Analyze p v) w1 = Ok (w1, [])) ∧ (∀ r, step (Allocate r) w1 = Ok (w1, [])) ∧
    ∃ w2, steps [SetEnable true; Analyze (Some 5%nat) None] w1 = Ok (w2, [CallAnalyze 1%nat 5%nat]) ∧
      running w2 = false.
Proof.
  intros rs. set (w := World (Analyzer (Some 1%nat) (Some 7%nat) 1 true false true) [5%nat] false true).
  destruct (second_fault_kills rs w 1%nat 5%nat) as (w1 & H); try done.
  - split; [run_fair|by eexists].
  - left.
  - exists w, w1. split; [by eexists|exact H].
Defined.
