(* ===== verification/Exceptions.v ===== *)
(** * exception.c: faults that are caught

    [try_catch] runs a function and comes back when it faults, by [setjmp] and [longjmp]. Its
    buffer, its flag and the handler of SIGSEGV exist once, so calls inside of calls share
    them: the plugin, which runs in a [try_catch] in safe mode, may call the database service,
    which reconnects in a [try_catch] of its own. This file has [exception.c] with calls
    nested in any way; [PacketAnalyzer.try_catch] is the case without nesting. *)

From S2P Require Import Prelude PacketAnalyzer.

(** What the function that is called does, as far as it matters: nothing more, a fault, or a call
    of [try_catch] whose result decides how it goes on. *)
Inductive body :=
  | Nothing
  | Faults
  | Try (inner : body) (rest : bool → body).

(** The static variables, the handler of SIGSEGV (the own one or the default) and whether the
    signal is blocked. [jump_buffer_env] was filled by the activation of that depth. [faults]
    counts the faults for the theorems. *)
Record signal_state := SignalState {
  caught : bool;
  jump_buffer_env : option nat;
  own_handler : bool;
  segv_blocked : bool;
  faults : nat;
}.

Definition no_signals : signal_state := SignalState false None false false 0.

(** [Jumps]: on the way to the [setjmp] of an activation. [Wild]: to one that has returned. *)
Inductive run_end := Returns (s : signal_state) | Jumps (to : nat) (s : signal_state) | Dies | Wild.

(** A fault, below [d] activations of [try_catch]. A fault that is blocked, or that nobody handles,
    ends the process; else the handler runs, with the signal blocked, and jumps. *)
Definition exception_handler (d : nat) (s : signal_state) : run_end :=
  if own_handler s && negb (segv_blocked s) then
    match jump_buffer_env s with
    | Some k => if (k <? d)%nat then Jumps k (SignalState true (Some k) true true (S (faults s))) else Wild
    | None => Wild
    end
  else Dies.

(** [try_catch], up to and after [setjmp]. *)
Definition enter (d : nat) (s : signal_state) : signal_state := SignalState false (Some d) true (segv_blocked s) (faults s).
Definition leave (s : signal_state) : signal_state := SignalState (caught s) (jump_buffer_env s) false (segv_blocked s) (faults s).

Fixpoint run (d : nat) (b : body) (s : signal_state) : run_end :=
  match b with
  | Nothing => Returns s
  | Faults => exception_handler d s
  | Try inner rest =>
      match run (S d) inner (enter d s) with
      | Returns s1 => run d (rest (caught s1)) (leave s1)
      | Jumps k s1 => if (k =? d)%nat then run d (rest (caught s1)) (leave s1) else Jumps k s1
      | Dies => Dies
      | Wild => Wild
      end
  end.

(** A call of [try_catch] that is not inside of another one: what it returns. *)
Definition nested_try_catch (f : body) (s : signal_state) : run_end * bool :=
  let r := run 0 (Try f (λ _, Nothing)) s in (r, match r with Returns s1 => caught s1 | _ => false end).

(** ** What it protects from *)

(** The handler is the own one only in an activation that has not called [try_catch]. *)
Definition in_own_call (d : nat) (s : signal_state) : Prop := own_handler s = true → ∃ k, d = S k ∧ jump_buffer_env s = Some k.

(** What a run that goes on has done: it caught a fault only if the signal was not blocked, and
    then it is blocked. *)
Definition spent (s s1 : signal_state) : Prop :=
  segv_blocked s1 = segv_blocked s ∧ faults s1 = faults s ∨
  segv_blocked s = false ∧ segv_blocked s1 = true ∧ faults s1 = S (faults s).

Lemma spent_refl s : spent s s.
Proof. by left. Qed.

Lemma spent_trans s s1 s2 : spent s s1 → spent s1 s2 → spent s s2.
Proof. intros [[]|(? & ? & ?)] [[]|(? & ? & ?)]; [left|right|right|]; try congruence; try split; try congruence; split; congruence. Qed.

Lemma enter_aligned d s : in_own_call (S d) (enter d s).
Proof. intros _. by exists d. Qed.

Lemma leave_aligned d s : in_own_call d (leave s).
Proof. done. Qed.

(** A run below [d] activations ends in one of three ways; it jumps only to the activation it is
    in, and only before that has called [try_catch]. *)
Lemma run_ok b : ∀ d s, in_own_call d s →
  match run d b s with
  | Returns s1 => spent s s1 ∧ (own_handler s = false → own_handler s1 = false)
  | Jumps k s1 => own_handler s = true ∧ d = S k ∧ spent s s1 ∧ caught s1 = true ∧ segv_blocked s1 = true
  | Dies => True
  | Wild => False
  end.
Proof.
  induction b as [| |inner IHi rest IHr]; intros d s Hs; cbn.
  - split; [apply spent_refl|done].
  - unfold exception_handler. destruct (own_handler s) eqn:Ho, (segv_blocked s) eqn:Hb; try done. cbn [andb negb].
    destruct (Hs Ho) as (k & -> & ->). rewrite (proj2 (Nat.ltb_lt _ _)) by lia. do 2 (split; [done|]). split; [by right|done].
  - pose proof (IHi (S d) (enter d s) (enter_aligned d s)) as Hi.
    assert (∀ s1, spent s s1 → match run d (rest (caught s1)) (leave s1) with
      | Returns s2 => spent s s2 ∧ own_handler s2 = false | Jumps _ _ => False | Dies => True | Wild => False end) as Hrest.
    { intros s1 H1. pose proof (IHr (caught s1) d (leave s1) (leave_aligned d s1)) as Hr.
      destruct (run d (rest (caught s1)) (leave s1)) as [s2|k s2| |]; [|by destruct Hr|done..].
      split; [eapply spent_trans; [exact H1|apply Hr]|by apply Hr]. }
    destruct (run (S d) inner (enter d s)) as [s1|k s1| |]; [| |done..].
    + specialize (Hrest s1 (proj1 Hi)). destruct (run d _ _); try done. by destruct Hrest.
    + destruct Hi as (_ & [= ->] & H1 & _). rewrite Nat.eqb_refl. specialize (Hrest s1 H1).
      destruct (run k _ _); try done. by destruct Hrest.
Qed.

(** A call that is not inside of another one returns or ends the process. *)
Lemma try_catch_ok f s : own_handler s = false →
  match (nested_try_catch f s).1 with
  | Returns s1 => spent s s1 ∧ own_handler s1 = false
  | Dies => True
  | Jumps _ _ | Wild => False
  end.
Proof.
  intros Ho. unfold nested_try_catch. cbn [fst]. pose proof (run_ok (Try f (λ _, Nothing)) 0 s) as Hr.
  destruct (run 0 _ s) as [s1|k s1| |]; try (by apply Hr; intros E; congruence).
  - assert (in_own_call 0 s) as Ha by (intros E; congruence). destruct (Hr Ha) as [H1 H2]. split; [done|by apply H2].
  - assert (in_own_call 0 s) as Ha by (intros E; congruence). by destruct (Hr Ha) as (E & _); congruence.
Qed.

(** The calls of one thread, one after the other, as long as the process lives. *)
Fixpoint calls (fs : list body) (s : signal_state) : option (list bool * signal_state) :=
  match fs with
  | [] => Some ([], s)
  | f :: fs' =>
      match nested_try_catch f s with
      | (Returns s1, b) => '(bs, s2) ← calls fs' s1; Some (b :: bs, s2)
      | _ => None
      end
  end.

Lemma calls_spent fs : ∀ s bs s1, calls fs s = Some (bs, s1) → own_handler s = false → spent s s1 ∧ own_handler s1 = false.
Proof.
  induction fs as [|f fs IH]; intros s bs s1; cbn [calls]; [intros [= <- <-]; by split; [apply spent_refl|]|].
  intros H Ho. pose proof (try_catch_ok f s Ho) as Ht. destruct (nested_try_catch f s) as [r b]. cbn [fst] in Ht.
  destruct r as [s2| | |]; try done. apply bind_Some in H as ([bs' s3] & H & [= <- <-]).
  destruct Ht as [H2 Ho2]. destruct (IH s2 bs' s3 H Ho2) as [H3 Ho3]. split; [by eapply spent_trans|done].
Qed.

(** C17: whatever the functions do that a thread calls through [try_catch], and however calls are
    nested: a call returns or ends the process, and never jumps to an activation that is gone;
    a thread survives one fault in its life, and the next one ends the process; once a
    function has called [try_catch] itself, it is not protected any more. *)
Theorem faults_survived fs f s bs :
  calls fs no_signals = Some (bs, s) →
  (faults s ≤ 1)%nat ∧ (faults s = 1%nat ↔ segv_blocked s = true) ∧
  (∃ s1 b, nested_try_catch f s = (Returns s1, b) ∧ (faults s ≤ faults s1 ≤ 1)%nat ∨ nested_try_catch f s = (Dies, false)) ∧
  (∀ d s1, segv_blocked s1 = true → run d Faults s1 = Dies) ∧
  (∀ inner, nested_try_catch (Try inner (λ _, Faults)) s = (Dies, false)).
Proof.
  intros H. destruct (calls_spent fs no_signals bs s H eq_refl) as [Hs Ho].
  assert ((faults s ≤ 1)%nat ∧ (faults s = 1%nat ↔ segv_blocked s = true)) as [Hf Hb].
  { destruct Hs as [[E1 E2]|(_ & E1 & E2)]; rewrite E1, E2; cbn; split; [lia| |lia|]; split; intros; congruence. }
  do 2 (split; [done|]). split; [|split].
  - pose proof (try_catch_ok f s Ho) as Ht. unfold nested_try_catch in *. cbn [fst] in Ht. destruct (run 0 _ s) as [s1| | |]; try done.
    + exists s1, (caught s1). left. split; [done|]. destruct Ht as [[[E1 E2]|(E0 & E1 & E2)] _]; [lia|].
      assert (faults s ≠ 1)%nat by (intros E; apply Hb in E; congruence). lia.
    + exists s, false. by right.
  - intros d s1 E. cbn. unfold exception_handler. rewrite E. by destruct (own_handler s1).
  - intros inner. unfold nested_try_catch. cbn [run]. pose proof (run_ok inner 2 (enter 1 (enter 0 s)) (enter_aligned _ _)) as Hi.
    destruct (run 2 inner _) as [s1|k s1| |]; [done| |done..]. destruct Hi as (_ & [= <-] & _). done.
Qed.

(** A fault in a call inside is reported by the call outside as well, whose function ended. *)
Example outer_call_reports : (nested_try_catch (Try Faults (λ r, if r then Nothing else Faults)) no_signals).2 = true.
Proof. reflexivity. Qed.

(** Without nesting it is [PacketAnalyzer.try_catch]. *)
Lemma try_catch_flat {A} (f : option A) s : own_handler s = false →
  match PacketAnalyzer.try_catch f (segv_blocked s) with
  | Alive (b, _, blocked) => ∃ s1, nested_try_catch (match f with Some _ => Nothing | None => Faults end) s = (Returns s1, b) ∧ segv_blocked s1 = blocked
  | Killed => nested_try_catch (match f with Some _ => Nothing | None => Faults end) s = (Dies, false)
  end.
Proof.
  intros Ho. unfold PacketAnalyzer.try_catch. destruct f; [by eexists|]. unfold nested_try_catch, run, exception_handler, enter. cbn.
  destruct (segv_blocked s); [done|]. by eexists.
Qed.

(** ** try_reconnect of db_service.c

    The database library may fault while it connects. *)
Inductive connect_answer := Connects | Refuses | Crashes.

(** [safe_reconnect_to_database]: up to 21 attempts. *)
Fixpoint reconnect_body (attempts : nat) (l : list connect_answer) : body :=
  match attempts, l with
  | S n, Connects :: _ => Nothing
  | S n, Refuses :: l' => reconnect_body n l'
  | S n, Crashes :: _ => Faults
  | _, _ => Nothing
  end.

Inductive reconnecting := GoesOn (s : signal_state) | ExitsWith (code : Z) | KilledBySignal.

(** Called by a thread that is in no [try_catch]. *)
Definition protected_reconnect (l : list connect_answer) (s : signal_state) : reconnecting :=
  match nested_try_catch (reconnect_body 21 l) s with
  | (Returns s1, true) => ExitsWith 139
  | (Returns s1, false) => GoesOn s1
  | _ => KilledBySignal
  end.

(** The first of the 21 answers that is no refusal. *)
Definition decisive (l : list connect_answer) : option connect_answer :=
  List.find (λ a, match a with Refuses => false | _ => true end) (take 21 l).

Lemma reconnect_body_decisive n : ∀ l, reconnect_body n l =
  match List.find (λ a, match a with Refuses => false | _ => true end) (take n l) with Some Crashes => Faults | _ => Nothing end.
Proof. induction n as [|n IH]; intros [|[| |] l]; try done. cbn. apply IH. Qed.

(** A fault while connecting ends the process: with 139, or by the signal when an earlier fault of
    the plugin has left the signal blocked. Without one the thread goes on as it was. *)
Theorem reconnect_faults l s : own_handler s = false →
  match decisive l with
  | Some Crashes => protected_reconnect l s = if segv_blocked s then KilledBySignal else ExitsWith 139
  | _ => ∃ s1, protected_reconnect l s = GoesOn s1 ∧ segv_blocked s1 = segv_blocked s ∧ own_handler s1 = false
  end.
Proof.
  intros Ho. unfold protected_reconnect, decisive. rewrite reconnect_body_decisive.
  destruct (List.find _ _) as [[| |]|]; try (by eexists).
  unfold nested_try_catch, run, exception_handler, enter. cbn. by destruct (segv_blocked s).
Qed.

(** A plugin that asks the database, which reconnects, and then faults: the safe mode does not help. *)
Lemma faults_survived_witness :
  let plugin := Try (reconnect_body 21 [Refuses; Connects]) (λ _, Faults) in
  nested_try_catch plugin no_signals = (Dies, false) ∧ nested_try_catch Faults no_signals = (Returns (SignalState true (Some 0%nat) false true 1), true).
Proof.
  intros plugin. split; [|reflexivity].
  exact (proj2 (proj2 (proj2 (proj2 (faults_survived [] Nothing no_signals [] eq_refl)))) (reconnect_body 21 [Refuses; Connects])).
Defined.
