(* ===== verification/Context.v ===== *)
(** * context.c: the application context

    Components register themselves with [populate], which wires them (calls their
    [post_construct]) and makes them available to [get_bean]; variables are set
    and read by name. The names live in two maps that are only used through the
    interface [StringMap]; the entries are cells of a list that only grows. Every
    operation yields the components whose [post_construct] it called, in order.
    The abstract context is the finite map of the first component of each name. *)

From S2P Require Import Prelude Heap StringMap HashMap.

Definition CONTEXT_MAGIC_NUMBER : Z := 1012315172.
Definition CONTEXT_MAJOR_VERSION : Z := 1.
Definition CONTEXT_MINOR_VERSION : Z := 0.
Definition CONTEXT_ERROR_MAGIC_NUMBER : Z := 1.
Definition CONTEXT_ERROR_VERSION_NUMBER : Z := 2.
Definition CONTEXT_ERROR_KEY_EXISTS : Z := 3.

(** [context_aware_data_t]; [c_id] is the address of the object. *)
Record context_data := ContextData {
  c_id : Z;
  magic : Z;
  version_major : Z;
  version_minor : Z;
  c_name : string;
  depends_on : option (list string);
  has_post_construct : bool;
}.

Record entry := Entry { e_context : context_data; initialized : bool; entry_next : ptr }.

#[export] Instance entry_linked : Linked entry := {
  next := entry_next;
  set_next p e := Entry (e_context e) (initialized e) p;
}.
#[export] Instance entry_laws : LinkedLaws entry.
Proof. by split. Qed.

Definition errorMessages : list (Z * string) :=
  [(CONTEXT_ERROR_MAGIC_NUMBER, "Magic number mismatch, not a proper object");
   (CONTEXT_ERROR_VERSION_NUMBER, "Version number mismatch, not a proper object or version not compatible");
   (CONTEXT_ERROR_KEY_EXISTS, "Key exists")]%string.

Definition error_message (error_code : Z) : string :=
  match List.find (λ m, fst m =? error_code) errorMessages with
  | Some m => snd m
  | None => "Unknown error"
  end.

Section context.
(** The map of the components, and the map of the variables, whose values are
    pointers [P]. *)
Context {M VM P : Type} `{StringMapLaws loc M} `{StringMapLaws P VM}.

Record app_context := AppContext {
  entries : ptr;
  cells : heap entry;
  hashMap : M;
  variableMap : VM;
}.

Definition with_cells (h : heap entry) (s : app_context) : app_context :=
  AppContext (entries s) h (hashMap s) (variableMap s).

(** The loop over [depends_on]: [false] when a registered dependency is not
    initialised. A dependency that is not registered is only logged. *)
Fixpoint check_items (items : list string) (s : app_context) : outcome bool :=
  match items with
  | [] => Ok true
  | item :: items' =>
      p ← sm_get (hashMap s) item;
      match p with
      | Some l => e ← deref (cells s) (Some l);
          if initialized e then check_items items' s else Ok false
      | None => check_items items' s
      end
  end.

(** [while (ptr != NULL)]: whether no entry was left, how many were wired, and
    which components were constructed. *)
Fixpoint wire_pass (fuel : nat) (p : ptr) (done : bool) (wiring_count : Z) (s : app_context)
    : outcome (bool * Z * list Z * app_context) :=
  match fuel with
  | O => Diverges
  | S fuel' =>
      match p with
      | None => Ok (done, wiring_count, [], s)
      | Some l =>
          e ← deref (cells s) p;
          if initialized e then wire_pass fuel' (next e) done wiring_count s
          else
            success ← match depends_on (e_context e) with
                      | Some items => check_items items s
                      | None => Ok true
                      end;
            if (success : bool) then
              h ← store (cells s) p (Entry (e_context e) true (next e));
              '(d, n, cs, s') ← wire_pass fuel' (next e) done (wiring_count + 1) (with_cells h s);
              Ok (d, n, if has_post_construct (e_context e) then c_id (e_context e) :: cs else cs, s')
            else wire_pass fuel' (next e) false wiring_count s
      end
  end.

(** The outer loop. The cursor is not reset, so a second round finds no entry. *)
Fixpoint wiring_rounds (fuel : nat) (p : ptr) (s : app_context) : outcome (bool * list Z * app_context) :=
  match fuel with
  | O => Diverges
  | S fuel' =>
      '(done, n, cs, s1) ← wire_pass (list_fuel (cells s)) p true 0 s;
      if 0 <? n then
        '(done', cs', s2) ← wiring_rounds fuel' None s1;
        Ok (done', cs ++ cs', s2)
      else Ok (done, cs, s1)
  end.

(** [casual] only decides whether a missing dependency is logged. *)
Definition wiring (casual : bool) (s : app_context) : outcome (bool * list Z * app_context) :=
  wiring_rounds 2 (entries s) s.

Definition auto_wiring (s : app_context) : outcome (bool * list Z * app_context) := wiring false s.

Definition new_entry (memory : bool) (c : context_data) (s : app_context)
    : outcome (loc * list Z * app_context) :=
  match malloc memory (cells s) with
  | None => Undefined NullDeref
  | Some l =>
      let h := <[l := Entry c false (entries s)]> (cells s) in
      '(_, cs, s') ← wiring true (AppContext (Some l) h (hashMap s) (variableMap s));
      Ok (l, cs, s')
  end.

Definition populate (memory map_memory : bool) (c : context_data) (s : app_context)
    : outcome (Z * list Z * app_context) :=
  if negb (magic c =? CONTEXT_MAGIC_NUMBER) then Ok (CONTEXT_ERROR_MAGIC_NUMBER, [], s)
  else if negb (version_major c =? CONTEXT_MAJOR_VERSION) && negb (version_minor c =? CONTEXT_MINOR_VERSION)
  then Ok (CONTEXT_ERROR_VERSION_NUMBER, [], s)
  else
    '(l, cs, s1) ← new_entry memory c s;
    '(old, m) ← sm_put_if_absent map_memory (hashMap s1) (c_name c) (Some l);
    Ok (match old with Some _ => CONTEXT_ERROR_KEY_EXISTS | None => 0 end, cs,
        AppContext (entries s1) (cells s1) m (variableMap s1)).

(** The pointer returned is the address of the component. *)
Definition get_bean (name : string) (s : app_context) : outcome (option Z) :=
  p ← sm_get (hashMap s) name;
  match p with
  | Some l => e ← deref (cells s) (Some l);
      Ok (if initialized e then Some (c_id (e_context e)) else None)
  | None => Ok None
  end.

Definition set_pointer (memory : bool) (name : string) (value : option P) (s : app_context)
    : outcome (bool * app_context) :=
  '(old, m) ← sm_put_if_absent memory (variableMap s) name value;
  Ok (match old with Some _ => false | None => true end,
      AppContext (entries s) (cells s) (hashMap s) m).

Definition get_pointer (name : string) (s : app_context) : outcome (option P) :=
  sm_get (variableMap s) name.

(** ** The abstract context *)

Record registry := Registry { beans : gmap string context_data; variables : gmap string (option P) }.

Inductive ctx_call :=
  | Populate (c : context_data)
  | AutoWiring
  | GetBean (name : string)
  | SetPointer (name : string) (value : option P)
  | GetPointer (name : string).

Inductive ctx_reply := Code (z : Z) | Flag (b : bool) | Bean (p : option Z) | Variable_ (p : option P).

(** What a call returns, the components it constructs, and the map afterwards. *)
Definition ctx_spec (x : ctx_call) (r : registry) : ctx_reply * list Z * registry :=
  match x with
  | Populate c =>
      if negb (magic c =? CONTEXT_MAGIC_NUMBER) then (Code CONTEXT_ERROR_MAGIC_NUMBER, [], r)
      else if negb (version_major c =? CONTEXT_MAJOR_VERSION) && negb (version_minor c =? CONTEXT_MINOR_VERSION)
      then (Code CONTEXT_ERROR_VERSION_NUMBER, [], r)
      else
        let built := if has_post_construct c then [c_id c] else [] in
        match beans r !! c_name c with
        | Some _ => (Code CONTEXT_ERROR_KEY_EXISTS, built, r)
        | None => (Code 0, built, Registry (<[c_name c := c]> (beans r)) (variables r))
        end
  | AutoWiring => (Flag true, [], r)
  | GetBean n => (Bean (c_id <$> beans r !! n), [], r)
  | SetPointer n v =>
      match variables r !! n with
      | None => (Flag true, [], Registry (beans r) (<[n := v]> (variables r)))
      | Some old => (Flag (bool_decide (old = None)), [], r)
      end
  | GetPointer n => (Variable_ (pointer_at (variables r) n), [], r)
  end.

Definition ctx_step (x : ctx_call) (s : app_context) : outcome (ctx_reply * list Z * app_context) :=
  match x with
  | Populate c => '(z, cs, s') ← populate true true c s; Ok (Code z, cs, s')
  | AutoWiring => '(b, cs, s') ← auto_wiring s; Ok (Flag b, cs, s')
  | GetBean n => p ← get_bean n s; Ok (Bean p, [], s)
  | SetPointer n v => '(b, s') ← set_pointer true n v s; Ok (Flag b, [], s')
  | GetPointer n => p ← get_pointer n s; Ok (Variable_ p, [], s)
  end.

(** The components the map points to are initialised cells. *)
Definition wired (h : heap entry) (gm : gmap string (option loc)) (bs : gmap string context_data) : Prop :=
  ∀ k, match gm !! k with
       | None => bs !! k = None
       | Some p => ∃ l e, p = Some l ∧ h !! l = Some e ∧ initialized e = true ∧ bs !! k = Some (e_context e)
       end.

(** The context stands for the registry: every entry ever made is initialised. *)
Record ctx_rep (s : app_context) (r : registry) : Prop := {
  cr_list : ∃ ls, is_list (cells s) (entries s) ls;
  cr_initialized l e : cells s !! l = Some e → initialized e = true;
  cr_beans : ∃ gm, sm_rep (hashMap s) gm ∧ wired (cells s) gm (beans r);
  cr_variables : sm_rep (variableMap s) (variables r);
}.

Lemma wired_get s gm bs k :
  sm_rep (hashMap s) gm → wired (cells s) gm bs → sm_key (hashMap s) k →
  match bs !! k with
  | Some c => ∃ l e, sm_get (hashMap s) k = Ok (Some l) ∧ cells s !! l = Some e ∧ initialized e = true ∧
                e_context e = c
  | None => sm_get (hashMap s) k = Ok None
  end.
Proof.
  intros Hm Hw Hk. rewrite (sm_get_ok _ _ _ Hm Hk). unfold pointer_at. specialize (Hw k).
  destruct (gm !! k) as [p|]; [|by rewrite Hw]. destruct Hw as (l & e & -> & He & Hi & ->).
  by exists l, e.
Qed.

Lemma check_items_ok s gm bs items :
  sm_rep (hashMap s) gm → wired (cells s) gm bs → Forall (sm_key (hashMap s)) items →
  check_items items s = Ok true.
Proof.
  intros Hm Hw. induction 1 as [|k items Hk _ IH]; cbn [check_items]; [done|].
  pose proof (wired_get s gm bs k Hm Hw Hk) as Hg. destruct (bs !! k).
  - destruct Hg as (l & e & -> & He & Hi & _). by rewrite bind_ok, (deref_Some _ _ _ He), bind_ok, Hi.
  - by rewrite Hg, bind_ok.
Qed.

Lemma wire_pass_done s ls : ∀ fuel p done n,
  is_list (cells s) p ls → (∀ l e, l ∈ ls → cells s !! l = Some e → initialized e = true) →
  (length ls < fuel)%nat → wire_pass fuel p done n s = Ok (done, n, [], s).
Proof.
  unfold is_list. induction ls as [|l ls IH]; intros [|fuel] p done n Hls Hi Hf; simpl in Hf; try lia.
  - simpl in Hls. by subst p.
  - destruct Hls as (-> & e & He & Hls). cbn [wire_pass]. rewrite (deref_Some _ _ _ He), bind_ok.
    rewrite (Hi l e) by (done || left). apply IH; [done| |lia]. intros l' e' Hl'. apply Hi. by right.
Qed.

Lemma auto_wiring_ok s r : ctx_rep s r → auto_wiring s = Ok (true, [], s).
Proof.
  intros [[ls Hls] Hi _ _]. unfold auto_wiring, wiring. cbn [wiring_rounds].
  rewrite (wire_pass_done _ _ _ _ _ _ Hls); [done|eauto|].
  apply is_list_length in Hls. unfold list_fuel. lia.
Qed.

(** A new entry is wired at once, whatever its dependencies. *)
Lemma new_entry_ok s r c :
  ctx_rep s r → Forall (sm_key (hashMap s)) (default [] (depends_on c)) →
  ∃ l s', new_entry true c s = Ok (l, if has_post_construct c then [c_id c] else [], s') ∧
    ctx_rep s' r ∧ hashMap s' = hashMap s ∧ variableMap s' = variableMap s ∧ cells s' !! l = Some (Entry c true (entries s)).
Proof.
  intros [[ls Hls] Hi (gm & Hm & Hw) Hv] Hdeps. unfold new_entry. simpl.
  set (l := fresh_loc (cells s)). assert (Hl : cells s !! l = None) by apply fresh_loc_fresh.
  assert (Hnl : l ∉ ls).
  { intros Hin. destruct (is_list_live _ _ _ _ Hls Hin) as [e He]. congruence. }
  set (s1 := AppContext (Some l) (<[l := Entry c false (entries s)]> (cells s)) (hashMap s) (variableMap s)).
  set (s2 := AppContext (Some l) (<[l := Entry c true (entries s)]> (cells s)) (hashMap s) (variableMap s)).
  assert (Hw' : ∀ e, wired (<[l := e]> (cells s)) gm (beans r)).
  { intros e k. specialize (Hw k). destruct (gm !! k) as [p|]; [|done].
    destruct Hw as (l' & e' & -> & He' & Hrest). exists l', e'. rewrite lookup_insert_ne by congruence. done. }
  assert (Hlist : ∀ b, is_list (<[l := Entry c b (entries s)]> (cells s)) (entries s) ls).
  { intros b. by apply is_list_insert_ne. }
  assert (Hinit : ∀ l' e, l' ∈ ls → cells s2 !! l' = Some e → initialized e = true).
  { intros l' e Hl'. simpl. rewrite lookup_insert_ne by (intros <-; done). apply Hi. }
  assert (Hpass : wire_pass (list_fuel (cells s1)) (Some l) true 0 s1 =
    Ok (true, 1, if has_post_construct c then [c_id c] else [], s2)).
  { unfold list_fuel. cbn [wire_pass]. simpl cells at 1. rewrite (deref_Some _ _ (Entry c false (entries s))), bind_ok
      by apply lookup_insert_eq.
    assert (match depends_on c with Some items => check_items items s1 | None => Ok true end = Ok true) as Hck.
    { destruct (depends_on c); [|done]. apply (check_items_ok s1 gm (beans r)); [done|apply Hw'|done]. }
    cbn [initialized e_context]. rewrite Hck, bind_ok.
    rewrite (store_Some _ _ (Entry c false (entries s))), bind_ok by apply lookup_insert_eq.
    simpl cells. rewrite insert_insert_eq. fold s2. change (with_cells _ s1) with s2.
    rewrite (wire_pass_done s2 ls); [by destruct (has_post_construct c)|by apply Hlist|done|].
    rewrite map_size_insert, Hl. apply is_list_length in Hls. simpl. lia. }
  exists l, s2. unfold wiring. cbn [wiring_rounds]. simpl entries. rewrite Hpass, bind_ok. simpl.
  split.
  - destruct (has_post_construct c); done.
  - split; [|split_and!; [done|done|apply lookup_insert_eq]]. split.
    + exists (l :: ls). simpl. by apply is_list_cons.
    + intros l' e. simpl. destruct (decide (l = l')) as [<-|Hne].
      * rewrite lookup_insert_eq. by intros [= <-].
      * rewrite lookup_insert_ne by done. apply Hi.
    + exists gm. split; [done|apply Hw'].
    + done.
Qed.

(** ** Refinement *)

(** The maps accept the names a call mentions. *)
Definition names_ok (s : app_context) (x : ctx_call) : Prop :=
  match x with
  | Populate c => sm_key (hashMap s) (c_name c) ∧ Forall (sm_key (hashMap s)) (default [] (depends_on c))
  | AutoWiring => True
  | GetBean n => sm_key (hashMap s) n
  | SetPointer n _ | GetPointer n => sm_key (variableMap s) n
  end.

Definition more_keys (s s' : app_context) : Prop :=
  (∀ k, sm_key (hashMap s) k → sm_key (hashMap s') k) ∧
  (∀ k, sm_key (variableMap s) k → sm_key (variableMap s') k).

Lemma names_ok_more s s' x : more_keys s s' → names_ok s x → names_ok s' x.
Proof.
  intros [Hk1 Hk2]. destruct x; simpl; auto. intros [Hn Hd]. split; [auto|].
  revert Hd. apply Forall_impl. auto.
Qed.

Lemma populate_ok s r c :
  ctx_rep s r → names_ok s (Populate c) →
  ∃ s', ctx_step (Populate c) s =
      Ok ((ctx_spec (Populate c) r).1.1, (ctx_spec (Populate c) r).1.2, s') ∧
    ctx_rep s' (ctx_spec (Populate c) r).2 ∧ more_keys s s'.
Proof.
  intros Hr [Hn Hd]. simpl. unfold populate.
  destruct (negb (magic c =? _)); [by exists s|]. destruct (_ && _); [by exists s|].
  destruct (new_entry_ok s r c Hr Hd) as (l & s1 & -> & Hr1 & Hmap & Hvar & Hl). rewrite bind_ok.
  pose proof Hr1 as [Hls Hi (gm & Hm & Hw) Hv]. rewrite <- Hmap in Hn.
  destruct (sm_put_if_absent_ok (hashMap s1) gm (c_name c) (Some l) Hm Hn) as (m & -> & Hm' & Hk).
  rewrite bind_ok. unfold pointer_at. pose proof (Hw (c_name c)) as Hwc.
  destruct (gm !! c_name c) as [p|] eqn:Hg; rewrite ?Hg in Hm', Hwc.
  - destruct Hwc as (l' & e' & -> & He' & Hi' & ->). simpl. eexists. split; [done|]. split.
    + split; simpl; try done. exists gm. split; [exact Hm'|exact Hw].
    + split; simpl; [|by rewrite Hvar]. intros k. rewrite <- Hmap. apply Hk.
  - rewrite Hwc. simpl. eexists. split; [done|]. split.
    + split; simpl; try done. exists (<[c_name c := Some l]> gm). split; [done|]. intros k. simpl.
      destruct (decide (c_name c = k)) as [<-|Hne].
      * rewrite !lookup_insert_eq. by eexists _, _.
      * rewrite !lookup_insert_ne by done. apply Hw.
    + split; simpl; [|by rewrite Hvar]. intros k. rewrite <- Hmap. apply Hk.
Qed.

Lemma ctx_step_ok s r x :
  ctx_rep s r → names_ok s x →
  ∃ s', ctx_step x s = Ok ((ctx_spec x r).1.1, (ctx_spec x r).1.2, s') ∧
    ctx_rep s' (ctx_spec x r).2 ∧ more_keys s s'.
Proof.
  intros Hr Hx. destruct x as [c| |n|n v|n].
  - by apply populate_ok.
  - cbn [ctx_step]. rewrite (auto_wiring_ok _ _ Hr), bind_ok. by exists s.
  - exists s. split; [|done]. cbn [ctx_step]. unfold get_bean. pose proof Hr as [_ _ (gm & Hm & Hw) _].
    pose proof (wired_get s gm _ n Hm Hw Hx) as Hg. cbn [ctx_spec fst snd]. destruct (beans r !! n) as [c|].
    + destruct Hg as (l & e & -> & He & Hi & <-). by rewrite bind_ok, (deref_Some _ _ _ He), !bind_ok, Hi.
    + by rewrite Hg.
  - cbn [ctx_step]. unfold set_pointer. pose proof Hr as [Hls Hi Hb Hv].
    destruct (sm_put_if_absent_ok _ _ n v Hv Hx) as (m & -> & Hm & Hk). rewrite bind_ok. simpl.
    unfold pointer_at. destruct (variables r !! n) as [old|]; simpl.
    + eexists. split; [by destruct old|]. by split; [split|split].
    + eexists. split; [done|]. by split; [split|split].
  - exists s. split; [|done]. cbn [ctx_step]. unfold get_pointer.
    by rewrite (sm_get_ok _ _ _ (cr_variables _ _ Hr) Hx).
Qed.

(** A run of calls: the replies and everything that was constructed. *)
Fixpoint ctx_run (xs : list ctx_call) (s : app_context) : outcome (list ctx_reply * list Z * app_context) :=
  match xs with
  | [] => Ok ([], [], s)
  | x :: xs' =>
      '(a, cs, s1) ← ctx_step x s;
      '(rs, cs', s2) ← ctx_run xs' s1;
      Ok (a :: rs, cs ++ cs', s2)
  end.

Fixpoint ctx_spec_run (xs : list ctx_call) (r : registry) : list ctx_reply * list Z * registry :=
  match xs with
  | [] => ([], [], r)
  | x :: xs' =>
      let '(a, cs, r1) := ctx_spec x r in
      let '(rs, cs', r2) := ctx_spec_run xs' r1 in
      (a :: rs, cs ++ cs', r2)
  end.

(** Over any maps that keep the laws of the interface. *)
Lemma ctx_run_ok xs s r :
  ctx_rep s r → Forall (names_ok s) xs →
  ∃ s', ctx_run xs s = Ok ((ctx_spec_run xs r).1.1, (ctx_spec_run xs r).1.2, s') ∧
    ctx_rep s' (ctx_spec_run xs r).2.
Proof.
  revert s r. induction xs as [|x xs IH]; intros s r Hr Hx; [by exists s|].
  apply list.Forall_cons in Hx as [Hx Hxs]. destruct (ctx_step_ok s r x Hr Hx) as (s1 & Hs & Hr1 & Hk).
  destruct (IH s1 _ Hr1) as (s' & Hs' & Hr').
  { revert Hxs. apply Forall_impl. intros y. by apply names_ok_more. }
  simpl. rewrite Hs, bind_ok. destruct (ctx_spec x r) as [[a cs] r1]. simpl in *. rewrite Hs', bind_ok.
  destruct (ctx_spec_run xs r1) as [[rs cs'] r2]. by exists s'.
Qed.
End context.
Arguments app_context : clear implicits.

(** [initial_once]: both maps are hash maps with 97 buckets. *)
Definition initial_once (P : Type) : app_context (hash_map loc) (hash_map P) :=
  AppContext None ∅ (empty_map 97 None) (empty_map 97 None).

Lemma initial_once_rep P : ctx_rep (initial_once P) (Registry ∅ ∅).
Proof.
  split; simpl.
  - by exists [].
  - intros l e. by rewrite lookup_empty.
  - exists ∅. split; [by apply empty_map_rep|]. intros k. by rewrite lookup_empty.
  - by apply empty_map_rep.
Qed.

Definition ascii_name (n : string) : Prop := str_forall is_ascii n = true.

Definition ascii_names {P} (x : ctx_call (P := P)) : Prop :=
  match x with
  | Populate c => ascii_name (c_name c) ∧ Forall ascii_name (default [] (depends_on c))
  | AutoWiring => True
  | GetBean n | SetPointer n _ | GetPointer n => ascii_name n
  end.

Lemma initial_once_names P (x : ctx_call (P := P)) : ascii_names x → names_ok (initial_once P) x.
Proof.
  assert (Hk : ∀ V n, ascii_name n → sm_key (empty_map (V := V) 97 None) n).
  { intros V n. by apply ascii_key_ok. }
  destruct x; simpl; try done; try apply Hk. intros [Hn Hd]. split; [by apply Hk|].
  revert Hd. apply Forall_impl. apply Hk.
Qed.

(** C38: the application context is a registry in which the first component of a name wins.
    Any sequence of calls with ASCII names runs to the end without undefined behaviour and
    replies as the registry does; every component with an accepted header is constructed
    exactly once, at the moment it is populated, whatever it depends on: the order of the
    [populate] calls is the order of construction, a rejected duplicate is constructed
    too, and [auto_wiring] constructs nothing and always succeeds. *)
Theorem context_refines_registry P (xs : list (ctx_call (P := P))) :
  Forall ascii_names xs →
  ∃ s', ctx_run xs (initial_once P) =
    Ok ((ctx_spec_run xs (Registry ∅ ∅)).1.1, (ctx_spec_run xs (Registry ∅ ∅)).1.2, s').
Proof.
  intros Hx. destruct (ctx_run_ok xs (initial_once P) (Registry ∅ ∅)) as (s' & Hs & _).
  - apply initial_once_rep.
  - revert Hx. apply Forall_impl. apply initial_once_names.
  - by exists s'.
Qed.

(** A component that depends on one that is never populated is constructed all the same;
    a second component of the same name is constructed and then refused. *)
Lemma context_refines_registry_witness :
  let a := ContextData 1 CONTEXT_MAGIC_NUMBER 1 0 "a" (Some ["missing"%string]) true in
  let b := ContextData 2 CONTEXT_MAGIC_NUMBER 1 0 "a" None true in
  ∃ s', ctx_run [Populate a; Populate b; AutoWiring; GetBean "a"] (initial_once nat) =
    Ok ([Code 0; Code 3; Flag true; Bean (Some 1)], [1; 2], s').
Proof.
  intros a b. apply (context_refines_registry nat [Populate a; Populate b; AutoWiring; GetBean "a"]).
  repeat constructor.
Defined.

(** The version check accepts every object whose major or minor version alone agrees:
    the header is refused only when both differ. *)
Theorem version_check_is_weak P c :
  magic c = CONTEXT_MAGIC_NUMBER →
  (∃ cs s', populate true true c (initial_once P) = Ok (CONTEXT_ERROR_VERSION_NUMBER, cs, s')) ↔
  version_major c ≠ CONTEXT_MAJOR_VERSION ∧ version_minor c ≠ CONTEXT_MINOR_VERSION.
Proof.
  intros Hm. unfold populate. rewrite Hm, Z.eqb_refl. cbn [negb].
  destruct (Z.eqb_spec (version_major c) CONTEXT_MAJOR_VERSION) as [Hma|Hma],
    (Z.eqb_spec (version_minor c) CONTEXT_MINOR_VERSION) as [Hmi|Hmi]; cbn [negb andb].
  4: { split; [done|]. intros _. by eexists _, _. }
  all: split; [|intros []; congruence]; intros (cs & s' & Hp); inv_ok; destruct p as [l cs']; inv_ok.
  all: match goal with o : option positive |- _ => by destruct o end.
Qed.

Lemma version_check_is_weak_witness :
  let c := ContextData 1 CONTEXT_MAGIC_NUMBER 9 0 "a" None true in
  ¬ (∃ cs s', populate true true c (initial_once nat) = Ok (CONTEXT_ERROR_VERSION_NUMBER, cs, s')).
Proof.
  intros c Hp. apply (version_check_is_weak nat c) in Hp; [|reflexivity]. by destruct Hp as [_ []].
Defined.
