(* ===== verification/SysConf.v ===== *)
(** * sysconf.c: the configuration

    The parser's actions build a list of entries, last definition first, and a
    stack on which the elements of a list are collected; the rest of the program
    looks values up by name, ignoring case. An entry is a fresh [malloc]ed
    structure of which only some fields are written: [field] keeps the difference.
    [definition] is the syntax tree of one definition of parser.y and [perform]
    its actions in the order the parser runs them. *)

From S2P Require Import Prelude.

Definition MAX_INT_STK_LEN : Z := 64.

Inductive entry_type_enum := IntegerList | StringList | IntegerValue | StringValue | BooleanValue.
Inductive stack_type_enum := IntegerStack | StringStack | UninitializedStack.

(** A field of a structure fresh from [malloc]. *)
Inductive field (A : Type) := Unset | Set_ (a : A).
Arguments Unset {A}.
Arguments Set_ {A} _.

Definition read {A} (f : field A) : outcome A :=
  match f with Set_ a => Ok a | Unset => Undefined Uninitialised end.

Record sysconf_entry := SysconfEntry {
  key : string;
  entry_type : entry_type_enum;
  ivalue : Z;
  value : field string;
  int_list : field (option (list Z));
  slist : field (option (list string));
}.

(** [struct generic_stack], a union. *)
Inductive generic_stack := IntVal (z : Z) | Str (s : string).

(** The static variables. The cursor is a suffix of the list of entries. *)
Record sysconf := Sysconf {
  sysconf_root : list sysconf_entry;
  sysconf_cursor : list sysconf_entry;
  terminate_flag : bool;
  stack_type : stack_type_enum;
  stk : list (option generic_stack);
  sp : Z;
}.

Definition empty_conf : sysconf :=
  Sysconf [] [] false UninitializedStack (replicate (Z.to_nat MAX_INT_STK_LEN) None) 0.

Definition with_root (es : list sysconf_entry) (c : sysconf) : sysconf :=
  Sysconf es (sysconf_cursor c) (terminate_flag c) (stack_type c) (stk c) (sp c).
Definition with_stack (t : stack_type_enum) (s : list (option generic_stack)) (n : Z) (c : sysconf) : sysconf :=
  Sysconf (sysconf_root c) (sysconf_cursor c) (terminate_flag c) t s n.

Definition quote : ascii := "034"%char.

Fixpoint last_char (s : string) : option ascii :=
  match s with
  | EmptyString => None
  | String c EmptyString => Some c
  | String _ s' => last_char s'
  end.

(** The quotes are stripped; of a single quote character [len - 2] is negative
    and [memcpy] runs away. *)
Definition dup_quoted_string (qst : string) : outcome string :=
  match qst with
  | String c s =>
      if decide (c = quote) then
        match s with
        | EmptyString => Undefined OutOfBounds
        | String _ _ =>
            if decide (last_char s = Some quote) then Ok (String.substring 0 (String.length s - 1) s) else Ok qst
        end
      else Ok qst
  | EmptyString => Ok qst
  end.

(** [memory] is whether the entry can be allocated (the copies of the strings are
    taken to be); the result is whether an entry was added. *)
Definition addentry_string (memory : bool) (entry val : string) (c : sysconf) : outcome (bool * sysconf) :=
  if memory then
    v ← match val with
        | String q _ => if decide (q = quote) then dup_quoted_string val else Ok val
        | EmptyString => Ok val
        end;
    Ok (true, with_root (SysconfEntry entry StringValue (-1) (Set_ v) Unset Unset :: sysconf_root c) c)
  else Ok (false, c).

Definition addentry_int_list (memory : bool) (entry : string) (l : option (list Z)) (len : Z) (c : sysconf)
    : sysconf :=
  if memory then with_root (SysconfEntry entry IntegerList len Unset (Set_ l) Unset :: sysconf_root c) c else c.

Definition addentry_string_list (memory : bool) (entry : string) (l : option (list string)) (len : Z)
    (c : sysconf) : sysconf :=
  if memory then with_root (SysconfEntry entry StringList len Unset Unset (Set_ l) :: sysconf_root c) c else c.

(** [ptr->ivalue = ..; ptr->entry_type = ..] on the entry just added. *)
Definition retype (added : bool) (z : Z) (t : entry_type_enum) (c : sysconf) : sysconf :=
  if added then
    match sysconf_root c with
    | e :: es => with_root (SysconfEntry (key e) t z (value e) (int_list e) (slist e) :: es) c
    | [] => c
    end
  else c.

Definition addentry_integer (memory : bool) (entry val : string) (c : sysconf) : outcome sysconf :=
  let data := atoi val in
  '(added, c1) ← addentry_string memory entry val c;
  Ok (retype added data IntegerValue c1).

Definition addentry_ip (memory : bool) (entry val : string) (c : sysconf) : outcome sysconf :=
  '(_, c1) ← addentry_string memory entry val c; Ok c1.
Definition addentry_mac := addentry_ip.

Definition addentry_flag_on (memory : bool) (entry : string) (c : sysconf) : outcome sysconf :=
  '(added, c1) ← addentry_string memory entry "on" c; Ok (retype added 1 BooleanValue c1).
Definition addentry_flag_off (memory : bool) (entry : string) (c : sysconf) : outcome sysconf :=
  '(added, c1) ← addentry_string memory entry "off" c; Ok (retype added 0 BooleanValue c1).

(** [for (i = 0; i < sp; i++) list[i] = stk[sp - i - 1].intval;], or [.str]. *)
Fixpoint pop_list {A} (get : generic_stack → option A) (n : nat) (s : list (option generic_stack))
    : outcome (list A) :=
  match n with
  | O => Ok []
  | S n' =>
      x ← array_get s (Z.of_nat n');
      v ← match x ≫= get with Some a => Ok a | None => Undefined Uninitialised end;
      vs ← pop_list get n' s;
      Ok (v :: vs)
  end.

Definition intval (g : generic_stack) : option Z := match g with IntVal z => Some z | Str _ => None end.
Definition strval (g : generic_stack) : option string := match g with Str t => Some t | IntVal _ => None end.

(** [list_memory] is whether [calloc] succeeds: without the list, the entry still
    gets its length. *)
Definition add_prepared_list (memory list_memory : bool) (entry : string) (c : sysconf) : outcome sysconf :=
  c1 ← match stack_type c with
       | IntegerStack =>
           if list_memory then
             l ← pop_list intval (Z.to_nat (sp c)) (stk c);
             Ok (addentry_int_list memory entry (Some l) (sp c) c)
           else Ok (addentry_int_list memory entry None (sp c) c)
       | StringStack =>
           if list_memory then
             l ← pop_list strval (Z.to_nat (sp c)) (stk c);
             Ok (addentry_string_list memory entry (Some l) (sp c) c)
           else Ok (addentry_string_list memory entry None (sp c) c)
       | UninitializedStack => Ok c
       end;
  Ok (with_stack UninitializedStack (stk c1) 0 c1).

Definition set_list_as_integer (c : sysconf) : sysconf := with_stack IntegerStack (stk c) (sp c) c.
Definition set_list_as_string (c : sysconf) : sysconf := with_stack StringStack (stk c) (sp c) c.

Definition list_append_int (entry : string) (c : sysconf) : outcome sysconf :=
  if sp c <? MAX_INT_STK_LEN then
    s ← array_set (stk c) (sp c) (Some (IntVal (atoi entry)));
    Ok (with_stack (stack_type c) s (sp c + 1) c)
  else Ok c.

Definition list_append_str (entry : string) (c : sysconf) : outcome sysconf :=
  if sp c <? MAX_INT_STK_LEN then
    v ← dup_quoted_string entry;
    s ← array_set (stk c) (sp c) (Some (Str v));
    Ok (with_stack (stack_type c) s (sp c + 1) c)
  else Ok c.

(** *** Queries *)

Definition sysconf_ptr (k : string) (c : sysconf) : option sysconf_entry :=
  List.find (λ e, strcaseeq k (key e)) (sysconf_root c).

Definition sysconf_str (k : string) (c : sysconf) : outcome (option string) :=
  match sysconf_ptr k c with Some e => Some <$> read (value e) | None => Ok None end.

Definition sysconf_str_or_default (k : string) (d : option string) (c : sysconf) : outcome (option string) :=
  match sysconf_ptr k c with Some e => Some <$> read (value e) | None => Ok d end.

Definition sysconf_int_or_default (k : string) (d : Z) (c : sysconf) : Z :=
  match sysconf_ptr k c with Some e => ivalue e | None => d end.

Definition sysconf_int (k : string) (c : sysconf) : Z := sysconf_int_or_default k (-1) c.

Definition data_type (k : string) (c : sysconf) : entry_type_enum :=
  match sysconf_ptr k c with Some e => entry_type e | None => IntegerValue end.

(** The list and the size stored through [sz], when the entry is such a list. *)
Definition integer_list (k : string) (c : sysconf) : outcome (option (option (list Z) * Z)) :=
  match sysconf_ptr k c with
  | Some e => match entry_type e with
              | IntegerList => l ← read (int_list e); Ok (Some (l, ivalue e))
              | _ => Ok None
              end
  | None => Ok None
  end.

Definition string_list (k : string) (c : sysconf) : outcome (option (option (list string) * Z)) :=
  match sysconf_ptr k c with
  | Some e => match entry_type e with
              | StringList => l ← read (slist e); Ok (Some (l, ivalue e))
              | _ => Ok None
              end
  | None => Ok None
  end.

Definition with_cursor (p : list sysconf_entry) (c : sysconf) : sysconf :=
  Sysconf (sysconf_root c) p (terminate_flag c) (stack_type c) (stk c) (sp c).

Definition cursor_key (c : sysconf) : option string := key <$> head (sysconf_cursor c).

Definition sysconf_get_first_key (c : sysconf) : option string * sysconf :=
  let c1 := with_cursor (sysconf_root c) c in (cursor_key c1, c1).

Definition sysconf_get_next_key (c : sysconf) : option string * sysconf :=
  match sysconf_cursor c with
  | _ :: es => let c1 := with_cursor es c in (cursor_key c1, c1)
  | [] => (None, c)
  end.

Definition terminated (c : sysconf) : bool := terminate_flag c.
Definition terminate (c : sysconf) : sysconf :=
  Sysconf (sysconf_root c) (sysconf_cursor c) true (stack_type c) (stk c) (sp c).

(** ** The actions of the parser *)

Inductive definition :=
  | DefInteger (id digits : string)
  | DefString (id qstring : string)
  | DefOn (id : string)
  | DefOff (id : string)
  | DefNumbers (id first : string) (rest : list string)
  | DefStrings (id first : string) (rest : list string).

Definition def_id (d : definition) : string :=
  match d with
  | DefInteger i _ | DefString i _ | DefOn i | DefOff i | DefNumbers i _ _ | DefStrings i _ _ => i
  end.

(** [comma_list_number] and [comma_list_string] are right-recursive: the action
    of the last element runs first. *)
Fixpoint append_all (append : string → sysconf → outcome sysconf) (l : list string) (c : sysconf)
    : outcome sysconf :=
  match l with
  | [] => Ok c
  | x :: l' => c1 ← append_all append l' c; append x c1
  end.

Definition perform (d : definition) (c : sysconf) : outcome sysconf :=
  match d with
  | DefInteger i v => addentry_integer true i v c
  | DefString i v => '(_, c1) ← addentry_string true i v c; Ok c1
  | DefOn i => addentry_flag_on true i c
  | DefOff i => addentry_flag_off true i c
  | DefNumbers i x l =>
      c1 ← append_all list_append_int (x :: l) c;
      add_prepared_list true true i (set_list_as_integer c1)
  | DefStrings i x l =>
      c1 ← append_all list_append_str (x :: l) c;
      add_prepared_list true true i (set_list_as_string c1)
  end.

Fixpoint perform_all (ds : list definition) (c : sysconf) : outcome sysconf :=
  match ds with [] => Ok c | d :: ds' => c1 ← perform d c; perform_all ds' c1 end.

(** ** What a configuration means *)

Definition quoted (t : string) : string := String quote (t +:+ String quote "").

(** A string as the lexer makes it: in quotes, or with the first quote only and some text, when a
    NUL has cut it. *)
Inductive is_quoted : string → Prop :=
  | in_quotes t : is_quoted (quoted t)
  | cut_off t : t ≠ EmptyString → last_char t ≠ Some quote → is_quoted (String quote t).

(** What is left of a string that begins with a NUL. *)
Definition lone_quote : string := String quote EmptyString.

(** At most the last 64 elements of a list are kept. *)
Definition kept {A} (l : list A) : list A := drop (length l - 64) l.

(** The tokens the lexer makes: digits, and strings. *)
Definition wf_definition (d : definition) : Prop :=
  match d with
  | DefInteger _ v => str_forall isdigit v = true
  | DefString _ v => is_quoted v
  | DefOn _ | DefOff _ => True
  | DefNumbers _ _ _ => True
  | DefStrings _ x l => Forall is_quoted (kept (x :: l))
  end.

(** The text in the quotes; without the second one, the first one stays. *)
Definition unquote (v : string) : string :=
  if decide (last_char v = Some quote) then String.substring 1 (String.length v - 2) v else v.

Definition meaning (d : definition) : sysconf_entry :=
  match d with
  | DefInteger i v => SysconfEntry i IntegerValue (atoi v) (Set_ v) Unset Unset
  | DefString i v => SysconfEntry i StringValue (-1) (Set_ (unquote v)) Unset Unset
  | DefOn i => SysconfEntry i BooleanValue 1 (Set_ "on"%string) Unset Unset
  | DefOff i => SysconfEntry i BooleanValue 0 (Set_ "off"%string) Unset Unset
  | DefNumbers i x l =>
      SysconfEntry i IntegerList (Z.of_nat (length (kept (x :: l)))) Unset
        (Set_ (Some (map atoi (kept (x :: l))))) Unset
  | DefStrings i x l =>
      SysconfEntry i StringList (Z.of_nat (length (kept (x :: l)))) Unset Unset
        (Set_ (Some (map unquote (kept (x :: l)))))
  end.

(** The number of an entry is an [int]. *)
Lemma meaning_int d : is_int (ivalue (meaning d)).
Proof.
  assert (Hk : ∀ {A} (l : list A), is_int (Z.of_nat (length (kept l)))).
  { intros A l. unfold kept, is_int, INT_MIN, INT_MAX. rewrite length_drop. lia. }
  destruct d; cbn [meaning ivalue]; [|done..|apply Hk|apply Hk].
  unfold atoi. repeat case_match; first [apply int32_range|done].
Qed.

Lemma last_char_snoc t c : last_char (t +:+ String c "") = Some c.
Proof. induction t as [|d [|e t] IH]; done. Qed.

Lemma length_string_app a b : String.length (a +:+ b) = (String.length a + String.length b)%nat.
Proof. induction a as [|c a IH]; simpl; [done|]. by rewrite IH. Qed.

Lemma substring_prefix t u : String.substring 0 (String.length t) (t +:+ u) = t.
Proof. induction t as [|c t IH]; simpl; [by destruct u|]. by rewrite IH. Qed.

Lemma dup_quoted_ok v : is_quoted v → dup_quoted_string v = Ok (unquote v).
Proof.
  intros [t|t Ht Hl].
  2: { destruct t as [|c t]; [done|]. unfold dup_quoted_string, unquote. rewrite decide_True, decide_False by done.
       change (last_char (String quote (String c t))) with (last_char (String c t)). by rewrite decide_False. }
  assert (Hu : unquote (quoted t) = String.substring 1 (String.length (quoted t) - 2) (quoted t)).
  { unfold unquote, quoted. change (String quote (t +:+ String quote "")) with (String quote t +:+ String quote "").
    by rewrite last_char_snoc, decide_True. }
  rewrite Hu. unfold quoted, dup_quoted_string. rewrite decide_True by done.
  pose proof (last_char_snoc t quote) as Hl. pose proof (length_string_app t (String quote "")) as Hn.
  destruct (t +:+ String quote "") as [|c s] eqn:E; [by destruct t|]. rewrite Hl, decide_True by done.
  change (String.length (String quote (String c s))) with (S (String.length (String c s))). rewrite Hn. simpl (String.length _).
  replace (String.length t + 1 - 1)%nat with (String.length t) by lia.
  replace (S (String.length t + 1) - 2)%nat with (String.length t) by lia.
  change (String.substring 1 (String.length t) (String quote (String c s)))
    with (String.substring 0 (String.length t) (String c s)).
  done.
Qed.

(** *** Lists *)

Lemma pop_list_insert {A} (get : generic_stack → option A) n m s v :
  (n ≤ m)%nat → pop_list get n (<[m := v]> s) = pop_list get n s.
Proof.
  induction n as [|n IH]; intros Hn; simpl; [done|]. rewrite IH by lia.
  unfold array_get, zlookup. destruct (Z.ltb_spec (Z.of_nat n) 0); [done|].
  rewrite list_lookup_insert_ne by lia. done.
Qed.

(** Either of the two append operations. *)
Definition appends (append : string → sysconf → outcome sysconf) (mk : string → outcome generic_stack) : Prop :=
  ∀ e c, append e c =
    if sp c <? MAX_INT_STK_LEN then
      v ← mk e;
      s ← array_set (stk c) (sp c) (Some v);
      Ok (with_stack (stack_type c) s (sp c + 1) c)
    else Ok c.

(** Appending a whole list leaves its last 64 elements on the stack, in an order
    that popping undoes. *)
Lemma append_all_ok {A} append mk (get : generic_stack → option A) (f : string → A) l c :
  appends append mk → (∀ x, x ∈ kept l → ∃ v, mk x = Ok v ∧ get v = Some (f x)) →
  sp c = 0 → length (stk c) = 64%nat →
  ∃ s, append_all append l c = Ok (with_stack (stack_type c) s (Z.of_nat (length (kept l))) c) ∧
    length s = 64%nat ∧ pop_list get (length (kept l)) s = Ok (map f (kept l)).
Proof.
  intros Happ Hmk Hsp Hlen. unfold kept. induction l as [|x l IH].
  - exists (stk c). split; [|done]. destruct c; simpl in *. by subst.
  - assert (Hk : kept l `suffix_of` kept (x :: l)).
    { unfold kept. cbn [length]. destruct (decide (length l < 64)%nat).
      - replace (S (length l) - 64)%nat with 0%nat by lia. replace (length l - 64)%nat with 0%nat by lia. by exists [x].
      - replace (S (length l) - 64)%nat with (S (length l - 64)) by lia. done. }
    destruct IH as (s & Hs & Hls & Hpop); [intros y Hy; apply Hmk; destruct Hk as [k Hk]; unfold kept in *; rewrite Hk; apply elem_of_app; by right|].
    cbn [append_all]. rewrite Hs, bind_ok, Happ. simpl sp. rewrite length_drop in *.
    assert (Hc : (length l < 64 ∨ 64 ≤ length l)%nat) by lia. destruct Hc as [Hc|Hc].
    + rewrite (proj2 (Z.ltb_lt _ _)) by (unfold MAX_INT_STK_LEN; lia).
      destruct (Hmk x ltac:(unfold kept; replace (length (x :: l) - 64)%nat with 0%nat by (cbn; lia); left)) as (v & -> & Hv). rewrite bind_ok. simpl stk.
      rewrite array_set_ok, bind_ok by (rewrite Hls; lia).
      replace (length l - (length l - 64))%nat with (length l) in * by lia.
      replace (length (x :: l) - 64)%nat with O by (simpl; lia).
      replace (length l - 64)%nat with O in * by lia. rewrite drop_0 in *.
      replace (Z.of_nat (length l) + 1) with (Z.of_nat (length (x :: l))) by (simpl; lia).
      eexists. split; [done|]. split; [by rewrite length_insert|].
      simpl length. cbn [pop_list]. rewrite Nat2Z.id.
      unfold array_get, zlookup. destruct (Z.ltb_spec (Z.of_nat (length l)) 0); [lia|].
      rewrite Nat2Z.id, list_lookup_insert_eq by lia. rewrite bind_ok. simpl. rewrite Hv, bind_ok.
      rewrite pop_list_insert by lia. by rewrite Hpop, bind_ok.
    + rewrite (proj2 (Z.ltb_ge _ _)) by (unfold MAX_INT_STK_LEN; lia).
      replace (length (x :: l) - 64)%nat with (S (length l - 64)) by (simpl; lia).
      exists s. cbn [drop]. rewrite length_drop. done.
Qed.

Lemma append_int_appends : appends list_append_int (λ e, Ok (IntVal (atoi e))).
Proof. intros e c. unfold list_append_int. by destruct (_ <? _). Qed.
Lemma append_str_appends : appends list_append_str (λ e, v ← dup_quoted_string e; Ok (Str v)).
Proof. intros e c. unfold list_append_str. destruct (_ <? _); [|done]. by destruct (dup_quoted_string e). Qed.

Lemma isdigit_quote v : str_forall isdigit v = true →
  (match v with String q _ => if decide (q = quote) then dup_quoted_string v else Ok v | EmptyString => Ok v end) = Ok v.
Proof.
  destruct v as [|q v]; [done|]. simpl. intros [Hq _]%andb_prop. by rewrite decide_False by by intros ->.
Qed.

(** Each definition adds the entry it means, and leaves the stack empty. *)
Lemma perform_ok d c :
  wf_definition d → sp c = 0 → length (stk c) = 64%nat →
  ∃ s t, perform d c = Ok (Sysconf (meaning d :: sysconf_root c) (sysconf_cursor c) (terminate_flag c) t s 0) ∧
    length s = 64%nat.
Proof.
  intros Hd Hsp Hlen. assert (Hc : ∀ es, with_root es c =
    Sysconf es (sysconf_cursor c) (terminate_flag c) (stack_type c) (stk c) 0).
  { intros es. unfold with_root. by rewrite Hsp. }
  destruct d as [i v|i v|i|i|i x l|i x l]; cbn [perform meaning].
  - unfold addentry_integer, addentry_string. rewrite (isdigit_quote v Hd), !bind_ok.
    unfold retype, with_root. simpl. rewrite Hsp. eauto.
  - unfold addentry_string. pose proof (dup_quoted_ok v Hd) as Hq.
    assert (∃ t, v = String quote t) as [t ->] by (destruct Hd; by eexists). rewrite decide_True, Hq, !bind_ok, Hc by done. eauto.
  - unfold addentry_flag_on, addentry_string, retype, with_root. simpl. rewrite Hsp. eauto.
  - unfold addentry_flag_off, addentry_string, retype, with_root. simpl. rewrite Hsp. eauto.
  - destruct (append_all_ok list_append_int _ intval atoi (x :: l) c append_int_appends) as
      (s & -> & Hls & Hpop); [eauto|done|done|].
    rewrite bind_ok. unfold add_prepared_list. simpl stack_type. cbn [stk sp with_stack set_list_as_integer].
    rewrite Nat2Z.id, Hpop, bind_ok. simpl. eauto.
  - destruct (append_all_ok list_append_str _ strval unquote (x :: l) c append_str_appends) as
      (s & -> & Hls & Hpop); [|done|done|].
    { intros y Hy. unfold wf_definition in Hd. rewrite Forall_forall in Hd.
      specialize (Hd y (proj1 (list_elem_of_In _ _) Hy)).
      rewrite (dup_quoted_ok y Hd). eauto. }
    rewrite bind_ok. unfold add_prepared_list. simpl stack_type. cbn [stk sp with_stack set_list_as_string].
    rewrite Nat2Z.id, Hpop, bind_ok. simpl. eauto.
Qed.

Lemma perform_all_ok ds : ∀ c,
  Forall wf_definition ds → sp c = 0 → length (stk c) = 64%nat →
  ∃ s t, perform_all ds c =
      Ok (Sysconf (rev (map meaning ds) ++ sysconf_root c) (sysconf_cursor c) (terminate_flag c) t s 0) ∧
    length s = 64%nat.
Proof.
  induction ds as [|d ds IH]; intros c Hds Hsp Hlen.
  - exists (stk c), (stack_type c). split; [|done]. destruct c; simpl in *. by subst.
  - apply list.Forall_cons in Hds as [Hd Hds]. cbn [perform_all].
    destruct (perform_ok d c Hd Hsp Hlen) as (s & t & -> & Hs). rewrite bind_ok. 
    destruct (IH (Sysconf (meaning d :: sysconf_root c) (sysconf_cursor c) (terminate_flag c) t s 0) Hds)
      as (s' & t' & -> & Hs'); [done|done|]. simpl. rewrite <- app_assoc. eauto.
Qed.

(** The definition of a name that counts: the last one, in any letter case. *)
Definition last_definition (k : string) (ds : list definition) : option definition :=
  List.find (λ d, strcaseeq k (def_id d)) (rev ds).

Lemma find_meaning k ds :
  List.find (λ e, strcaseeq k (key e)) (map meaning ds) =
  meaning <$> List.find (λ d, strcaseeq k (def_id d)) ds.
Proof.
  induction ds as [|d ds IH]; [done|]. simpl.
  replace (key (meaning d)) with (def_id d) by by destruct d.
  by destruct (strcaseeq k (def_id d)).
Qed.

(** Every name leads to the entry of its last definition. *)
Lemma perform_all_ptr ds : Forall wf_definition ds →
  ∃ c, perform_all ds empty_conf = Ok c ∧ ∀ k, sysconf_ptr k c = meaning <$> last_definition k ds.
Proof.
  intros Hds. destruct (perform_all_ok ds empty_conf Hds eq_refl eq_refl) as (s & t & Hc & _).
  eexists. split; [exact Hc|]. intros k. unfold last_definition, sysconf_ptr. simpl. by rewrite app_nil_r, <- map_rev, find_meaning.
Qed.

(** *** A string that begins with a NUL *)

(** The strings of a definition as the lexer makes them. *)
Definition as_scanned (d : definition) : Prop :=
  match d with
  | DefInteger _ v => str_forall isdigit v = true
  | DefString _ v => is_quoted v ∨ v = lone_quote
  | DefOn _ | DefOff _ | DefNumbers _ _ _ => True
  | DefStrings _ x l => Forall (λ v, is_quoted v ∨ v = lone_quote) (x :: l)
  end.

(** A lone quote is unquoted: of the elements of a list, one of those that are kept. *)
Definition unquotes_lone (d : definition) : bool :=
  match d with
  | DefString _ v => bool_decide (v = lone_quote)
  | DefStrings _ x l => bool_decide (lone_quote ∈ kept (x :: l))
  | _ => false
  end.

Lemma kept_incl {A} (l : list A) x : x ∈ kept l → x ∈ l.
Proof. unfold kept. intros Hx. rewrite <- (take_drop (length l - 64) l). apply elem_of_app. by right. Qed.

Lemma scanned_wf d : as_scanned d → unquotes_lone d = false → wf_definition d.
Proof.
  destruct d as [i v|i v|i|i|i x l|i x l]; try done; cbn [as_scanned unquotes_lone wf_definition]; intros Hs Hl%bool_decide_eq_false.
  - by destruct Hs.
  - apply list.Forall_forall. intros y Hy. rewrite list.Forall_forall in Hs. destruct (Hs y (kept_incl _ _ Hy)) as [Hq|Hq]; [done|].
    subst y. by destruct Hl.
Qed.

Lemma append_lone l c : Forall (λ v, is_quoted v ∨ v = lone_quote) l → lone_quote ∈ kept l → sp c = 0 → length (stk c) = 64%nat →
  append_all list_append_str l c = Undefined OutOfBounds.
Proof.
  intros Hl Hin Hsp Hlen. induction Hl as [|x l Hx Hl IH]; [by apply elem_of_nil in Hin|]. cbn [append_all].
  destruct (decide (lone_quote ∈ kept l)) as [Hk|Hk]; [by rewrite (IH Hk)|].
  destruct (append_all_ok list_append_str _ strval unquote l c append_str_appends) as (s & -> & Hls & _); [|done|done|].
  { intros y Hy. rewrite list.Forall_forall in Hl. destruct (Hl y (kept_incl _ _ Hy)) as [Hq|Hq]; [|by subst y]. rewrite (dup_quoted_ok y Hq). eauto. }
  rewrite bind_ok, append_str_appends. cbn [sp with_stack]. unfold kept in *. cbn [length] in Hin. rewrite length_drop.
  destruct (decide (length l < 64)%nat) as [Hlt|Hge].
  - rewrite (proj2 (Z.ltb_lt _ _)) by (unfold MAX_INT_STK_LEN; lia). replace (S (length l) - 64)%nat with 0%nat in Hin by lia.
    replace (length l - 64)%nat with 0%nat in Hk by lia. apply elem_of_cons in Hin as [<-|Hin]; [done|by destruct Hk].
  - exfalso. apply Hk. replace (S (length l) - 64)%nat with (S (length l - 64)) in Hin by lia. exact Hin.
Qed.

Lemma perform_lone d c : as_scanned d → unquotes_lone d = true → sp c = 0 → length (stk c) = 64%nat → perform d c = Undefined OutOfBounds.
Proof.
  destruct d as [i v|i v|i|i|i x l|i x l]; try done; cbn [as_scanned unquotes_lone perform]; intros Hs Hl%bool_decide_eq_true Hsp Hlen.
  - by subst v.
  - by rewrite append_lone.
Qed.

(** All definitions are performed, unless a lone quote is unquoted. *)
Lemma perform_scanned ds : ∀ c, Forall as_scanned ds → sp c = 0 → length (stk c) = 64%nat →
  if existsb unquotes_lone ds then perform_all ds c = Undefined OutOfBounds else Forall wf_definition ds.
Proof.
  induction ds as [|d ds IH]; intros c Hds Hsp Hlen; [by apply list.Forall_nil|]. apply list.Forall_cons in Hds as [Hd Hds].
  cbn [existsb perform_all]. destruct (unquotes_lone d) eqn:Hl; cbn [orb]; [by rewrite perform_lone|].
  apply (scanned_wf d Hd) in Hl. destruct (perform_ok d c Hl Hsp Hlen) as (s & t & Hp & Hs).
  specialize (IH (Sysconf (meaning d :: sysconf_root c) (sysconf_cursor c) (terminate_flag c) t s 0) Hds eq_refl Hs).
  destruct (existsb unquotes_lone ds); [by rewrite Hp|by constructor].
Qed.

(** A configuration file means what its last definition of each name says. Whatever
    definitions are performed, every query finds the last definition of its name in any
    letter case: [int_or_default] gives a number's value, -1 for a string, 1 or 0 for a flag
    and the number of kept elements for a list; [str] gives the text, without the quotes;
    the list queries give the last 64 elements in their order, and only for a list of their
    type. Asking for the text of a list reads memory that was never written. *)
Theorem config_lookup ds k :
  Forall wf_definition ds →
  ∃ c, perform_all ds empty_conf = Ok c ∧
    match last_definition k ds with
    | None => (∀ d, sysconf_int_or_default k d c = d) ∧ sysconf_str k c = Ok None ∧
        (∀ d, sysconf_str_or_default k d c = Ok d) ∧ integer_list k c = Ok None ∧ string_list k c = Ok None
    | Some d =>
        (∀ z, sysconf_int_or_default k z c =
           match d with
           | DefInteger _ v => atoi v | DefString _ _ => -1 | DefOn _ => 1 | DefOff _ => 0
           | DefNumbers _ _ l | DefStrings _ _ l => Z.min 64 (Z.of_nat (S (length l)))
           end) ∧
        sysconf_str k c =
          match d with
          | DefInteger _ v => Ok (Some v) | DefString _ v => Ok (Some (unquote v))
          | DefOn _ => Ok (Some "on"%string) | DefOff _ => Ok (Some "off"%string)
          | DefNumbers _ _ _ | DefStrings _ _ _ => Undefined Uninitialised
          end ∧
        integer_list k c =
          match d with
          | DefNumbers _ x l => Ok (Some (Some (map atoi (kept (x :: l))), Z.min 64 (Z.of_nat (S (length l)))))
          | _ => Ok None
          end ∧
        string_list k c =
          match d with
          | DefStrings _ x l => Ok (Some (Some (map unquote (kept (x :: l))), Z.min 64 (Z.of_nat (S (length l)))))
          | _ => Ok None
          end
    end.
Proof.
  intros Hds. destruct (perform_all_ptr ds Hds) as (c & Hc & Hp). exists c. split; [exact Hc|].
  unfold sysconf_int_or_default, sysconf_str, sysconf_str_or_default, integer_list, string_list. rewrite Hp.
  destruct (last_definition k ds) as [d|]; [|done]. simpl.
  assert (Hk : ∀ {A} (x : A) l, Z.of_nat (length (kept (x :: l))) = Z.min 64 (Z.of_nat (S (length l)))).
  { intros A x l. unfold kept. rewrite length_drop. simpl length. lia. }
  destruct d as [i v|i v|i|i|i x l|i x l]; simpl; rewrite ?Hk; done.
Qed.

(** The keys [first_key] and then [n] times [next_key] return. *)
Fixpoint next_keys (n : nat) (c : sysconf) : list (option string) :=
  match n with
  | O => []
  | S n' => let '(k, c1) := sysconf_get_next_key c in k :: next_keys n' c1
  end.
Definition all_keys (n : nat) (c : sysconf) : list (option string) :=
  let '(k, c1) := sysconf_get_first_key c in k :: next_keys n c1.

Lemma next_keys_ok n : ∀ c,
  next_keys n c = map (λ i, key <$> sysconf_cursor c !! i) (seq 1 n).
Proof.
  induction n as [|n IH]; intros c; [done|]. cbn [next_keys seq map].
  unfold sysconf_get_next_key. destruct (sysconf_cursor c) as [|e es] eqn:E.
  - rewrite IH, E. f_equal. by rewrite <- (seq_shift n 1), map_map.
  - cbv zeta beta. cbn [map]. rewrite IH. simpl. f_equal; [by destruct es|].
    rewrite <- (seq_shift n 1), map_map. done.
Qed.

(** [first_key] and [next_key] enumerate the names of all definitions, the last one
    first, and then return [NULL] for ever. *)
Theorem config_keys ds n :
  Forall wf_definition ds →
  ∃ c, perform_all ds empty_conf = Ok c ∧
    all_keys n c = map (λ i, def_id <$> rev ds !! i) (seq 0 (S n)).
Proof.
  intros Hds. destruct (perform_all_ok ds empty_conf Hds eq_refl eq_refl) as (s & t & Hc & _).
  eexists. split; [exact Hc|]. unfold all_keys, sysconf_get_first_key. simpl.
  rewrite next_keys_ok. simpl. rewrite app_nil_r, <- map_rev. unfold cursor_key. simpl.
  assert (Hi : ∀ i, key <$> map meaning (rev ds) !! i = def_id <$> rev ds !! i).
  { intros i. rewrite list_lookup_fmap. destruct (rev ds !! i) as [d|]; [|done]. by destruct d. }
  f_equal; [|apply map_ext; intros i; apply Hi]. rewrite <- (Hi O). by destruct (map meaning (rev ds)).
Qed.

(** ** Witnesses *)

Definition sample_conf : list definition :=
  [DefInteger "port" "1234"; DefStrings "log-file" (quoted "a") [quoted "b"]; DefOn "daemon";
   DefInteger "Port" "80"; DefNumbers "hours" "8" ["17"%string]].

Lemma sample_conf_wf : Forall wf_definition sample_conf.
Proof. repeat constructor. Qed.

Lemma config_lookup_witness :
  ∃ c, perform_all sample_conf empty_conf = Ok c ∧ (∀ z, sysconf_int_or_default "PORT" z c = 80) ∧
    sysconf_str "PORT" c = Ok (Some "80"%string) ∧ integer_list "PORT" c = Ok None ∧
    string_list "PORT" c = Ok None.
Proof. exact (config_lookup sample_conf "PORT" sample_conf_wf). Defined.

Lemma config_keys_witness :
  ∃ c, perform_all sample_conf empty_conf = Ok c ∧
    all_keys 5 c = [Some "hours"; Some "Port"; Some "daemon"; Some "log-file"; Some "port"; None]%string.
Proof. exact (config_keys sample_conf 5 sample_conf_wf). Defined.
