(* ===== verification/ConfText.v ===== *)
(** * lexer.l and parser.y: the text of a configuration

    The scanner of lexer.l is its list of rules: the longest match wins, of equal matches
    the first rule. Matching characters sets whether the scanner is at the beginning of a
    line from the last of them, before the rule's action runs; so the rule that keeps the
    line for messages ([^.*], which gives everything back with [yyless(0)]) runs once per
    line. The grammar of parser.y is the relation [full_definition], and the actions are
    [perform] of [SysConf.v]. The parser that yacc generates from it is not part of the program: it is
    the operation of the class [Yacc], whose laws are what the manual of yacc says of such a parser. *)

From S2P Require Import Prelude SysConf.

(** ** The scanner *)

Inductive token :=
  | RW_FLAG_ON
  | RW_FLAG_OFF
  | IDENTIFIER (text : string)
  | QSTRING (text : string)
  | DIGIT (text : string)
  | CharToken (c : ascii).

Definition char_is (n : Z) (c : ascii) : bool := char_code c =? n.

Definition newline_char := char_is 10.
Definition not_newline (c : ascii) : bool := negb (newline_char c).
(** [ws] *)
Definition blank (c : ascii) : bool := char_is 32 c || char_is 9 c.
Definition letter (c : ascii) : bool :=
  char_is 95 c || (97 <=? char_code c) && (char_code c <=? 122) || (65 <=? char_code c) && (char_code c <=? 90).
Definition id_char (c : ascii) : bool := letter c || char_is 45 c || isdigit c.
Definition in_string (c : ascii) : bool := negb (char_is 34 c) && not_newline c.

(** The length of the longest prefix of characters with [P]. *)
Fixpoint span (P : ascii → bool) (s : string) : nat :=
  match s with
  | String c s' => if P c then S (span P s') else O
  | EmptyString => O
  end.

(** The rules of lexer.l, in order. *)
Inductive rule :=
  | WsRule | CommentRule | LineRule | NewlineRule | IgnoredRule | OnRule | OffRule | IdRule | StringRule
  | DigitsRule | AnyRule.

Definition rules : list rule :=
  [WsRule; CommentRule; LineRule; NewlineRule; IgnoredRule; OnRule; OffRule; IdRule; StringRule; DigitsRule; AnyRule].

(** How many characters a rule matches, 0 if it does not match. *)
Definition rule_length (bol : bool) (s : string) (r : rule) : nat :=
  match r, s with
  | _, EmptyString => 0
  | WsRule, _ => span blank s
  | CommentRule, String c s' =>
      if char_is 35 c then S (span not_newline s')
      else if char_is 47 c then
        match s' with
        | String c' s'' => if char_is 47 c' then S (S (span not_newline s'')) else 0
        | EmptyString => 0
        end
      else 0
  | LineRule, _ => if bol then span not_newline s else 0
  | NewlineRule, String c _ => if newline_char c then 1 else 0
  | IgnoredRule, String c _ => if char_is 26 c || char_is 13 c then 1 else 0
  | OnRule, _ => if String.prefix "on" s then 2 else 0
  | OffRule, _ => if String.prefix "off" s then 3 else 0
  | IdRule, String c s' => if letter c then S (span id_char s') else 0
  | StringRule, String c s' =>
      if char_is 34 c then
        let n := span in_string s' in
        match String.get n s' with
        | Some q => if char_is 34 q then S (S n) else 0
        | None => 0
        end
      else 0
  | DigitsRule, _ => span isdigit s
  | AnyRule, String c _ => if not_newline c then 1 else 0
  end%nat.

(** The rule that runs: the longest match, the first of the longest ones. *)
Fixpoint longest (bol : bool) (s : string) (rs : list rule) : option (rule * nat) :=
  match rs with
  | [] => None
  | r :: rs' =>
      let n := rule_length bol s r in
      match longest bol s rs' with
      | Some (r', n') => if (n <? n')%nat then Some (r', n') else Some (r, n)
      | None => if (n =? 0)%nat then None else Some (r, n)
      end
  end.

Record scanner := Scanner { input : string; at_bol : bool; lineno : Z; linebuf : string }.

Definition init_scanner (text : string) : scanner := Scanner text true 1 EmptyString.

(** [strncpy (linebuf, yytext, 511)], up to a NUL. *)
Fixpoint until_nul (s : string) : string :=
  match s with
  | String c s' => if char_is 0 c then EmptyString else String c (until_nul s')
  | EmptyString => EmptyString
  end.

(** [strdup (yytext)]: what matched may hold a NUL. *)
Definition strdup : string → string := until_nul.

(** The action of a rule that matched [n] characters. *)
Definition action (r : rule) (n : nat) (st : scanner) : option token * scanner :=
  let yytext := str_take n (input st) in
  let rest := str_drop n (input st) in
  let st' := Scanner rest false (lineno st) (linebuf st) in
  match r with
  | WsRule | CommentRule | IgnoredRule => (None, st')
  | LineRule => (None, Scanner (input st) false (lineno st) (str_take 511 (until_nul yytext)))
  | NewlineRule => (None, Scanner rest true (lineno st + 1) (linebuf st))
  | OnRule => (Some RW_FLAG_ON, st')
  | OffRule => (Some RW_FLAG_OFF, st')
  | IdRule => (Some (IDENTIFIER (strdup yytext)), st')
  | StringRule => (Some (QSTRING (strdup yytext)), st')
  | DigitsRule => (Some (DIGIT (strdup yytext)), st')
  | AnyRule => (match yytext with String c _ => Some (CharToken c) | EmptyString => None end, st')
  end.

(** One rule; [None] at the end of the input. *)
Definition scan_step (st : scanner) : option (option token * scanner) :=
  '(r, n) ← longest (at_bol st) (input st) rules; Some (action r n st).

(** The parser takes an answer that is not positive for the end of the file: a NUL, or a
    character above 127, which [yytext[0]] makes negative. *)
Definition is_eof (t : token) : bool := match t with CharToken c => schar c <=? 0 | _ => false end.

(** The tokens the parser gets, by calling [yylex] until the end of the file. *)
Fixpoint scan (fuel : nat) (st : scanner) : outcome (list token) :=
  match fuel with
  | O => Diverges
  | S fuel' =>
      match scan_step st with
      | None => Ok []
      | Some (None, st') => scan fuel' st'
      | Some (Some t, st') => if is_eof t then Ok [] else ts ← scan fuel' st'; Ok (t :: ts)
      end
  end.

Definition scan_fuel (st : scanner) : nat := (2 * String.length (input st) + if at_bol st then 2 else 1)%nat.

Definition tokens (text : string) : outcome (list token) := scan (scan_fuel (init_scanner text)) (init_scanner text).

Example tokens_example :
  tokens ("# x" +:+ String "010" ("port	= 80; // y" +:+ String "010" ("on = [" +:+ quoted "a//b" +:+ ",off-1]"))) =
  Ok [IDENTIFIER "port"; CharToken "="; DIGIT "80"; CharToken ";"; RW_FLAG_ON; CharToken "="; CharToken "[";
      QSTRING (quoted "a//b"); CharToken ","; IDENTIFIER "off-1"; CharToken "]"].
Proof. vm_compute. reflexivity. Qed.

(** ** The text of a list of tokens *)

Definition head_is (P : ascii → bool) (s : string) : bool :=
  match s with String c _ => P c | EmptyString => false end.

Definition token_text (t : token) : string :=
  match t with
  | RW_FLAG_ON => "on"
  | RW_FLAG_OFF => "off"
  | IDENTIFIER w | QSTRING w | DIGIT w => w
  | CharToken c => String c EmptyString
  end.

(** Characters that are no part of a token. *)
Definition skipped (c : ascii) : bool := blank c || newline_char c || char_is 26 c || char_is 13 c.

Definition punctuation (c : ascii) : bool :=
  (0 <? schar c) && negb (skipped c) && negb (letter c) && negb (isdigit c) && negb (char_is 35 c).

(** A token as the scanner makes it. *)
Definition token_ok (t : token) : Prop :=
  match t with
  | RW_FLAG_ON | RW_FLAG_OFF => True
  | IDENTIFIER w => head_is letter w = true ∧ str_forall id_char w = true ∧ w ≠ "on"%string ∧ w ≠ "off"%string
  | QSTRING _ => True
  | DIGIT w => w ≠ EmptyString ∧ str_forall isdigit w = true
  | CharToken c => punctuation c = true
  end.

(** The text of a token. A string in quotes is cut at the first NUL in it. *)
Definition spells (t : token) (u : string) : Prop :=
  match t with
  | QSTRING w => ∃ v, u = quoted v ∧ str_forall in_string v = true ∧ w = strdup u
  | _ => u = token_text t
  end.

(** What follows a token must not make it longer. *)
Definition apart (t : token) (s : string) : Prop :=
  match t with
  | RW_FLAG_ON | RW_FLAG_OFF | IDENTIFIER _ => head_is id_char s = false
  | DIGIT _ => head_is isdigit s = false
  | QSTRING _ => True
  | CharToken c =>
      (char_is 47 c = true → head_is (char_is 47) s = false) ∧
      (char_is 34 c = true → ∀ q, String.get (span in_string s) s = Some q → char_is 34 q = false)
  end.

Definition is_comment (t : string) : Prop :=
  ∃ u, str_forall not_newline u = true ∧ (t = String "#" u ∨ t = String "/" (String "/" u)).

(** [laid_out s ts]: the text [s] is the tokens [ts] with white space and comments anywhere
    between them, up to the end of the text or a character that is taken for it. *)
Inductive laid_out : string → list token → Prop :=
  | laid_end : laid_out EmptyString []
  | laid_eof c s : schar c ≤ 0 → laid_out (String c s) []
  | laid_white c s ts : skipped c = true → laid_out s ts → laid_out (String c s) ts
  | laid_comment t s ts : is_comment t → head_is not_newline s = false → laid_out s ts → laid_out (t +:+ s) ts
  | laid_token t u s ts : token_ok t → spells t u → apart t s → laid_out s ts → laid_out (u +:+ s) (t :: ts).

(** *** Classes of characters *)

Lemma char_code_range c : 0 ≤ char_code c < 256.
Proof. unfold char_code. pose proof (N_ascii_bounded c). lia. Qed.

Lemma schar_code c : schar c = if char_code c <? 128 then char_code c else char_code c - 256.
Proof. reflexivity. Qed.

(** Decide a fact about the class of a character by its code. *)
Ltac chars :=
  unfold head_is, punctuation, skipped, blank, id_char, letter, in_string, not_newline, newline_char, char_is, isdigit in *; rewrite ?schar_code in *;
  repeat match goal with c : ascii |- _ =>
    lazymatch goal with _ : 0 ≤ char_code c < 256 |- _ => fail | _ =>
      let H := fresh in pose proof (char_code_range c) as H end end;
  repeat match goal with
    | |- context [?a =? ?b] => destruct (Z.eqb_spec a b)
    | |- context [?a <=? ?b] => destruct (Z.leb_spec a b)
    | |- context [?a <? ?b] => destruct (Z.ltb_spec a b)
    | H : context [?a =? ?b] |- _ => destruct (Z.eqb_spec a b)
    | H : context [?a <=? ?b] |- _ => destruct (Z.leb_spec a b)
    | H : context [?a <? ?b] |- _ => destruct (Z.ltb_spec a b)
    end; simpl in *; first [congruence | lia | done].

Lemma letter_class c : letter c = true →
  blank c = false ∧ newline_char c = false ∧ char_is 35 c = false ∧ char_is 47 c = false ∧ char_is 26 c || char_is 13 c = false ∧
  char_is 34 c = false ∧ isdigit c = false ∧ not_newline c = true ∧ id_char c = true.
Proof. intros H. repeat split; chars. Qed.

Lemma digit_class c : isdigit c = true →
  blank c = false ∧ newline_char c = false ∧ char_is 35 c = false ∧ char_is 47 c = false ∧ char_is 26 c || char_is 13 c = false ∧
  char_is 34 c = false ∧ letter c = false ∧ not_newline c = true.
Proof. intros H. repeat split; chars. Qed.

(** *** Prefixes *)

Lemma span_app P w s : str_forall P w = true → head_is P s = false → span P (w +:+ s) = String.length w.
Proof.
  intros Hw Hs. induction w as [|c w IH].
  - rewrite string_nil_app. destruct s as [|c s]; [done|]. simpl in *. by rewrite Hs.
  - simpl in Hw. apply andb_prop in Hw as [Hc Hw]. rewrite string_cons_app. cbn [span String.length]. by rewrite Hc, IH.
Qed.

Lemma str_take_app w s : str_take (String.length w) (w +:+ s) = w.
Proof. induction w as [|c w IH]; [by destruct s|]. rewrite string_cons_app. cbn [String.length str_take]. by rewrite IH. Qed.

Lemma str_drop_app w s : str_drop (String.length w) (w +:+ s) = s.
Proof. induction w as [|c w IH]; [by destruct s|]. rewrite string_cons_app. exact IH. Qed.

Lemma prefix_head a p c s : a ≠ c → String.prefix (String a p) (String c s) = false.
Proof. intros H. simpl. destruct (ascii_dec a c); [congruence|done]. Qed.

Lemma prefix_app p s : String.prefix p (p +:+ s) = true.
Proof. induction p as [|c p IH]; [by destruct s|]. rewrite string_cons_app. simpl. destruct (ascii_dec c c); [exact IH|congruence]. Qed.

Lemma not_letter_on c s : letter c = false → String.prefix "on" (String c s) = false ∧ String.prefix "off" (String c s) = false.
Proof. intros Hc. split; apply prefix_head; intros <-; discriminate. Qed.

(** *** Which rule runs *)

Lemma longest_le bol s n rs :
  Forall (λ r, (rule_length bol s r ≤ n)%nat) rs → ∀ r m, longest bol s rs = Some (r, m) → (m ≤ n)%nat.
Proof.
  induction 1 as [|r' rs Hr Hrs IH]; intros r m; [done|]. cbn [longest].
  destruct (longest bol s rs) as [[r2 m2]|]; [specialize (IH r2 m2 eq_refl)|]; case_match; intros [= <- <-]; lia.
Qed.

Lemma longest_first bol s rs1 r rs2 :
  (0 < rule_length bol s r)%nat →
  Forall (λ r', (rule_length bol s r' < rule_length bol s r)%nat) rs1 →
  Forall (λ r', (rule_length bol s r' ≤ rule_length bol s r)%nat) rs2 →
  longest bol s (rs1 ++ r :: rs2) = Some (r, rule_length bol s r).
Proof.
  intros Hn H1 H2. induction H1 as [|r1 rs1 Hr1 _ IH]; cbn [app longest].
  - pose proof (longest_le bol s _ rs2 H2) as Hle. destruct (longest bol s rs2) as [[r2 n2]|].
    + specialize (Hle r2 n2 eq_refl). by rewrite (proj2 (Nat.ltb_ge _ _)) by lia.
    + by rewrite (proj2 (Nat.eqb_neq _ _)) by lia.
  - rewrite IH. by rewrite (proj2 (Nat.ltb_lt _ _)).
Qed.

(** The lengths of the rules on a text whose first character has a known class. *)
Ltac known_class :=
  cbn [rule_length span];
  repeat match goal with H : ?b = true |- context [?b] => rewrite H | H : ?b = false |- context [?b] => rewrite H
    | H : span ?P ?s = _ |- context [span ?P ?s] => rewrite H end.
(** Rule [r], number [i] of the list, is the one that runs. *)
Ltac first_rule i r j :=
  change rules with (take i rules ++ r :: drop j rules);
  rewrite longest_first; [by known_class | known_class; lia
    | repeat first [apply List.Forall_nil | apply List.Forall_cons; [known_class; lia|]] ..].

Lemma longest_digit c s : isdigit c = true →
  longest false (String c s) rules = Some (DigitsRule, S (span isdigit s)).
Proof.
  intros Hc. destruct (digit_class c Hc) as (?&?&?&?&?&?&Hl&?). destruct (not_letter_on c s Hl).
  first_rule 9%nat DigitsRule 10%nat.
Qed.

Lemma longest_letter c s : letter c = true →
  (String.prefix "on" (String c s) = true → (1 < span id_char s)%nat) →
  (String.prefix "off" (String c s) = true → (2 < span id_char s)%nat) →
  longest false (String c s) rules = Some (IdRule, S (span id_char s)).
Proof.
  intros Hc Hon Hoff. destruct (letter_class c Hc) as (?&?&?&?&?&?&?&?&?).
  destruct (String.prefix "on" (String c s)) eqn:En; destruct (String.prefix "off" (String c s)) eqn:Ef;
    repeat match goal with H : true = true → _ |- _ => specialize (H eq_refl) end;
    first_rule 7%nat IdRule 8%nat.
Qed.

Lemma span_0 P s : head_is P s = false → span P s = 0%nat.
Proof. destruct s as [|c s]; [done|]. cbn. by intros ->. Qed.

Lemma longest_on s : head_is id_char s = false → longest false ("on" +:+ s) rules = Some (OnRule, 2%nat).
Proof.
  intros Hs%span_0. change ("on" +:+ s) with (String "o" (String "n" s)).
  destruct (letter_class "o" eq_refl) as (?&?&?&?&?&?&?&?&?). assert (letter "o" = true) by done. assert (id_char "n" = true) by done.
  assert (String.prefix "on" (String "o" (String "n" s)) = true) by apply (prefix_app "on" s).
  assert (String.prefix "off" (String "o" (String "n" s)) = false) by done.
  first_rule 5%nat OnRule 6%nat.
Qed.

Lemma longest_off s : head_is id_char s = false → longest false ("off" +:+ s) rules = Some (OffRule, 3%nat).
Proof.
  intros Hs%span_0. change ("off" +:+ s) with (String "o" (String "f" (String "f" s))).
  destruct (letter_class "o" eq_refl) as (?&?&?&?&?&?&?&?&?). assert (letter "o" = true) by done. assert (id_char "f" = true) by done.
  assert (String.prefix "off" (String "o" (String "f" (String "f" s))) = true) by apply (prefix_app "off" s).
  assert (String.prefix "on" (String "o" (String "f" (String "f" s))) = false) by done.
  first_rule 6%nat OffRule 7%nat.
Qed.

(** Neither a letter nor a digit, nor white space. *)
Definition other (c : ascii) : bool := negb (letter c) && negb (isdigit c) && negb (skipped c).

Lemma other_class c : other c = true →
  blank c = false ∧ newline_char c = false ∧ char_is 26 c || char_is 13 c = false ∧
  isdigit c = false ∧ letter c = false ∧ not_newline c = true ∧
  (∀ s, String.prefix "on" (String c s) = false ∧ String.prefix "off" (String c s) = false).
Proof.
  unfold other, skipped, not_newline. intros H.
  destruct (letter c) eqn:Hl, (isdigit c), (blank c), (newline_char c), (char_is 26 c), (char_is 13 c); try done.
  repeat split; by apply not_letter_on.
Qed.

(** A character that is a token of itself. *)
Lemma longest_any c s : other c = true → char_is 35 c = false →
  (char_is 47 c = true → head_is (char_is 47) s = false) →
  (char_is 34 c = true → ∀ q, String.get (span in_string s) s = Some q → char_is 34 q = false) →
  longest false (String c s) rules = Some (AnyRule, 1%nat).
Proof.
  intros Hc H35 H47 H34. destruct (other_class c Hc) as (?&?&?&?&?&?&Hp). destruct (Hp s).
  assert (rule_length false (String c s) CommentRule = 0%nat) as Hcom.
  { cbn [rule_length]. rewrite H35. destruct (char_is 47 c); [|done]. specialize (H47 eq_refl).
    destruct s as [|d s]; [done|]. cbn in H47. by rewrite H47. }
  assert (rule_length false (String c s) StringRule = 0%nat) as Hstr.
  { cbn [rule_length]. destruct (char_is 34 c); [|done]. cbv zeta. specialize (H34 eq_refl).
    destruct (String.get _ s) as [q|]; [|done]. by rewrite (H34 q eq_refl). }
  change rules with (take 10 rules ++ AnyRule :: drop 11 rules). rewrite longest_first; [by known_class | known_class; lia | ..].
  - repeat first [apply List.Forall_nil | apply List.Forall_cons; [rewrite ?Hcom, ?Hstr; known_class; lia|]].
  - apply List.Forall_nil.
Qed.

Lemma skipped_class c : skipped c = true →
  letter c = false ∧ isdigit c = false ∧ char_is 35 c = false ∧ char_is 47 c = false ∧ char_is 34 c = false ∧
  (∀ s, String.prefix "on" (String c s) = false ∧ String.prefix "off" (String c s) = false).
Proof.
  intros H. assert (Hl : letter c = false) by chars. repeat split; try (by apply not_letter_on); clear Hl; chars.
Qed.

(** White space: the three rules without a token. *)
Lemma longest_skipped c s : skipped c = true →
  longest false (String c s) rules =
    if blank c then Some (WsRule, S (span blank s)) else if newline_char c then Some (NewlineRule, 1%nat) else Some (IgnoredRule, 1%nat).
Proof.
  intros H. destruct (skipped_class c H) as (?&?&?&?&?&Hp). destruct (Hp s).
  destruct (blank c) eqn:Hb; [|destruct (newline_char c) eqn:Hn].
  - assert (newline_char c = false) by (clear -H Hb; chars). assert (char_is 26 c || char_is 13 c = false) by (clear -H Hb; chars).
    assert (not_newline c = true) by (clear -H Hb; chars). first_rule 0%nat WsRule 1%nat.
  - assert (char_is 26 c || char_is 13 c = false) by (clear -H Hb Hn; chars). assert (not_newline c = false) by (clear -H Hb Hn; chars).
    first_rule 3%nat NewlineRule 4%nat.
  - assert (char_is 26 c || char_is 13 c = true) by (clear -H Hb Hn; chars). assert (not_newline c = true) by (clear -H Hb Hn; chars).
    first_rule 4%nat IgnoredRule 5%nat.
Qed.

Lemma longest_comment t s : is_comment t → head_is not_newline s = false →
  longest false (t +:+ s) rules = Some (CommentRule, String.length t).
Proof.
  intros (u & Hu & Ht) Hs. pose proof (span_app not_newline u s Hu Hs) as Hn. destruct Ht as [-> | ->]; rewrite !string_cons_app.
  - destruct (not_letter_on "#" (u +:+ s) eq_refl). destruct (other_class "#" eq_refl) as (?&?&?&?&?&?&_).
    assert (char_is 35 "#" = true) by done. assert (char_is 34 "#" = false) by done. first_rule 1%nat CommentRule 2%nat.
  - destruct (not_letter_on "/" (String "/" (u +:+ s)) eq_refl). destruct (other_class "/" eq_refl) as (?&?&?&?&?&?&_).
    assert (char_is 35 "/" = false) by done. assert (char_is 34 "/" = false) by done. assert (char_is 47 "/" = true) by done.
    first_rule 1%nat CommentRule 2%nat.
Qed.

Lemma get_app_length u c s : String.get (String.length u) (u +:+ String c s) = Some c.
Proof. induction u as [|d u IH]; [done|]. rewrite string_cons_app. exact IH. Qed.

Lemma longest_string u s : str_forall in_string u = true →
  longest false (quoted u +:+ s) rules = Some (StringRule, String.length (quoted u)).
Proof.
  intros Hu. unfold quoted. rewrite string_cons_app, string_app_assoc, string_cons_app, string_nil_app.
  pose proof (span_app in_string u (String quote s) Hu eq_refl) as Hn. pose proof (get_app_length u quote s) as Hg.
  destruct (not_letter_on quote (u +:+ String quote s) eq_refl). destruct (other_class quote eq_refl) as (?&?&?&?&?&?&_).
  assert (char_is 34 quote = true) by done. assert (char_is 35 quote = false) by done. assert (char_is 47 quote = false) by done.
  assert (rule_length false (String quote (u +:+ String quote s)) StringRule = S (S (String.length u))) as Hstr.
  { cbn [rule_length]. change (char_is 34 quote) with true. cbv iota zeta. by rewrite Hn, Hg. }
  change rules with (take 8 rules ++ StringRule :: drop 9 rules).
  rewrite longest_first; rewrite ?Hstr; [|lia | repeat first [apply List.Forall_nil | apply List.Forall_cons; [known_class; lia|]] ..].
  f_equal. f_equal. cbn [String.length]. by rewrite length_snoc_string.
Qed.

(** *** What is read *)

Definition yields (st : scanner) (ts : list token) : Prop := ∃ fuel, scan fuel st = Ok ts.

(** The text is read as these tokens, whatever the scanner kept for messages. *)
Definition reads (s : string) (ts : list token) : Prop := ∀ b n l, yields (Scanner s b n l) ts.

Lemma scan_more fuel : ∀ fuel' st ts, scan fuel st = Ok ts → (fuel ≤ fuel')%nat → scan fuel' st = Ok ts.
Proof.
  induction fuel as [|fuel IH]; intros [|fuel'] st ts H Hf; try done; [lia|]. cbn [scan] in *.
  destruct (scan_step st) as [[[t|] st']|]; [|by apply IH; [|lia]|done].
  destruct (is_eof t); [done|]. apply bind_ok_inv in H as (l & Hl & H). by rewrite (IH fuel' st' l Hl) by lia.
Qed.

Lemma yields_none st st' ts : scan_step st = Some (None, st') → yields st' ts → yields st ts.
Proof. intros Hs [f Hf]. exists (S f). cbn [scan]. by rewrite Hs. Qed.

Lemma yields_token st t st' ts : scan_step st = Some (Some t, st') → is_eof t = false → yields st' ts → yields st (t :: ts).
Proof. intros Hs Ht [f Hf]. exists (S f). cbn [scan]. by rewrite Hs, Ht, Hf, bind_ok. Qed.

Lemma yields_eof st t st' : scan_step st = Some (Some t, st') → is_eof t = true → yields st [].
Proof. intros Hs Ht. exists 1%nat. cbn [scan]. by rewrite Hs, Ht. Qed.

Lemma yields_inv st ts : yields st ts →
  match scan_step st with
  | None => ts = []
  | Some (None, st') => yields st' ts
  | Some (Some t, st') => if is_eof t then ts = [] else ∃ ts', ts = t :: ts' ∧ yields st' ts'
  end.
Proof.
  intros [[|f] Hf]; [done|]. cbn [scan] in Hf. destruct (scan_step st) as [[[t|] st']|]; [|by exists f|by injection Hf].
  destruct (is_eof t); [by injection Hf|]. apply bind_ok_inv in Hf as (l & Hl & [= <-]). exists l. split; [done|]. by exists f.
Qed.

Lemma longest_positive bol s rs : ∀ r n, longest bol s rs = Some (r, n) → (0 < n)%nat.
Proof.
  induction rs as [|r1 rs IH]; intros r n; [done|]. cbn [longest]. destruct (longest bol s rs) as [[r2 n2]|].
  - specialize (IH r2 n2 eq_refl). destruct (Nat.ltb_spec (rule_length bol s r1) n2); intros [= <- <-]; lia.
  - destruct (Nat.eqb_spec (rule_length bol s r1) 0); intros [= <- <-]; lia.
Qed.

(** At the beginning of a line the rule for the whole line may run first; it gives every
    character back. *)
Lemma longest_bol s :
  longest true s rules = longest false s rules ∨ longest true s rules = Some (LineRule, span not_newline s).
Proof.
  destruct s as [|c s]; [by left|]. set (t := String c s).
  assert (longest true t (drop 3 rules) = longest false t (drop 3 rules)) as Hrest by done.
  change rules with (WsRule :: CommentRule :: LineRule :: drop 3 rules). cbn [longest]. rewrite Hrest.
  change (rule_length true t WsRule) with (rule_length false t WsRule).
  change (rule_length true t CommentRule) with (rule_length false t CommentRule).
  change (rule_length true t LineRule) with (span not_newline t). change (rule_length false t LineRule) with 0%nat.
  pose proof (longest_positive false t (drop 3 rules)) as Hp.
  generalize (rule_length false t WsRule) as w, (rule_length false t CommentRule) as m, (span not_newline t) as n. intros w m n.
  destruct (longest false t (drop 3 rules)) as [[r' n']|]; [specialize (Hp r' n' eq_refl)|];
    repeat match goal with
      | |- context [(?a <? ?b)%nat] => destruct (Nat.ltb_spec a b)
      | |- context [(?a =? ?b)%nat] => destruct (Nat.eqb_spec a b)
      end; first [lia | by left | by right].
Qed.

Lemma action_bol r n s b l m : r ≠ LineRule → action r n (Scanner s b l m) = action r n (Scanner s false l m).
Proof. by destruct r. Qed.

Lemma longest_no_line s n : longest false s rules ≠ Some (LineRule, n).
Proof.
  intros H. assert (∀ rs, longest false s rs = Some (LineRule, n) → n = rule_length false s LineRule) as Hl.
  { induction rs as [|r rs IH]; [done|]. cbn [longest]. destruct (longest false s rs) as [[r1 n1]|];
      case_match; first [by intros [= -> ->]; apply IH | by intros [= -> <-] | done]. }
  pose proof (Hl rules H) as ->. apply longest_positive in H. by destruct s; cbn in H; lia.
Qed.

(** The rule that runs inside a line decides. *)
Lemma reads_false s ts : (∀ n l, yields (Scanner s false n l) ts) → reads s ts.
Proof.
  intros H [|] n l; [|apply H]. destruct (longest_bol s) as [Hl | Hl].
  - destruct (H n l) as [f Hf]. exists f. rewrite <- Hf. destruct f as [|f]; [done|]. cbn [scan].
    unfold scan_step. cbn [at_bol input]. rewrite Hl. destruct (longest false s rules) as [[r m]|] eqn:E; [|done].
    cbn. rewrite action_bol; [done|]. intros ->. by apply longest_no_line in E.
  - eapply yields_none; [|apply (H n (str_take 511 (until_nul (str_take (span not_newline s) s))))].
    unfold scan_step. cbn [at_bol input]. by rewrite Hl.
Qed.

Lemma scan_step_eq s n l r m : longest false s rules = Some (r, m) →
  scan_step (Scanner s false n l) = Some (action r m (Scanner s false n l)).
Proof. intros H. unfold scan_step. cbn [at_bol input]. by rewrite H. Qed.

Lemma reads_white c s ts : skipped c = true → reads s ts → reads (String c s) ts.
Proof.
  intros Hc H. apply reads_false. intros n l. pose proof (longest_skipped c s Hc) as Hl. destruct (blank c) eqn:Hb.
  - eapply yields_none; [by rewrite (scan_step_eq _ _ _ _ _ Hl)|]. cbn [input str_drop].
    destruct s as [|d s]; [apply (H false)|]. cbn [span]. destruct (blank d) eqn:Hd; [|apply (H false)].
    assert (skipped d = true) as Hd' by by unfold skipped; rewrite Hd.
    pose proof (longest_skipped d s Hd') as Hl2. rewrite Hd in Hl2.
    pose proof (yields_inv _ _ (H false n l)) as Hy. by rewrite (scan_step_eq _ _ _ _ _ Hl2) in Hy.
  - destruct (newline_char c); eapply yields_none;
      [by rewrite (scan_step_eq _ _ _ _ _ Hl)|apply H|by rewrite (scan_step_eq _ _ _ _ _ Hl)|apply H].
Qed.

Lemma reads_comment t s ts : is_comment t → head_is not_newline s = false → reads s ts → reads (t +:+ s) ts.
Proof.
  intros Ht Hs H. apply reads_false. intros n l.
  eapply yields_none; [by rewrite (scan_step_eq _ _ _ _ _ (longest_comment t s Ht Hs))|].
  cbn [input lineno linebuf]. rewrite str_drop_app. apply H.
Qed.

Lemma punctuation_other c : punctuation c = true → other c = true ∧ char_is 35 c = false ∧ 0 < schar c.
Proof.
  unfold punctuation, other. intros [[[[H1 H2]%andb_prop H3]%andb_prop H4]%andb_prop H5]%andb_prop.
  apply Z.ltb_lt in H1. rewrite H2, H3, H4. by destruct (char_is 35 c).
Qed.

(** A word in front of the end of a longer one. *)
Lemma prefix_shorter P p w s : str_forall P p = true → head_is P s = false → w ≠ p →
  String.prefix p (w +:+ s) = true → (String.length p < String.length w)%nat.
Proof.
  revert p. induction w as [|c w IH]; intros [|d p] Hp Hs Hw; try done.
  - rewrite string_nil_app. cbn in Hp. apply andb_prop in Hp as [Hd _]. destruct s as [|e s]; [done|]. cbn [head_is] in Hs.
    rewrite prefix_head; [done|]. congruence.
  - intros _. cbn. lia.
  - rewrite string_cons_app. cbn in Hp. apply andb_prop in Hp as [Hd Hp]. cbn [String.prefix].
    destruct (ascii_dec d c) as [->|]; [|done]. intros H. cbn [String.length]. specialize (IH p Hp Hs). 
    assert (w ≠ p) as Hne by congruence. specialize (IH Hne H). lia.
Qed.

Lemma longest_id w s : token_ok (IDENTIFIER w) → head_is id_char s = false →
  longest false (w +:+ s) rules = Some (IdRule, String.length w).
Proof.
  intros (Hl & Hi & Hon & Hoff) Hs. pose proof (span_app id_char w s Hi Hs) as Hn.
  pose proof (prefix_shorter id_char "on" w s eq_refl Hs Hon) as Hp1.
  pose proof (prefix_shorter id_char "off" w s eq_refl Hs Hoff) as Hp2.
  destruct w as [|c w]; [done|]. rewrite string_cons_app in *. cbn [head_is] in Hl.
  destruct (letter_class c Hl) as (_&_&_&_&_&_&_&_&Hc). cbn [span] in Hn. rewrite Hc in Hn. rewrite <- Hn in *.
  apply longest_letter; [done|..]; intros Hp; [specialize (Hp1 Hp)|specialize (Hp2 Hp)]; cbn in *; lia.
Qed.

Lemma longest_digits w s : token_ok (DIGIT w) → head_is isdigit s = false →
  longest false (w +:+ s) rules = Some (DigitsRule, String.length w).
Proof.
  intros [Hw Hd] Hs. rewrite <- (span_app isdigit w s Hd Hs). destruct w as [|c w]; [done|].
  rewrite string_cons_app. cbn in Hd. apply andb_prop in Hd as [Hc _]. rewrite longest_digit by done. cbn [span]. by rewrite Hc.
Qed.

(** Without a NUL nothing is cut. *)
Lemma strdup_all w : str_forall (λ c, negb (char_is 0 c)) w = true → strdup w = w.
Proof.
  unfold strdup. induction w as [|c w IH]; [done|]. cbn [str_forall until_nul]. intros [Hc Hw]%andb_prop.
  destruct (char_is 0 c); [done|]. by rewrite IH.
Qed.

Lemma str_forall_impl (P Q : ascii → bool) s : (∀ c, P c = true → Q c = true) → str_forall P s = true → str_forall Q s = true.
Proof. intros HPQ. induction s as [|c s IH]; [done|]. cbn. intros [Hc Hs]%andb_prop. by rewrite (HPQ c Hc), IH. Qed.

Lemma id_no_nul w : str_forall id_char w = true → strdup w = w.
Proof. intros Hw. apply strdup_all. eapply str_forall_impl; [|exact Hw]. intros c Hc. chars. Qed.

Lemma digits_no_nul w : str_forall isdigit w = true → strdup w = w.
Proof. intros Hw. apply strdup_all. eapply str_forall_impl; [|exact Hw]. intros c Hc. chars. Qed.

(** The rule of a token, and its action. *)
Lemma token_rule t u s n l : token_ok t → spells t u → apart t s →
  scan_step (Scanner (u +:+ s) false n l) = Some (Some t, Scanner s false n l) ∧ is_eof t = false.
Proof.
  intros Hok Hu Hap. destruct t as [| |w|w|w|c]; cbn [spells token_text] in Hu; try subst u.
  - by rewrite (scan_step_eq _ _ _ _ _ (longest_on s Hap)).
  - by rewrite (scan_step_eq _ _ _ _ _ (longest_off s Hap)).
  - rewrite (scan_step_eq _ _ _ _ _ (longest_id w s Hok Hap)). cbn. rewrite str_take_app, str_drop_app, id_no_nul by apply Hok. done.
  - destruct Hu as (v & -> & Hv & ->). rewrite (scan_step_eq _ _ _ _ _ (longest_string v s Hv)). unfold action. cbn [input lineno linebuf].
    by rewrite str_take_app, str_drop_app.
  - rewrite (scan_step_eq _ _ _ _ _ (longest_digits w s Hok Hap)). cbn. rewrite str_take_app, str_drop_app, digits_no_nul by apply Hok. done.
  - destruct (punctuation_other c Hok) as (Ho & H35 & Hp). destruct Hap as [H47 H34].
    rewrite string_cons_app, string_nil_app, (scan_step_eq _ _ _ _ _ (longest_any c s Ho H35 H47 H34)).
    cbn. split; [by destruct s|]. apply Z.leb_gt. lia.
Qed.

Lemma reads_token t u s ts : token_ok t → spells t u → apart t s → reads s ts → reads (u +:+ s) (t :: ts).
Proof.
  intros Hok Hu Hap H. apply reads_false. intros n l. destruct (token_rule t u s n l Hok Hu Hap) as [Hs He].
  eapply yields_token; [exact Hs|exact He|apply H].
Qed.

Lemma reads_eof c s : schar c ≤ 0 → reads (String c s) [].
Proof.
  intros Hc. apply reads_false. intros n l.
  assert (other c = true ∧ char_is 35 c = false ∧ char_is 47 c = false ∧ char_is 34 c = false) as (Ho & H35 & H47 & H34).
  { assert (letter c = false) as Hl by chars. assert (isdigit c = false) as Hd by (clear Hl; chars).
    assert (skipped c = false) as Hs by (clear Hl Hd; chars). unfold other. rewrite Hl, Hd, Hs.
    split; [done|]. clear Hl Hd Hs. split; [|split]; chars. }
  eapply yields_eof; [apply (scan_step_eq _ _ _ _ _ (longest_any c s Ho H35 ltac:(congruence) ltac:(congruence)))|].
  apply Z.leb_le. exact Hc.
Qed.

Lemma laid_out_reads s ts : laid_out s ts → reads s ts.
Proof.
  induction 1; [|by apply reads_eof|by apply reads_white|by apply reads_comment|by eapply reads_token].
  apply reads_false. intros n l. by exists 1%nat.
Qed.

(** *** Every text is read to its end *)

Lemma str_drop_length n s : String.length (str_drop n s) = (String.length s - n)%nat.
Proof. revert n. induction s as [|c s IH]; intros [|n]; try done. apply IH. Qed.

Lemma action_fuel r m st : (0 < m)%nat → input st ≠ EmptyString → (r = LineRule → at_bol st = true) →
  (scan_fuel (action r m st).2 < scan_fuel st)%nat.
Proof.
  intros Hm Hs Hr. assert (0 < String.length (input st))%nat by (destruct (input st); [done|cbn; lia]).
  destruct r; unfold scan_fuel; cbn [action snd input at_bol]; rewrite ?str_drop_length, ?Hr by done;
    destruct (at_bol st); lia.
Qed.

Lemma scan_enough fuel : ∀ st, (scan_fuel st ≤ fuel)%nat → returns (scan fuel st).
Proof.
  induction fuel as [|fuel IH]; intros st Hf; [unfold scan_fuel in Hf; destruct (at_bol st); lia|].
  cbn [scan]. unfold scan_step. destruct (longest (at_bol st) (input st) rules) as [[r m]|] eqn:E; [|by eexists].
  cbn. assert (returns (scan fuel (action r m st).2)) as Hgo.
  { apply IH. pose proof (action_fuel r m st (longest_positive _ _ _ _ _ E)) as Ha.
    specialize (Ha ltac:(intros H; by rewrite H in E)).
    assert (r = LineRule → at_bol st = true) as Hb.
    { intros ->. destruct (at_bol st); [done|]. by apply longest_no_line in E. }
    specialize (Ha Hb). lia. }
  destruct (action r m st) as [[t|] st']; [|done]. destruct (is_eof t); [by eexists|].
  destruct Hgo as [ts Hts]. cbn in Hts. rewrite Hts. by eexists.
Qed.

Lemma tokens_yields s ts : tokens s = Ok ts ↔ yields (init_scanner s) ts.
Proof.
  split; [intros H; by eexists|]. intros [f Hf]. destruct (scan_enough _ (init_scanner s) (Nat.le_refl _)) as [ts' Hts].
  unfold tokens. pose proof (scan_more _ (f + scan_fuel (init_scanner s)) _ _ Hts ltac:(lia)) as H1.
  pose proof (scan_more _ (f + scan_fuel (init_scanner s)) _ _ Hf ltac:(lia)) as H2. rewrite Hts. congruence.
Qed.

Lemma laid_out_tokens s ts : laid_out s ts → tokens s = Ok ts.
Proof. intros H. apply tokens_yields. apply (laid_out_reads s ts H). Qed.

Lemma tokens_returns s : returns (tokens s).
Proof. by apply scan_enough. Qed.

(** *** Every text is laid out in one way *)

Lemma span_split P s : ∃ u v, s = u +:+ v ∧ str_forall P u = true ∧ head_is P v = false.
Proof.
  induction s as [|c s IH]; [by exists EmptyString, EmptyString|]. destruct (P c) eqn:Hc.
  - destruct IH as (u & v & -> & Hu & Hv). exists (String c u), v. cbn. by rewrite Hc.
  - by exists EmptyString, (String c s).
Qed.

Lemma string_head P c s : P c = true → ∃ u v, String c s = String c u +:+ v ∧ str_forall P (String c u) = true ∧ head_is P v = false.
Proof.
  intros Hc. destruct (span_split P s) as (u & v & -> & Hu & Hv). exists u, v. cbn [str_forall]. by rewrite Hc.
Qed.

Lemma char_is_eq a c : char_is (char_code a) c = true → c = a.
Proof.
  intros H%Z.eqb_eq. apply N2Z.inj in H. rewrite <- (ascii_N_embedding c), <- (ascii_N_embedding a). by rewrite H.
Qed.

Lemma laid_out_comment c s : is_comment (String c EmptyString) ∨ (c = "/"%char ∧ head_is (char_is 47) s = true) →
  (∀ v, (String.length v ≤ String.length s)%nat → ∃ ts, laid_out v ts) → ∃ ts, laid_out (String c s) ts.
Proof.
  intros Hc IH. assert (∃ t v, String c s = t +:+ v ∧ is_comment t ∧ head_is not_newline v = false ∧
    (String.length v ≤ String.length s)%nat) as (t & v & -> & Ht & Hv & Hl).
  { destruct Hc as [(w & _ & Hw) | [-> Hs]].
    - destruct (span_split not_newline s) as (u & v & -> & Hu & Hv). exists (String c u), v. rewrite length_string_app.
      split; [done|]. split; [|split; [done|lia]]. exists u. split; [done|]. left. destruct Hw as [Hw | Hw]; injection Hw as -> ?; done.
    - destruct s as [|d s]; [done|]. cbn [head_is] in Hs. apply (char_is_eq "/") in Hs as ->.
      destruct (span_split not_newline s) as (u & v & -> & Hu & Hv). exists (String "/" (String "/" u)), v.
      cbn [String.length]. rewrite length_string_app. split; [done|]. split; [|split; [done|lia]]. exists u. by split; [|right]. }
  destruct (IH v Hl) as [ts Hts]. exists ts. by apply laid_comment.
Qed.

(** A text with a token in front. *)
Lemma spelled_not_empty t u : token_ok t → spells t u → u ≠ EmptyString.
Proof. destruct t; cbn; try (by intros ? ->); [by intros [Hok _] ->; destruct text|by intros _ (v & -> & _)|by intros [Hok _] ->]. Qed.

Lemma laid_out_token t u v s : s = u +:+ v → token_ok t → spells t u → apart t v →
  (∀ v, (String.length v < String.length s)%nat → ∃ ts, laid_out v ts) → ∃ ts, laid_out s ts.
Proof.
  intros -> Hok Hu Hap IH. destruct (IH v) as [ts Hts]; [|exists (t :: ts); by apply laid_token].
  rewrite length_string_app. pose proof (spelled_not_empty t u Hok Hu). destruct u; [done|]. cbn. lia.
Qed.

Lemma string_closed s q : String.get (span in_string s) s = Some q → char_is 34 q = true →
  ∃ u v, s = u +:+ String quote v ∧ str_forall in_string u = true.
Proof.
  intros Hq ->%(char_is_eq quote).
  induction s as [|c s IH]; [done|]. cbn [span] in Hq. destruct (in_string c) eqn:Hc.
  - destruct (IH Hq) as (u & v & -> & Hu). exists (String c u), v. cbn. by rewrite Hc.
  - cbn in Hq. injection Hq as ->. by exists EmptyString, s.
Qed.

Lemma laid_out_word c s : letter c = true →
  (∀ v, (String.length v < String.length (String c s))%nat → ∃ ts, laid_out v ts) → ∃ ts, laid_out (String c s) ts.
Proof.
  intros Hc IH. assert (id_char c = true) as Hi by by unfold id_char; rewrite Hc.
  destruct (string_head id_char c s Hi) as (u & v & Hs & Hu & Hv). rewrite Hs in *.
  destruct (decide (String c u = "on"%string)) as [Hon|Hon]; [rewrite Hon in *; by apply (laid_out_token RW_FLAG_ON "on" v)|].
  destruct (decide (String c u = "off"%string)) as [Hoff|Hoff]; [rewrite Hoff in *; by apply (laid_out_token RW_FLAG_OFF "off" v)|].
  by apply (laid_out_token (IDENTIFIER (String c u)) (String c u) v).
Qed.

Lemma laid_out_total s : ∃ ts, laid_out s ts.
Proof.
  remember (String.length s) as n eqn:Hn. revert s Hn. induction (lt_wf n) as [n _ IH]. intros s ->.
  assert (∀ v, (String.length v < String.length s)%nat → ∃ ts, laid_out v ts) as Hgo by (intros v Hv; by apply (IH _ Hv)).
  clear IH. destruct s as [|c s]; [exists []; constructor|].
  destruct (Z.le_gt_cases (schar c) 0) as [Hc|Hpos]; [exists []; by constructor|].
  destruct (skipped c) eqn:Hsk.
  { destruct (Hgo s) as [ts Hts]; [cbn; lia|]. exists ts. by constructor. }
  destruct (letter c) eqn:Hl; [by apply laid_out_word|].
  destruct (isdigit c) eqn:Hd.
  { destruct (string_head isdigit c s Hd) as (u & v & Hs & Hu & Hv). by apply (laid_out_token (DIGIT (String c u)) (String c u) v). }
  assert (∀ v, (String.length v ≤ String.length s)%nat → ∃ ts, laid_out v ts) as Hle by (intros v Hv; apply Hgo; cbn; lia).
  destruct (char_is 35 c) eqn:H35.
  { apply (char_is_eq "#") in H35 as ->. apply laid_out_comment; [left|done]. exists EmptyString. by split; [|left]. }
  destruct (char_is 47 c && head_is (char_is 47) s) eqn:H47.
  { apply andb_prop in H47 as [Hc%(char_is_eq "/") Hs]. subst c. apply laid_out_comment; [by right|done]. }
  destruct (char_is 34 c && match String.get (span in_string s) s with Some q => char_is 34 q | None => false end) eqn:H34.
  { apply andb_prop in H34 as [Hc%(char_is_eq quote) Hs]. subst c. destruct (String.get _ s) as [q|] eqn:Hq; [|done].
    destruct (string_closed s q Hq Hs) as (u & v & -> & Hu). apply (laid_out_token (QSTRING (strdup (quoted u))) (quoted u) v); [|done|by exists u|done|done].
    unfold quoted. rewrite string_cons_app, string_app_assoc. done. }
  apply (laid_out_token (CharToken c) (String c EmptyString) s); [done|..|done].
  - cbn. unfold punctuation. rewrite Hsk, Hl, Hd, H35. by rewrite (proj2 (Z.ltb_lt _ _)).
  - done.
  - split; intros Hc; rewrite Hc in *; [done|]. intros q Hq. by rewrite Hq in H34.
Qed.

Lemma tokens_laid_out s ts : tokens s = Ok ts ↔ laid_out s ts.
Proof.
  split; [|apply laid_out_tokens]. intros H. destruct (laid_out_total s) as [ts' Hts]. 
  pose proof (laid_out_tokens s ts' Hts). by assert (ts = ts') as -> by congruence.
Qed.

(** ** The grammar *)

Definition assign := CharToken "=".
Definition semicolon := CharToken ";".
Definition comma := CharToken ",".
Definition left_bracket := CharToken "[".
Definition right_bracket := CharToken "]".

(** The productions of parser.y. *)
Inductive comma_list_number : list token → list string → Prop :=
  | number_last d : comma_list_number [DIGIT d] [d]
  | number_more d ts l : comma_list_number ts l → comma_list_number (DIGIT d :: comma :: ts) (d :: l).

Inductive comma_list_string : list token → list string → Prop :=
  | string_last q : comma_list_string [QSTRING q] [q]
  | string_more q ts l : comma_list_string ts l → comma_list_string (QSTRING q :: comma :: ts) (q :: l).

Inductive variable_definition : list token → definition → Prop :=
  | define_integer i v : variable_definition [IDENTIFIER i; assign; DIGIT v; semicolon] (DefInteger i v)
  | define_string i v : variable_definition [IDENTIFIER i; assign; QSTRING v; semicolon] (DefString i v)
  | define_on i : variable_definition [IDENTIFIER i; assign; RW_FLAG_ON; semicolon] (DefOn i)
  | define_off i : variable_definition [IDENTIFIER i; assign; RW_FLAG_OFF; semicolon] (DefOff i)
  | define_numbers i ts x l : comma_list_number ts (x :: l) →
      variable_definition ([IDENTIFIER i; assign; left_bracket] ++ ts ++ [right_bracket; semicolon]) (DefNumbers i x l)
  | define_strings i ts x l : comma_list_string ts (x :: l) →
      variable_definition ([IDENTIFIER i; assign; left_bracket] ++ ts ++ [right_bracket; semicolon]) (DefStrings i x l).

Inductive system_definitions : list token → list definition → Prop :=
  | definition_last ts d : variable_definition ts d → system_definitions ts [d]
  | definition_more ts d ts' ds : variable_definition ts d → system_definitions ts' ds → system_definitions (ts ++ ts') (d :: ds).

Definition full_definition := system_definitions.

(** ** The parser *)

(** The symbols on the parser's stack while it reads a definition: the lists are recursive to
    the right, and so is the list of definitions, so everything read so far stays there. *)
Definition symbols (d : definition) : nat :=
  match d with
  | DefInteger _ _ | DefString _ _ | DefOn _ | DefOff _ => 4
  | DefNumbers _ _ l | DefStrings _ _ l => 6 `max` (2 * S (length l) + 2)
  end.

Fixpoint stack_needed (ds : list definition) : nat :=
  match ds with [] => 0 | d :: ds' => symbols d `max` S (stack_needed ds') end.

(** What yacc makes of parser.y. [yyparse]: the definitions whose actions have run when it returns, and
    whether it answers 0; [limit]: how many symbols its stack has room for. *)
Class Yacc := {
  yyparse : nat → list token → list definition * bool;
  (** It accepts what the grammar derives, if its stack has room for it; the actions run in the order
      of the text. *)
  yacc_accepts limit ts ds : full_definition ts ds → (stack_needed ds ≤ limit)%nat → yyparse limit ts = (ds, true);
  (** It accepts nothing else. *)
  yacc_rejects limit ts : (∀ ds, full_definition ts ds → (limit < stack_needed ds)%nat) → (yyparse limit ts).2 = false;
  (** Until it finds an error, the actions are those of what it has read. *)
  yacc_begins limit ts : (yyparse limit ts).1 = [] ∨ ∃ ts1 ts2, ts = ts1 ++ ts2 ∧ full_definition ts1 (yyparse limit ts).1;
}.

(** ** Reading the configuration

    [new_system_config], the first time it is called: [text] is the content of the file, if it
    can be opened. [NULL] is answered on any error. The next calls answer the configuration
    without reading again, also when the first one failed. Of a definition with an error in it,
    actions of list elements may have run too: they change what only the end of a
    definition reads, and after an error none comes. *)
Definition read_config `{Y : Yacc} (limit : nat) (text : string) : outcome (option sysconf) :=
  ts ← tokens text;
  let '(ds, accepted) := yyparse limit ts in
  c ← perform_all ds empty_conf;
  Ok (if (accepted : bool) then Some c else None).

Definition new_system_config `{Y : Yacc} (limit : nat) (text : option string) : outcome (option sysconf) :=
  match text with Some t => read_config limit t | None => Ok None end.

Definition lf : string := String "010" EmptyString.

(** Lines of the sample configuration. *)
Definition sample_text : string :=
  lf +:+ "enable-database = off;" +:+ lf +:+ lf +:+ "mysql-server	= " +:+ quoted "localhost" +:+ ";" +:+ lf +:+ "port = 80;" +:+ lf +:+
  "# log-file = " +:+ quoted "<<syslog>>" +:+ ";" +:+ lf +:+ "// auto expiring" +:+ lf +:+ "hash-size = 513;" +:+ lf +:+
  "servers = [" +:+ lf +:+ "    " +:+ quoted "127.0.0.1:80" +:+ "," +:+ lf +:+ "    " +:+ quoted "127.0.0.1:8080" +:+ lf +:+ "];" +:+ lf.

(** ** A parser of the language

    By looking at the next token only; it shows that the laws of [Yacc] can hold. *)

Definition char_token (c : ascii) (ts : list token) : option (list token) :=
  match ts with CharToken d :: ts' => if decide (d = c) then Some ts' else None | _ => None end.

(** The elements of a list: after an element the next token decides. *)
Fixpoint parse_elements (element : token → option string) (ts : list token) : option (list string * list token) :=
  match ts with
  | t :: ts1 =>
      x ← element t;
      match ts1 with
      | CharToken c :: ts2 =>
          if decide (c = ","%char) then '(l, rest) ← parse_elements element ts2; Some (x :: l, rest) else Some ([x], ts1)
      | _ => Some ([x], ts1)
      end
  | [] => None
  end.

Definition digit_of (t : token) : option string := match t with DIGIT d => Some d | _ => None end.
Definition qstring_of (t : token) : option string := match t with QSTRING q => Some q | _ => None end.

Definition parse_list (ts : list token) : option ((string → definition) * list token) :=
  match ts with
  | DIGIT _ :: _ =>
      '(l, rest) ← parse_elements digit_of ts;
      match l with x :: l' => Some (λ i, DefNumbers i x l', rest) | [] => None end
  | QSTRING _ :: _ =>
      '(l, rest) ← parse_elements qstring_of ts;
      match l with x :: l' => Some (λ i, DefStrings i x l', rest) | [] => None end
  | _ => None
  end.

(** What may follow the equals sign. *)
Definition parse_value (ts : list token) : option ((string → definition) * list token) :=
  match ts with
  | DIGIT v :: ts' => Some (λ i, DefInteger i v, ts')
  | QSTRING v :: ts' => Some (λ i, DefString i v, ts')
  | RW_FLAG_ON :: ts' => Some (DefOn, ts')
  | RW_FLAG_OFF :: ts' => Some (DefOff, ts')
  | _ => ts1 ← char_token "[" ts; '(f, ts2) ← parse_list ts1; ts3 ← char_token "]" ts2; Some (f, ts3)
  end.

Definition parse_definition (ts : list token) : option (definition * list token) :=
  match ts with
  | IDENTIFIER i :: ts1 =>
      ts2 ← char_token "=" ts1; '(f, ts3) ← parse_value ts2; ts4 ← char_token ";" ts3; Some (f i, ts4)
  | _ => None
  end.

Fixpoint parse_definitions (fuel : nat) (ts : list token) : option (list definition) :=
  match fuel with
  | O => None
  | S fuel' =>
      '(d, rest) ← parse_definition ts;
      match rest with [] => Some [d] | _ => ds ← parse_definitions fuel' rest; Some (d :: ds) end
  end.

(** [None] is a syntax error. *)
Definition parse (ts : list token) : option (list definition) := parse_definitions (length ts) ts.

Example sample_tokens : (tokens sample_text ≫= λ ts, Ok (parse ts)) =
  Ok (Some [DefOff "enable-database"; DefString "mysql-server" (quoted "localhost"); DefInteger "port" "80";
            DefInteger "hash-size" "513"; DefStrings "servers" (quoted "127.0.0.1:80") [quoted "127.0.0.1:8080"]]).
Proof. vm_compute. reflexivity. Qed.

(** ** The parser accepts the language of the grammar *)

Fixpoint element_tokens (mk : string → token) (x : string) (l : list string) : list token :=
  match l with [] => [mk x] | y :: l' => mk x :: comma :: element_tokens mk y l' end.

Definition def_tokens (d : definition) : list token :=
  match d with
  | DefInteger i v => [IDENTIFIER i; assign; DIGIT v; semicolon]
  | DefString i v => [IDENTIFIER i; assign; QSTRING v; semicolon]
  | DefOn i => [IDENTIFIER i; assign; RW_FLAG_ON; semicolon]
  | DefOff i => [IDENTIFIER i; assign; RW_FLAG_OFF; semicolon]
  | DefNumbers i x l => [IDENTIFIER i; assign; left_bracket] ++ element_tokens DIGIT x l ++ [right_bracket; semicolon]
  | DefStrings i x l => [IDENTIFIER i; assign; left_bracket] ++ element_tokens QSTRING x l ++ [right_bracket; semicolon]
  end.

Definition conf_tokens (ds : list definition) : list token := flat_map def_tokens ds.

Lemma number_tokens ts l : comma_list_number ts l ↔ ∃ x l', l = x :: l' ∧ ts = element_tokens DIGIT x l'.
Proof.
  split.
  - induction 1 as [d|d ts l H (x & l' & -> & ->)]; eauto.
  - intros (x & l' & -> & ->). revert x. induction l' as [|y l' IH]; intros x; constructor. apply IH.
Qed.

Lemma string_tokens ts l : comma_list_string ts l ↔ ∃ x l', l = x :: l' ∧ ts = element_tokens QSTRING x l'.
Proof.
  split.
  - induction 1 as [d|d ts l H (x & l' & -> & ->)]; eauto.
  - intros (x & l' & -> & ->). revert x. induction l' as [|y l' IH]; intros x; constructor. apply IH.
Qed.

Lemma variable_definition_tokens ts d : variable_definition ts d ↔ ts = def_tokens d.
Proof.
  split.
  - destruct 1 as [| | | |i ts x l H|i ts x l H]; try done.
    + apply number_tokens in H as (y & l' & [= <- <-] & ->). done.
    + apply string_tokens in H as (y & l' & [= <- <-] & ->). done.
  - intros ->. destruct d as [| | | |i x l|i x l]; try by constructor.
    + apply define_numbers, number_tokens. eauto.
    + apply define_strings, string_tokens. eauto.
Qed.

(** The grammar is not ambiguous: a list of tokens is that of its definitions. *)
Lemma full_definition_tokens ts ds : full_definition ts ds ↔ ds ≠ [] ∧ ts = conf_tokens ds.
Proof.
  split.
  - induction 1 as [ts d H|ts d ts' ds H _ [_ ->]]; apply variable_definition_tokens in H as ->; split; try done.
    cbn. by rewrite app_nil_r.
  - intros [Hd ->]. destruct ds as [|d ds]; [done|]. clear Hd. revert d. induction ds as [|d' ds IH]; intros d.
    + cbn. rewrite app_nil_r. constructor. by apply variable_definition_tokens.
    + change (conf_tokens (d :: d' :: ds)) with (def_tokens d ++ conf_tokens (d' :: ds)). constructor; [by apply variable_definition_tokens|apply IH].
Qed.

Section elements.
Context (element : token → option string) (mk : string → token).
Hypothesis element_mk : ∀ t x, element t = Some x ↔ t = mk x.

Lemma parse_elements_ok x l rest : char_token "," rest = None →
  parse_elements element (element_tokens mk x l ++ rest) = Some (x :: l, rest).
Proof.
  intros Hr. revert x. induction l as [|y l IH]; intros x; cbn [element_tokens app parse_elements].
  - rewrite (proj2 (element_mk (mk x) x) eq_refl). cbn. destruct rest as [|t rest]; [done|]. destruct t; try done.
    cbn in Hr. by destruct (decide (c = ","%char)).
  - rewrite (proj2 (element_mk (mk x) x) eq_refl). cbn [mbind option_bind]. unfold comma at 1. cbn iota.
    rewrite decide_True by done. by rewrite IH.
Qed.

Lemma parse_elements_inv : ∀ ts l rest, parse_elements element ts = Some (l, rest) →
  ∃ x l', l = x :: l' ∧ ts = element_tokens mk x l' ++ rest.
Proof.
  fix IH 1. intros [|t ts1] l rest H; [done|]. cbn [parse_elements] in H.
  destruct (element t) as [x|] eqn:Hx; [|done]. apply element_mk in Hx as ->. cbn [mbind option_bind] in H.
  destruct ts1 as [|[| | | | |c] ts2]; try (injection H as <- <-; by exists x, []).
  destruct (decide (c = ","%char)) as [->|]; [|injection H as <- <-; by exists x, []].
  destruct (parse_elements element ts2) as [[l2 r2]|] eqn:E; [|done]. cbn in H. injection H as <- <-.
  destruct (IH ts2 l2 r2 E) as (y & l' & -> & ->). by exists x, (y :: l').
Qed.
End elements.

Lemma digit_of_mk t x : digit_of t = Some x ↔ t = DIGIT x.
Proof. destruct t; naive_solver. Qed.
Lemma qstring_of_mk t x : qstring_of t = Some x ↔ t = QSTRING x.
Proof. destruct t; naive_solver. Qed.

Lemma char_token_inv c ts rest : char_token c ts = Some rest ↔ ts = CharToken c :: rest.
Proof.
  split; [|intros ->; cbn; by rewrite decide_True].
  destruct ts as [|[| | | | |d] ts]; cbn; try done. case_decide as H; [|done]. by intros [= ->]; subst.
Qed.

Lemma parse_numbers x l rest : parse_list (element_tokens DIGIT x l ++ right_bracket :: rest) = Some (λ i, DefNumbers i x l, right_bracket :: rest).
Proof.
  pose proof (parse_elements_ok digit_of DIGIT digit_of_mk x l (right_bracket :: rest) eq_refl) as H.
  destruct l as [|y l]; cbn [element_tokens app] in *; unfold parse_list; by rewrite H.
Qed.

Lemma parse_strings x l rest : parse_list (element_tokens QSTRING x l ++ right_bracket :: rest) = Some (λ i, DefStrings i x l, right_bracket :: rest).
Proof.
  pose proof (parse_elements_ok qstring_of QSTRING qstring_of_mk x l (right_bracket :: rest) eq_refl) as H.
  destruct l as [|y l]; cbn [element_tokens app] in *; unfold parse_list; by rewrite H.
Qed.

Lemma parse_value_list f ts rest : parse_list ts = Some (f, right_bracket :: rest) →
  parse_value (left_bracket :: ts) = Some (f, rest).
Proof. intros H. unfold parse_value, left_bracket. rewrite (proj2 (char_token_inv "[" _ ts)) by done. cbn [mbind option_bind]. by rewrite H. Qed.

Lemma parse_definition_value i ts f rest : parse_value ts = Some (f, semicolon :: rest) →
  parse_definition (IDENTIFIER i :: assign :: ts) = Some (f i, rest).
Proof. intros H. unfold parse_definition, assign. rewrite (proj2 (char_token_inv "=" _ ts)) by done. cbn [mbind option_bind]. by rewrite H. Qed.

(** A definition is parsed off the front of any tokens. *)
Lemma parse_definition_ok d rest : parse_definition (def_tokens d ++ rest) = Some (d, rest).
Proof.
  destruct d as [| | | |i x l|i x l]; cbn [def_tokens app]; try done; rewrite <- app_assoc; cbn [app].
  - by apply (parse_definition_value i _ (λ i, DefNumbers i x l)), parse_value_list, parse_numbers.
  - by apply (parse_definition_value i _ (λ i, DefStrings i x l)), parse_value_list, parse_strings.
Qed.

Lemma parse_list_inv ts f rest : parse_list ts = Some (f, rest) →
  ∃ x l, (f = (λ i, DefNumbers i x l) ∧ ts = element_tokens DIGIT x l ++ rest) ∨
         (f = (λ i, DefStrings i x l) ∧ ts = element_tokens QSTRING x l ++ rest).
Proof.
  unfold parse_list. intros H. destruct ts as [|[] ts']; try done.
  - destruct (parse_elements qstring_of _) as [[l r]|] eqn:E; [|done].
    apply (parse_elements_inv qstring_of QSTRING qstring_of_mk) in E as (x & l' & -> & E). injection H as <- <-. eauto.
  - destruct (parse_elements digit_of _) as [[l r]|] eqn:E; [|done].
    apply (parse_elements_inv digit_of DIGIT digit_of_mk) in E as (x & l' & -> & E). injection H as <- <-. eauto.
Qed.

Lemma parse_definition_inv ts d rest : parse_definition ts = Some (d, rest) → ts = def_tokens d ++ rest.
Proof.
  unfold parse_definition. destruct ts as [|[| |i| | |] ts1]; try done. intros H.
  destruct (char_token "=" ts1) as [ts2|] eqn:E1; [|done]. apply char_token_inv in E1 as ->. cbn [mbind option_bind] in H.
  destruct (parse_value ts2) as [[f ts3]|] eqn:E2; [|done]. cbn [mbind option_bind] in H.
  destruct (char_token ";" ts3) as [ts4|] eqn:E3; [|done]. apply char_token_inv in E3 as ->. injection H as <- <-.
  unfold parse_value in E2. destruct ts2 as [|[| | | | |c] ts2]; try done; try by injection E2 as <- ->.
  destruct (char_token "[" _) as [ts5|] eqn:E4; [|done]. apply char_token_inv in E4 as [= -> ->]. cbn [mbind option_bind] in E2.
  destruct (parse_list ts5) as [[g ts6]|] eqn:E5; [|done]. cbn [mbind option_bind] in E2.
  destruct (char_token "]" ts6) as [ts7|] eqn:E6; [|done]. apply char_token_inv in E6 as ->. injection E2 as <- ->.
  apply parse_list_inv in E5 as (x & l & [[-> ->] | [-> ->]]); cbn [def_tokens app]; rewrite <- app_assoc; done.
Qed.

Lemma def_tokens_length d : (1 ≤ length (def_tokens d))%nat.
Proof. destruct d; cbn; lia. Qed.

Lemma parse_definitions_ok fuel : ∀ ds, ds ≠ [] → (length (conf_tokens ds) ≤ fuel)%nat →
  parse_definitions fuel (conf_tokens ds) = Some ds.
Proof.
  induction fuel as [|fuel IH]; intros [|d ds] Hd Hf; try done.
  - cbn in Hf. rewrite length_app in Hf. pose proof (def_tokens_length d). lia.
  - cbn [parse_definitions conf_tokens flat_map]. fold (conf_tokens ds). rewrite parse_definition_ok. cbn [mbind option_bind].
    destruct ds as [|d' ds]; [done|]. cbn [conf_tokens flat_map] in Hf. fold (conf_tokens (d' :: ds)) in Hf.
    rewrite length_app in Hf. pose proof (def_tokens_length d). rewrite IH by (done || (cbn in *; lia)).
    destruct (conf_tokens (d' :: ds)) eqn:E; [|done]. pose proof (def_tokens_length d').
    cbn in E. apply (f_equal length) in E. rewrite length_app in E. cbn in E. lia.
Qed.

Lemma parse_definitions_inv fuel : ∀ ts ds, parse_definitions fuel ts = Some ds → ds ≠ [] ∧ ts = conf_tokens ds.
Proof.
  induction fuel as [|fuel IH]; intros ts ds H; [done|]. cbn [parse_definitions] in H.
  destruct (parse_definition ts) as [[d rest]|] eqn:E; [|done]. apply parse_definition_inv in E as ->. cbn [mbind option_bind] in H.
  destruct rest as [|t rest]; [by injection H as <-|].
  destruct (parse_definitions fuel (t :: rest)) as [ds'|] eqn:E; [|done]. injection H as <-. by destruct (IH _ _ E) as [_ ->].
Qed.

Lemma parse_tokens ts ds : parse ts = Some ds ↔ ds ≠ [] ∧ ts = conf_tokens ds.
Proof. split; [apply parse_definitions_inv|]. intros [Hd ->]. by apply parse_definitions_ok. Qed.

(** C40: what a text of a configuration is. The scanner ends on every text and yields exactly the
    tokens the text is laid out with, between white space and comments, longest token first, up
    to the end of the text or a byte that stands for it; a string is cut at its first NUL. The
    grammar of parser.y is not ambiguous: it derives at most one list of definitions for a list of
    tokens, and every list of definitions but the empty one has tokens of which it is derived. *)
Theorem configuration_language (text : string) (ts : list token) (ds : list definition) :
  (tokens text = Ok ts ↔ laid_out text ts) ∧ (∃ ts', tokens text = Ok ts') ∧
  (∀ ds', full_definition ts ds → full_definition ts ds' → ds = ds') ∧
  (ds ≠ [] → ∃ ts', full_definition ts' ds).
Proof.
  split; [apply tokens_laid_out|]. split; [apply tokens_returns|].
  assert (∀ ds, parse ts = Some ds ↔ full_definition ts ds) as Hp by (intros; by rewrite parse_tokens, full_definition_tokens).
  split; [intros ds' H1%Hp H2%Hp; congruence|]. intros Hd. exists (conf_tokens ds). by apply full_definition_tokens.
Qed.

(** The parser above. *)
Definition sample_yacc : Yacc.
Proof.
  refine {| yyparse limit ts :=
    match parse ts with Some ds => if decide (stack_needed ds ≤ limit)%nat then (ds, true) else ([], false) | None => ([], false) end |}.
  - intros limit ts ds Hd Hs. apply full_definition_tokens, parse_tokens in Hd. by rewrite Hd, decide_True.
  - intros limit ts H. destruct (parse ts) as [ds|] eqn:Hp; [|done]. rewrite decide_False; [done|].
    apply parse_tokens, full_definition_tokens, H in Hp. lia.
  - intros limit ts. destruct (parse ts) as [ds|] eqn:Hp; [|by left]. destruct (decide _); [|by left]. right.
    exists ts, []. rewrite app_nil_r. split; [done|]. by apply full_definition_tokens, parse_tokens.
Defined.

(** ** What a configuration file does *)

Definition scanned (t : token) : Prop := token_ok t ∧ ∃ u, spells t u.

Lemma laid_out_ok s ts : laid_out s ts → Forall scanned ts.
Proof. induction 1; auto. constructor; [|done]. split; [done|]. by exists u. Qed.

Lemma strdup_closed u : str_forall in_string u = true →
  strdup (u +:+ String quote EmptyString) = u +:+ String quote EmptyString ∨
  str_forall in_string (strdup (u +:+ String quote EmptyString)) = true.
Proof.
  unfold strdup. induction u as [|c u IH]; [by left|]. cbn [str_forall]. intros [Hc Hu]%andb_prop. rewrite string_cons_app. cbn [until_nul].
  destruct (char_is 0 c); [by right|]. destruct (IH Hu) as [-> |Hs]; [by left|right]. cbn [str_forall]. by rewrite Hc.
Qed.

Lemma last_char_forall P s c : str_forall P s = true → last_char s = Some c → P c = true.
Proof.
  induction s as [|d s IH]; [done|]. cbn [str_forall]. intros [Hd Hs]%andb_prop. destruct s as [|e s]; [by intros [= <-]|]. by apply IH.
Qed.

(** What is left of a string. *)
Lemma qstring_scanned v : scanned (QSTRING v) → is_quoted v ∨ v = lone_quote.
Proof.
  intros [_ (? & u & -> & Hu & ->)]. unfold quoted. destruct (strdup_closed u Hu) as [H|H].
  - left. change (strdup (String quote (u +:+ String quote ""))) with (String quote (strdup (u +:+ String quote ""))). rewrite H. apply in_quotes.
  - change (strdup (String quote (u +:+ String quote ""))) with (String quote (strdup (u +:+ String quote ""))).
    destruct (strdup (u +:+ String quote "")) as [|c w] eqn:E; [by right|]. left. apply cut_off; [done|]. intros Hl.
    by apply (last_char_forall _ _ _ H) in Hl.
Qed.

Lemma element_tokens_ok mk x l : Forall scanned (element_tokens mk x l) → Forall (λ y, scanned (mk y)) (x :: l).
Proof.
  revert x. induction l as [|y l IH]; intros x H; cbn [element_tokens] in H; apply list.Forall_cons in H as [Hx H]; constructor; [done..| |].
  - done.
  - apply list.Forall_cons in H as [_ H]. by apply IH.
Qed.

Lemma def_tokens_scanned d : Forall scanned (def_tokens d) → as_scanned d.
Proof.
  intros H. destruct d as [i v|i v| | | |i x l]; try done; cbn [def_tokens] in H.
  - apply list.Forall_cons in H as [_ H]. apply list.Forall_cons in H as [_ H]. apply list.Forall_cons in H as [[[_ Hv] _] _]. exact Hv.
  - apply list.Forall_cons in H as [_ H]. apply list.Forall_cons in H as [_ H]. apply list.Forall_cons in H as [H _]. by apply qstring_scanned.
  - apply list.Forall_app in H as [_ H]. apply list.Forall_app in H as [H _]. apply element_tokens_ok in H.
    eapply List.Forall_impl; [|exact H]. intros y. apply qstring_scanned.
Qed.

Lemma conf_tokens_scanned ds : Forall scanned (conf_tokens ds) → Forall as_scanned ds.
Proof.
  induction ds as [|d ds IH]; [done|]. cbn. intros [H1 H2]%list.Forall_app. constructor; [by apply def_tokens_scanned|by apply IH].
Qed.

(** A lone quote that is unquoted is a token. *)
Lemma lone_token ds : existsb unquotes_lone ds = true → QSTRING lone_quote ∈ conf_tokens ds.
Proof.
  induction ds as [|d ds IH]; [done|]. cbn. intros [Hd|Hd]%orb_prop; apply elem_of_app; [left|right; by apply IH].
  destruct d as [|i v| | | |i x l]; try done; cbn [unquotes_lone def_tokens] in *; apply bool_decide_eq_true in Hd.
  - subst v. rewrite !elem_of_cons. auto.
  - apply elem_of_app. right. apply elem_of_app. left. apply kept_incl in Hd. clear i. revert x Hd.
    induction l as [|y l IHl]; intros x Hd; cbn [element_tokens]; rewrite elem_of_cons in Hd.
    + destruct Hd as [<-|Hd]; [left|by apply elem_of_nil in Hd].
    + destruct Hd as [<-|Hd]; [left|]. do 2 right. by apply IHl.
Qed.

(** C39: from the text of a file to the values. A file whose tokens are those of some definitions is
    read when the parser's stack has room for them, and then every name has the entry its last
    definition means, wherever the white space and the comments are; any other file is an error.
    Both are so unless a string begins with a NUL: its text is then a lone quote, and where that is
    unquoted, as the value of a name or one of the last 64 elements of a list, memory outside of it is copied.
    A string with a NUL further on is read up to it, with the quote in front. *)
Theorem config_text_read `{Y : Yacc} (limit : nat) (text : string) (ts : list token) :
  laid_out text ts →
  (∀ ds, full_definition ts ds → (stack_needed ds ≤ limit)%nat →
     if existsb unquotes_lone ds then new_system_config limit (Some text) = Undefined OutOfBounds
     else ∃ c, new_system_config limit (Some text) = Ok (Some c) ∧ ∀ k, sysconf_ptr k c = meaning <$> last_definition k ds) ∧
  ((∀ ds, full_definition ts ds → (limit < stack_needed ds)%nat) → QSTRING lone_quote ∉ ts →
     new_system_config limit (Some text) = Ok None).
Proof.
  intros Ht. pose proof (laid_out_ok _ _ Ht) as Hok. apply laid_out_tokens in Ht.
  unfold new_system_config, read_config. rewrite Ht, bind_ok. split.
  - intros ds Hd Hs. rewrite (yacc_accepts _ _ _ Hd Hs). apply full_definition_tokens in Hd as [_ ->]. apply conf_tokens_scanned in Hok.
    pose proof (perform_scanned ds empty_conf Hok eq_refl eq_refl) as Hp. destruct (existsb unquotes_lone ds); [by rewrite Hp|].
    destruct (perform_all_ptr ds Hp) as (c & -> & Hc). rewrite bind_ok. by exists c.
  - intros Hno Hl. pose proof (yacc_rejects _ _ Hno) as Hr. pose proof (yacc_begins limit ts) as Hb.
    destruct (yyparse limit ts) as [ds accepted]. cbn in Hr, Hb. subst accepted.
    assert (Hds : ∃ rest, ts = conf_tokens ds ++ rest).
    { destruct Hb as [->|(ts1 & ts2 & -> & [_ ->]%full_definition_tokens)]; by eexists. }
    destruct Hds as [rest ->]. apply list.Forall_app in Hok as [Hok _]. apply conf_tokens_scanned in Hok.
    pose proof (perform_scanned ds empty_conf Hok eq_refl eq_refl) as Hp. destruct (existsb unquotes_lone ds) eqn:E.
    { destruct Hl. apply elem_of_app. left. by apply lone_token. }
    destruct (perform_all_ptr ds Hp) as (c & -> & _). done.
Qed.

(** *** A stray character *)

Fixpoint ends_line (s : string) : bool :=
  match s with
  | String c EmptyString => newline_char c
  | String _ s' => ends_line s'
  | EmptyString => false
  end.

Lemma ends_line_app u v : str_forall not_newline u = true → ends_line (u +:+ v) = true → ends_line v = true.
Proof.
  induction u as [|c u IH]; [by rewrite string_nil_app|]. rewrite string_cons_app. cbn [str_forall].
  intros [Hc Hu]%andb_prop. destruct (u +:+ v) as [|d w] eqn:E; [|intros H; apply (IH Hu); exact H].
  cbn. unfold not_newline in Hc. by destruct (newline_char c).
Qed.

Lemma ends_line_tail c s : ends_line (String c s) = true → s = EmptyString ∨ ends_line s = true.
Proof. destruct s as [|d s]; [by left|by right]. Qed.

Lemma ends_line_not_empty s : ends_line s = true → s ≠ EmptyString.
Proof. by intros H ->. Qed.

Lemma token_one_line t u : token_ok t → spells t u → str_forall not_newline u = true.
Proof.
  intros Hok Hu. destruct t as [| |w|w|w|c]; cbn [spells token_text] in Hu; try subst u; try done.
  - destruct Hok as (_ & Hw & _). eapply str_forall_impl; [|exact Hw]. intros c Hc. chars.
  - destruct Hu as (v & -> & Hv & _). unfold quoted. cbn [str_forall]. rewrite str_forall_app.
    rewrite (str_forall_impl in_string not_newline v); [done| |done]. intros c. unfold in_string. by intros [_ H]%andb_prop.
  - destruct Hok as [_ Hw]. eapply str_forall_impl; [|exact Hw]. intros c Hc. chars.
  - destruct (punctuation_other c Hok) as (Ho & _). destruct (other_class c Ho) as (_&_&_&_&_&Hn&_). cbn. by rewrite Hn.
Qed.

Lemma comment_one_line t : is_comment t → str_forall not_newline t = true.
Proof. by intros (u & Hu & [-> | ->]). Qed.

Lemma span_ends_line s x : ends_line s = true →
  span in_string (s +:+ x) = span in_string s ∧ String.get (span in_string s) (s +:+ x) = String.get (span in_string s) s.
Proof.
  induction s as [|c s IH]; [done|]. intros Hs. rewrite string_cons_app. cbn [span].
  destruct (in_string c) eqn:Hc; [|done]. destruct (ends_line_tail c s Hs) as [->|Hs'].
  - cbn in Hs. unfold in_string, not_newline in Hc. rewrite Hs in Hc. by rewrite andb_false_r in Hc.
  - destruct (IH Hs') as [-> Hg]. split; [done|]. exact Hg.
Qed.

Lemma head_is_app P s x : s ≠ EmptyString → head_is P (s +:+ x) = head_is P s.
Proof. by destruct s. Qed.

Lemma apart_app t s x : ends_line s = true → apart t s → apart t (s +:+ x).
Proof.
  intros Hs. pose proof (ends_line_not_empty s Hs) as Hn. destruct t; cbn; rewrite ?head_is_app by done; try done.
  intros [H1 H2]. split; [done|]. intros Hc q. destruct (span_ends_line s x Hs) as [-> ->]. by apply H2.
Qed.

Lemma laid_out_cut s ts c rest : schar c ≤ 0 → laid_out s ts → s = EmptyString ∨ ends_line s = true →
  laid_out (s +:+ String c rest) ts.
Proof.
  intros Hc. induction 1 as [|d s Hd|d s ts Hd _ IH|t s ts Ht Hs _ IH|t u s ts Ht Hu Ha _ IH]; intros He.
  - by apply laid_eof.
  - by apply laid_eof.
  - apply laid_white; [done|]. apply IH. destruct He as [|He]; [done|]. by apply (ends_line_tail d).
  - rewrite string_app_assoc. assert (ends_line s = true) as Hl.
    { destruct He as [He|He]; [by destruct Ht as (u & _ & [-> | ->])|]. apply (ends_line_app t); [by apply comment_one_line|exact He]. }
    rewrite <- (head_is_app not_newline s (String c rest)) in Hs by by apply ends_line_not_empty.
    apply laid_comment; [done..|]. apply IH. by right.
  - rewrite string_app_assoc. assert (ends_line s = true) as Hl.
    { destruct He as [He|He]; [|apply (ends_line_app u); [by apply (token_one_line t)|exact He]].
      pose proof (spelled_not_empty t u Ht Hu). by destruct u. }
    apply laid_token; [done..|by apply apart_app|]. apply IH. by right.
Qed.

(** A byte above 127, or a NUL, outside of strings and comments ends the configuration
    without a word: the rest of the file is not read, and the file is not an error if the
    lines before are not. *)
Theorem stray_byte_cuts_file `{Y : Yacc} (limit : nat) (lines rest : string) (c : ascii) :
  ends_line lines = true → schar c ≤ 0 → 
  new_system_config limit (Some (lines +:+ String c rest)) = new_system_config limit (Some lines).
Proof.
  intros Hl Hc. destruct (laid_out_total lines) as [ts Hts].
  pose proof (laid_out_cut lines ts c rest Hc Hts (or_intror Hl)) as Hcut.
  unfold new_system_config, read_config. by rewrite (laid_out_tokens _ _ Hts), (laid_out_tokens _ _ Hcut).
Qed.

(** ** Witnesses *)

#[local] Existing Instance sample_yacc.

Definition sample_file : list definition :=
  [DefOff "enable-database"; DefString "mysql-server" (quoted "localhost"); DefInteger "port" "80";
   DefInteger "hash-size" "513"; DefStrings "servers" (quoted "127.0.0.1:80") [quoted "127.0.0.1:8080"]].

Lemma sample_laid_out : laid_out sample_text (conf_tokens sample_file).
Proof. apply tokens_laid_out. vm_compute. reflexivity. Qed.

Lemma sample_derived : full_definition (conf_tokens sample_file) sample_file.
Proof. by apply full_definition_tokens. Qed.

(** A string of a NUL and a letter. *)
Definition nul_text : string := "a = " +:+ quoted (String "000" "x") +:+ ";".
Definition nul_file : list definition := [DefString "a" lone_quote].

Lemma nul_laid_out : laid_out nul_text (conf_tokens nul_file).
Proof. apply tokens_laid_out. vm_compute. reflexivity. Qed.

Lemma nul_derived : full_definition (conf_tokens nul_file) nul_file.
Proof. by apply full_definition_tokens. Qed.

Lemma config_text_read_witness :
  (∃ c, new_system_config 100 (Some sample_text) = Ok (Some c) ∧
    sysconf_ptr "PORT" c = Some (SysconfEntry "port" IntegerValue 80 (Set_ "80"%string) Unset Unset)) ∧
  new_system_config 100 (Some nul_text) = Undefined OutOfBounds.
Proof.
  split.
  - destruct (proj1 (config_text_read 100 sample_text _ sample_laid_out) sample_file sample_derived) as (c & Hc & Hk).
    + apply Nat.leb_le. vm_compute. reflexivity.
    + exists c. split; [exact Hc|]. rewrite Hk. vm_compute. reflexivity.
  - refine (proj1 (config_text_read 100 nul_text _ nul_laid_out) nul_file nul_derived _).
    apply Nat.leb_le. vm_compute. reflexivity.
Defined.

Lemma stray_byte_cuts_file_witness :
  new_system_config 100 (Some (sample_text +:+ String "239" "port = 22;")) = new_system_config 100 (Some sample_text).
Proof. apply (stray_byte_cuts_file 100 sample_text "port = 22;" "239"); [reflexivity|vm_compute; discriminate]. Defined.
