(* ===== verification/ConnTable.v ===== *)
(** * proxying.c: the table of open connections

    Open connections are the cells of a doubly linked chain ([infos]); cells that
    are closed go to a pool ([pool], linked by [next] alone) and are reused. A cell
    is [struct connection_info]: its links and [in_chain] flag, and the rest of
    its fields, [c_data], of any type. Between the calls of these operations a cell
    can be in neither list: it is in limbo. *)

From S2P Require Import Prelude Heap.

Section conn_table.
Context {A : Type}.

Record cell := Cell { c_data : A; in_chain : bool; c_prev : ptr; c_next : ptr }.

#[export] Instance cell_linked : Linked cell := {
  next := c_next;
  set_next p c := Cell (c_data c) (in_chain c) (c_prev c) p;
}.
#[export] Instance cell_laws : LinkedLaws cell.
Proof. by split. Qed.

Definition set_prev (p : ptr) (c : cell) : cell := Cell (c_data c) (in_chain c) p (c_next c).
Definition set_in_chain (b : bool) (c : cell) : cell := Cell (c_data c) b (c_prev c) (c_next c).
Definition set_data (a : A) (c : cell) : cell := Cell a (in_chain c) (c_prev c) (c_next c).

Record conn_table := ConnTable {
  infos : ptr;
  pool : ptr;
  cells : heap cell;
  number_of_entries : Z;
  number_of_allocation : Z;
}.

Definition empty_table : conn_table := ConnTable None None ∅ 0 0.

Definition with_cells (h : heap cell) (t : conn_table) : conn_table :=
  ConnTable (infos t) (pool t) h (number_of_entries t) (number_of_allocation t).

Definition update (p : ptr) (f : cell → cell) (t : conn_table) : outcome conn_table :=
  c ← deref (cells t) p;
  h ← store (cells t) p (f c);
  Ok (with_cells h t).

(** A cell of the pool, or new memory. *)
Definition allocate_connection_info (memory : bool) (t : conn_table) : outcome (ptr * conn_table) :=
  match pool t with
  | Some l =>
      c ← deref (cells t) (pool t);
      Ok (pool t, ConnTable (infos t) (next c) (cells t) (number_of_entries t) (number_of_allocation t))
  | None =>
      Ok (malloc memory (cells t),
          ConnTable (infos t) (pool t) (cells t) (number_of_entries t) (number_of_allocation t + 1))
  end.

(** The assignments to the fields of an allocated cell; its links are written
    when it is attached. *)
Definition fill (l : loc) (a : A) (t : conn_table) : conn_table :=
  with_cells (<[l := Cell a false None None]> (cells t)) t.

Definition free_connection_info (l : loc) (t : conn_table) : outcome conn_table :=
  t1 ← update (Some l) (set_next (pool t)) t;
  Ok (ConnTable (infos t1) (Some l) (cells t1) (number_of_entries t1) (number_of_allocation t1)).

Definition attach_connection_info_entry (l : loc) (t : conn_table) : outcome conn_table :=
  t1 ← update (Some l) (λ c, set_in_chain true (set_prev None (set_next (infos t) c))) t;
  t2 ← match infos t1 with
       | Some _ => update (infos t1) (set_prev (Some l)) t1
       | None => Ok t1
       end;
  Ok (ConnTable (Some l) (pool t2) (cells t2) (number_of_entries t2 + 1) (number_of_allocation t2)).

(** The relinking of the neighbours of the cell [l] with contents [e]. *)
Definition unlink (l : loc) (e : cell) (t : conn_table) : outcome conn_table :=
  if decide (infos t = Some l) then
    let t1 := ConnTable (next e) (pool t) (cells t) (number_of_entries t) (number_of_allocation t) in
    match infos t1 with
    | Some _ => update (infos t1) (set_prev None) t1
    | None => Ok t1
    end
  else
    t1 ← update (c_prev e) (set_next (next e)) t;
    match next e with
    | Some _ => update (next e) (set_prev (c_prev e)) t1
    | None => Ok t1
    end.

Definition detach_connection_info_entry (l : loc) (t : conn_table) : outcome conn_table :=
  e ← deref (cells t) (Some l);
  if in_chain e then
    t1 ← unlink l e (ConnTable (infos t) (pool t) (cells t) (number_of_entries t - 1) (number_of_allocation t));
    update (Some l) (set_in_chain false) t1
  else Ok t.

(** ** The table's contents *)

(** A part of the chain: its first cell is at [p] and points back to [pv]; its last
    cell is [pe] and points to [q]. *)
Fixpoint dseg (h : heap cell) (pv p : ptr) (es : list (loc * A)) (pe q : ptr) : Prop :=
  match es with
  | [] => p = q ∧ pe = pv
  | (l, a) :: es' => p = Some l ∧ ∃ nx, h !! l = Some (Cell a true pv nx) ∧ dseg h (Some l) nx es' pe q
  end.

Definition dlist (h : heap cell) (p : ptr) (es : list (loc * A)) : Prop := ∃ pe, dseg h None p es pe None.

(** [es]: the chain, [fs]: the pool, [lb]: the cells in limbo. *)
Record table_rep (t : conn_table) (es : list (loc * A)) (fs lb : list loc) : Prop := {
  tr_chain : dlist (cells t) (infos t) es;
  tr_pool : is_list (cells t) (pool t) fs;
  tr_idle l c : l ∈ fs ++ lb → cells t !! l = Some c → in_chain c = false;
  tr_nodup : NoDup (map fst es ++ fs ++ lb);
  tr_owned l : is_Some (cells t !! l) → l ∈ map fst es ++ fs ++ lb;
  tr_entries : number_of_entries t = Z.of_nat (length es);
  tr_allocation : number_of_allocation t = Z.of_nat (length es + length fs + length lb);
}.

Lemma empty_table_rep : table_rep empty_table [] [] [].
Proof.
  split; simpl; try done.
  - by exists None.
  - constructor.
  - intros l Hl. rewrite lookup_empty in Hl. by destruct Hl.
Qed.

Lemma dseg_app h pv p es1 es2 pe q :
  dseg h pv p (es1 ++ es2) pe q ↔ ∃ pm m, dseg h pv p es1 pm m ∧ dseg h pm m es2 pe q.
Proof.
  revert pv p. induction es1 as [|[l a] es1 IH]; intros pv p; simpl.
  - split; [by exists pv, p|]. by intros (pm & m & [-> ->] & H).
  - setoid_rewrite IH. split.
    + intros (-> & nx & Hl & pm & m & H1 & H2). eauto 10.
    + intros (pm & m & (-> & nx & Hl & H1) & H2). eauto 10.
Qed.

(** Only the cells of the part matter. *)
Lemma dseg_frame h h' pv p es pe q :
  (∀ l, l ∈ map fst es → h' !! l = h !! l) → dseg h pv p es pe q → dseg h' pv p es pe q.
Proof.
  revert pv p. induction es as [|[l a] es IH]; intros pv p Hh; simpl; [done|].
  intros (-> & nx & Hl & Hes). split; [done|]. exists nx. rewrite Hh by (simpl; left). split; [done|].
  apply IH; [|done]. intros l' Hl'. apply Hh. by right.
Qed.

Lemma dseg_insert h pv p es pe q l c :
  l ∉ map fst es → dseg h pv p es pe q → dseg (<[l := c]> h) pv p es pe q.
Proof.
  intros Hl. apply dseg_frame. intros l' Hl'. apply lookup_insert_ne. by intros ->.
Qed.

Lemma dseg_lookup h pv p es pe q l a : dseg h pv p es pe q → (l, a) ∈ es →
  ∃ pv' nx, h !! l = Some (Cell a true pv' nx).
Proof.
  revert pv p. induction es as [|[l' a'] es IH]; intros pv p; simpl; [intros _ H; by apply elem_of_nil in H|].
  intros (-> & nx & Hl & Hes) [Heq|Hin]%elem_of_cons; [simplify_eq; eauto|eauto].
Qed.

(** Redirecting the last cell. *)
Lemma dseg_set_last h pv p es l a pe q q' :
  dseg h pv p (es ++ [(l, a)]) pe q → l ∉ map fst es →
  ∃ pl, h !! l = Some (Cell a true pl q) ∧ pe = Some l ∧
    dseg (<[l := Cell a true pl q']> h) pv p (es ++ [(l, a)]) (Some l) q'.
Proof.
  intros (pm & m & H1 & H2)%dseg_app Hl. simpl in H2. destruct H2 as (-> & nx & Hc & <- & ->).
  exists pm. split; [done|]. split; [done|]. apply dseg_app. exists pm, (Some l). split; [by apply dseg_insert|].
  split; [done|]. exists q'. by rewrite lookup_insert_eq.
Qed.

(** Changing where the first cell points back to. *)
Lemma dseg_set_first h pv es l a pe q pv' :
  dseg h pv (Some l) ((l, a) :: es) pe q → l ∉ map fst es →
  ∃ nx pe', h !! l = Some (Cell a true pv nx) ∧ dseg (<[l := Cell a true pv' nx]> h) pv' (Some l) ((l, a) :: es) pe' q.
Proof.
  intros (_ & nx & Hc & Hes) Hl. exists nx, pe. split; [done|]. split; [done|]. exists nx.
  rewrite lookup_insert_eq. split; [done|]. by apply dseg_insert.
Qed.

Lemma dseg_head h pv p es pe q : dseg h pv p es pe q → p = match es with [] => q | (l, _) :: _ => Some l end.
Proof. destruct es as [|[l a] es]; simpl; [by intros [-> _]|by intros [-> _]]. Qed.

(** *** The operations *)

Lemma allocate_connection_ok t es fs :
  table_rep t es fs [] →
  ∃ l t' fs', allocate_connection_info true t = Ok (Some l, t') ∧ infos t' = infos t ∧ cells t' = cells t ∧
    (∀ a, table_rep (fill l a t') es fs' [l]).
Proof.
  intros []. rewrite !app_nil_r in *. unfold allocate_connection_info.
  destruct (pool t) as [l|] eqn:Hp.
  - destruct fs as [|l' fs]; [done|]. simpl in tr_pool0. destruct tr_pool0 as ([= <-] & c & Hc & Hls).
    rewrite (deref_Some _ _ _ Hc), bind_ok. exists l. eexists _, fs. split; [done|]. split; [done|]. split; [done|].
    assert (Hl : l ∉ map fst es ++ fs).
    { rewrite <- Permutation_middle in tr_nodup0. by apply list.NoDup_cons in tr_nodup0 as []. }
    intros a. split; simpl.
    + destruct tr_chain0 as [pe Hd]. exists pe. apply dseg_insert; [set_solver|done].
    + apply is_list_insert_ne; [set_solver|done].
    + intros x c'. destruct (decide (l = x)) as [<-|Hx].
      * rewrite lookup_insert_eq. by intros _ [= <-].
      * rewrite lookup_insert_ne by done. intros Hin. apply tr_idle0. set_solver.
    + revert tr_nodup0. by rewrite (Permutation_app_comm fs [l]).
    + intros x Hx. destruct (decide (l = x)) as [<-|Hne]; [set_solver|].
      rewrite lookup_insert_ne in Hx by done. apply tr_owned0 in Hx. set_solver.
    + done.
    + simpl in *. lia.
  - apply is_list_nil in tr_pool0 as ->. set (l := fresh_loc (cells t)).
    assert (Hl : cells t !! l = None) by apply fresh_loc_fresh.
    exists l. eexists _, []. split; [done|]. split; [done|]. split; [done|].
    assert (Hle : l ∉ map fst es).
    { intros ([l' a'] & Heq & Hin)%list_elem_of_fmap. destruct tr_chain0 as [pe Hd].
      destruct (dseg_lookup _ _ _ _ _ _ _ _ Hd Hin) as (? & ? & ?). simpl in Heq. congruence. }
    intros a. split; simpl.
    + destruct tr_chain0 as [pe Hd]. exists pe. by apply dseg_insert.
    + done.
    + intros x c' ->%list_elem_of_singleton. rewrite lookup_insert_eq. by intros [= <-].
    + rewrite (Permutation_app_comm _ [l]). rewrite app_nil_r in tr_nodup0. by constructor.
    + intros x Hx. destruct (decide (l = x)) as [<-|Hne]; [set_solver|].
      rewrite lookup_insert_ne in Hx by done. apply tr_owned0 in Hx. set_solver.
    + done.
    + simpl in *. lia.
Qed.

Lemma update_ok t l c f : cells t !! l = Some c → update (Some l) f t = Ok (with_cells (<[l := f c]> (cells t)) t).
Proof. intros Hc. unfold update. by rewrite (deref_Some _ _ _ Hc), bind_ok, (store_Some _ _ _ _ Hc), bind_ok. Qed.

Lemma fill_lookup l a t : cells (fill l a t) !! l = Some (Cell a false None None).
Proof. apply lookup_insert_eq. Qed.

Lemma limbo_cons (xs ys : list loc) l : NoDup (xs ++ ys ++ [l]) → NoDup (l :: xs ++ ys).
Proof. rewrite app_assoc. by rewrite (Permutation_app_comm _ [l]). Qed.

Lemma attach_ok t es fs l c :
  table_rep t es fs [l] → cells t !! l = Some c →
  ∃ t', attach_connection_info_entry l t = Ok t' ∧ table_rep t' ((l, c_data c) :: es) fs [].
Proof.
  intros Ht Hc. pose proof Ht as []. destruct tr_chain0 as [pe Hd].
  pose proof (limbo_cons _ _ _ tr_nodup0) as Hcons. pose proof (proj1 (list.NoDup_cons _ _) Hcons) as [Hl _].
  assert (Hnd : NoDup (map fst ((l, c_data c) :: es) ++ fs ++ [])) by by rewrite app_nil_r.
  assert (Hown : ∀ x, x ∈ map fst es ++ fs ++ [l] → x ∈ l :: map fst es ++ fs ++ []) by set_solver.
  unfold attach_connection_info_entry. rewrite (update_ok _ _ _ _ Hc), bind_ok. simpl infos.
  set (c1 := set_in_chain _ _). pose proof (dseg_head _ _ _ _ _ _ Hd) as Hhead.
  destruct es as [|[y b] es].
  - rewrite Hhead, bind_ok. eexists. split; [done|]. split; simpl; try done.
    + exists (Some l). split; [done|]. exists (infos t). unfold c1. rewrite lookup_insert_eq.
      split; [done|]. split; [by rewrite Hhead|done].
    + apply is_list_insert_ne; [set_solver|done].
    + intros x cx Hx. rewrite lookup_insert_ne by set_solver. apply tr_idle0. set_solver.
    + intros x Hx. destruct (decide (l = x)) as [<-|Hne]; [left|]. rewrite lookup_insert_ne in Hx by done.
      apply Hown. by apply tr_owned0.
    + simpl in *. lia.
    + simpl in *. lia.
  - rewrite Hhead in *.
    assert (Hy : y ∉ map fst es) by (simpl in tr_nodup0; by apply list.NoDup_cons in tr_nodup0 as [[? _]%not_elem_of_app _]).
    destruct (dseg_set_first _ _ _ _ _ _ _ (Some l) Hd Hy) as (nx & pe' & Hcy & Hd').
    assert (Hyl : l ≠ y) by (intros ->; apply Hl; left).
    rewrite (update_ok _ y (Cell b true None nx)), bind_ok by (simpl; by rewrite lookup_insert_ne).
    simpl. rewrite insert_insert_ne by done. eexists. split; [done|]. split; simpl; try done.
    + exists pe'. split; [done|]. exists (Some y). rewrite lookup_insert_eq. unfold c1. rewrite Hhead. split; [done|].
      apply (dseg_insert _ _ _ ((y, b) :: es)); [set_solver|exact Hd'].
    + apply is_list_insert_ne; [set_solver|]. apply is_list_insert_ne; [|done].
      simpl in tr_nodup0. apply list.NoDup_cons in tr_nodup0 as [Hn _]. set_solver.
    + intros x cx Hx. rewrite lookup_insert_ne by set_solver. rewrite lookup_insert_ne.
      * apply tr_idle0. set_solver.
      * intros <-. simpl in tr_nodup0. apply list.NoDup_cons in tr_nodup0 as [Hn _]. set_solver.
    + intros x Hx. destruct (decide (l = x)) as [<-|Hne]; [left|]. rewrite lookup_insert_ne in Hx by done.
      destruct (decide (y = x)) as [<-|Hne']; [right; left|]. rewrite lookup_insert_ne in Hx by done.
      apply Hown. by apply tr_owned0.
    + simpl in *. lia.
    + simpl in *. lia.
Qed.

Lemma free_ok t es fs l c :
  table_rep t es fs [l] → cells t !! l = Some c →
  ∃ t', free_connection_info l t = Ok t' ∧ table_rep t' es (l :: fs) [].
Proof.
  intros [] Hc. unfold free_connection_info. rewrite (update_ok _ _ _ _ Hc), bind_ok. eexists. split; [done|].
  pose proof (limbo_cons _ _ _ tr_nodup0) as Hcons. pose proof (proj1 (list.NoDup_cons _ _) Hcons) as [Hl _].
  destruct tr_chain0 as [pe Hd]. split; simpl; try done.
  - exists pe. apply dseg_insert; [set_solver|done].
  - apply is_list_cons; [set_solver|done].
  - intros x cx. rewrite app_nil_r. intros Hx. destruct (decide (l = x)) as [<-|Hne].
    + rewrite lookup_insert_eq. intros [= <-]. simpl. apply (tr_idle0 l); [set_solver|done].
    + rewrite lookup_insert_ne by done. apply tr_idle0. set_solver.
  - rewrite app_nil_r. by rewrite <- (Permutation_app_comm fs [l]).
  - intros x Hx. destruct (decide (l = x)) as [<-|Hne]; [set_solver|]. rewrite lookup_insert_ne in Hx by done.
    apply tr_owned0 in Hx. set_solver.
  - simpl in *. lia.
Qed.

(** Rewriting the data of an open connection. *)
Lemma set_data_ok t es1 es2 l a b fs lb :
  table_rep t (es1 ++ (l, a) :: es2) fs lb →
  ∃ t', update (Some l) (set_data b) t = Ok t' ∧ table_rep t' (es1 ++ (l, b) :: es2) fs lb.
Proof.
  intros []. destruct tr_chain0 as [pe Hd]. apply dseg_app in Hd as (pm & m & H1 & H2).
  simpl in H2. destruct H2 as (-> & nx & Hc & H2). rewrite (update_ok _ _ _ _ Hc). eexists. split; [done|].
  assert (Hmap : map fst (es1 ++ (l, b) :: es2) = map fst (es1 ++ (l, a) :: es2)) by by rewrite !map_app.
  pose proof tr_nodup0 as Hnd. rewrite map_app in Hnd. simpl in Hnd.
  apply list.NoDup_app in Hnd as ([_ [Hn1 Hnd2]]%list.NoDup_app & Hn2 & _).
  apply list.NoDup_cons in Hnd2 as [Hn3 _].
  split; simpl; rewrite ?Hmap; try done.
  - exists pe. apply dseg_app. exists pm, (Some l). split.
    + apply dseg_insert; [|done]. intros Hin. apply (Hn1 l Hin). left.
    + split; [done|]. exists nx. rewrite lookup_insert_eq. split; [done|]. by apply dseg_insert.
  - apply is_list_insert_ne; [|done]. intros Hin. apply (Hn2 l); set_solver.
  - intros x cx Hx. rewrite lookup_insert_ne; [by apply tr_idle0|]. intros <-. apply (Hn2 l); set_solver.
  - intros x Hx. apply tr_owned0. destruct (decide (l = x)) as [<-|Hne]; [by eexists|].
    by rewrite lookup_insert_ne in Hx.
  - rewrite length_app in *. simpl in *. lia.
  - rewrite length_app in *. simpl in *. lia.
Qed.

(** The neighbours are relinked, no other cell changes. *)
Record unlinked (t t1 : conn_table) (es : list (loc * A)) : Prop := {
  ul_chain : dlist (cells t1) (infos t1) es;
  ul_pool : pool t1 = pool t;
  ul_entries : number_of_entries t1 = number_of_entries t;
  ul_allocation : number_of_allocation t1 = number_of_allocation t;
  ul_same z : z ∉ map fst es → cells t1 !! z = cells t !! z;
  ul_live z : is_Some (cells t1 !! z) → is_Some (cells t !! z);
}.

Lemma insert_live (h : heap cell) l c c' z : h !! l = Some c → is_Some (<[l := c']> h !! z) → is_Some (h !! z).
Proof.
  intros Hc. destruct (decide (l = z)) as [<-|Hne]; [by eexists|]. by rewrite lookup_insert_ne.
Qed.

(** The first cell of the chain. *)
Lemma unlink_first t l a nx es pe :
  infos t = Some l → cells t !! l = Some (Cell a true None nx) → dseg (cells t) (Some l) nx es pe None →
  NoDup (map fst es) →
  ∃ t1, unlink l (Cell a true None nx) t = Ok t1 ∧ unlinked t t1 es.
Proof.
  intros Hi Hc Hd Hnd. unfold unlink. rewrite decide_True by done. simpl.
  pose proof (dseg_head _ _ _ _ _ _ Hd) as ->. destruct es as [|[y b] es].
  - eexists. split; [done|]. split; try done. by exists None.
  - simpl in Hnd. apply list.NoDup_cons in Hnd as [Hy _].
    destruct (dseg_set_first _ _ _ _ _ _ _ None Hd Hy) as (ny & pe' & Hcy & Hd').
    erewrite update_ok by exact Hcy. eexists. split; [done|]. split; try done; simpl.
    + by exists pe'.
    + intros z Hz. rewrite lookup_insert_ne by set_solver. done.
    + intros z. by eapply insert_live.
Qed.

(** A later cell, behind [x]. *)
Lemma unlink_later t l a nx es0 x b es pe :
  let es1 := es0 ++ [(x, b)] in
  infos t ≠ Some l → dseg (cells t) None (infos t) es1 (Some x) (Some l) →
  cells t !! l = Some (Cell a true (Some x) nx) → dseg (cells t) (Some l) nx es pe None →
  NoDup (map fst (es1 ++ es)) →
  ∃ t1, unlink l (Cell a true (Some x) nx) t = Ok t1 ∧ unlinked t t1 (es1 ++ es).
Proof.
  intros es1 Hi H1 Hc H2 Hnd. unfold unlink. rewrite decide_False by done. simpl.
  unfold es1 in Hnd. rewrite map_app, map_app in Hnd. simpl in Hnd.
  apply list.NoDup_app in Hnd as ((Hnd0 & Hx0 & _)%list.NoDup_app & Hx & Hnd).
  assert (Hx0' : x ∉ map fst es0) by (intros Hin; apply (Hx0 x Hin); left).
  assert (Hxe : x ∉ map fst es) by (apply Hx; set_solver).
  destruct (dseg_set_last _ _ _ _ _ _ _ _ nx H1 Hx0') as (px & Hcx & _ & H1').
  erewrite update_ok by exact Hcx. rewrite bind_ok. simpl.
  assert (H2' : dseg (<[x := Cell b true px nx]> (cells t)) (Some l) nx es pe None) by by apply dseg_insert.
  pose proof (dseg_head _ _ _ _ _ _ H2) as Hnx. destruct es as [|[y d] es].
  - subst nx. eexists. split; [done|]. split; try done; simpl.
    + exists (Some x). by rewrite app_nil_r.
    + rewrite app_nil_r. intros z Hz. rewrite lookup_insert_ne; [done|]. intros <-. apply Hz.
      unfold es1. rewrite map_app. set_solver.
    + intros z. by eapply insert_live.
  - subst nx. simpl in Hnd. apply list.NoDup_cons in Hnd as [Hy _].
    destruct (dseg_set_first _ _ _ _ _ _ _ (Some x) H2' Hy) as (ny & pe' & Hcy & H2'').
    erewrite update_ok by exact Hcy. simpl. eexists. split; [done|]. split; try done; simpl.
    + exists pe'. apply dseg_app. exists (Some x), (Some y). split; [|done]. apply dseg_insert; [|done].
      unfold es1. rewrite map_app. intros Hin. apply (Hx y); [|left]. set_solver.
    + intros z Hz. unfold es1 in Hz. rewrite !map_app in Hz.
      rewrite !lookup_insert_ne; [done| |]; intros <-; apply Hz; set_solver.
    + intros z Hz. eapply insert_live, (insert_live _ y); done.
Qed.

Lemma detach_ok t es1 l a es2 fs :
  table_rep t (es1 ++ (l, a) :: es2) fs [] →
  ∃ t' c, detach_connection_info_entry l t = Ok t' ∧ table_rep t' (es1 ++ es2) fs [l] ∧
    cells t' !! l = Some c ∧ c_data c = a ∧ in_chain c = false.
Proof.
  intros []. destruct tr_chain0 as [pe Hd]. apply dseg_app in Hd as (pm & m & H1 & H2).
  simpl in H2. destruct H2 as (-> & nx & Hc & H2).
  unfold detach_connection_info_entry. rewrite (deref_Some _ _ _ Hc), bind_ok. simpl in_chain. cbv iota.
  set (t0 := ConnTable (infos t) (pool t) (cells t) (number_of_entries t - 1) (number_of_allocation t)).
  assert (Hperm : map fst (es1 ++ (l, a) :: es2) ++ fs ++ [] ≡ₚ l :: map fst (es1 ++ es2) ++ fs).
  { rewrite app_nil_r, !map_app. simpl. by rewrite <- Permutation_middle. }
  assert (Hnd : NoDup (l :: map fst (es1 ++ es2) ++ fs)) by by rewrite <- Hperm.
  pose proof (proj1 (list.NoDup_cons _ _) Hnd) as [Hl Hnd']. pose proof (proj1 (list.NoDup_app _ _) Hnd') as (Hnde & Hdis & Hndf).
  assert (∃ t1, unlink l (Cell a true pm nx) t0 = Ok t1 ∧ unlinked t0 t1 (es1 ++ es2)) as (t1 & Hu & []).
  { destruct es1 as [|[x b] es0 _] using rev_ind.
    - simpl in H1. destruct H1 as [Hi ->]. by eapply unlink_first.
    - pose proof (proj1 (dseg_app _ _ _ _ _ _ _) H1) as (pm' & m' & _ & Hlast). simpl in Hlast. destruct Hlast as (_ & nx' & _ & _ & ->).
      assert (Hi : infos t ≠ Some l).
      { rewrite (dseg_head _ _ _ _ _ _ H1). intros Heq. apply Hl. rewrite !map_app. destruct es0 as [|[z d] es0]; simpl in *; simplify_eq; set_solver. }
      by eapply unlink_later. }
  rewrite Hu, bind_ok.
  assert (Hc1 : cells t1 !! l = Some (Cell a true pm nx)) by (rewrite ul_same0; [done|set_solver]).
  rewrite (update_ok _ _ _ _ Hc1). eexists _, _. split; [done|]. simpl. rewrite lookup_insert_eq.
  split; [|done]. split; simpl.
  - destruct ul_chain0 as [pe' Hd']. exists pe'. apply dseg_insert; [set_solver|done].
  - apply is_list_insert_ne; [set_solver|]. rewrite ul_pool0. revert tr_pool0. apply lseg_frame.
    intros z c Hz Hcz. exists c. rewrite ul_same0; [done|]. intros Hin. by apply (Hdis z).
  - intros z c Hz. destruct (decide (l = z)) as [<-|Hne].
    + rewrite lookup_insert_eq. by intros [= <-].
    + rewrite lookup_insert_ne by done. assert (Hzf : z ∈ fs) by set_solver. rewrite ul_same0.
      * apply tr_idle0. set_solver.
      * intros Hin. by apply (Hdis z).
  - revert Hnd. rewrite app_assoc. by rewrite (Permutation_app_comm _ [l]).
  - intros z Hz. destruct (decide (l = z)) as [<-|Hne]; [set_solver|]. rewrite lookup_insert_ne in Hz by done.
    apply ul_live0, tr_owned0 in Hz. rewrite Hperm in Hz. set_solver.
  - rewrite ul_entries0. simpl. rewrite tr_entries0, !length_app. simpl. lia.
  - rewrite ul_allocation0. simpl. rewrite tr_allocation0, !length_app. simpl. lia.
Qed.

(** Rewriting the data of a cell in limbo. *)
Lemma set_limbo_ok t es fs l c b :
  table_rep t es fs [l] → cells t !! l = Some c →
  ∃ t' c', update (Some l) (set_data b) t = Ok t' ∧ table_rep t' es fs [l] ∧ cells t' !! l = Some c' ∧
    c_data c' = b ∧ in_chain c' = in_chain c.
Proof.
  intros [] Hc. rewrite (update_ok _ _ _ _ Hc). eexists _, _. split; [done|]. simpl. rewrite lookup_insert_eq.
  split; [|done]. pose proof (limbo_cons _ _ _ tr_nodup0) as [Hl _]%list.NoDup_cons. split; simpl; try done.
  - destruct tr_chain0 as [pe Hd]. exists pe. apply dseg_insert; [set_solver|done].
  - apply is_list_insert_ne; [set_solver|done].
  - intros z cz Hz. destruct (decide (l = z)) as [<-|Hne].
    + rewrite lookup_insert_eq. intros [= <-]. simpl. by apply (tr_idle0 l).
    + rewrite lookup_insert_ne by done. by apply tr_idle0.
  - intros z Hz. apply tr_owned0. by eapply insert_live.
Qed.

(** A cell outside the chain is not detached again. *)
Lemma detach_idle t l c : cells t !! l = Some c → in_chain c = false → detach_connection_info_entry l t = Ok t.
Proof. intros Hc Hi. unfold detach_connection_info_entry. by rewrite (deref_Some _ _ _ Hc), bind_ok, Hi. Qed.
End conn_table.
Arguments cell : clear implicits.
Arguments conn_table : clear implicits.
