(* ===== verification/Proxying.v ===== *)
(** * proxying.c: admitting, forwarding and closing connections

    The state [proxy] joins the connection table ([ConnTable.v]), the event loop
    ([Events.v]) and the plugin ([PacketAnalyzer.v]) with the memory the
    connections own (the copied remote addresses and the requests the database
    returned) and the open descriptors of connections. Everything the outside
    decides (socket calls, the database service, the counters of the
    auto-blacklist service, the clock) is an argument; the calls made to these
    services are recorded as [service_call]s. The functions run under
    [worker_mutex] are translated as one step each. *)

From S2P Require Import Prelude Heap Utils Events PacketAnalyzer ConnTable.

Section proxying.
Context {I L D : Type} `{EqDecision I} `{EqDecision D}.

(** [struct db_proxy_request_t] *)
Record db_proxy_request := DbProxyRequest { account : option string; sn : Z; channel : Z }.

Record traffic := Traffic {
  requestCount : Z;
  responseCount : Z;
  bytesSent : Z;
  bytesReceived : Z;
  recent : timeval;
}.

(** [struct connection_info] without its links and [in_chain]. *)
Record connection := Connection {
  connection_id : Z;
  client_fd : Z;
  server_fd : Z;
  client_handle : Z;
  server_handle : Z;
  insert_id : Z;
  nth_user : option Z;   (* only written when there is a request *)
  started : timeval;
  request_in_db : ptr;
  remote_ip : ptr;
  attempts : Z;
  packet_analyzer_data : option D;
  info_traffic : traffic;
}.

Definition with_traffic (x : traffic) (d : connection) : connection :=
  Connection (connection_id d) (client_fd d) (server_fd d) (client_handle d) (server_handle d)
    (insert_id d) (nth_user d) (started d) (request_in_db d) (remote_ip d) (attempts d)
    (packet_analyzer_data d) x.
Definition with_request (r : ptr) (d : connection) : connection :=
  Connection (connection_id d) (client_fd d) (server_fd d) (client_handle d) (server_handle d)
    (insert_id d) (nth_user d) (started d) r (remote_ip d) (attempts d) (packet_analyzer_data d)
    (info_traffic d).

(** The handlers registered with the event loop. *)
Inductive handler := MainListener | ServerToClient | ClientToServer.

(** The static configuration variables. *)
Record settings := Settings {
  default_server : Z;
  number_of_remote_servers : Z;
  remote_servers : option (list (string * Z));
  connection_threshold : Z;
  persist_threshold : Z;
  max_persistent_time : Z;
  max_allowed_requests : Z;
  on_failed_channel : Z;
  white_list_conf : option (list string);   (* [white-list-ip-prefix] of the configuration *)
}.

Record proxy := Proxy {
  conf : settings;
  table : conn_table connection;
  strings : heap string;
  requests : heap db_proxy_request;
  ev : event_loop handler loc;
  plugin : analyzer (I := I) (L := L);
  segv_blocked : bool;
  alive : bool;
  open_fds : gset Z;
  user_counter : Z;
  connection_counter : Z;
  expiring_holder : option Z;   (* how many pointers fit *)
  lost_fds : list Z;            (* sockets that were left open *)
}.

Definition with_table t (s : proxy) := Proxy (conf s) t (strings s) (requests s) (ev s) (plugin s)
  (segv_blocked s) (alive s) (open_fds s) (user_counter s) (connection_counter s) (expiring_holder s) (lost_fds s).
Definition with_strings h (s : proxy) := Proxy (conf s) (table s) h (requests s) (ev s) (plugin s)
  (segv_blocked s) (alive s) (open_fds s) (user_counter s) (connection_counter s) (expiring_holder s) (lost_fds s).
Definition with_requests h (s : proxy) := Proxy (conf s) (table s) (strings s) h (ev s) (plugin s)
  (segv_blocked s) (alive s) (open_fds s) (user_counter s) (connection_counter s) (expiring_holder s) (lost_fds s).
Definition with_ev e (s : proxy) := Proxy (conf s) (table s) (strings s) (requests s) e (plugin s)
  (segv_blocked s) (alive s) (open_fds s) (user_counter s) (connection_counter s) (expiring_holder s) (lost_fds s).
Definition with_plugin p b (s : proxy) := Proxy (conf s) (table s) (strings s) (requests s) (ev s) p
  b (alive s) (open_fds s) (user_counter s) (connection_counter s) (expiring_holder s) (lost_fds s).
Definition killed (s : proxy) := Proxy (conf s) (table s) (strings s) (requests s) (ev s) (plugin s)
  (segv_blocked s) false (open_fds s) (user_counter s) (connection_counter s) (expiring_holder s) (lost_fds s).
Definition with_fds f (s : proxy) := Proxy (conf s) (table s) (strings s) (requests s) (ev s) (plugin s)
  (segv_blocked s) (alive s) f (user_counter s) (connection_counter s) (expiring_holder s) (lost_fds s).
Definition with_counters u c (s : proxy) := Proxy (conf s) (table s) (strings s) (requests s) (ev s)
  (plugin s) (segv_blocked s) (alive s) (open_fds s) u c (expiring_holder s) (lost_fds s).
Definition with_holder h (s : proxy) := Proxy (conf s) (table s) (strings s) (requests s) (ev s)
  (plugin s) (segv_blocked s) (alive s) (open_fds s) (user_counter s) (connection_counter s) h (lost_fds s).
Definition with_lost x (s : proxy) := Proxy (conf s) (table s) (strings s) (requests s) (ev s)
  (plugin s) (segv_blocked s) (alive s) (open_fds s) (user_counter s) (connection_counter s) (expiring_holder s) x.

(** The calls to the database and the auto-blacklist service, and what is written
    to the sockets. *)
Inductive service_call :=
  | Write (fd : Z) (bytes : list Byte.byte)
  | CheckAvailable (ip : string)
  | ConnectionBlacklisted (ip : string)
  | FindAndIncrease (addr : Z)
  | FailGuessing (ip : string)
  | CheckVip (ip : string)
  | AddIpToAutoBlacklist (ip : string)
  | CountSuccess                                   (* [entry->success_counter++] *)
  | TouchLogTime                                   (* [gettimeofday (&entry->log_time)] *)
  | ConnectionEstablished (sn : Z) (account : option string) (ip : string)
  | ConnectionNotAllowed (ip : string)
  | ConnectionClose (id bytes count : Z) (idle : bool)
  | Done.

(** *** Closing *)

Definition free_proxy_request_data (r : ptr) (s : proxy) : outcome proxy :=
  h ← free_cell (requests s) r; Ok (with_requests h s).

(** The end of a connection that is no longer in the chain. *)
Definition close_event (l : loc) (idle dlclose_ok : bool) (s : proxy) : outcome (proxy * list service_call) :=
  c ← deref (cells (table s)) (Some l);
  if in_chain c then Ok (s, [])
  else
    let d := c_data c in
    '(_, e1) ← ev_remove_event (server_handle d) (ev s);
    '(_, e2) ← ev_remove_event (client_handle d) e1;
    let '(p, _) := analyzer_release (packet_analyzer_data d) dlclose_ok (plugin s) in
    let s1 := with_fds (open_fds s ∖ {[client_fd d]} ∖ {[server_fd d]})
                (with_plugin p (segv_blocked s) (with_ev e2 s)) in
    '(s2, cs) ← match request_in_db d with
                | Some _ =>
                    _ ← deref (requests s1) (request_in_db d);
                    s2 ← free_proxy_request_data (request_in_db d) s1;
                    t ← update (Some l) (set_data (with_request None d)) (table s2);
                    Ok (with_table t s2,
                        [ConnectionClose (insert_id d) (bytesReceived (info_traffic d))
                           (requestCount (info_traffic d)) idle])
                | None => Ok (s1, [])
                end;
    h ← free_cell (strings s2) (remote_ip d);
    Ok (with_strings h s2, cs ++ [Done]).

Definition detach (l : loc) (s : proxy) : outcome proxy :=
  t ← detach_connection_info_entry l (table s); Ok (with_table t s).
Definition free_info (l : loc) (s : proxy) : outcome proxy :=
  t ← free_connection_info l (table s); Ok (with_table t s).

(** *** Forwarding *)

(** [leftLen] is a [size_t]. *)
Definition size_t (z : Z) : Z := z mod 18446744073709551616.

(** The bytes of [buffer] from [off] on, [len] of them. *)
Definition slice (buffer : list Byte.byte) (off len : Z) : list Byte.byte :=
  take (Z.to_nat len) (drop (Z.to_nat off) buffer).

(** The loop of [write]s: [write off len] is what the call for [len] bytes at
    offset [off] of the buffer returns. Result: the bytes written, whether a call
    failed, and what each call sent. *)
Fixpoint forward (fuel : nat) (write : Z → Z → Z) (buffer : list Byte.byte) (leftLen writeTotal : Z)
    : outcome (Z * bool * list (list Byte.byte)) :=
  match fuel with
  | O => Diverges
  | S fuel' =>
      if 0 <? leftLen then
        let writeLen := write writeTotal leftLen in
        if 0 <? writeLen then
          '(total, failed, sent) ← forward fuel' write buffer (size_t (leftLen - writeLen)) (writeTotal + writeLen);
          Ok (total, failed, slice buffer writeTotal writeLen :: sent)
        else Ok (writeTotal, true, [])
      else Ok (writeTotal, false, [])
  end.

(** What the outside answers while one packet is handled. The plugin gets the buffer itself
    and may write to it: [io_left] is what it leaves of the bytes. *)
Record io := Io {
  io_now : timeval;
  io_read : option (list Byte.byte);   (* what [read] stores, [None] if it fails *)
  io_left : list Byte.byte → list Byte.byte;
  io_write : Z → Z → Z;
  io_verdict : option Z;               (* what the plugin's analysis returns, [None] if it faults *)
  io_dlclose : bool;
}.

(** The result of [read]. *)
Definition read_len (x : io) : Z :=
  match io_read x with Some buffer => Z.of_nat (length buffer) | None => -1 end.

(** The counters after forwarding [n] bytes: [ssize_t]s, and [int]s that are incremented. *)
Definition count_traffic (fromClient : bool) (n : Z) (x : traffic) : outcome traffic :=
  if fromClient then
    bytes ← checked_long (bytesSent x + n);
    count ← checked_int (requestCount x + 1);
    Ok (Traffic count (responseCount x) bytes (bytesReceived x) (recent x))
  else
    bytes ← checked_long (bytesReceived x + n);
    count ← checked_int (responseCount x + 1);
    Ok (Traffic (requestCount x) count (bytesSent x) bytes (recent x)).

(** The plugin was called. *)
Definition was_called {A} (cs : list A) : bool := match cs with [] => false | _ => true end.

(** [buffer] was read: it is analysed and forwarded, as the plugin left it. Result: the new
    counters, whether the connection is to be closed, and the writes; [None] when the plugin
    killed the process. *)
Definition handle_packet (fromClient : bool) (destination : Z) (buffer : list Byte.byte) (d : connection) (x : io)
    (s : proxy) : outcome (option (traffic * bool * proxy * list service_call)) :=
  let tr := info_traffic d in
  let len := Z.of_nat (length buffer) in
  match analyze_packet (packet_analyzer_data d) (io_verdict x) (segv_blocked s) (plugin s) with
  | (Killed, _) => Ok None
  | (Alive (_, p, b), calls) =>
      let s1 := with_plugin p b s in
      let buffer' := if was_called calls then io_left x buffer else buffer in
      if fromClient && (max_allowed_requests (conf s) <? requestCount tr) then
        _ ← checked_int (requestCount tr + 1);   (* for the log *)
        Ok (Some (tr, true, s1, []))
      else
        '(writeTotal, failed, sent) ← forward (S (Z.to_nat len)) (io_write x) buffer' len 0;
        tr' ← count_traffic fromClient writeTotal tr;
        Ok (Some (tr', failed, s1, map (Write destination) sent))
  end.

Definition do_proxying (source destination : Z) (l : loc) (x : io) (s : proxy) : outcome (proxy * list service_call) :=
  c ← deref (cells (table s)) (Some l);
  if in_chain c then
    let tr := info_traffic (c_data c) in
    let d := with_traffic (Traffic (requestCount tr) (responseCount tr) (bytesSent tr) (bytesReceived tr) (io_now x))
               (c_data c) in
    t1 ← update (Some l) (set_data d) (table s);
    let s1 := with_table t1 s in
    let fromClient := client_fd d =? source in
    r ← (if 0 <? read_len x then
           handle_packet fromClient destination (default [] (io_read x)) d x s1
         else Ok (Some (info_traffic d, true, s1, [])));
    match r with
    | None => Ok (killed s1, [])
    | Some (tr', close_connection, s2, ws) =>
        t3 ← update (Some l) (set_data (with_traffic tr' d)) (table s2);
        let s3 := with_table t3 s2 in
        if (close_connection : bool) then
          s4 ← detach l s3;
          '(s5, cs) ← close_event l false (io_dlclose x) s4;
          c5 ← deref (cells (table s5)) (Some l);
          s6 ← (if in_chain c5 then Ok s5 else free_info l s5);
          Ok (s6, ws ++ cs)
        else Ok (s3, ws)
    end
  else Ok (s, []).

Definition proxy_from_server_to_client (l : loc) (x : io) (s : proxy) : outcome (proxy * list service_call) :=
  c ← deref (cells (table s)) (Some l); do_proxying (server_fd (c_data c)) (client_fd (c_data c)) l x s.
Definition proxy_from_client_to_server (l : loc) (x : io) (s : proxy) : outcome (proxy * list service_call) :=
  c ← deref (cells (table s)) (Some l); do_proxying (client_fd (c_data c)) (server_fd (c_data c)) l x s.

(** *** Admission *)

(** The list is read from the configuration at the first call and cached; it
    never changes, so caching is not observable. *)
Definition check_remote_ip_in_whitelist (ip : string) (w : option (list string)) : bool :=
  existsb (strcaseprefix ip) (default [] w).

(** What the outside answers while a connection is accepted. *)
Record accept_env := AcceptEnv {
  ae_memory : bool;
  ae_peer : option (string * option Z);   (* [getpeername]: the address as text, and as IPv4 *)
  ae_available : option db_proxy_request; (* what [check_available] allocates *)
  ae_blacklisted : Z;
  ae_entry : option (Z * timeval);        (* the entry's counter and [log_time] *)
  ae_guessing : bool;
  ae_vip : Z;
  ae_vip_again : Z;
  ae_added : Z;
  ae_now : timeval;
  ae_connect : Z;                         (* [connect_host] *)
  ae_unresolved : option Z;               (* the socket it leaves open for a name it cannot resolve *)
  ae_data : option D;                     (* what the plugin's [allocate] returns *)
  ae_epoll_client : bool;
  ae_epoll_server : bool;
  ae_inserted : Z;                        (* [connection_established] *)
}.

Record decision := Decision {
  channel_of : Z;
  blacklisted : bool;
  auto_blacklisted : bool;
  access_counter : Z;
  entry_of : option (Z * timeval);
}.

(** The tests on a counted address that is not in the blacklist. *)
Definition judge_counter (c : settings) (ip : string) (e : accept_env) (counter channel : Z)
    : Z * bool * list service_call :=
  let '(channel1, cs1) :=
    if negb (on_failed_channel c =? default_server c) && (connection_threshold c - 7 <? counter) &&
       (counter <=? connection_threshold c) && (Z.rem counter 2 =? 0)
    then (if ae_guessing e then on_failed_channel c else channel, [FailGuessing ip])
    else (channel, []) in
  let '(channel2, auto, cs2) :=
    if connection_threshold c <? counter then
      if ae_vip e =? 0
      then (-1, true, CheckVip ip :: if persist_threshold c <? counter then [AddIpToAutoBlacklist ip] else [])
      else (channel1, false, [CheckVip ip])
    else (channel1, false, []) in
  let cs3 :=
    match ae_entry e with
    | Some (_, log_time) =>
        if negb auto && (0 <=? channel2) && (max_persistent_time c <? elapsed_sec (ae_now e) log_time)
        then CheckVip ip :: if ae_vip_again e =? 0 then [AddIpToAutoBlacklist ip] else []
        else []
    | None => []
    end in
  (channel2, auto, cs1 ++ cs2 ++ cs3).

Definition decide_channel (c : settings) (ip : string) (v4 : option Z) (e : accept_env)
    : decision * list service_call :=
  match ae_available e with
  | Some r => (Decision (channel r) false false 0 None, [CheckAvailable ip])
  | None =>
      if check_remote_ip_in_whitelist ip (white_list_conf c) then
        let bl := 0 <? ae_blacklisted e in
        let channel := if bl then -1 else default_server c in
        match v4 with
        | Some addr =>
            let counter := match ae_entry e with Some (n, _) => n | None => 0 end in
            let '(channel', auto, cs) := if bl then (channel, false, []) else judge_counter c ip e counter channel in
            (Decision channel' bl auto counter (ae_entry e),
             [CheckAvailable ip; ConnectionBlacklisted ip; FindAndIncrease addr] ++ cs)
        | None => (Decision channel bl false 0 None, [CheckAvailable ip; ConnectionBlacklisted ip])
        end
      else (Decision (-1) false false 0 None, [CheckAvailable ip])
  end.

(** The subtraction in the first test of [judge_counter] is one of [int]s, evaluated when the
    tests before it hold. *)
Definition threshold_floor (c : settings) (ip : string) (v4 : option Z) (e : accept_env) : outcome Z :=
  match ae_available e, v4 with
  | None, Some _ =>
      if check_remote_ip_in_whitelist ip (white_list_conf c) && negb (0 <? ae_blacklisted e) &&
         negb (on_failed_channel c =? default_server c)
      then checked_int (connection_threshold c - 7)
      else Ok (connection_threshold c)
  | _, _ => Ok (connection_threshold c)
  end.

(** *** Accepting *)

Definition close_fd (fd : Z) (s : proxy) : proxy := with_fds (open_fds s ∖ {[fd]}) s.

(** [ev->add_event] for both sides. *)
Definition register_pair (fdc fds : Z) (l : loc) (e : accept_env) (s : proxy) : outcome (Z * Z * proxy) :=
  '(ch, e1) ← ev_add_event (ae_epoll_client e) fdc ClientToServer (Some l) (ev s);
  '(sh, e2) ← ev_add_event (ae_epoll_server e) fds ServerToClient (Some l) e1;
  Ok (ch, sh, with_ev e2 s).

(** A connection to the chosen server is open: a table entry is made. [r] is the
    request of the database, [ip] the address of the client. *)
Definition establish (fdc : Z) (connection_id : Z) (ip : string) (r : ptr) (d : decision) (e : accept_env)
    (s : proxy) : outcome (proxy * list service_call) :=
  '(p, t1) ← allocate_connection_info (ae_memory e) (table s);
  match p with
  | None => Undefined NullDeref
  | Some l =>
      let rip := malloc (ae_memory e) (strings s) in
      let h := match rip with Some x => <[x := ip]> (strings s) | None => strings s end in
      let '(data, pl, _) := analyzer_allocate (ae_data e) (plugin s) in
      let s1 := with_fds ({[ae_connect e]} ∪ open_fds s)
                  (with_plugin pl (segv_blocked s) (with_strings h (with_table t1 s))) in
      '(ch, sh, s2) ← register_pair fdc (ae_connect e) l e s1;
      '(iid, nth, s3, cs) ← match r with
                            | Some _ =>
                                q ← deref (requests s2) r;
                                let n := uint32 (user_counter s2 + 1) in
                                Ok (ae_inserted e, Some n, with_counters n (connection_counter s2) s2,
                                    [ConnectionEstablished (sn q) (account q) ip])
                            | None => Ok (0, None, s2, [])
                            end;
      let info := Connection connection_id fdc (ae_connect e) ch sh iid nth (ae_now e) r rip (access_counter d) data
                    (Traffic 0 0 0 0 (ae_now e)) in
      t ← attach_connection_info_entry l (fill l info (table s3));
      Ok (with_table t s3, cs)
  end.

(** A client without a channel; the time of an entry is written again after half an hour. *)
Definition refuse (fdc : Z) (ip : string) (d : decision) (e : accept_env) (s : proxy) : proxy * list service_call :=
  let cs := if negb (auto_blacklisted d) && blacklisted d then
              match entry_of d with
              | Some (_, log_time) => if 1800000000 <? elapsed_time (ae_now e) log_time then [TouchLogTime] else []
              | None => []
              end
            else [] in
  (close_fd fdc s, cs ++ [ConnectionNotAllowed ip]).

Definition accepting_request (fdc connection_id : Z) (e : accept_env) (s : proxy)
    : outcome (proxy * list service_call) :=
  match ae_peer e with
  | None => Ok (close_fd fdc s, [])
  | Some (ip, v4) =>
      _ ← threshold_floor (conf s) ip v4 e;
      let '(d, cs) := decide_channel (conf s) ip v4 e in
      let '(r, s0) := match ae_available e with
                      | Some q => let x := fresh_loc (requests s) in (Some x, with_requests (<[x := q]> (requests s)) s)
                      | None => (None, s)
                      end in
      if 0 <=? channel_of d then
        let ch := if channel_of d <? number_of_remote_servers (conf s) then channel_of d else 0 in
        let cs1 := match ae_available e, entry_of d with None, Some _ => [CountSuccess] | _, _ => [] end in
        servers ← match remote_servers (conf s) with Some l => Ok l | None => Undefined NullDeref end;
        _ ← array_get servers ch;
        if 0 <=? ae_connect e then
          '(s', cs2) ← establish fdc connection_id ip r d e s0;
          Ok (s', cs ++ cs1 ++ cs2)
        else
          s' ← free_proxy_request_data r (close_fd fdc (with_lost (option_list (ae_unresolved e) ++ lost_fds s0) s0));
          Ok (s', cs ++ cs1)
      else
        let '(s', cs1) := refuse fdc ip d e s0 in
        Ok (s', cs ++ cs1)
  end.

(** [conn_sock] is what [accept] returns. *)
Definition main_listener (conn_sock : Z) (e : accept_env) (s : proxy) : outcome (proxy * list service_call) :=
  if conn_sock =? -1 then Ok (s, [])
  else
    let n := connection_counter s + 1 in
    accepting_request conn_sock n e
      (with_counters (user_counter s) n (with_fds ({[conn_sock]} ∪ open_fds s) s)).

(** *** Idle connections *)

(** [for (ptr = infos, n = 0; ptr != NULL && n < number_of_entries; ...)] *)
Fixpoint snapshot (n : nat) (p : ptr) (room : Z) (t : conn_table connection) : outcome (list loc) :=
  match n, p with
  | S n', Some l =>
      if 0 <? room then
        c ← deref (cells t) p;
        ls ← snapshot n' (next c) (room - 1) t;
        Ok (l :: ls)
      else Undefined OutOfBounds
  | _, _ => Ok []
  end.

(** The array of pointers is enlarged when it is too small. *)
Definition collect (memory : bool) (s : proxy) : outcome (list loc * proxy) :=
  let n := number_of_entries (table s) in
  if 0 <? n then
    let holder := match expiring_holder s with
                  | Some size => if size <? n then None else Some size
                  | None => None
                  end in
    let holder' := match holder with Some size => Some size | None => if memory then Some n else None end in
    match holder' with
    | Some size =>
        ls ← snapshot (Z.to_nat n) (infos (table s)) size (table s);
        Ok (ls, with_holder (Some size) s)
    | None => Undefined NullDeref
    end
  else Ok ([], s).

(** [elapsed_time (tv, &ptr->recent) > timeout], in microseconds *)
Definition is_idle (tv : timeval) (timeout : Z) (l : loc) (s : proxy) : outcome bool :=
  c ← deref (cells (table s)) (Some l);
  Ok (timeout <? elapsed_time tv (recent (info_traffic (c_data c)))).

(** The body under [worker_mutex]: the entry is closed without a second look. *)
Definition expire_entry (dlclose_ok : bool) (l : loc) (s : proxy) : outcome (proxy * list service_call) :=
  s1 ← detach l s;
  '(s2, cs) ← close_event l true dlclose_ok s1;
  s3 ← free_info l s2;
  Ok (s3, cs).

Fixpoint expire_entries (dlclose_ok : bool) (tv : timeval) (timeout : Z) (ls : list loc) (s : proxy)
    : outcome (proxy * list service_call) :=
  match ls with
  | [] => Ok (s, [])
  | l :: ls' =>
      idle ← is_idle tv timeout l s;
      '(s1, cs1) ← (if (idle : bool) then expire_entry dlclose_ok l s else Ok (s, []));
      '(s2, cs2) ← expire_entries dlclose_ok tv timeout ls' s1;
      Ok (s2, cs1 ++ cs2)
  end.

(** The statistics it logs every quarter of an hour are [tell_time] of [Startup.v]; they
    change nothing here. *)
Definition clean_idle_connections (memory dlclose_ok : bool) (tv : timeval) (timeout : Z) (s : proxy)
    : outcome (proxy * list service_call) :=
  '(ls, s1) ← collect memory s;
  expire_entries dlclose_ok tv timeout ls s1.

(** *** Channels *)

Definition get_default_channel (s : proxy) : Z := default_server (conf s).
Definition get_fallback_channel (s : proxy) : Z := on_failed_channel (conf s).

Definition with_conf (c : settings) (s : proxy) : proxy :=
  Proxy c (table s) (strings s) (requests s) (ev s) (plugin s) (segv_blocked s) (alive s) (open_fds s)
    (user_counter s) (connection_counter s) (expiring_holder s) (lost_fds s).

Definition set_default_channel (ch : Z) (s : proxy) : Z * proxy :=
  let c := conf s in
  let c' := if (0 <=? ch) && (ch <? number_of_remote_servers c)
            then Settings ch (number_of_remote_servers c) (remote_servers c) (connection_threshold c)
                   (persist_threshold c) (max_persistent_time c) (max_allowed_requests c) (on_failed_channel c)
                   (white_list_conf c)
            else c in
  (default_server c', with_conf c' s).

Definition set_fallback_channel (ch : Z) (s : proxy) : Z * proxy :=
  let c := conf s in
  let c' := if (0 <=? ch) && (ch <? number_of_remote_servers c)
            then Settings (default_server c) (number_of_remote_servers c) (remote_servers c) (connection_threshold c)
                   (persist_threshold c) (max_persistent_time c) (max_allowed_requests c) ch
                   (white_list_conf c)
            else c in
  (on_failed_channel c', with_conf c' s).

(** One round of the event loop: a ready descriptor leads to its handler. *)
Definition loop_once (ready : option (list Z)) (conn_sock : Z) (e : accept_env) (x : io) (s : proxy)
    : outcome (proxy * list service_call) :=
  r ← ev_looping ready (ev s);
  match r with
  | None => Ok (s, [])
  | Some (MainListener, _, _) => main_listener conn_sock e s
  | Some (ServerToClient, _, Some l) => proxy_from_server_to_client l x s
  | Some (ClientToServer, _, Some l) => proxy_from_client_to_server l x s
  | Some (_, _, None) => Undefined NullDeref
  end.
End proxying.
Arguments connection : clear implicits.
Arguments proxy : clear implicits.
Arguments accept_env : clear implicits.
