(* ===== verification/ProxySafety.v ===== *)
(** * proxying.c: no resource is lost or used twice

    The invariant [owns] of the proxy: the copied addresses, the requests, the open
    descriptors, the registrations of the event loop and the plugin's data are
    exactly those of the connections in the chain. Every handler preserves it, so
    that a sequential run never touches freed memory, and closing all connections
    leaves nothing behind. *)

From S2P Require Import Prelude Heap Utils Events PacketAnalyzer ConnTable Proxying.

Section safety.
Context {I L D : Type} `{EqDecision I} `{EqDecision D}.
Implicit Types (s : proxy I L D) (d : connection D) (es : list (loc * connection D)) (xr : list loc).

(** The listening socket's registration: its slot and descriptor. *)
Variable listener : option (nat * Z).

(** The registrations that must be in the event loop. *)
Definition registered es (i : nat) (r : Z * handler * option loc) : Prop :=
  (∃ fd, listener = Some (i, fd) ∧ r = (fd, MainListener, None)) ∨
  ∃ l d, (l, d) ∈ es ∧
    (Z.of_nat i = client_handle d ∧ r = (client_fd d, ClientToServer, Some l) ∨
     Z.of_nat i = server_handle d ∧ r = (server_fd d, ServerToClient, Some l)).

Definition fds_of (x : loc * connection D) : list Z := [client_fd (snd x); server_fd (snd x)].

(** The counts of a connection are not negative, and no packet has more than 32768 bytes. *)
Definition plausible (tr : traffic) : Prop :=
  0 ≤ requestCount tr ≤ INT_MAX ∧ 0 ≤ responseCount tr ≤ INT_MAX ∧
  0 ≤ bytesSent tr ≤ 32768 * requestCount tr ∧ 0 ≤ bytesReceived tr ≤ 32768 * responseCount tr.

(** What the connections [es] own is what there is, but for the descriptors [xf] and
    the requests [xr]. *)
Record owning s es (xf : list Z) (xr : list loc) : Prop := {
  ow_strings : elements (dom (strings s)) ≡ₚ omap (remote_ip ∘ snd) es;
  ow_requests : elements (dom (requests s)) ≡ₚ xr ++ omap (request_in_db ∘ snd) es;
  ow_fds : elements (open_fds s) ≡ₚ xf ++ (es ≫= fds_of);
  ow_events : ∃ gm, ev_rep (ev s) gm ∧ ∀ i r, gm !! i = Some r ↔ registered es i r;
  ow_plugin : ∃ held o, tracked (World (plugin s) held (segv_blocked s) true) o ∧
    held ≡ₚ omap (packet_analyzer_data ∘ snd) es;
  ow_traffic : Forall (λ x, plausible (info_traffic (snd x))) es;
}.

(** [xr]: the requests nothing refers to any more. *)
Abbreviation owns s es xr := (owning s es [] xr).

#[export] Instance owning_perm s : Proper ((≡ₚ) ==> (≡ₚ) ==> (≡ₚ) ==> iff) (owning s).
Proof.
  assert (H : ∀ es es', es ≡ₚ es' → ∀ xf xf', xf ≡ₚ xf' → ∀ xr xr', xr ≡ₚ xr' → owning s es xf xr → owning s es' xf' xr').
  { intros es es' Hp xf xf' Hf xr xr' Hr [Hst Hrq Hfd (gm & Hrep & Hgm) (h & o & Ht & Hh) Htr]. split.
    - by rewrite <- Hp.
    - by rewrite <- Hp, <- Hr.
    - by rewrite <- Hp, <- Hf.
    - exists gm. split; [done|]. intros i r. rewrite Hgm. unfold registered. by setoid_rewrite Hp.
    - exists h, o. split; [done|]. by rewrite <- Hp.
    - by rewrite <- Hp. }
  intros es es' Hp xf xf' Hf xr xr' Hr. split; apply H; first [done|by symmetry].
Qed.

(** What is registered without the connection [l]. *)
Lemma registered_rest es l d (gm : gmap nat (Z * handler * option loc)) :
  l ∉ map fst es → (∀ i r, gm !! i = Some r ↔ registered ((l, d) :: es) i r) →
  ∀ i r, registered es i r ↔ gm !! i = Some r ∧ Z.of_nat i ≠ server_handle d ∧ Z.of_nat i ≠ client_handle d.
Proof.
  intros Hl Hgm i r. unfold registered in *. split.
  - intros Hr.
    assert (Hi : gm !! i = Some r).
    { apply Hgm. destruct Hr as [Hr|(l' & d' & Hin & Hr)]; [by left|right]. exists l', d'. split; [by right|done]. }
    assert (Hne : snd r ≠ Some l).
    { destruct Hr as [(fd & Hlis & ->)|(l' & d' & Hin & Hr)]; [done|].
      assert (l' ≠ l). { intros ->. apply Hl. apply list_elem_of_fmap. by exists (l, d'). }
      destruct Hr as [[_ ->]|[_ ->]]; simpl; congruence. }
    split_and!; [done| |]; intros Heq; apply Hne.
    + assert (gm !! i = Some (server_fd d, ServerToClient, Some l)) by (apply Hgm; right; exists l, d; split; [left|by right]).
      by simplify_eq.
    + assert (gm !! i = Some (client_fd d, ClientToServer, Some l)) by (apply Hgm; right; exists l, d; split; [left|by left]).
      by simplify_eq.
  - rewrite Hgm. intros ([Hr|(l' & d' & Hin & Hr)] & Hs & Hc); [by left|right].
    apply elem_of_cons in Hin as [[= -> ->]|Hin]; [|by exists l', d'].
    by destruct Hr as [[? _]|[? _]].
Qed.

(** A handle is a slot that is registered, or one [remove_event] refuses. *)
Lemma remove_handle (e : event_loop handler loc) gm j :
  ev_rep e gm → (∀ i : nat, j = Z.of_nat i → is_Some (gm !! i)) →
  ∃ b e', ev_remove_event j e = Ok (b, e') ∧
    ∃ gm', ev_rep e' gm' ∧ ∀ i r, gm' !! i = Some r ↔ gm !! i = Some r ∧ Z.of_nat i ≠ j.
Proof.
  intros Hrep Hj. destruct (decide (j < 0)).
  - rewrite ev_remove_event_out by by left. eexists _, _. split; [done|]. exists gm. split; [done|].
    intros i r. split; [split; [done|lia]|by intros [? _]].
  - destruct (ev_remove_event_ok e gm (Z.to_nat j) Hrep) as (e' & He & Hrep'); [apply Hj; lia|].
    rewrite Z2Nat.id in He by lia. eexists _, _. split; [done|]. exists (delete (Z.to_nat j) gm). split; [done|].
    intros i r. rewrite lookup_delete_Some. split; [intros [? ?]; split; [done|lia]|intros [? ?]; split; [lia|done]].
Qed.

Lemma remove_handles (e : event_loop handler loc) gm es l d :
  ev_rep e gm → l ∉ map fst es → (∀ i r, gm !! i = Some r ↔ registered ((l, d) :: es) i r) →
  ∃ b1 e1 b2 e2, ev_remove_event (server_handle d) e = Ok (b1, e1) ∧ ev_remove_event (client_handle d) e1 = Ok (b2, e2) ∧
    ∃ gm', ev_rep e2 gm' ∧ ∀ i r, gm' !! i = Some r ↔ registered es i r.
Proof.
  intros Hrep Hl Hgm.
  assert (Hs : gm !! Z.to_nat (server_handle d) = Some (server_fd d, ServerToClient, Some l) ∨ server_handle d < 0).
  { destruct (decide (server_handle d < 0)); [by right|left]. apply Hgm. right. exists l, d. split; [left|right]. split; [lia|done]. }
  assert (Hc : gm !! Z.to_nat (client_handle d) = Some (client_fd d, ClientToServer, Some l) ∨ client_handle d < 0).
  { destruct (decide (client_handle d < 0)); [by right|left]. apply Hgm. right. exists l, d. split; [left|left]. split; [lia|done]. }
  destruct (remove_handle e gm (server_handle d) Hrep) as (b1 & e1 & He1 & gm1 & Hrep1 & Hgm1).
  { intros i Hi. destruct Hs as [Hs|?]; [|lia]. rewrite Hi, Nat2Z.id in Hs. by eexists. }
  destruct (remove_handle e1 gm1 (client_handle d) Hrep1) as (b2 & e2 & He2 & gm2 & Hrep2 & Hgm2).
  { intros i Hi. destruct Hc as [Hc|?]; [|lia]. rewrite Hi, Nat2Z.id in Hc. eexists. apply Hgm1. split; [exact Hc|].
    intros Heq. destruct Hs as [Hs|?]; [|lia]. rewrite <- Heq, Nat2Z.id in Hs. by simplify_eq. }
  exists b1, e1, b2, e2. split_and!; [done..|]. exists gm2. split; [done|].
  intros i r. rewrite Hgm2, Hgm1, (registered_rest es l d gm Hl Hgm). tauto.
Qed.

(** What the handlers do not touch. *)
Definition kept s s' : Prop := conf s' = conf s ∧ alive s' = alive s.

(** The calls made when a connection is closed. *)
Definition closing_calls d (idle : bool) : list service_call :=
  match request_in_db d with
  | Some _ => [ConnectionClose (insert_id d) (bytesReceived (info_traffic d)) (requestCount (info_traffic d)) idle]
  | None => []
  end ++ [Done].

Lemma remove_one_held (d : D) h h' : h ≡ₚ d :: h' → remove_one d h ≡ₚ h'.
Proof.
  intros Hp. apply (inj (cons d)). rewrite <- Hp. apply remove_one_perm. rewrite Hp. left.
Qed.

(** Freeing an owned cell. *)
Lemma free_owned {A} (h : heap A) (p : ptr) ls :
  elements (dom h) ≡ₚ option_list p ++ ls →
  ∃ h', free_cell h p = Ok h' ∧ elements (dom h') ≡ₚ ls ∧ (is_Some p → ∃ a, deref h p = Ok a).
Proof.
  destruct p as [x|]; intros Hp; simpl in Hp.
  - destruct (dom_delete_elements h x ls Hp) as [[a Ha] Hd].
    rewrite (free_cell_Some _ _ _ Ha). eexists. split_and!; [done..|]. intros _. exists a. by apply deref_Some.
  - exists h. split_and!; [done..|]. by intros [].
Qed.

Lemma omap_cons_list {A B} (f : A → option B) x l : omap f (x :: l) = option_list (f x) ++ omap f l.
Proof. simpl. by destruct (f x). Qed.

Lemma omap_length_le {A B} (f : A → option B) l : (length (omap f l) ≤ length l)%nat.
Proof. induction l as [|x l IH]; [done|]. rewrite omap_cons_list, length_app. destruct (f x); simpl; lia. Qed.

Lemma bind_nodup_eq {A B} (f : A → list B) l x y b :
  NoDup (l ≫= f) → x ∈ l → y ∈ l → b ∈ f x → b ∈ f y → x = y.
Proof.
  induction l as [|z l IH]; [intros _ []%elem_of_nil|]. rewrite bind_cons. intros (_ & Hdis & Hnd)%list.NoDup_app Hx Hy Hbx Hby.
  assert (Hno : ∀ w, w ∈ l → b ∈ f w → b ∉ f z). { intros w Hw Hb Hz. apply (Hdis b Hz), list_elem_of_bind. by exists w. }
  apply elem_of_cons in Hx as [->|Hx], Hy as [->|Hy]; [done| | |by apply IH].
  - by destruct (Hno y Hy Hby).
  - by destruct (Hno x Hx Hbx).
Qed.

Lemma fds_length es : length (es ≫= fds_of) = (2 * length es)%nat.
Proof. induction es as [|x es IH]; [done|]. rewrite bind_cons, length_app, IH. simpl. lia. Qed.

(** The end of a connection that was taken out of the chain. *)
Lemma close_event_ok s l d c es fs xr idle ok :
  table_rep (table s) es fs [l] → cells (table s) !! l = Some c → c_data c = d → in_chain c = false →
  l ∉ map fst es → owns s ((l, d) :: es) xr →
  ∃ s' c', close_event l idle ok s = Ok (s', closing_calls d idle) ∧ table_rep (table s') es fs [l] ∧
    cells (table s') !! l = Some c' ∧ in_chain c' = false ∧ owns s' es xr ∧ kept s s'.
Proof.
  intros Ht Hc Hd Hi Hl [Hst Hrq Hfd (gm & Hrep & Hgm) (h & o & Htr & Hh) [_ Hpl]%list.Forall_cons].
  unfold close_event. rewrite (deref_Some _ _ _ Hc), bind_ok, Hi, Hd. cbv iota.
  destruct (remove_handles _ _ _ _ _ Hrep Hl Hgm) as (b1 & e1 & b2 & e2 & He1 & He2 & Hev).
  rewrite He1, bind_ok, He2, bind_ok.
  rewrite omap_cons_list in Hst. rewrite omap_cons_list in Hrq. rewrite omap_cons_list in Hh.
  simpl in Hst, Hrq, Hh, Hfd. rewrite Permutation_app_swap_app in Hrq.
  pose proof (release_tracked (packet_analyzer_data d) ok _ _ Htr) as Hrel. simpl in Hrel.
  destruct (analyzer_release _ _ _) as [p cs] eqn:Hp.
  assert (Hplug : ∃ held o, tracked (World p held (segv_blocked s) true) o ∧ held ≡ₚ omap (packet_analyzer_data ∘ snd) es).
  { destruct Hrel as (o' & _ & Htr').
    - intros x Hx. rewrite Hh, Hx. left.
    - eexists _, o'. split; [exact Htr'|]. destruct (packet_analyzer_data d); [by apply remove_one_held|done]. }
  set (s1 := with_fds _ _).
  destruct (free_owned (strings s) (remote_ip d) _ Hst) as (h2 & Hfree & Hst' & _).
  destruct (free_owned (requests s) (request_in_db d) _ Hrq) as (h1 & Hfree1 & Hrq' & Hq).
  assert (Hfd' : elements (open_fds s ∖ {[client_fd d]} ∖ {[server_fd d]}) ≡ₚ es ≫= fds_of).
  { by do 2 apply elements_remove. }
  destruct (request_in_db d) as [x|] eqn:Hx.
  - destruct (Hq ltac:(done)) as [q Hderef]. simpl requests. rewrite Hderef, bind_ok. unfold free_proxy_request_data.
    simpl requests. rewrite Hfree1, !bind_ok. simpl table.
    destruct (set_limbo_ok _ _ _ _ _ (with_request None d) Ht Hc) as (t' & c' & -> & Ht' & Hc' & _ & Hi').
    rewrite bind_ok, bind_ok. simpl strings. rewrite Hfree, bind_ok. eexists _, c'.
    split; [unfold closing_calls; by rewrite Hx|]. split_and!; first [done|congruence].
  - simpl. rewrite Hfree, bind_ok. eexists _, c. split; [unfold closing_calls; by rewrite Hx|].
    simpl in Hfree1. simplify_eq. by split_and!.
Qed.

(** The chain, the pool, and what the connections own. *)
Definition inv s es (fs : list loc) xr : Prop := table_rep (table s) es fs [] ∧ owns s es xr.

(** Detaching, closing and freeing a connection of the chain. *)
Lemma close_ok s es1 l d es2 fs xr idle ok :
  inv s (es1 ++ (l, d) :: es2) fs xr →
  ∃ s1 s2 c s3, detach l s = Ok s1 ∧ close_event l idle ok s1 = Ok (s2, closing_calls d idle) ∧
    deref (cells (table s2)) (Some l) = Ok c ∧ in_chain c = false ∧
    free_info l s2 = Ok s3 ∧ inv s3 (es1 ++ es2) (l :: fs) xr ∧ kept s s3.
Proof.
  intros [Ht Ho]. rewrite <- Permutation_middle in Ho.
  destruct (detach_ok _ _ _ _ _ _ Ht) as (t1 & c & Ht1 & Hrep1 & Hc & Hd & Hi).
  assert (Hl : l ∉ map fst (es1 ++ es2)).
  { pose proof (tr_nodup _ _ _ _ Hrep1) as Hnd. by apply limbo_cons, list.NoDup_cons in Hnd as [[? _]%not_elem_of_app _]. }
  destruct (close_event_ok (with_table t1 s) l d c (es1 ++ es2) fs xr idle ok) as (s2 & c2 & Hce & Hrep2 & Hc2 & Hi2 & Ho2 & Hk); try done.
  { destruct Ho. by split. }
  destruct (free_ok _ _ _ _ _ Hrep2 Hc2) as (t3 & Ht3 & Hrep3).
  eexists (with_table t1 s), s2, c2, (with_table t3 s2).
  split; [unfold detach; by rewrite Ht1|]. split; [done|]. split; [by apply deref_Some|]. split; [done|].
  split; [unfold free_info; by rewrite Ht3|]. split; [|done]. split; [done|]. destruct Ho2. by split.
Qed.

(** *** Forwarding *)

Lemma slice_app buffer off a b :
  0 ≤ off → 0 ≤ a → 0 ≤ b → slice buffer off a ++ slice buffer (off + a) b = slice buffer off (a + b).
Proof.
  intros. unfold slice. rewrite !Z2Nat.inj_add, <- drop_drop by lia. generalize (drop (Z.to_nat off) buffer). intros l.
  by rewrite take_take_drop.
Qed.

Lemma forward_ok fuel write buffer leftLen writeTotal :
  (∀ off len, write off len ≤ len) → 0 ≤ writeTotal → 0 ≤ leftLen < 18446744073709551616 →
  writeTotal + leftLen = Z.of_nat (length buffer) → (Z.to_nat leftLen < fuel)%nat →
  ∃ total sent, forward fuel write buffer leftLen writeTotal = Ok (total, total <? Z.of_nat (length buffer), sent) ∧
    writeTotal ≤ total ≤ Z.of_nat (length buffer) ∧ concat sent = slice buffer writeTotal (total - writeTotal).
Proof.
  intros Hw. revert leftLen writeTotal. induction fuel as [|fuel IH]; intros left tot Ht Hl Hsum Hf; [lia|].
  simpl. destruct (Z.ltb_spec 0 left) as [Hpos|Hz].
  - pose proof (Hw tot left) as Hle. destruct (Z.ltb_spec 0 (write tot left)) as [Hgo|Hfail].
    + unfold size_t. rewrite Z.mod_small by lia.
      destruct (IH (left - write tot left) (tot + write tot left)) as (total & sent & -> & Hb & Hc); try lia.
      rewrite bind_ok. eexists _, _. split; [done|]. split; [lia|]. simpl. rewrite Hc, slice_app by lia. f_equal. lia.
    + exists tot, []. destruct (Z.ltb_spec tot (Z.of_nat (length buffer))); [|lia]. split; [done|]. split; [lia|].
      by rewrite Z.sub_diag.
  - exists tot, []. destruct (Z.ltb_spec tot (Z.of_nat (length buffer))); [lia|]. split; [done|]. split; [lia|].
    by rewrite Z.sub_diag.
Qed.

(** [read] fills at most the buffer, [write] takes at most what it is offered, and the plugin
    writes inside the packet. *)
Definition io_ok (x : io) : Prop :=
  read_len x ≤ 32768 ∧ (∀ off len, io_write x off len ≤ len) ∧ ∀ b, length (io_left x b) = length b.

Definition touched (now : timeval) (tr : traffic) : traffic :=
  Traffic (requestCount tr) (responseCount tr) (bytesSent tr) (bytesReceived tr) now.

(** The packet that was read, as the plugin left it if it was shown it. *)
Definition packet_left d (x : io) s : list Byte.byte :=
  let buffer := default [] (io_read x) in
  match packet_analyzer_data d, pluggableAnalyzer (plugin s) with
  | Some _, Some _ => if plugin_enable (plugin s) then io_left x buffer else buffer
  | _, _ => buffer
  end.

(** What handling the packet [buffer] must do to the counters and the connection, and which
    bytes go out: a prefix of the packet, and all of it if the connection stays open. *)
Definition packet_spec (limit : Z) (fromClient : bool) (now : timeval) (buffer : list Byte.byte) (tr tr' : traffic) (close : bool)
    (bytes : list Byte.byte) : Prop :=
  let len := Z.of_nat (length buffer) in
  if (len =? 0) || (fromClient && (limit <? requestCount tr)) then tr' = touched now tr ∧ close = true ∧ bytes = []
  else ∃ n, 0 ≤ n ≤ len ∧ close = (n <? len) ∧ bytes = take (Z.to_nat n) buffer ∧
    tr' = if fromClient
          then Traffic (requestCount tr + 1) (responseCount tr) (bytesSent tr + n) (bytesReceived tr) now
          else Traffic (requestCount tr) (responseCount tr + 1) (bytesSent tr) (bytesReceived tr + n) now.

(** The counts can be incremented once more. *)
Definition room (tr : traffic) : Prop := requestCount tr < INT_MAX ∧ responseCount tr < INT_MAX.

Lemma count_traffic_ok fromClient n tr : plausible tr → room tr → 0 ≤ n ≤ 32768 →
  count_traffic fromClient n tr =
    Ok (if fromClient
        then Traffic (requestCount tr + 1) (responseCount tr) (bytesSent tr + n) (bytesReceived tr) (recent tr)
        else Traffic (requestCount tr) (responseCount tr + 1) (bytesSent tr) (bytesReceived tr + n) (recent tr)).
Proof.
  unfold plausible, room, count_traffic, INT_MAX. intros Hp Hr Hn.
  destruct fromClient; rewrite checked_long_ok, bind_ok, checked_int_ok by (unfold is_int, INT_MIN, INT_MAX, LONG_MIN, LONG_MAX; lia); done.
Qed.

Lemma packet_plausible limit fromClient now buffer tr tr' close bytes :
  packet_spec limit fromClient now buffer tr tr' close bytes → Z.of_nat (length buffer) ≤ 32768 → plausible tr → room tr → plausible tr'.
Proof.
  unfold packet_spec, plausible, room. intros Hp Hlen Htr Hr. destruct (_ || _).
  - by destruct Hp as [-> _].
  - destruct Hp as (n & Hn & _ & _ & ->). destruct fromClient; cbn; lia.
Qed.

Lemma packet_left_length d x s : io_ok x → length (packet_left d x s) = length (default [] (io_read x)).
Proof. intros (_ & _ & Hl). unfold packet_left. by repeat case_match. Qed.

Lemma owns_traffic s es1 l d es2 xr tr :
  owns s (es1 ++ (l, d) :: es2) xr → plausible tr → owns s (es1 ++ (l, with_traffic tr d) :: es2) xr.
Proof.
  rewrite <- !Permutation_middle. intros [Hst Hrq Hfd (gm & Hrep & Hgm) (h & o & Ht & Hh) [_ Hpl]%list.Forall_cons] Htr. split; try done.
  - exists gm. split; [done|]. intros i r. rewrite Hgm. unfold registered. setoid_rewrite elem_of_cons. split.
    + intros [?|(l' & d' & [[= -> ->]|Hin] & Hr)]; [by left|right..]; [exists l, (with_traffic tr d)|exists l', d']; auto.
    + intros [?|(l' & d' & [[= -> ->]|Hin] & Hr)]; [by left|right..]; [exists l, d|exists l', d']; auto.
  - by exists h, o.
  - by apply list.Forall_cons.
Qed.

Lemma owns_held s es l d h :
  h ≡ₚ omap (packet_analyzer_data ∘ snd) es → (l, d) ∈ es → ∀ y, packet_analyzer_data d = Some y → y ∈ h.
Proof. intros Hp Hin y Hy. rewrite Hp. apply list_elem_of_omap. by exists (l, d). Qed.

Lemma handle_packet_ok s es xr l d0 d fromClient dst x :
  owns s es xr → (l, d0) ∈ es → packet_analyzer_data d = packet_analyzer_data d0 → io_ok x → 0 < read_len x →
  plausible (info_traffic d) → room (info_traffic d) →
  let r := handle_packet fromClient dst (default [] (io_read x)) d x s in
  (r = Ok None ∧ io_verdict x = None) ∨
  ∃ tr close s1 sent, r = Ok (Some (tr, close, s1, map (Write dst) sent)) ∧ table s1 = table s ∧ owns s1 es xr ∧ kept s s1 ∧
    (∀ tr0, info_traffic d = touched (io_now x) tr0 →
       packet_spec (max_allowed_requests (conf s)) fromClient (io_now x) (packet_left d x s) tr0 tr close (concat sent)).
Proof.
  intros [Hst Hrq Hfd Hev (h & o & Ht & Hh)] Hin Hdata Hx Hpos Hpl Hroom r. subst r.
  pose proof (packet_left_length d x s Hx) as Hll. destruct Hx as (Hlen & Hw & Hleft). unfold handle_packet, read_len in *.
  destruct (io_read x) as [buffer|] eqn:Hrd; [|lia]. simpl default in *.
  pose proof (analyze_tracked (packet_analyzer_data d) (io_verdict x) _ _ Ht) as Ha. simpl in Ha.
  pose proof (analyze_called (packet_analyzer_data d) (io_verdict x) (segv_blocked s) (plugin s)) as Hcalled.
  destruct (analyze_packet _ _ _ _) as [[[[v p] b]|] cs] eqn:Han.
  - right. assert (Hown : owns (with_plugin p b s) es xr).
    { split; try done. exists h, o. split; [|done]. apply Ha. intros y. rewrite Hdata. by apply (owns_held s es l d0). }
    assert (Hbuf : (if was_called cs then io_left x buffer else buffer) = packet_left d x s).
    { unfold packet_left, was_called. rewrite Hrd. simpl in Hcalled. rewrite Hcalled. by repeat case_match. }
    rewrite Hbuf, <- Hll. destruct (fromClient && _) eqn:Hlim.
    + rewrite checked_int_ok, bind_ok by (unfold plausible, room, is_int, INT_MIN, INT_MAX in *; lia).
      eexists _, _, _, []. split; [done|]. split_and!; try done. intros tr0 Htr. unfold packet_spec.
      rewrite Htr in *. simpl in Hlim. rewrite Hlim, orb_true_r. done.
    + destruct (forward_ok (S (Z.to_nat (Z.of_nat (length (packet_left d x s))))) (io_write x) (packet_left d x s)
        (Z.of_nat (length (packet_left d x s))) 0) as (n & sent & -> & Hn & Hc); try done; try lia.
      rewrite bind_ok, (count_traffic_ok fromClient n _ Hpl Hroom), bind_ok by lia.
      eexists _, _, _, sent. split; [done|]. split_and!; try done. intros tr0 Htr.
      unfold packet_spec. rewrite Htr in *. simpl in Hlim. rewrite Hlim.
      destruct (Z.eqb_spec (Z.of_nat (length (packet_left d x s))) 0); [lia|]. exists n. split_and!; try done; [lia..|].
      rewrite Hc. unfold slice. simpl. by rewrite Z.sub_0_r.
  - left. split; [done|]. destruct (io_verdict x); [|done]. unfold analyze_packet in Han.
    repeat (case_match; simplify_eq). all: done.
Qed.

Lemma chain_lookup (t : conn_table (connection D)) es fs lb l d :
  table_rep t es fs lb → (l, d) ∈ es → ∃ c, cells t !! l = Some c ∧ c_data c = d ∧ in_chain c = true.
Proof.
  intros Ht Hin. destruct (tr_chain _ _ _ _ Ht) as [pe Hd].
  destruct (dseg_lookup _ _ _ _ _ _ _ _ Hd Hin) as (pv & nx & Hc). by eexists.
Qed.

Lemma in_middle {A} (x : A) l1 l2 : x ∈ l1 ++ x :: l2.
Proof. rewrite elem_of_app. right. left. Qed.

(** Handling a packet of an open connection, as [packet_spec] wants. *)
Lemma do_proxying_ok s es1 l d es2 fs xr source dst x :
  inv s (es1 ++ (l, d) :: es2) fs xr → io_ok x → room (info_traffic d) →
  ∃ s' cs, do_proxying source dst l x s = Ok (s', cs) ∧ conf s' = conf s ∧
    (alive s' = false ∧ io_verdict x = None ∨
     alive s' = alive s ∧
     ∃ tr close sent, packet_spec (max_allowed_requests (conf s)) (client_fd d =? source) (io_now x) (packet_left d x s)
         (info_traffic d) tr close (concat sent) ∧
       cs = map (Write dst) sent ++ (if close then closing_calls (with_traffic tr d) false else []) ∧
       if close then inv s' (es1 ++ es2) (l :: fs) xr else inv s' (es1 ++ (l, with_traffic tr d) :: es2) fs xr).
Proof.
  intros [Ht Ho] Hx Hroom. destruct (chain_lookup _ _ _ _ _ _ Ht (in_middle _ _ _)) as (c & Hc & Hd & Hi).
  pose proof (ow_traffic _ _ _ _ Ho) as [_ [Hpl _]%list.Forall_cons]%Forall_app. simpl in Hpl.
  unfold do_proxying. rewrite (deref_Some _ _ _ Hc), bind_ok, Hi, Hd. cbv iota. fold (touched (io_now x) (info_traffic d)).
  set (d1 := with_traffic _ d). destruct (set_data_ok _ _ _ _ _ d1 _ _ Ht) as (t1 & -> & Ht1). rewrite bind_ok.
  change (client_fd d1) with (client_fd d).
  assert (Ho1 : owns (with_table t1 s) (es1 ++ (l, d1) :: es2) xr) by (apply (owns_traffic _ _ _ _ _ _ (touched (io_now x) (info_traffic d))) in Ho; [destruct Ho; by split|done]).
  set (r := if 0 <? read_len x then _ else _).
  assert (Hr : (r = Ok None ∧ io_verdict x = None) ∨
    ∃ tr close s1 sent, r = Ok (Some (tr, close, s1, map (Write dst) sent)) ∧ table s1 = t1 ∧ owns s1 (es1 ++ (l, d1) :: es2) xr ∧
      kept s s1 ∧ packet_spec (max_allowed_requests (conf s)) (client_fd d =? source) (io_now x) (packet_left d x s)
        (info_traffic d) tr close (concat sent)).
  { subst r. destruct (Z.ltb_spec 0 (read_len x)) as [Hpos|Hle].
    - destruct (handle_packet_ok (with_table t1 s) _ _ l d1 d1 (client_fd d =? source) dst x Ho1) as [?|(tr & close & s1 & sent & Hr & Htb & Ho2 & Hk & Hp)];
        try done; [apply in_middle|by left|right]. exists tr, close, s1, sent. split_and!; first [done|apply Hk|by apply Hp].
    - right. exists (info_traffic d1), true, (with_table t1 s), []. split_and!; try done. unfold packet_spec.
      rewrite (packet_left_length d x s Hx). unfold read_len in Hle.
      destruct (io_read x) as [[|y b]|]; [done|simpl in Hle; lia|done]. }
  destruct Hr as [[-> Hv]|(tr & close & s1 & sent & -> & Htb & Ho2 & [Hk1 Hk2] & Hp)]; rewrite bind_ok.
  { eexists _, _. split; [done|]. split; [done|]. by left. }
  rewrite Htb. destruct (set_data_ok _ _ _ _ _ (with_traffic tr d1) _ _ Ht1) as (t3 & -> & Ht3). rewrite bind_ok.
  assert (Htr : plausible tr).
  { eapply packet_plausible; [exact Hp| |done..]. rewrite (packet_left_length d x s Hx). destruct Hx as [Hlen _].
    unfold read_len in Hlen. destruct (io_read x); simpl in *; lia. }
  assert (Hinv : inv (with_table t3 s1) (es1 ++ (l, with_traffic tr d) :: es2) fs xr).
  { split; [done|]. apply (owns_traffic _ _ _ _ _ _ tr) in Ho2; [|done]. destruct Ho2. by split. }
  destruct close.
  - destruct (close_ok _ _ _ _ _ _ _ false (io_dlclose x) Hinv) as (s4 & s5 & c5 & s6 & -> & Hce & Hde & Hc5 & Hfr & Hinv6 & [Hk3 Hk4]).
    rewrite bind_ok, Hce, bind_ok, Hde, bind_ok, Hc5, Hfr, bind_ok. eexists _, _. split; [done|]. simpl in Hk3, Hk4. split; [congruence|].
    right. split; [congruence|]. exists tr, true, sent. by split_and!.
  - eexists _, _. split; [done|]. split; [done|]. right. split; [done|]. exists tr, false, sent. rewrite app_nil_r. by split_and!.
Qed.

(** *** Idle connections *)

Lemma snapshot_ok (t : conn_table (connection D)) es pv p pe room :
  dseg (cells t) pv p es pe None → Z.of_nat (length es) ≤ room → snapshot (length es) p room t = Ok (map fst es).
Proof.
  revert pv p room. induction es as [|[l d] es IH]; intros pv p room; [done|].
  intros (-> & nx & Hl & Hes) Hr. cbn [length snapshot map fst] in *. rewrite (proj2 (Z.ltb_lt _ _)) by lia.
  rewrite (deref_Some _ _ _ Hl), bind_ok. simpl next. by rewrite (IH _ _ _ Hes) by lia.
Qed.

Lemma collect_ok s es fs xr :
  inv s es fs xr → ∃ s', collect true s = Ok (map fst es, s') ∧ inv s' es fs xr ∧ kept s s'.
Proof.
  intros [Ht Ho]. unfold collect. rewrite (tr_entries _ _ _ _ Ht). destruct (tr_chain _ _ _ _ Ht) as [pe Hd].
  destruct (Z.ltb_spec 0 (Z.of_nat (length es))) as [Hpos|Hz].
  - destruct (expiring_holder s) as [size|]; [destruct (Z.ltb_spec size (Z.of_nat (length es)))|].
    all: rewrite Nat2Z.id, (snapshot_ok _ _ _ _ _ _ Hd), bind_ok by lia; eexists; split; [done|]; split; [|done].
    all: split; [done|]; destruct Ho; by split.
  - destruct es; [|simpl in *; lia]. by eexists.
Qed.

(** What the clock says about a connection. *)
Definition idle_at (tv : timeval) (timeout : Z) (e : loc * connection D) : bool :=
  timeout <? elapsed_time tv (recent (info_traffic (snd e))).

Definition expiry_calls tv timeout es : list service_call :=
  es ≫= λ e, if idle_at tv timeout e then closing_calls (snd e) true else [].

Lemma expire_entries_ok ok tv timeout es : ∀ s keep fs xr,
  inv s (keep ++ es) fs xr →
  ∃ s' fs', expire_entries ok tv timeout (map fst es) s = Ok (s', expiry_calls tv timeout es) ∧
    inv s' (keep ++ List.filter (λ e, negb (idle_at tv timeout e)) es) fs' xr ∧ kept s s'.
Proof.
  induction es as [|[l d] es IH]; intros s keep fs xr Hinv; simpl.
  { exists s, fs. by split_and!. }
  pose proof Hinv as [Ht Ho]. destruct (chain_lookup _ _ _ _ _ _ Ht (in_middle _ _ _)) as (c & Hc & Hd & Hi).
  unfold is_idle. rewrite (deref_Some _ _ _ Hc), !bind_ok, Hd. change (timeout <? _) with (idle_at tv timeout (l, d)).
  destruct (idle_at tv timeout (l, d)) eqn:Hidle; simpl.
  - destruct (close_ok _ _ _ _ _ _ _ true ok Hinv) as (s1 & s2 & c2 & s3 & H1 & H2 & _ & _ & H3 & Hinv3 & [Hk1 Hk2]).
    unfold expire_entry. rewrite H1, bind_ok, H2, bind_ok, H3, !bind_ok.
    destruct (IH _ _ _ _ Hinv3) as (s' & fs' & -> & Hinv' & [Hk3 Hk4]). rewrite bind_ok. exists s', fs'. split; [done|].
    split; [done|]. split; congruence.
  - replace (keep ++ (l, d) :: es) with ((keep ++ [(l, d)]) ++ es) in Hinv by by rewrite <- app_assoc.
    destruct (IH _ _ _ _ Hinv) as (s' & fs' & -> & Hinv' & Hk). rewrite bind_ok. exists s', fs'. split; [done|].
    rewrite <- app_assoc in Hinv'. by split.
Qed.

Lemma clean_idle_ok s es fs xr ok tv timeout :
  inv s es fs xr →
  ∃ s' fs', clean_idle_connections true ok tv timeout s = Ok (s', expiry_calls tv timeout es) ∧
    inv s' (List.filter (λ e, negb (idle_at tv timeout e)) es) fs' xr ∧ kept s s'.
Proof.
  intros Hinv. destruct (collect_ok _ _ _ _ Hinv) as (s1 & Hcol & Hinv1 & [Hk1 Hk2]). unfold clean_idle_connections.
  rewrite Hcol, bind_ok. destruct (expire_entries_ok ok tv timeout es s1 [] fs xr Hinv1) as (s' & fs' & -> & Hinv' & [Hk3 Hk4]).
  exists s', fs'. split; [done|]. split; [done|]. split; congruence.
Qed.

(** *** Accepting *)

Lemma add_handle (e : event_loop handler loc) gm fd h a :
  ev_rep e gm → 0 ≤ fd →
  ∃ j e' gm', ev_add_event true fd h a e = Ok (j, e') ∧ ev_rep e' gm' ∧
    ∀ i r, gm' !! i = Some r ↔ gm !! i = Some r ∨ Z.of_nat i = j ∧ r = (fd, h, a).
Proof.
  intros Hrep Hfd. destruct (decide (Z.of_nat (size gm) < MAX_EVENTS)) as [Hs|Hs].
  - destruct (ev_add_event_ok e gm fd h a Hrep Hfd Hs) as (k & e' & -> & Hk & _ & Hrep').
    eexists _, _, _. split; [done|]. split; [done|]. intros i r. destruct (decide (k = i)) as [->|Hne].
    + rewrite lookup_insert_eq, Hk. naive_solver.
    + rewrite lookup_insert_ne by done. split; [by left|]. intros [?|[? _]]; [done|lia].
  - rewrite (ev_add_event_full e gm); [|done|].
    + eexists _, _, gm. split; [done|]. split; [done|]. intros i r. split; [by left|]. intros [?|[? _]]; [done|lia].
    + pose proof (size_le_max _ _ (proj1 Hrep)). pose proof (ev_max _ _ (proj1 Hrep)). lia.
Qed.

Lemma register_pair_ok s es fdc fds l e gm :
  ev_rep (ev s) gm → (∀ i r, gm !! i = Some r ↔ registered es i r) → 0 ≤ fdc → 0 ≤ fds →
  ae_epoll_client e = true → ae_epoll_server e = true →
  ∃ ch sh ev', register_pair fdc fds l e s = Ok (ch, sh, with_ev ev' s) ∧
    ∀ d, client_fd d = fdc → server_fd d = fds → client_handle d = ch → server_handle d = sh →
      ∃ gm', ev_rep ev' gm' ∧ ∀ i r, gm' !! i = Some r ↔ registered ((l, d) :: es) i r.
Proof.
  intros Hrep Hgm Hc Hs Hec Hes. unfold register_pair. rewrite Hec, Hes.
  destruct (add_handle _ _ fdc ClientToServer (Some l) Hrep Hc) as (ch & e1 & gm1 & -> & Hrep1 & Hgm1). rewrite bind_ok.
  destruct (add_handle _ _ fds ServerToClient (Some l) Hrep1 Hs) as (sh & e2 & gm2 & -> & Hrep2 & Hgm2). rewrite bind_ok.
  eexists ch, sh, e2. split; [done|]. intros d <- <- <- <-. exists gm2. split; [done|]. intros i r.
  rewrite Hgm2, Hgm1, Hgm. unfold registered. setoid_rewrite elem_of_cons. split.
  - intros [[[?|(l' & d' & ? & ?)]|?]|?]; [by left| |right; exists l, d; tauto|right; exists l, d; tauto].
    right. exists l', d'. tauto.
  - intros [?|(l' & d' & [[= -> ->]|?] & Hr)]; [by repeat left|tauto|]. left; left; right. by exists l', d'.
Qed.

(** What is assumed of the outside when a connection is established: there is memory,
    [epoll_ctl] succeeds, and a new descriptor is one that is not in use. *)
Definition establish_env (e : accept_env D) s : Prop :=
  ae_memory e = true ∧ ae_epoll_client e = true ∧ ae_epoll_server e = true ∧ ae_connect e ∉ open_fds s.

Lemma allocate_held s es r :
  (∃ held o, tracked (World (plugin s) held (segv_blocked s) true) o ∧ held ≡ₚ omap (packet_analyzer_data ∘ snd) es) →
  let '(data, p, _) := analyzer_allocate r (plugin s) in
  ∃ held o, tracked (World p held (segv_blocked s) true) o ∧
    held ≡ₚ option_list data ++ omap (packet_analyzer_data ∘ snd) es.
Proof.
  intros (h & o & Ht & Hh). pose proof (allocate_tracked r _ _ Ht) as Ha. simpl in Ha.
  destruct (analyzer_allocate r (plugin s)) as [[data p] cs]. destruct Ha as (o' & _ & Ht').
  eexists _, o'. split; [exact Ht'|]. rewrite <- Hh. by destruct data.
Qed.

Definition established_calls (r : option db_proxy_request) (ip : string) : list service_call :=
  match r with Some q => [ConnectionEstablished (sn q) (account q) ip] | None => [] end.

(** A connection is established: it becomes the first of the chain. *)
Lemma establish_ok s es fs xr fdc id ip r q dc e :
  table_rep (table s) es fs [] → owning s es [fdc] (option_list r ++ xr) → q = r ≫= (λ l, requests s !! l) →
  0 ≤ fdc → 0 ≤ ae_connect e → establish_env e s →
  ∃ s' l d fs', establish fdc id ip r dc e s = Ok (s', established_calls q ip) ∧ inv s' ((l, d) :: es) fs' xr ∧ kept s s' ∧
    client_fd d = fdc ∧ server_fd d = ae_connect e ∧ request_in_db d = r ∧ connection_id d = id ∧
    info_traffic d = Traffic 0 0 0 0 (ae_now e) ∧ (is_Some r → insert_id d = ae_inserted e).
Proof.
  intros Ht [Hst Hrq Hfd (gm & Hrep & Hgm) Hpl Htf] Hq H0 H1 (Hmem & Hec & Hes & Hfr). unfold establish. rewrite Hmem.
  destruct (allocate_connection_ok _ _ _ Ht) as (l & t1 & fs' & -> & _ & _ & Hfill). rewrite bind_ok.
  pose proof (allocate_held s es (ae_data e) Hpl) as Hal. destruct (analyzer_allocate _ _) as [[data p] cs]. simpl malloc.
  set (rip := fresh_loc (strings s)). cbv iota zeta. set (s1 := with_fds _ _).
  destruct (register_pair_ok s1 es fdc (ae_connect e) l e gm Hrep Hgm H0 H1 Hec Hes) as (ch & sh & ev' & -> & Hreg).
  rewrite bind_ok.
  assert (Hst' : elements (dom (<[rip := ip]> (strings s))) ≡ₚ rip :: omap (remote_ip ∘ snd) es)
    by (apply dom_fresh_insert; [apply fresh_loc_fresh|done]).
  assert (Hfd' : elements ({[ae_connect e]} ∪ open_fds s) ≡ₚ fdc :: ae_connect e :: (es ≫= fds_of))
    by (rewrite (elements_add _ _ _ Hfr Hfd); apply Permutation_swap).
  assert (Hown : ∀ d iid nth u t, d = Connection id fdc (ae_connect e) ch sh iid nth (ae_now e) r (Some rip) (access_counter dc) data
      (Traffic 0 0 0 0 (ae_now e)) → owns (with_table t (with_counters u (connection_counter s) (with_ev ev' s1))) ((l, d) :: es) xr).
  { intros d iid nth u t Hd. split; simpl open_fds; simpl strings; simpl requests; rewrite ?omap_cons_list, ?Hd.
    - exact Hst'.
    - by rewrite Permutation_app_swap_app, app_assoc.
    - exact Hfd'.
    - rewrite <- Hd. simpl. apply Hreg; by rewrite Hd.
    - exact Hal.
    - apply list.Forall_cons. split; [|done]. unfold plausible, INT_MAX. simpl. lia. }
  destruct r as [x|].
  - destruct (dom_delete_elements _ _ _ Hrq) as [[y Hy] _]. simpl requests. rewrite (deref_Some _ _ _ Hy), bind_ok.
    simpl in Hq. rewrite Hy in Hq. subst q.
    rewrite bind_ok. match goal with |- context [fill l ?d] => set (info := d) end. simpl table.
    destruct (attach_ok _ _ _ _ _ (Hfill info) (fill_lookup _ _ _)) as (t' & Hat & Htr). rewrite Hat, bind_ok.
    eexists _, l, info, fs'. split; [done|]. split; [split; [done|by eapply Hown]|]. by split_and!.
  - subst q. rewrite bind_ok. match goal with |- context [fill l ?d] => set (info := d) end. simpl table.
    destruct (attach_ok _ _ _ _ _ (Hfill info) (fill_lookup _ _ _)) as (t' & Hat & Htr). rewrite Hat, bind_ok.
    eexists _, l, info, fs'. split; [done|]. split; [split; [done|by eapply (Hown _ _ _ (user_counter s))]|].
    by split_and!.
Qed.

Lemma close_fd_ok s es xr fdc : owning s es [fdc] xr → owns (close_fd fdc s) es xr.
Proof. intros []. split; try done. by apply elements_remove. Qed.

(** At least one server is configured, and the threshold is an [int] that 7 can be taken from. *)
Definition conf_ok (c : settings) : Prop :=
  INT_MIN + 7 ≤ connection_threshold c ≤ INT_MAX ∧ ∃ servers, remote_servers c = Some servers ∧ number_of_remote_servers c = Z.of_nat (length servers) ∧
    0 < Z.of_nat (length servers).

(** The server [remote_servers[channel]] exists. *)
Lemma server_ok c ch : conf_ok c → 0 ≤ ch → ∃ servers a, remote_servers c = Some servers ∧
  array_get servers (if ch <? number_of_remote_servers c then ch else 0) = Ok a.
Proof.
  intros (_ & servers & Hs & Hn & Hpos) Hch. exists servers.
  destruct (array_get_ok servers (if ch <? number_of_remote_servers c then ch else 0)) as (a & _ & Ha); [|by exists a].
  rewrite Hn. destruct (Z.ltb_spec ch (Z.of_nat (length servers))); lia.
Qed.

Lemma threshold_floor_ok c ip v4 (e : accept_env D) : conf_ok c → ∃ z, threshold_floor c ip v4 e = Ok z.
Proof.
  intros [Ht _]. unfold threshold_floor. destruct (ae_available e), v4; try by eexists.
  destruct (_ && _); [|by eexists]. eexists. apply checked_int_ok. unfold is_int, INT_MIN, INT_MAX in *. lia.
Qed.

(** What is assumed of the outside when a connection is accepted. *)
Definition accept_env_ok (e : accept_env D) s : Prop := 0 ≤ ae_connect e → establish_env e s.

(** The channel the rules choose, if the peer is known. *)
Definition chosen (c : settings) (e : accept_env D) : option Z :=
  match ae_peer e with Some (ip, v4) => Some (channel_of (decide_channel c ip v4 e).1) | None => None end.

Definition admitted (c : settings) (e : accept_env D) : bool :=
  match chosen c e with Some ch => (0 <=? ch) && (0 <=? ae_connect e) | None => false end.

(** A request with a negative channel is looked up and then forgotten. *)
Definition forgets (e : accept_env D) : bool :=
  match ae_peer e, ae_available e with Some _, Some q => channel q <? 0 | _, _ => false end.

(** A client that is admitted becomes the first connection; one that is not leaves no
    trace, but for a forgotten request. *)
Definition accepted (e : accept_env D) (c : settings) (fdc id : Z) es es' xr xr' : Prop :=
  (if admitted c e
   then ∃ l d, es' = (l, d) :: es ∧ client_fd d = fdc ∧ server_fd d = ae_connect e ∧ connection_id d = id ∧
          (is_Some (request_in_db d) ↔ is_Some (ae_available e)) ∧ info_traffic d = Traffic 0 0 0 0 (ae_now e) ∧
          (is_Some (request_in_db d) → insert_id d = ae_inserted e)
   else es' = es) ∧
  (if forgets e then ∃ x, xr' = x :: xr else xr' = xr).

Lemma new_request_ok s es fdc xr q :
  let x := fresh_loc (requests s) in
  owning s es [fdc] xr → owning (with_requests (<[x := q]> (requests s)) s) es [fdc] (x :: xr).
Proof. intros x []. split; try done. simpl. apply dom_fresh_insert; [apply fresh_loc_fresh|done]. Qed.

Lemma admit_ok s es fs fdc id ip r xr dc e :
  table_rep (table s) es fs [] → owning s es [fdc] (option_list r ++ xr) → 0 ≤ fdc → conf_ok (conf s) → accept_env_ok e s →
  ∃ s' cs fs' es', (if 0 <=? ae_connect e then establish fdc id ip r dc e s
     else s' ← free_proxy_request_data r (close_fd fdc (with_lost (option_list (ae_unresolved e) ++ lost_fds s) s)); Ok (s', [])) = Ok (s', cs) ∧ inv s' es' fs' xr ∧ kept s s' ∧
    if 0 <=? ae_connect e
    then ∃ l d, es' = (l, d) :: es ∧ client_fd d = fdc ∧ server_fd d = ae_connect e ∧ connection_id d = id ∧
           request_in_db d = r ∧ info_traffic d = Traffic 0 0 0 0 (ae_now e) ∧ (is_Some r → insert_id d = ae_inserted e)
    else es' = es.
Proof.
  intros Ht Ho H0 Hc He. destruct (Z.leb_spec 0 (ae_connect e)) as [Hcon|Hcon].
  - destruct (establish_ok s es fs xr fdc id ip r _ dc e Ht Ho eq_refl H0 Hcon (He Hcon)) as (s' & l & d & fs' & -> & ? & ? & ?).
    eexists s', _, fs', _. split_and!; try done. exists l, d. naive_solver.
  - assert (Ho' : owns (close_fd fdc (with_lost (option_list (ae_unresolved e) ++ lost_fds s) s)) es (option_list r ++ xr))
      by (apply close_fd_ok; destruct Ho; by split). clear Ho. pose proof Ho' as []. rewrite <- app_assoc in ow_requests0.
    destruct (free_owned _ _ _ ow_requests0) as (h & Hfree & Hrq & _). unfold free_proxy_request_data. rewrite Hfree, !bind_ok.
    eexists _, _, fs, es. by split_and!.
Qed.

(** The channel of a request is what the request says. *)
Lemma chosen_available c e ip v4 q :
  ae_available e = Some q → channel_of (decide_channel (D := D) c ip v4 e).1 = channel q.
Proof. unfold decide_channel. by intros ->. Qed.

Lemma accepting_request_ok s es fs xr fdc id e :
  table_rep (table s) es fs [] → owning s es [fdc] xr → 0 ≤ fdc → conf_ok (conf s) → accept_env_ok e s →
  ∃ s' cs es' fs' xr', accepting_request fdc id e s = Ok (s', cs) ∧ inv s' es' fs' xr' ∧ kept s s' ∧
    accepted e (conf s) fdc id es es' xr xr'.
Proof.
  intros Ht Ho H0 Hc He. unfold accepting_request, accepted, admitted, chosen, forgets. destruct (ae_peer e) as [[ip v4]|].
  2: { eexists _, _, es, fs, xr. split; [done|]. split; [split; [done|by apply close_fd_ok]|]. done. }
  destruct (threshold_floor_ok (conf s) ip v4 e Hc) as [z ->]. rewrite bind_ok.
  pose proof (chosen_available (conf s) e ip v4) as Hav. destruct (decide_channel (conf s) ip v4 e) as [dc cs] eqn:Hdc. simpl fst in *.
  set (new := match ae_available e with Some _ => _ | None => (None, s) end).
  assert (∃ r s0, new = (r, s0) ∧ table s0 = table s ∧ owning s0 es [fdc] (option_list r ++ xr) ∧ kept s s0 ∧
    open_fds s0 = open_fds s ∧ (is_Some r ↔ is_Some (ae_available e))) as (r & s0 & -> & Htb & Ho0 & [Hk1 Hk2] & Hfds & Hr).
  { subst new. destruct (ae_available e) as [q|]; eexists _, _; (split; [done|]); split_and!; try done.
    by apply (new_request_ok s es fdc xr q). }
  destruct (Z.leb_spec 0 (channel_of dc)) as [Hch|Hch].
  - destruct (server_ok _ _ Hc Hch) as (servers & a & -> & Hget). rewrite bind_ok, Hget, bind_ok.
    destruct (admit_ok s0 es fs fdc id ip r xr dc e) as (s' & cs' & fs' & es' & Had & Hinv & [Hk3 Hk4] & Hes);
      try done; [by rewrite Htb|by rewrite Hk1|by unfold accept_env_ok, establish_env; rewrite Hfds|].
    assert (Hf : match ae_available e with Some q => channel q <? 0 | None => false end = false).
    { destruct (ae_available e) as [q|]; [|done]. rewrite <- (Hav q) by done. apply Z.ltb_ge. lia. }
    rewrite Hf. exists s'. simpl. destruct (0 <=? ae_connect e).
    + rewrite Had, bind_ok. eexists _, es', fs', xr. split; [done|]. split; [done|]. split; [split; congruence|]. split; [|done].
      destruct Hes as (l & d & -> & ? & ? & ? & <- & ? & ?). exists l, d. by split_and!.
    + apply bind_ok_inv in Had as (s1 & -> & [= -> <-]). rewrite bind_ok. eexists _, es', fs', xr. split; [done|].
      split; [done|]. split; [split; congruence|]. by split.
  - eexists _, _, es, fs, (option_list r ++ xr). split; [done|]. split; [|split; [by split; simpl|]].
    { split; [by simpl; rewrite Htb|by apply close_fd_ok]. }
    split; [done|]. destruct (ae_available e) as [q|], r as [x|]; try (by destruct Hr as [Hr1 Hr2]; naive_solver).
    rewrite <- (Hav q) by done. rewrite (proj2 (Z.ltb_lt _ _)) by lia. by exists x.
Qed.

(** [accept] returns a descriptor that is not in use, or -1. *)
Lemma main_listener_ok s es fs xr sock e :
  inv s es fs xr → conf_ok (conf s) → (sock ≠ -1 → 0 ≤ sock ∧ sock ∉ open_fds s) →
  (0 ≤ ae_connect e → establish_env e s ∧ ae_connect e ≠ sock) →
  ∃ s' cs es' fs' xr', main_listener sock e s = Ok (s', cs) ∧ inv s' es' fs' xr' ∧ kept s s' ∧
    if sock =? -1 then es' = es ∧ xr' = xr
    else accepted e (conf s) sock (connection_counter s + 1) es es' xr xr'.
Proof.
  intros [Ht Ho] Hc Hs He. unfold main_listener. destruct (Z.eqb_spec sock (-1)) as [->|Hne].
  { exists s, [], es, fs, xr. by split_and!. }
  destruct (Hs Hne) as [H0 Hfr]. set (s1 := with_counters _ _ _).
  destruct (accepting_request_ok s1 es fs xr sock (connection_counter s + 1) e) as (s' & cs & es' & fs' & xr' & -> & Hinv & Hk & Hacc); try done.
  { destruct Ho. split; try done. simpl. by apply elements_add. }
  { intros Hcon. destruct (He Hcon) as [(? & ? & ? & ?) ?]. split_and!; try done. simpl. set_solver. }
  exists s', cs, es', fs', xr'. by split_and!.
Qed.

(** A cell marked as in the chain is in it. *)
Lemma chain_member (t : conn_table (connection D)) es fs lb l c :
  table_rep t es fs lb → cells t !! l = Some c → in_chain c = true → (l, c_data c) ∈ es.
Proof.
  intros Ht Hc Hi. assert (Hl : l ∈ map fst es ++ fs ++ lb) by (eapply tr_owned; eauto).
  apply elem_of_app in Hl as [([l' d] & -> & Hin)%list_elem_of_fmap|Hl].
  - destruct (chain_lookup _ _ _ _ _ _ Ht Hin) as (c' & Hc' & <- & _). simpl in *. congruence.
  - pose proof (tr_idle _ _ _ _ Ht l c Hl Hc). congruence.
Qed.
(** [l] is an open connection with the data [d]. *)
Definition open_at s (l : loc) d : Prop := ∃ ce, cells (table s) !! l = Some ce ∧ in_chain ce = true ∧ c_data ce = d.

Lemma open_at_iff s es fs xr l d : inv s es fs xr → open_at s l d ↔ (l, d) ∈ es.
Proof.
  intros [Ht _]. split.
  - intros (ce & Hc & Hi & <-). by eapply chain_member.
  - intros Hin. destruct (chain_lookup _ _ _ _ _ _ Ht Hin) as (c & ? & ? & ?). by exists c.
Qed.

(** *** Any run *)

(** What can happen to the proxy: a round of its event loop, the expiry of idle
    connections, and what an administrator may do. *)
Inductive event :=
  | Round (ready : option (list Z)) (sock : Z) (e : accept_env D) (x : io)
  | Expire (dlclose_ok : bool) (tv : timeval) (timeout : Z)
  | Plugin (r : request (I := I) (L := L) (D := D))
  | SetDefault (ch : Z)
  | SetFallback (ch : Z).

(** A request for the plugin that is not made by a connection. *)
Definition administrative (r : request (I := I) (L := L) (D := D)) : bool :=
  match r with Load _ _ _ _ _ | Unload _ | SetEnable _ | SetSafeMode _ => true | _ => false end.

Definition administer (r : request (I := I) (L := L) (D := D)) (s : proxy I L D) : outcome (proxy I L D) :=
  '(w, _) ← PacketAnalyzer.step r (World (plugin s) [] (segv_blocked s) true);
  Ok (with_plugin (an w) (blocked w) s).

Definition happen (v : event) s : outcome (proxy I L D * list service_call) :=
  if alive s then
    match v with
    | Round ready sock e x => loop_once ready sock e x s
    | Expire ok tv timeout => clean_idle_connections true ok tv timeout s
    | Plugin r => s' ← administer r s; Ok (s', [])
    | SetDefault ch => Ok ((set_default_channel ch s).2, [])
    | SetFallback ch => Ok ((set_fallback_channel ch s).2, [])
    end
  else Ok (s, []).

Fixpoint happens (vs : list event) s : outcome (proxy I L D * list service_call) :=
  match vs with
  | [] => Ok (s, [])
  | v :: vs' => '(s1, cs1) ← happen v s; '(s2, cs2) ← happens vs' s1; Ok (s2, cs1 ++ cs2)
  end.

(** What the kernel and the C library promise at each event: descriptors are
    non-negative and a new one is not in use, [read] and [write] respect their sizes,
    there is memory and [epoll_ctl] succeeds, and a symbol that is found has an address. And no
    connection has had as many packets from one side as an [int] counts. *)
Definition event_ok (v : event) s : Prop :=
  match v with
  | Round ready sock e x =>
      (∀ l fd, ready = Some l → fd ∈ l → 0 ≤ fd) ∧ (sock ≠ -1 → 0 ≤ sock ∧ sock ∉ open_fds s) ∧
      (0 ≤ ae_connect e → establish_env e s ∧ ae_connect e ≠ sock) ∧ io_ok x ∧
      ∀ l d, open_at s l d → room (info_traffic d)
  | Plugin r => administrative r = true ∧ match r with Load _ _ _ _ sym => sym ≠ SymAddress None | _ => True end
  | _ => True
  end.

Fixpoint events_ok (vs : list event) s : Prop :=
  match vs with
  | [] => True
  | v :: vs' => event_ok v s ∧ ∀ s' cs, happen v s = Ok (s', cs) → events_ok vs' s'
  end.

Definition forgetful (v : event) : bool := match v with Round _ _ e _ => forgets e | _ => false end.

(** The state is well-formed, with [n] forgotten requests. *)
Definition good (n : Z) s : Prop := conf_ok (conf s) ∧ ∃ es fs xr, inv s es fs xr ∧ Z.of_nat (length xr) = n.

(** What an event leads to: a well-formed state, or the plugin has killed the process. *)
Definition next_good (n : Z) (v : event) s' : Prop :=
  alive s' = true → ∃ m, good m s' ∧ m ≤ n + if forgetful v then 1 else 0.

Lemma next_same n v s es fs xr : n = Z.of_nat (length xr) → conf_ok (conf s) → inv s es fs xr → next_good n v s.
Proof. intros -> Hc Hinv _. exists (Z.of_nat (length xr)). split; [split; [done|by exists es, fs, xr]|]. destruct (forgetful v); lia. Qed.

(** The threshold of the configuration is never written. *)
Definition same_threshold s s' : Prop := connection_threshold (conf s') = connection_threshold (conf s).

(** The event loop only calls a handler with a connection of the chain. *)
Lemma packet_good s es fs xr l d v x source dst :
  inv s es fs xr → conf_ok (conf s) → io_ok x → room (info_traffic d) → (l, d) ∈ es →
  ∃ s' cs, do_proxying source dst l x s = Ok (s', cs) ∧ next_good (Z.of_nat (length xr)) v s' ∧ same_threshold s s'.
Proof.
  intros Hinv Hc Hx Hroom Hin. apply list_elem_of_split in Hin as (es1 & es2 & ->).
  destruct (do_proxying_ok _ _ _ _ _ _ _ source dst x Hinv Hx Hroom) as (s' & cs & Hdo & Hcf & Hres).
  exists s', cs. split; [done|]. split; [|by unfold same_threshold; rewrite Hcf].
  destruct Hres as [[Hdead _]|(_ & tr & close & sent & _ & _ & Hinv')].
  - unfold next_good. by rewrite Hdead.
  - destruct close; eapply next_same; by rewrite ?Hcf.
Qed.

Lemma round_good s es fs xr ready sock e x :
  inv s es fs xr → conf_ok (conf s) → event_ok (Round ready sock e x) s →
  ∃ s' cs, loop_once ready sock e x s = Ok (s', cs) ∧ next_good (Z.of_nat (length xr)) (Round ready sock e x) s' ∧
    same_threshold s s'.
Proof.
  intros Hinv Hc (Hrd & Hs & He & Hx & Hroom). pose proof Hinv as [Ht []]. destruct ow_events0 as (gm & Hrep & Hgm).
  unfold loop_once. destruct (ev_looping_ok _ _ ready Hrep Hrd) as ([[[h fd] a]|] & -> & Hr); rewrite bind_ok.
  2: { exists s, []. split; [done|]. split; [by eapply next_same|done]. }
  destruct Hr as [i Hi]. apply Hgm in Hi as [(fd' & _ & [= -> -> ->])|(l & d & Hin & Hr)].
  - destruct (main_listener_ok _ _ _ _ sock e Hinv Hc Hs He) as (s' & cs & es' & fs' & xr' & -> & Hinv' & [Hk _] & Hacc).
    exists s', cs. split; [done|]. split; [|by unfold same_threshold; rewrite Hk]. intros _. exists (Z.of_nat (length xr')). split; [split; [by rewrite Hk|by eexists _, _, _]|].
    simpl. destruct (Z.eqb_spec sock (-1)); [destruct Hacc as [_ ->]; destruct (forgets e); lia|].
    destruct Hacc as [_ Hf]. destruct (forgets e); [destruct Hf as [y ->]; simpl; lia|subst; lia].
  - destruct (chain_lookup _ _ _ _ _ _ Ht Hin) as (c & Hcell & _).
    pose proof (Hroom l d (proj2 (open_at_iff _ _ _ _ _ _ Hinv) Hin)) as Hrm. destruct Hr as [[_ [= -> -> ->]]|[_ [= -> -> ->]]]; unfold proxy_from_client_to_server, proxy_from_server_to_client;
      rewrite (deref_Some _ _ _ Hcell), bind_ok; by eapply packet_good.
Qed.

Lemma administer_good s es fs xr r :
  inv s es fs xr → event_ok (Plugin r) s → ∃ s', administer r s = Ok s' ∧ inv s' es fs xr ∧ kept s s'.
Proof.
  intros [Ht []] [Hadm Hsym]. destruct ow_plugin0 as (h & o & Htr & Hh).
  destruct (step_tracked r (World (plugin s) h (segv_blocked s) true) o Htr) as (w & cs & o' & Hstep & _ & Htr').
  { by destruct r. }
  assert (held w = h ∧ running w = true ∧
    ∃ cs', PacketAnalyzer.step r (World (plugin s) [] (segv_blocked s) true) = Ok (World (an w) [] (blocked w) true, cs')) as (Hh' & Hrun & cs' & Hst).
  { unfold PacketAnalyzer.step in *. simpl in *. destruct r; try done.
    - destruct (load_packet_analyzer _ _ _ _ _ _) as [[[b a] l]| |]; try done. simpl in *. simplify_eq. by split_and!; [..|eexists].
    - destruct (module_unload _ _) as [[b a] l]. simplify_eq. by split_and!; [..|eexists].
    - simplify_eq. by split_and!; [..|eexists].
    - simplify_eq. by split_and!; [..|eexists]. }
  unfold administer. rewrite Hst, bind_ok. eexists. split; [done|]. split; [|done]. split; [done|]. split; try done.
  exists h, o'. split; [|done]. simpl. destruct w as [a h' b' run]. simpl in *. by subst.
Qed.

Lemma set_conf_good s es fs xr c : inv s es fs xr → inv (with_conf c s) es fs xr.
Proof. intros [Ht []]. by split. Qed.

Lemma channel_conf_ok s ch : conf_ok (conf s) →
  conf_ok (conf (set_default_channel ch s).2) ∧ conf_ok (conf (set_fallback_channel ch s).2).
Proof.
  intros (H0 & servers & H1 & H2 & H3). unfold set_default_channel, set_fallback_channel. simpl.
  destruct (_ && _); split; (split; [done|]); by exists servers.
Qed.

Lemma happen_good n v s :
  good n s → alive s = true → event_ok v s →
  ∃ s' cs, happen v s = Ok (s', cs) ∧ next_good n v s' ∧ same_threshold s s'.
Proof.
  intros (Hc & es & fs & xr & Hinv & <-) Hal Hok. unfold happen. rewrite Hal. destruct v as [ready sock e x|ok tv timeout|r|ch|ch].
  - by eapply round_good.
  - destruct (clean_idle_ok _ _ _ _ ok tv timeout Hinv) as (s' & fs' & -> & Hinv' & [Hk _]). eexists _, _. split; [done|].
    split; [eapply next_same; by rewrite ?Hk|by unfold same_threshold; rewrite Hk].
  - destruct (administer_good _ _ _ _ _ Hinv Hok) as (s' & -> & Hinv' & [Hk _]). eexists _, _. split; [done|].
    split; [eapply next_same; by rewrite ?Hk|by unfold same_threshold; rewrite Hk].
  - eexists _, _. split; [done|]. split; [eapply next_same; [done|by apply channel_conf_ok|by apply set_conf_good]|].
    unfold same_threshold. simpl. by destruct (_ && _).
  - eexists _, _. split; [done|]. split; [eapply next_same; [done|by apply channel_conf_ok|by apply set_conf_good]|].
    unfold same_threshold. simpl. by destruct (_ && _).
Qed.

Lemma happens_dead vs s : alive s = false → happens vs s = Ok (s, []).
Proof. intros Hd. induction vs as [|v vs IH]; [done|]. simpl. unfold happen. by rewrite Hd, bind_ok, IH. Qed.

Lemma happens_good vs : ∀ n s, good n s → events_ok vs s →
  ∃ s' cs, happens vs s = Ok (s', cs) ∧ (alive s' = true → ∃ m, good m s' ∧ m ≤ n + countb forgetful vs).
Proof.
  induction vs as [|v vs IH]; intros n s Hg Hok; simpl.
  { exists s, []. split; [done|]. intros _. exists n. split; [done|lia]. }
  destruct Hok as [Hv Hvs]. destruct (alive s) eqn:Hal.
  - destruct (happen_good n v s Hg Hal Hv) as (s1 & cs1 & Hh & Hn & _). rewrite Hh, bind_ok.
    destruct (alive s1) eqn:Hal1.
    + destruct (Hn Hal1) as (m & Hm & Hle). destruct (IH m s1 Hm (Hvs _ _ Hh)) as (s' & cs & -> & Hres). rewrite bind_ok.
      eexists _, _. split; [done|]. intros Ha. destruct (Hres Ha) as (m' & Hm' & Hle'). exists m'. split; [done|]. lia.
    + rewrite (happens_dead vs s1 Hal1), bind_ok. eexists _, _. split; [done|]. by rewrite Hal1.
  - unfold happen. rewrite Hal, bind_ok, (happens_dead vs s Hal), bind_ok. eexists _, _. split; [done|]. by rewrite Hal.
Qed.
End safety.
