(* ===== verification/Startup.v ===== *)
(** * proxying.c: configuration, sockets and statistics

    What [proxy_main] does before its loop: the settings are read from the
    configuration ([proxy_settings]) and the servers' names are split by the regular
    expression library, a parameter. The functions that open sockets keep the set of
    open descriptors; the answers of the system calls are arguments. [tell_time]
    computes the statistics that are logged every quarter of an hour; its two
    floating-point rates are not modelled. *)

From S2P Require Import Prelude SysConf Proxying ProxySafety.

(** ** Configuration *)

Section configuration.
(** [pcre2_match] of the pattern for host:port: the first group, and the subject from
    the start of the second group on. *)
Variable re_match : string → option (string * string).

Fixpoint read_servers (n : nat) (i : Z) (servers : option (list string)) : outcome (option (list (string * Z))) :=
  match n with
  | O => Ok (Some [])
  | S n' =>
      names ← match servers with Some l => Ok l | None => Undefined NullDeref end;
      name ← array_get names i;
      match re_match name with
      | None => Ok None
      | Some (host, port) =>
          rest ← read_servers n' (i + 1) servers;
          Ok (match rest with Some l => Some ((host, atoi port) :: l) | None => None end)
      end
  end.

(** [None]: the thread returns before it listens. The white list is read when the
    first client arrives, from the same configuration. *)
Definition proxy_settings (c : sysconf) : outcome (option settings) :=
  let default_server := sysconf_int_or_default "default-server" 0 c in
  found ← string_list "servers" c;
  let '(servers, number_of_remote_servers) := match found with Some (l, n) => (l, n) | None => (None, 0) end in
  let connection_threshold := sysconf_int_or_default "threshold" 5 c in
  let persist_threshold := sysconf_int_or_default "persist-threshold" 5 c in
  let max_persistent_time := sysconf_int_or_default "max-persistent-day" 5 c * 86400 in
  let max_allowed_requests := sysconf_int_or_default "max-allowed-requests" 6 c in
  let on_failed_channel := sysconf_int_or_default "on-failed-channel" 0 c in
  remote_servers ← (if 0 <? number_of_remote_servers then
                      r ← read_servers (Z.to_nat number_of_remote_servers) 0 servers;
                      Ok (match r with Some l => Some (Some l) | None => None end)
                    else Ok (Some None));
  white ← string_list "white-list-ip-prefix" c;
  match remote_servers with
  | None => Ok None
  | Some servers' =>
      Ok (Some (Settings default_server number_of_remote_servers servers' connection_threshold persist_threshold
                  max_persistent_time max_allowed_requests on_failed_channel
                  (match white with Some (l, _) => l | None => None end)))
  end.

Lemma read_servers_ok names : ∀ pre,
  read_servers (length names) (Z.of_nat (length pre)) (Some (pre ++ names)) =
    Ok (mapM (λ x, '(host, port) ← re_match x; Some (host, atoi port)) names).
Proof.
  induction names as [|x names IH]; intros pre; [done|]. cbn [length read_servers]. rewrite bind_ok.
  rewrite (array_get_Some _ _ x), bind_ok.
  - simpl. destruct (re_match x) as [[host port]|]; [|done]. simpl.
    specialize (IH (pre ++ [x])). rewrite length_app, <- app_assoc in IH. simpl in IH.
    replace (Z.of_nat (length pre + 1)) with (Z.of_nat (length pre) + 1) in IH by lia. rewrite IH. simpl. by destruct (mapM _ names).
  - apply zlookup_Some. split; [lia|]. rewrite Nat2Z.id. by apply list_lookup_middle.
Qed.

Definition servers_of (ds : list definition) : list string :=
  match last_definition "servers" ds with Some (DefStrings _ x l) => map unquote (SysConf.kept (x :: l)) | _ => [] end.

Definition white_list_of (ds : list definition) : option (list string) :=
  match last_definition "white-list-ip-prefix" ds with
  | Some (DefStrings _ x l) => Some (map unquote (SysConf.kept (x :: l)))
  | _ => None
  end.

(** What the configuration makes of the proxy, whatever its definitions: if every entry
    of [servers] has the form host:port, the proxy starts with exactly these servers, at most
    the last 64 of them; if one does not, the thread ends and the proxy never listens; and
    without servers it starts all the same, with no server to index. (A threshold of the
    last seven negative [int]s, which only digits beyond the range of [int] can give, is one the
    admission cannot take 7 from.) *)
Theorem servers_configured ds :
  Forall wf_definition ds →
  ∃ c r, perform_all ds empty_conf = Ok c ∧ proxy_settings c = Ok r ∧
    match mapM (λ x, '(host, port) ← re_match x; Some (host, atoi port)) (servers_of ds) with
    | None => r = None
    | Some [] => ∃ s, r = Some s ∧ remote_servers s = None ∧ number_of_remote_servers s = 0 ∧ ¬ conf_ok s ∧ white_list_conf s = white_list_of ds ∧
                   default_server s = sysconf_int_or_default "default-server" 0 c
    | Some l => ∃ s, r = Some s ∧ remote_servers s = Some l ∧ number_of_remote_servers s = Z.of_nat (length l) ∧
                (INT_MIN + 7 ≤ connection_threshold s → conf_ok s)
    end.
Proof.
  intros Hds. destruct (perform_all_ptr ds Hds) as (c & Hc & Hp). exists c.
  assert (Hw : ∃ w, string_list "white-list-ip-prefix" c = Ok w ∧ match w with Some (l, _) => l | None => None end = white_list_of ds).
  { unfold string_list, white_list_of. rewrite Hp. destruct (last_definition _ ds) as [[]|]; simpl; by eexists. }
  destruct Hw as (w & Hw & Hwl). unfold proxy_settings. rewrite Hw.
  assert (Ht : is_int (sysconf_int_or_default "threshold" 5 c)).
  { unfold sysconf_int_or_default. rewrite Hp. destruct (last_definition _ ds) as [d|]; [apply meaning_int|done]. }
  assert (Hs : string_list "servers" c = Ok (match servers_of ds with
      | [] => None | l => Some (Some l, Z.of_nat (length l)) end)).
  { unfold string_list, servers_of. rewrite Hp. destruct (last_definition "servers" ds) as [[i v|i v|i|i|i x l|i x l]|]; try done. simpl.
    assert (Hk : (0 < length (SysConf.kept (x :: l)))%nat) by (unfold SysConf.kept; rewrite length_drop; simpl; lia).
    destruct (SysConf.kept (x :: l)) as [|y k]; [simpl in Hk; lia|]. simpl. by rewrite length_map. }
  rewrite Hs, bind_ok. destruct (servers_of ds) as [|y l].
  - eexists. split; [done|]. split; [done|]. simpl. eexists. split; [done|]. split_and!; try done. by intros (_ & ? & [=] & _).
  - cbv iota zeta. rewrite (proj2 (Z.ltb_lt _ _)) by (simpl; lia). rewrite Nat2Z.id.
    pose proof (read_servers_ok (y :: l) []) as Hr. simpl app in Hr. change (Z.of_nat (length [])) with 0 in Hr. rewrite Hr, !bind_ok.
    destruct (mapM _ (y :: l)) as [k|] eqn:Hm; [|eexists; by split_and!].
    assert (Hlen : length k = length (y :: l)) by (apply mapM_Some in Hm; by apply Forall2_length in Hm).
    eexists. split; [done|]. split; [done|]. destruct k as [|z k]; [done|]. eexists. split; [done|]. simpl remote_servers.
    rewrite Hlen. split_and!; try done. intros Hlow. split; [|eexists; by rewrite Hlen]. simpl in *. unfold is_int in Ht. lia.
Qed.
End configuration.

(** ** Sockets *)

(** What the system answers: the new descriptor, and whether [bind] and
    [getsockname] succeed. *)
Record socket_env := SocketEnv { se_socket : Z; se_bind : bool; se_getsockname : bool }.

Definition init_socket (e : socket_env) (opened : gset Z) : Z * gset Z :=
  let fd := se_socket e in
  if fd <? 0 then (-1, opened)
  else
    let opened1 := {[fd]} ∪ opened in
    if se_bind e then
      if se_getsockname e then (fd, opened1) else (-1, opened1 ∖ {[fd]})
    else (-1, opened1 ∖ {[fd]}).

(** The same calls for IPv4; [port] 0 leaves the choice to the system. *)
Definition init_socket_v4 (e : socket_env) (opened : gset Z) : Z * gset Z :=
  let fd := se_socket e in
  if fd <? 0 then (-1, opened)
  else
    let opened1 := {[fd]} ∪ opened in
    if se_bind e then
      if se_getsockname e then (fd, opened1) else (-1, opened1 ∖ {[fd]})
    else (-1, opened1 ∖ {[fd]}).

(** [struct sockaddr_in]: the family, the four bytes of the address, the port. *)
Record sockaddr_in := SockaddrIn { sin_family : Z; sin_addr : list Byte.byte; sin_port : Z }.

Definition AF_INET : Z := 2.

Section connect.
(** [inet_pton]: the four bytes, [None] if it returns 0. [gethostbyname]: the type and the
    first address. [connect]: whether it succeeds. *)
Variable inet_pton : string → option (list Byte.byte).
Variable gethostbyname : string → option (Z * list Byte.byte).
Variable connect : sockaddr_in → bool.

Definition connect_host (ip : string) (port : Z) (e : socket_env) (opened : gset Z) : Z * gset Z :=
  let '(fd, opened1) := init_socket_v4 e opened in
  if fd <? 0 then (-1, opened1)
  else
    match match inet_pton ip with
          | Some a => Some (AF_INET, a)
          | None => match gethostbyname ip with
                    | Some (h_addrtype, h_addr) =>
                        (* at most four bytes are copied over zeros *)
                        let a := take 4 h_addr in
                        Some (h_addrtype, a ++ replicate (4 - length a) Byte.x00)
                    | None => None
                    end
          end with
    | None => (-1, opened1)
    | Some (family, a) =>
        if connect (SockaddrIn family a (port mod 65536)) then (fd, opened1) else (-1, opened1 ∖ {[fd]})
    end.

(** The address a name stands for. *)
Definition resolves (ip : string) : Prop := is_Some (inet_pton ip) ∨ is_Some (gethostbyname ip).

Lemma init_socket_v4_ok e opened :
  se_socket e ∉ opened →
  let '(fd, opened') := init_socket_v4 e opened in
  (fd = -1 ∧ opened' = opened) ∨ (0 ≤ fd ∧ fd = se_socket e ∧ opened' = {[fd]} ∪ opened).
Proof.
  intros Hfr. unfold init_socket_v4. destruct (Z.ltb_spec (se_socket e) 0); [by left|].
  assert (({[se_socket e]} ∪ opened) ∖ {[se_socket e]} = opened) as -> by set_solver.
  destruct (se_bind e), (se_getsockname e); first [by left|by right].
Qed.

(** Connecting to a server: on success exactly one descriptor is open that was not, it is
    not negative, and it is the one [connect] was called on; on failure no descriptor is left
    open, except that a server name that cannot be resolved leaves the new socket open for
    good each time it is tried. *)
Theorem connect_host_descriptors ip port e opened :
  se_socket e ∉ opened →
  let '(fd, opened') := connect_host ip port e opened in
  (0 ≤ fd → fd = se_socket e ∧ opened' = {[fd]} ∪ opened ∧ ∃ a, connect a = true ∧ sin_port a = port mod 65536) ∧
  (fd < 0 → resolves ip → opened' = opened) ∧
  (¬ resolves ip → fd = -1 ∧ (0 ≤ se_socket e → se_bind e = true → se_getsockname e = true →
     opened' = {[se_socket e]} ∪ opened)).
Proof.
  intros Hfr. unfold connect_host, resolves. pose proof (init_socket_v4_ok e opened Hfr) as Hok.
  assert (Hall : 0 ≤ se_socket e → se_bind e = true → se_getsockname e = true →
    init_socket_v4 e opened = (se_socket e, {[se_socket e]} ∪ opened)).
  { intros H0 Hb Hg. unfold init_socket_v4. rewrite Hb, Hg. destruct (Z.ltb_spec (se_socket e) 0); [lia|done]. }
  destruct (init_socket_v4 e opened) as [fd opened1]. destruct (Z.ltb_spec fd 0) as [Hneg|Hpos].
  - destruct Hok as [[-> ->]|?]; [|lia]. split_and!; [lia|done|]. intros _. split; [done|]. intros H1 H2 H3.
    specialize (Hall H1 H2 H3). simplify_eq. lia.
  - destruct Hok as [[-> _]|(_ & -> & ->)]; [lia|].
    assert (Hback : ({[se_socket e]} ∪ opened) ∖ {[se_socket e]} = opened) by set_solver.
    destruct (inet_pton ip) as [a|]; [|destruct (gethostbyname ip) as [[ty a]|]].
    + destruct (connect _) eqn:Hc; (split_and!; [intros; try lia; eauto|intros; try lia; done|intros Hn; destruct Hn; eauto]).
    + destruct (connect _) eqn:Hc; (split_and!; [intros; try lia; eauto|intros; try lia; done|intros Hn; destruct Hn; eauto]).
    + split_and!; [lia|intros _ [[? [=]]|[? [=]]]|done].
Qed.
End connect.

(** ** Statistics *)

Record stat := Stat { last_user_counter : Z; last_connection_counter : Z; last_time : Z }.

Record time_report := TimeReport {
  r_day : Z; r_hour : Z; r_min : Z; r_sec : Z;
  r_users : Z; r_users_total : Z;
  r_connections : Z; r_duration : Z;   (* what the recent rate divides *)
}.

(** Times are whole seconds; a rate is the quotient of a count and a duration. *)
Definition tell_time (now start_time user_counter connection_counter : Z) (st : stat) : time_report * stat :=
  let duration := now - start_time in
  let day := int32 (Z.quot duration 86400) in
  let seconds := int32 (Z.rem duration 86400) in
  let hour := Z.quot seconds 3600 in
  let min := Z.quot (Z.rem seconds 3600) 60 in
  let sec := Z.rem seconds 60 in
  let duration2 := now - (if last_time st =? 0 then start_time else last_time st) in
  (TimeReport day hour min sec (uint32 (user_counter - last_user_counter st)) user_counter
     (connection_counter - last_connection_counter st) duration2,
   Stat user_counter connection_counter now).

Lemma split_seconds m : 0 ≤ m < 86400 →
  Z.quot m 3600 * 3600 + Z.quot (Z.rem m 3600) 60 * 60 + Z.rem m 60 = m ∧
  0 ≤ Z.quot m 3600 < 24 ∧ 0 ≤ Z.quot (Z.rem m 3600) 60 < 60 ∧ 0 ≤ Z.rem m 60 < 60.
Proof. intros Hm. Z.to_euclidean_division_equations. lia. Qed.

Lemma split_days t : 0 ≤ t < 86400 * 2147483648 →
  int32 (Z.quot t 86400) * 86400 + int32 (Z.rem t 86400) = t ∧ 0 ≤ int32 (Z.rem t 86400) < 86400.
Proof.
  intros Ht. pose proof (Z.quot_rem t 86400 ltac:(lia)) as Hd. pose proof (Z.rem_bound_pos t 86400 ltac:(lia) ltac:(lia)) as Hr.
  rewrite !int32_id by (unfold is_int, INT_MIN, INT_MAX; lia). lia.
Qed.

Lemma uint32_difference u n : 0 ≤ n < 4294967296 → uint32 (uint32 (u + n) - uint32 u) = n.
Proof. intros Hn. unfold uint32. rewrite <- Zminus_mod. replace (u + n - u) with n by lia. by apply Z.mod_small. Qed.

(** The uptime that is logged is the uptime: the days, hours, minutes and seconds add up
    to the time since the start, each in its range; and the users and connections that are
    logged as recent are those since the last report, also when the 32-bit counter of users
    wrapped around in between. *)
Theorem uptime_reported t0 t1 start_time u0 n c0 c1 st :
  start_time ≤ t1 → t1 - start_time < 86400 * 2147483648 → 0 ≤ u0 → 0 ≤ n < 4294967296 → t0 ≠ 0 →
  let st1 := (tell_time t0 start_time (uint32 u0) c0 st).2 in
  let r := (tell_time t1 start_time (uint32 (u0 + n)) c1 st1).1 in
  r_day r * 86400 + r_hour r * 3600 + r_min r * 60 + r_sec r = t1 - start_time ∧
  0 ≤ r_hour r < 24 ∧ 0 ≤ r_min r < 60 ∧ 0 ≤ r_sec r < 60 ∧
  r_users r = n ∧ r_connections r = c1 - c0 ∧ r_duration r = t1 - t0.
Proof.
  intros H0 H1 Hu Hn Ht st1 r. subst st1 r. cbn [tell_time fst snd r_day r_hour r_min r_sec r_users r_connections r_duration
    last_user_counter last_connection_counter last_time]. rewrite (proj2 (Z.eqb_neq _ _) Ht).
  destruct (split_days (t1 - start_time) ltac:(lia)) as [Hd Hs]. destruct (split_seconds _ Hs) as (Hsum & Hh & Hm & Hsec).
  rewrite uint32_difference by done. split_and!; first [done|lia].
Qed.

(** *** Witnesses *)

(** A stand-in for the regular expression: the name has no port. *)
Definition sample_match (x : string) : option (string * string) := Some (x, "25"%string).

Lemma servers_configured_witness :
  ∃ c s, perform_all [DefStrings "servers" (quoted "mail") []] empty_conf = Ok c ∧
    proxy_settings sample_match c = Ok (Some s) ∧ remote_servers s = Some [("mail"%string, 25)] ∧ conf_ok s.
Proof.
  destruct (servers_configured sample_match [DefStrings "servers" (quoted "mail") []]) as (c & r & Hc & Hr & Hs).
  - apply list.Forall_singleton. by repeat constructor; eexists.
  - destruct Hs as (s & -> & Hrem & _ & Hok). exists c, s. split_and!; try done. apply Hok.
    vm_compute in Hc. injection Hc as <-. vm_compute in Hr. by injection Hr as <-.
Defined.

Lemma connect_host_descriptors_witness :
  connect_host (λ _, None) (λ _, None) (λ _, true) "nowhere" 25 (SocketEnv 9 true true) {[4]} = (-1, {[9]} ∪ {[4]}).
Proof.
  pose proof (connect_host_descriptors (λ _, None) (λ _, None) (λ _, true) "nowhere" 25 (SocketEnv 9 true true) {[4]}) as H.
  destruct (connect_host _ _ _ _ _ _ _) as [fd o]. destruct H as (_ & _ & H); [set_solver|].
  destruct H as [-> H]; [by intros [[? [=]]|[? [=]]]|]. by rewrite H.
Defined.

Lemma uptime_reported_witness :
  let r := (tell_time 100000 1000 (uint32 (4294967295 + 3)) 9 (tell_time 50000 1000 (uint32 4294967295) 4 (Stat 0 0 0)).2).1 in
  r_day r = 1 ∧ r_users r = 3 ∧ r_connections r = 5.
Proof.
  destruct (uptime_reported 50000 100000 1000 4294967295 3 4 9 (Stat 0 0 0)) as (_ & _ & _ & _ & Hu & Hc & _); try lia.
  by split_and!; [vm_compute| |].
Defined.
