(* ===== verification/ProxyRuns.v ===== *)
(** * proxying.c: what a running proxy does

    The proxy is started with its listening socket registered ([start]); a state is
    [reached] when events the kernel allows lead to it. The theorems are about every
    such state: no event leads to undefined behaviour, a packet is forwarded whole or
    its connection is closed, exactly the idle connections expire, and shutting down
    leaves no connection open. The other theorems are about the cases the code does not
    handle: no configured server, a request with a negative channel, a connection with more
    packets than its counters can count, and the expiry thread racing with the event loop. *)

From S2P Require Import Prelude Heap Utils Events PacketAnalyzer ConnTable Proxying ProxySafety.

Section runs.
Context {I L D : Type} `{EqDecision I} `{EqDecision D}.
Implicit Types (s : proxy I L D) (d : connection D) (e : accept_env D).

(** [ev->add_event (sockfd, main_listener, NULL)] on the new loop. *)
Definition listening (sockfd : Z) : event_loop handler loc :=
  match ev_add_event true sockfd MainListener None new_event_loop with
  | Ok (_, d) => d
  | _ => new_event_loop
  end.

(** After the loop of [proxy_main]: every connection is idle for more than -1 second;
    [index] is the slot of the listening socket. *)
Definition proxy_main_end (memory dlclose_ok : bool) (tv : timeval) (index : Z) s : outcome (proxy I L D * list service_call) :=
  '(s1, cs) ← clean_idle_connections memory dlclose_ok tv (-1000000) s;
  '(_, e) ← ev_remove_event index (ev s1);
  Ok (with_ev e s1, cs).

(** The state when the loop of [proxy_main] is entered. *)
Definition start (c : settings) (sockfd : Z) : proxy I L D :=
  Proxy c empty_table ∅ ∅ (listening sockfd) init_analyzer false true ∅ 0 0 None [].

Definition reached (c : settings) (sockfd : Z) (vs : list event) s : Prop :=
  conf_ok c ∧ 0 ≤ sockfd ∧ events_ok vs (start c sockfd) ∧ (∃ cs, happens vs (start c sockfd) = Ok (s, cs)) ∧ alive s = true.

Lemma start_good c sockfd : conf_ok c → 0 ≤ sockfd → good (Some (0%nat, sockfd)) 0 (start c sockfd).
Proof.
  intros Hc H0. split; [done|]. exists [], [], []. split; [|done]. split; [apply empty_table_rep|]. split; try done.
  - destruct (ev_add_event_ok (P := loc) new_event_loop ∅ sockfd MainListener None new_event_loop_rep H0) as (k & e' & He & _ & Hlow & Hrep); [done|].
    exists (<[k := (sockfd, MainListener, None)]> ∅). change (ev (start c sockfd)) with (listening sockfd). unfold listening. rewrite He. split; [done|].
    assert (k = 0%nat) as ->. { destruct k; [done|]. destruct (Hlow 0%nat) as [? [=]]. lia. }
    intros i r. rewrite lookup_insert_Some, lookup_empty. unfold registered. split.
    + intros [[<- <-]|[_ [=]]]. left. by exists sockfd.
    + intros [(fd & [= <- <-] & ->)|(l & d & []%elem_of_nil & _)]. by left.
  - exists [], (Observer None []). split; [apply init_tracked|done].
Qed.

Lemma reached_inv c sockfd vs s : reached c sockfd vs s →
  conf_ok (conf s) ∧ ∃ es fs xr, inv (Some (0%nat, sockfd)) s es fs xr ∧ Z.of_nat (length xr) ≤ countb forgetful vs.
Proof.
  intros (Hc & H0 & Hok & [cs Hrun] & Hal).
  destruct (happens_good _ _ _ _ (start_good c sockfd Hc H0) Hok) as (s' & cs' & Hrun' & Hres).
  rewrite Hrun in Hrun'. simplify_eq. destruct (Hres Hal) as (m & (Hc' & es & fs & xr & Hinv & <-) & Hle).
  split; [done|]. by exists es, fs, xr.
Qed.

(** C1: whatever the clients, the servers, the database, the clock, the plugin and the
    administrator do, a proxy with at least one configured server and a threshold from which 7 can
    be subtracted never touches freed or
    null memory, never runs outside an array, never overflows a counter and never loops, as
    long as the event loop and the expiry take turns ([expiry_race] shows what happens when they
    do not), the kernel does what it promises, and no connection gets the 2^31st packet from
    one side ([responses_overflow]); and unless a fault of the plugin ends the process, the open descriptors are exactly two per connection in the
    chain and the reference count of the plugin is at most the number of connections. *)
Theorem proxy_runs_safely c sockfd vs :
  conf_ok c → 0 ≤ sockfd → events_ok vs (start c sockfd) →
  ∃ s cs, happens vs (start c sockfd) = Ok (s, cs) ∧
    (alive s = true →
       Z.of_nat (size (open_fds s)) = 2 * number_of_entries (table s) ∧
       Z.of_nat (size (strings s)) ≤ number_of_entries (table s) ∧
       0 ≤ reference_count (plugin s) ≤ number_of_entries (table s)).
Proof.
  intros Hc H0 Hok. destruct (happens_good _ _ _ _ (start_good c sockfd Hc H0) Hok) as (s & cs & Hrun & Hres).
  exists s, cs. split; [done|]. intros Hal. destruct (Hres Hal) as (m & (_ & es & fs & xr & [Ht Ho] & _) & _).
  rewrite (tr_entries _ _ _ _ Ht). destruct Ho as [Hst _ Hfd _ (h & o & [_ _ Hcnt _ _] & Hh) _]. simpl in Hcnt. rewrite Hcnt.
  pose proof (omap_length_le (remote_ip ∘ snd) es). pose proof (omap_length_le (packet_analyzer_data ∘ snd) es).
  apply Permutation_length in Hst, Hfd, Hh. simpl in Hfd. rewrite fds_length in Hfd.
  rewrite <- size_dom. unfold size, set_size. simpl. lia.
Qed.

Lemma open_fds_iff lis s es fs xr fd : inv lis s es fs xr →
  fd ∈ open_fds s ↔ ∃ l d, (l, d) ∈ es ∧ (fd = client_fd d ∨ fd = server_fd d).
Proof.
  intros [_ [_ _ Hall _ _ _]]. rewrite <- elem_of_elements, Hall. simpl. rewrite list_elem_of_bind. split.
  - intros ([l d] & Hfd & Hin). exists l, d. split; [done|]. unfold fds_of in Hfd. simpl in Hfd. set_solver.
  - intros (l & d & Hin & Hfd). exists (l, d). split; [|done]. unfold fds_of. simpl. set_solver.
Qed.


(** The packet after 2^31 - 1 packets of the server overflows their count: nothing limits the
    packets of a server. *)
Theorem responses_overflow c sockfd vs s l d source dst x :
  reached c sockfd vs s → open_at s l d → io_ok x → is_Some (io_verdict x) → client_fd d ≠ source →
  responseCount (info_traffic d) = INT_MAX → 0 < read_len x → (∀ off len, 0 < len → io_write x off len = len) →
  do_proxying source dst l x s = Undefined IntOverflow.
Proof.
  intros Hr Hop Hx [v Hv] Hsrc Hmax Hlen Hw. destruct (reached_inv _ _ _ _ Hr) as (_ & es & fs & xr & [Ht Ho] & _).
  destruct Hop as (ce & Hc & Hi & Hd). unfold do_proxying. rewrite (deref_Some _ _ _ Hc), bind_ok, Hi, Hd. cbv iota zeta.
  assert (Hin : (l, d) ∈ es) by (rewrite <- Hd; by eapply chain_member).
  pose proof (ow_traffic _ _ _ _ _ Ho) as Hpl. rewrite list.Forall_forall in Hpl. specialize (Hpl _ Hin). simpl in Hpl.
  apply list_elem_of_split in Hin as (es1 & es2 & ->).
  set (d1 := with_traffic _ d). destruct (set_data_ok _ _ _ _ _ d1 _ _ Ht) as (t1 & -> & Ht1). rewrite bind_ok.
  rewrite (proj2 (Z.ltb_lt _ _) Hlen). change (client_fd d1) with (client_fd d). rewrite (proj2 (Z.eqb_neq _ _) Hsrc).
  pose proof Hx as (Hl & _ & Hleft). unfold handle_packet. rewrite Hv.
  destruct (analyze_packet _ _ _ _) as [r cs] eqn:Ha. assert (∃ z p b, r = Alive (z, p, b)) as (z & p & b & ->).
  { unfold analyze_packet, try_catch in Ha. repeat (case_match; simplify_eq); by eexists _, _, _. }
  cbv zeta. cbn [andb]. unfold read_len in *. destruct (io_read x) as [buffer|]; [|lia]. change (default [] (Some buffer)) with buffer.
  set (buffer' := if was_called cs then _ else _). assert (Hb : length buffer' = length buffer) by (subst buffer'; by destruct (was_called cs)).
  cbn [forward]. rewrite (proj2 (Z.ltb_lt _ _) Hlen), (Hw _ _ Hlen), (proj2 (Z.ltb_lt _ _) Hlen), Z.sub_diag.
  assert (Hf : ∀ n, forward (S n) (io_write x) buffer' (size_t 0) (0 + Z.of_nat (length buffer)) = Ok (0 + Z.of_nat (length buffer), false, [])) by done.
  destruct (Z.to_nat (Z.of_nat (length buffer))) as [|n] eqn:Hn; [lia|]. rewrite Hf, !bind_ok. unfold count_traffic. cbn [info_traffic with_traffic d1 bytesReceived responseCount].
  rewrite checked_long_ok, bind_ok, Hmax by (unfold plausible, INT_MAX, LONG_MIN, LONG_MAX in *; lia). done.
Qed.

(** C10: the expiry closes exactly the connections that were silent for longer than the
    timeout: each of these is closed, with both its sockets, and the database is told if it
    admitted the client; all others stay open, unchanged, with both their sockets. *)
Theorem exactly_idle_expire c sockfd vs s ok tv timeout :
  reached c sockfd vs s →
  ∃ s' cs, clean_idle_connections true ok tv timeout s = Ok (s', cs) ∧
    (∀ l d, open_at s' l d ↔ open_at s l d ∧ elapsed_time tv (recent (info_traffic d)) ≤ timeout) ∧
    (∀ l d, open_at s l d → elapsed_time tv (recent (info_traffic d)) ≤ timeout →
       client_fd d ∈ open_fds s' ∧ server_fd d ∈ open_fds s') ∧
    (∀ l d, open_at s l d → timeout < elapsed_time tv (recent (info_traffic d)) →
       (client_fd d ∉ open_fds s') ∧ (server_fd d ∉ open_fds s') ∧
       (is_Some (request_in_db d) →
          ConnectionClose (insert_id d) (bytesReceived (info_traffic d)) (requestCount (info_traffic d)) true ∈ cs)).
Proof.
  intros Hr. destruct (reached_inv _ _ _ _ Hr) as (_ & es & fs & xr & Hinv & _).
  destruct (clean_idle_ok _ _ _ _ _ ok tv timeout Hinv) as (s' & fs' & Hcl & Hinv' & _).
  exists s'. eexists. split; [exact Hcl|].
  assert (Hin : ∀ l d, (l, d) ∈ List.filter (λ x, negb (idle_at tv timeout x)) es ↔
      (l, d) ∈ es ∧ elapsed_time tv (recent (info_traffic d)) ≤ timeout).
  { intros l d. rewrite !list_elem_of_In, List.filter_In. unfold idle_at. simpl.
    destruct (Z.ltb_spec timeout (elapsed_time tv (recent (info_traffic d)))); simpl; intuition (try lia; done). }
  assert (Hop : ∀ l d, open_at s' l d ↔ open_at s l d ∧ elapsed_time tv (recent (info_traffic d)) ≤ timeout).
  { intros l d. rewrite (open_at_iff _ _ _ _ _ _ _ Hinv), (open_at_iff _ _ _ _ _ _ _ Hinv'). apply Hin. }
  split; [exact Hop|]. split.
  - intros l d H1 H2. rewrite !(open_fds_iff _ _ _ _ _ _ Hinv'). rewrite (open_at_iff _ _ _ _ _ _ _ Hinv) in H1.
    split; exists l, d; (split; [by apply Hin|]); tauto.
  - intros l d H1 H2. rewrite (open_at_iff _ _ _ _ _ _ _ Hinv) in H1.
    assert (Hun : ∀ fd, fd ∈ fds_of (l, d) → fd ∉ open_fds s').
    { intros fd Hfd Hopen. apply (open_fds_iff _ _ _ _ _ _ Hinv') in Hopen as (l' & d' & [Hin' Hle]%Hin & Hfd').
      pose proof Hinv as [_ [_ _ Hall _ _ _]]. pose proof (NoDup_elements (open_fds s)) as Hnd. rewrite Hall in Hnd.
      assert ((l, d) = (l', d')) by (eapply bind_nodup_eq; [exact Hnd|done..|unfold fds_of; simpl; set_solver]).
      simplify_eq. lia. }
    split; [apply Hun; left|]. split; [apply Hun; right; left|]. intros [q Hq]. unfold expiry_calls.
    apply list_elem_of_bind. exists (l, d). split; [|done]. unfold idle_at. simpl. rewrite (proj2 (Z.ltb_lt _ _)) by lia.
    unfold closing_calls. rewrite Hq. left.
Qed.

Lemma only_listener sockfd (gm : gmap nat (Z * handler * option loc)) :
  (∀ i r, gm !! i = Some r ↔ registered (D := D) (Some (0%nat, sockfd)) [] i r) → gm = {[ 0%nat := (sockfd, MainListener, None) ]}.
Proof.
  intros Hgm. apply map_eq. intros i. apply option_eq. intros r. rewrite Hgm, lookup_singleton_Some. unfold registered. split.
  - intros [(fd & [= <- <-] & ->)|(l & d & []%elem_of_nil & _)]. done.
  - intros [<- <-]. left. by exists sockfd.
Qed.

(** Every connection is older than the timeout of the end. *)
Lemma all_idle lis s es fs xr tv :
  inv lis s es fs xr → (∀ l d, open_at s l d → -1000000 < elapsed_time tv (recent (info_traffic d))) →
  List.filter (λ x, negb (idle_at tv (-1000000) x)) es = [].
Proof.
  intros Hinv Hrec. destruct (List.filter _ es) as [|[l d] es'] eqn:Hf; [done|]. exfalso.
  assert (In (l, d) (List.filter (λ x, negb (idle_at tv (-1000000) x)) es)) as [Hin Hid]%List.filter_In by (rewrite Hf; by left).
  apply list_elem_of_In, (open_at_iff _ _ _ _ _ _ _ Hinv), Hrec in Hin. unfold idle_at in Hid. simpl in Hid.
  rewrite (proj2 (Z.ltb_lt _ _)) in Hid by lia. done.
Qed.

(** Follow a run of outcomes. *)
Ltac run_ok H :=
  repeat match type of H with
    | _ ≫= _ = Ok _ => let a := fresh "a" in let E := fresh "E" in apply bind_ok_inv in H as (a & E & H)
    | (let '(_, _) := ?x in _) = Ok _ => destruct x
    | match ?x with _ => _ end = Ok _ => destruct x eqn:?; try done
    | Ok _ = Ok _ => injection H as H; subst
    end.

(** Only a server whose name cannot be resolved leaves a socket open. *)
Definition unresolved (v : event (I := I) (L := L) (D := D)) : bool :=
  match v with Round _ _ e _ => bool_decide (is_Some (ae_unresolved e)) | _ => false end.

Lemma detach_lost l s s' : detach l s = Ok s' → lost_fds s' = lost_fds s.
Proof. unfold detach. intros H. by run_ok H. Qed.
Lemma free_info_lost l s s' : free_info l s = Ok s' → lost_fds s' = lost_fds s.
Proof. unfold free_info. intros H. by run_ok H. Qed.
Lemma free_request_lost r s s' : free_proxy_request_data r s = Ok s' → lost_fds s' = lost_fds s.
Proof. unfold free_proxy_request_data. intros H. by run_ok H. Qed.

Lemma close_event_lost l idle ok s s' cs : close_event l idle ok s = Ok (s', cs) → lost_fds s' = lost_fds s.
Proof.
  unfold close_event. intros H. apply bind_ok_inv in H as (c & _ & H). destruct (in_chain c); [by simplify_eq|].
  apply bind_ok_inv in H as ([? e1] & _ & H). apply bind_ok_inv in H as ([? e2] & _ & H).
  destruct (analyzer_release _ _ _) as [p ?]. apply bind_ok_inv in H as ([s2 cs2] & H2 & H).
  apply bind_ok_inv in H as (h & _ & [= <- _]). destruct (request_in_db _); [|by simplify_eq].
  apply bind_ok_inv in H2 as (? & _ & H2). apply bind_ok_inv in H2 as (s3 & H3%free_request_lost & H2).
  by apply bind_ok_inv in H2 as (? & _ & [= <- _]).
Qed.

Lemma do_proxying_lost src dst l x s s' cs : do_proxying src dst l x s = Ok (s', cs) → lost_fds s' = lost_fds s.
Proof.
  unfold do_proxying. intros H. apply bind_ok_inv in H as (ce & _ & H). destruct (in_chain ce); [|by simplify_eq].
  cbv zeta in H. apply bind_ok_inv in H as (t1 & _ & H). apply bind_ok_inv in H as (r & Hr & H).
  destruct r as [[[[tr cl] s2] ws]|]; [|by simplify_eq].
  assert (Hs2 : lost_fds s2 = lost_fds s).
  { destruct (0 <? read_len x); [|by simplify_eq]. unfold handle_packet in Hr. run_ok Hr; by destruct p0 as [[? ?] ?] || done. }
  apply bind_ok_inv in H as (t3 & _ & H). destruct cl; [|by simplify_eq].
  apply bind_ok_inv in H as (s4 & E4%detach_lost & H). apply bind_ok_inv in H as ([s5 cs5] & E5%close_event_lost & H).
  apply bind_ok_inv in H as (c5 & _ & H). apply bind_ok_inv in H as (s6 & E6 & [= <- _]).
  assert (lost_fds s6 = lost_fds s5) as -> by (destruct (in_chain c5); [by simplify_eq|by apply free_info_lost in E6]).
  cbn in *. congruence.
Qed.

Lemma clean_idle_lost m ok tv timeout s s' cs : clean_idle_connections m ok tv timeout s = Ok (s', cs) → lost_fds s' = lost_fds s.
Proof.
  unfold clean_idle_connections. intros H. apply bind_ok_inv in H as ([ls s1] & Hc & H).
  assert (lost_fds s1 = lost_fds s) as <- by (unfold collect in Hc; by run_ok Hc). clear Hc. revert s1 s' cs H.
  induction ls as [|l ls IH]; intros s1 s' cs H; cbn [expire_entries] in H; [by simplify_eq|].
  apply bind_ok_inv in H as (idle & _ & H). apply bind_ok_inv in H as ([s2 cs2] & E2 & H).
  apply bind_ok_inv in H as ([s3 cs3] & E3%IH & [= <- _]). rewrite E3. destruct idle; [|by simplify_eq].
  unfold expire_entry in E2. apply bind_ok_inv in E2 as (s4 & <-%detach_lost & E2).
  apply bind_ok_inv in E2 as ([s5 cs5] & <-%close_event_lost & E2). by apply bind_ok_inv in E2 as (s6 & <-%free_info_lost & [= <- _]).
Qed.

Lemma establish_lost fdc id ip r dc e s s' cs : establish fdc id ip r dc e s = Ok (s', cs) → lost_fds s' = lost_fds s.
Proof.
  unfold establish. intros H. apply bind_ok_inv in H as ([p t1] & _ & H). destruct p as [l|]; [|done].
  destruct (analyzer_allocate _ _) as [[data pl] ls]. apply bind_ok_inv in H as ([[ch sh] s2] & Hreg & H).
  unfold register_pair in Hreg. apply bind_ok_inv in Hreg as ([? ?] & _ & Hreg). apply bind_ok_inv in Hreg as ([? ?] & _ & [= _ _ <-]).
  apply bind_ok_inv in H as ([[[iid nth] s3] cs1] & H1 & H). apply bind_ok_inv in H as (t & _ & [= <- _]).
  destruct r as [y|]; [|by simplify_eq]. by apply bind_ok_inv in H1 as (q & _ & [= _ _ <- _]).
Qed.

Lemma main_listener_lost sock e s s' cs : main_listener sock e s = Ok (s', cs) →
  lost_fds s' = lost_fds s ∨ lost_fds s' = option_list (ae_unresolved e) ++ lost_fds s.
Proof.
  unfold main_listener, accepting_request. intros H. destruct (sock =? -1); [by left; simplify_eq|].
  destruct (ae_peer e) as [[ip v4]|]; [|by left; simplify_eq]. apply bind_ok_inv in H as (z & _ & H).
  destruct (decide_channel _ _ _ _) as [d cs0]. destruct (match ae_available e with Some _ => _ | None => _ end) as [r s0] eqn:Hr.
  assert (lost_fds s0 = lost_fds s) as Hs0 by (destruct (ae_available e); by simplify_eq).
  destruct (0 <=? channel_of d); [|left; by unfold refuse in H; simplify_eq].
  apply bind_ok_inv in H as (servers & _ & H). apply bind_ok_inv in H as (a & _ & H). destruct (0 <=? ae_connect e).
  - left. apply bind_ok_inv in H as ([s1 cs2] & H1%establish_lost & [= <- _]). congruence.
  - right. apply bind_ok_inv in H as (s1 & H1%free_request_lost & [= <- _]). rewrite H1. cbn. by rewrite Hs0.
Qed.

Lemma happen_lost v s s' cs : happen v s = Ok (s', cs) →
  Z.of_nat (length (lost_fds s')) ≤ Z.of_nat (length (lost_fds s)) + if unresolved v then 1 else 0.
Proof.
  intros H. assert (Hsame : lost_fds s' = lost_fds s ∨ ∃ e ready sock x, v = Round ready sock e x ∧
    lost_fds s' = option_list (ae_unresolved e) ++ lost_fds s).
  { unfold happen in H. destruct (alive s); [|by left; simplify_eq]. destruct v as [ready sock e x|ok tv timeout|r|ch|ch].
    - unfold loop_once in H. apply bind_ok_inv in H as ([[[h fd] a]|] & _ & H); [|by left; simplify_eq]. destruct h.
      + apply main_listener_lost in H as [H|H]; [by left|right]. by eexists _, _, _, _.
      + destruct a as [l|]; [|done]. left. unfold proxy_from_server_to_client in H.
        by apply bind_ok_inv in H as (ce & _ & H%do_proxying_lost).
      + destruct a as [l|]; [|done]. left. unfold proxy_from_client_to_server in H.
        by apply bind_ok_inv in H as (ce & _ & H%do_proxying_lost).
    - left. by eapply clean_idle_lost.
    - left. unfold administer in H. apply bind_ok_inv in H as (s1 & H1 & [= <- _]). by apply bind_ok_inv in H1 as ([w cs1] & _ & [= <-]).
    - left. by simplify_eq.
    - left. by simplify_eq. }
  destruct Hsame as [->|(e & ready & sock & x & -> & ->)]; [destruct (unresolved v); lia|].
  cbn [unresolved]. rewrite length_app. destruct (ae_unresolved e); cbn; lia.
Qed.

Lemma happens_lost vs : ∀ s s' cs, happens vs s = Ok (s', cs) →
  Z.of_nat (length (lost_fds s')) ≤ Z.of_nat (length (lost_fds s)) + countb unresolved vs.
Proof.
  induction vs as [|v vs IH]; intros s s' cs H; cbn [happens countb] in *; [simplify_eq; lia|].
  apply bind_ok_inv in H as ([s1 cs1] & H1%happen_lost & H). apply bind_ok_inv in H as ([s2 cs2] & H2%IH & [= <- _]). lia.
Qed.

(** When the loop ends, closing all connections releases what belongs to them: no connection, no
    socket of one, no copied address and no event is left, and the plugin's data are all
    released. What is left are the requests of clients with a negative channel, and a socket for
    each time the name of a server could not be resolved. *)
Theorem shutdown_releases c sockfd vs s ok tv :
  reached c sockfd vs s → (∀ l d, open_at s l d → -1000000 < elapsed_time tv (recent (info_traffic d))) →
  ∃ s' cs, proxy_main_end true ok tv 0 s = Ok (s', cs) ∧
    infos (table s') = None ∧ number_of_entries (table s') = 0 ∧ open_fds s' = ∅ ∧ strings s' = ∅ ∧
    ev_count (ev s') = 0 ∧ reference_count (plugin s') = 0 ∧ Z.of_nat (size (requests s')) ≤ countb forgetful vs ∧
    Z.of_nat (length (lost_fds s')) ≤ countb unresolved vs.
Proof.
  intros Hr Hrec. destruct (reached_inv _ _ _ _ Hr) as (_ & es & fs & xr & Hinv & Hxr).
  destruct (clean_idle_ok _ _ _ _ _ ok tv (-1000000) Hinv) as (s' & fs' & Hcl & Hinv' & _).
  rewrite (all_idle _ _ _ _ _ _ Hinv Hrec) in Hinv'. destruct Hinv' as [Ht [Hst Hrq Hfd (gm & Hrep & Hgm) (h & o & [_ _ Hcnt _ _] & Hh) _]].
  apply only_listener in Hgm as ->. destruct (ev_remove_event_ok _ _ 0%nat Hrep) as (e & He & Hrep'); [by eexists|].
  unfold proxy_main_end. rewrite Hcl, bind_ok. change (Z.of_nat 0) with 0 in He. rewrite He, bind_ok. eexists _, _. split; [done|]. simpl.
  simpl in *. apply Permutation_nil_r in Hst, Hfd, Hh. subst h. split_and!.
  - destruct (tr_chain _ _ _ _ Ht) as [pe [? _]]. done.
  - by rewrite (tr_entries _ _ _ _ Ht).
  - unfold_leibniz. by apply elements_empty_iff.
  - apply dom_empty_inv_L. unfold_leibniz. by apply elements_empty_iff.
  - destruct Hrep' as [_ Hn]. unfold ev_count. rewrite Hn, delete_singleton_eq. done.
  - done.
  - rewrite app_nil_r in Hrq. rewrite <- size_dom. unfold size, set_size. simpl. rewrite Hrq. done.
  - destruct Hr as (_ & _ & _ & (cs & Hrun) & _). rewrite (clean_idle_lost _ _ _ _ _ _ _ Hcl). apply happens_lost in Hrun. cbn in Hrun. lia.
Qed.

(** C12: accepting a client: it is admitted exactly when the rules choose a channel and the
    server answers, and then it becomes an open connection with both its sockets and no
    traffic; otherwise its socket is closed and no connection appears. The other connections
    do not change. *)
Theorem client_accepted c sockfd vs s sock e :
  reached c sockfd vs s → 0 ≤ sock → sock ∉ open_fds s → (0 ≤ ae_connect e → establish_env e s ∧ ae_connect e ≠ sock) →
  ∃ s' cs, main_listener sock e s = Ok (s', cs) ∧
    (∀ l d, open_at s l d → open_at s' l d) ∧
    if admitted (conf s) e
    then open_fds s' = {[sock; ae_connect e]} ∪ open_fds s ∧ number_of_entries (table s') = number_of_entries (table s) + 1 ∧
         ∃ l d, open_at s' l d ∧ client_fd d = sock ∧ server_fd d = ae_connect e ∧
           (is_Some (request_in_db d) ↔ is_Some (ae_available e)) ∧ info_traffic d = Traffic 0 0 0 0 (ae_now e)
    else open_fds s' = open_fds s ∧ number_of_entries (table s') = number_of_entries (table s).
Proof.
  intros Hr H0 Hfr He. destruct (reached_inv _ _ _ _ Hr) as (Hc & es & fs & xr & Hinv & _).
  destruct (main_listener_ok _ _ _ _ _ sock e Hinv Hc) as (s' & cs & es' & fs' & xr' & Hml & Hinv' & _ & Hacc); [done..|].
  exists s', cs. split; [done|]. destruct (Z.eqb_spec sock (-1)); [lia|]. destruct Hacc as [Hes _].
  pose proof Hinv as [Ht _]. pose proof Hinv' as [Ht' _]. rewrite (tr_entries _ _ _ _ Ht), (tr_entries _ _ _ _ Ht').
  destruct (admitted (conf s) e).
  - destruct Hes as (l & d & -> & Hcf & Hsf & _ & Hrq & Htr & _). split; [|split; [|split]].
    + intros l' d'. rewrite (open_at_iff _ _ _ _ _ _ _ Hinv), (open_at_iff _ _ _ _ _ _ _ Hinv'). by right.
    + apply set_eq. intros fd. rewrite elem_of_union, (open_fds_iff _ _ _ _ _ _ Hinv), (open_fds_iff _ _ _ _ _ _ Hinv').
      setoid_rewrite elem_of_cons. rewrite elem_of_union, !elem_of_singleton. split.
      * intros (l' & d' & [[= -> ->]|Hin] & Hfd); [left; destruct Hfd; subst; tauto|right; by exists l', d'].
      * intros [Hfd|(l' & d' & Hin & Hfd)]; [exists l, d; split; [by left|by rewrite Hcf, Hsf]|exists l', d'; tauto].
    + simpl. lia.
    + exists l, d. split; [apply (open_at_iff _ _ _ _ _ _ _ Hinv'); left|by split_and!].
  - subst es'. split; [|split; [|done]].
    + intros l' d'. by rewrite (open_at_iff _ _ _ _ _ _ _ Hinv), (open_at_iff _ _ _ _ _ _ _ Hinv').
    + apply set_eq. intros fd. by rewrite (open_fds_iff _ _ _ _ _ _ Hinv), (open_fds_iff _ _ _ _ _ _ Hinv').
Qed.

(** *** Admission *)

Definition counter_of e : Z := match ae_entry e with Some (n, _) => n | None => 0 end.

(** The address was first seen too long ago. *)
Definition persistent (c : settings) e : Prop :=
  ∃ n log_time, ae_entry e = Some (n, log_time) ∧ max_persistent_time c < elapsed_sec (ae_now e) log_time.

(** The counter is one at which failed logins are looked for. *)
Definition guessable (c : settings) e : Prop :=
  on_failed_channel c ≠ default_server c ∧ connection_threshold c - 7 < counter_of e ≤ connection_threshold c ∧
  Z.rem (counter_of e) 2 = 0 ∧ ae_guessing e = true.

Lemma judge_counter_channel c ip e ch :
  ((judge_counter c ip e (counter_of e) ch).1).1 =
    if decide (connection_threshold c < counter_of e ∧ ae_vip e = 0) then -1
    else if decide (guessable c e) then on_failed_channel c else ch.
Proof.
  unfold judge_counter, guessable.
  destruct (Z.eqb_spec (on_failed_channel c) (default_server c)), (Z.ltb_spec (connection_threshold c - 7) (counter_of e)),
    (Z.leb_spec (counter_of e) (connection_threshold c)), (Z.eqb_spec (Z.rem (counter_of e) 2) 0), (ae_guessing e),
    (Z.ltb_spec (connection_threshold c) (counter_of e)), (Z.eqb_spec (ae_vip e) 0); simpl; try lia;
    repeat case_decide; naive_solver lia.
Qed.

(** An address is proposed for the blacklist when it came too often, or has been coming for
    too long. *)
Lemma judge_counter_adds c ip e ch : 0 ≤ ch → 0 ≤ on_failed_channel c →
  AddIpToAutoBlacklist ip ∈ (judge_counter c ip e (counter_of e) ch).2 ↔
    connection_threshold c < counter_of e ∧ persist_threshold c < counter_of e ∧ ae_vip e = 0 ∨
    (counter_of e ≤ connection_threshold c ∨ ae_vip e ≠ 0) ∧ persistent c e ∧ ae_vip_again e = 0.
Proof.
  intros Hch Hfb. unfold judge_counter. set (g := if negb _ && _ && _ && _ then _ else _).
  assert (Hg : ∃ ch1 cs1, g = (ch1, cs1) ∧ (AddIpToAutoBlacklist ip ∉ cs1) ∧ 0 ≤ ch1).
  { subst g. destruct (_ && _); [|by eexists _, _; split_and!; [done|set_solver|]].
    eexists _, _. split_and!; [done|set_solver|by destruct (ae_guessing e)]. }
  destruct Hg as (ch1 & cs1 & -> & Hcs1 & Hch1).
  assert (Hpers : ∀ ch2, 0 ≤ ch2 → AddIpToAutoBlacklist ip ∈ match ae_entry e with
      | Some (_, log_time) =>
          if negb false && (0 <=? ch2) && (max_persistent_time c <? elapsed_sec (ae_now e) log_time)
          then CheckVip ip :: (if ae_vip_again e =? 0 then [AddIpToAutoBlacklist ip] else [])
          else []
      | None => [] end ↔ persistent c e ∧ ae_vip_again e = 0).
  { intros ch2 H2. unfold persistent. destruct (ae_entry e) as [[n lt]|]; [|split; [set_solver|naive_solver]].
    rewrite (proj2 (Z.leb_le _ _)) by done. simpl. destruct (Z.ltb_spec (max_persistent_time c) (elapsed_sec (ae_now e) lt)).
    - destruct (Z.eqb_spec (ae_vip_again e) 0); [|set_solver]. split; [intros _; eauto 10|set_solver].
    - split; [set_solver|]. intros [(n' & lt' & [= <- <-] & ?) _]. lia. }
  destruct (Z.ltb_spec (connection_threshold c) (counter_of e)) as [Ht|Ht].
  - destruct (Z.eqb_spec (ae_vip e) 0) as [Hv|Hv]; cbn [snd].
    + change (negb true && _ && _) with false. cbv iota. rewrite !elem_of_app, elem_of_cons.
      destruct (Z.ltb_spec (persist_threshold c) (counter_of e)); rewrite ?list_elem_of_singleton, ?elem_of_nil;
        destruct (ae_entry e) as [[n lt]|]; rewrite ?elem_of_nil; intuition (lia || congruence).
    + rewrite !elem_of_app, list_elem_of_singleton, Hpers by done. intuition (lia || congruence).
  - cbn [snd]. rewrite !elem_of_app, elem_of_nil, Hpers by done. intuition (lia || congruence).
Qed.

(** C9: who is admitted, to which server, and who is proposed for the blacklist. A client the
    database knows gets the channel of its request, whatever its address did. Any other
    client is admitted exactly when its address is in the white list and not blacklisted,
    and, for IPv4, was not seen more often than the threshold unless it is a VIP; it gets the
    default channel, or the fallback channel when failed logins are found at an even count of
    the last seven up to the threshold. An address is added to the blacklist exactly when it
    is over both thresholds and no VIP, or is admitted but has been coming for longer than
    the limit and is no VIP. *)
Theorem admission_rules c ip v4 e :
  0 ≤ default_server c → 0 ≤ on_failed_channel c →
  let '(d, calls) := decide_channel c ip v4 e in
  let free := ae_available e = None ∧ check_remote_ip_in_whitelist ip (white_list_conf c) = true ∧ ae_blacklisted e ≤ 0 in
  let often := connection_threshold c < counter_of e ∧ ae_vip e = 0 in
  (∀ q, ae_available e = Some q → channel_of d = channel q ∧ calls = [CheckAvailable ip]) ∧
  (ae_available e = None → 0 ≤ channel_of d ↔ free ∧ (is_Some v4 → ¬ often)) ∧
  (ae_available e = None → 0 ≤ channel_of d →
     channel_of d = if decide (is_Some v4 ∧ guessable c e) then on_failed_channel c else default_server c) ∧
  (AddIpToAutoBlacklist ip ∈ calls ↔
     free ∧ is_Some v4 ∧ (often ∧ persist_threshold c < counter_of e ∨ ¬ often ∧ persistent c e ∧ ae_vip_again e = 0)).
Proof.
  intros Hdef Hfb. unfold decide_channel. destruct (ae_available e) as [q|].
  { split_and!; try done; [by intros q' [= <-]|]. rewrite list_elem_of_singleton. split; [done|by intros [[? _] _]]. }
  destruct (check_remote_ip_in_whitelist _ _).
  2: { split_and!; try done; simpl; [|rewrite list_elem_of_singleton]; split; try lia; try done; intros; naive_solver lia. }
  destruct (Z.ltb_spec 0 (ae_blacklisted e)) as [Hb|Hb].
  { destruct v4 as [a|]; cbn [channel_of]; (split_and!; [done| |lia|]);
      rewrite ?elem_of_app, ?elem_of_cons, ?elem_of_nil; intuition (lia || congruence). }
  pose proof (judge_counter_channel c ip e (default_server c)) as Hch.
  pose proof (judge_counter_adds c ip e (default_server c) Hdef Hfb) as Hadd. fold (counter_of e).
  destruct (judge_counter c ip e (counter_of e) (default_server c)) as [[ch auto] cs]. cbn [fst snd] in *.
  assert (Hnot : ¬ (connection_threshold c < counter_of e ∧ ae_vip e = 0) ↔ counter_of e ≤ connection_threshold c ∨ ae_vip e ≠ 0) by lia.
  destruct v4 as [a|]; cbn [channel_of].
  - assert (Hv : is_Some (Some a)) by done. subst ch. split_and!; [done| | |].
    + intros _. split.
      * intros Hpos. split; [done|]. intros _. case_decide; [lia|done].
      * intros [_ Ho]. rewrite decide_False by by apply Ho. case_decide; lia.
    + intros _. case_decide; [lia|]. intros _. case_decide; case_decide; tauto.
    + rewrite !elem_of_app, !elem_of_cons, elem_of_nil, Hadd, Hnot. intuition congruence.
  - assert (Hv : ¬ is_Some (@None Z)) by by intros []. split_and!; [done| | |].
    + intros _. by split_and!.
    + intros _ _. case_decide; tauto.
    + rewrite !elem_of_cons, elem_of_nil. intuition congruence.
Qed.

(** *** What the code does not handle *)

(** The listening socket leads to its handler. *)
Lemma listening_dispatch sockfd : ev_looping (Some [sockfd]) (listening sockfd) = Ok (Some (MainListener, sockfd, None)).
Proof.
  assert (listening sockfd = EventLoop 1 1 (sockfd :: replicate 1023 0) (Some MainListener :: replicate 1023 None)
    (None :: replicate 1023 None)) as -> by by vm_compute.
  cbn -[replicate]. change (Z.to_nat 1) with 1%nat. cbn [scan_handler fds].
  rewrite (array_get_Some (sockfd :: replicate 1023 0) 0 sockfd), bind_ok, Z.eqb_refl by done. by vm_compute.
Qed.

(** With no server configured ([servers] missing or empty) the array of servers is never
    allocated, and the first client that is let in makes the proxy read through a null
    pointer. *)
Theorem no_server_crashes c sockfd sock e x ip v4 vs :
  remote_servers c = None → INT_MIN + 7 ≤ connection_threshold c ≤ INT_MAX →
  sock ≠ -1 → ae_peer e = Some (ip, v4) → 0 ≤ channel_of (decide_channel c ip v4 e).1 →
  happens (Round (Some [sockfd]) sock e x :: vs) (start c sockfd) = Undefined NullDeref.
Proof.
  intros Hs Ht Hk Hp Hch. cbn [happens]. unfold happen. cbn [alive start]. unfold loop_once. cbn [ev start].
  rewrite listening_dispatch, bind_ok. unfold main_listener, accepting_request. rewrite (proj2 (Z.eqb_neq _ _) Hk), Hp.
  cbn [conf with_counters with_fds start]. assert (∃ z, threshold_floor c ip v4 e = Ok z) as [z ->].
  { unfold threshold_floor. repeat case_match; try by eexists. eexists. apply checked_int_ok. unfold is_int, INT_MIN, INT_MAX in *. lia. }
  rewrite bind_ok. destruct (decide_channel _ _ _ _) as [d cs]. simpl in Hch.
  rewrite (proj2 (Z.leb_le _ _) Hch), Hs. by destruct (ae_available e).
Qed.

(** A request whose channel is negative is looked up, the client is dropped, and the
    memory of the request is never freed: nothing refers to it any more. *)
Theorem request_forgotten s sock e ip v4 q :
  sock ≠ -1 → ae_peer e = Some (ip, v4) → ae_available e = Some q → channel q < 0 →
  ∃ s' cs, main_listener sock e s = Ok (s', cs) ∧ (∀ l d, open_at s' l d ↔ open_at s l d) ∧
    requests s ⊆ requests s' ∧ size (requests s') = S (size (requests s)).
Proof.
  intros Hk Hp Hq Hch. unfold main_listener, accepting_request. rewrite (proj2 (Z.eqb_neq _ _) Hk), Hp.
  unfold decide_channel, threshold_floor. rewrite Hq, bind_ok. cbv iota zeta. cbn [channel_of]. rewrite (proj2 (Z.leb_gt _ _) Hch).
  eexists _, _. split; [done|]. split; [done|]. cbn [requests close_fd with_fds with_requests with_counters].
  pose proof (fresh_loc_fresh (requests s)) as Hfr. split; [by apply insert_subseteq|]. by apply map_size_insert_None.
Qed.
End runs.

(** ** Concrete runs *)

Definition run_conf : settings := Settings 0 1 (Some [("mail"%string, 25)]) 5 100 86400 6 0 (Some [""%string]).

Definition sample_env (fd : Z) : accept_env nat :=
  AcceptEnv true (Some ("::ffff:1.2.3.4"%string, Some 16909060)) (Some (DbProxyRequest None 7 0)) 0 None false 0 0 0
    (Timeval 10 0) fd None (Some 4%nat) true true 1.

Definition sample_io (b : list Byte.byte) : io := Io (Timeval 20 0) (Some b) id (λ _ len, Z.min len 2) (Some 0) true.

(** A client is accepted, and sends three bytes. *)
Definition sample_run : list (event (I := nat) (L := nat) (D := nat)) :=
  [ Round (Some [3]) 5 (sample_env 6) (sample_io []);
    Round (Some [5]) (-1) (sample_env (-1)) (sample_io [Byte.x61; Byte.x62; Byte.x63]) ].

Definition sample_state : proxy nat nat nat :=
  match happens sample_run (start run_conf 3) with Ok (s, _) => s | _ => start run_conf 3 end.

Lemma sample_io_ok b : Z.of_nat (length b) ≤ 32768 → io_ok (sample_io b).
Proof. intros Hb. split; [done|]. split; [intros off len; simpl; lia|done]. Qed.

Lemma run_conf_ok : conf_ok run_conf.
Proof. split; [done|]. eexists. by split_and!. Qed.

(** The counts of all connections, computed. *)
Definition all_room (s : proxy nat nat nat) : bool :=
  forallb (λ x, let tr := info_traffic (c_data (snd x)) in (requestCount tr <? INT_MAX) && (responseCount tr <? INT_MAX))
    (map_to_list (cells (table s))).

Lemma all_room_ok s : all_room s = true → ∀ l d, open_at s l d → room (info_traffic d).
Proof.
  unfold all_room. rewrite forallb_forall. intros H l d (ce & Hl & _ & <-).
  specialize (H (l, ce)). rewrite <- list_elem_of_In, elem_of_map_to_list in H. specialize (H Hl). simpl in H.
  apply andb_true_iff in H as [H1%Z.ltb_lt H2%Z.ltb_lt]. by split.
Qed.

Lemma sample_events_ok : events_ok sample_run (start run_conf 3).
Proof.
  assert (Hf : ∀ (l : list Z) n fd, Some [n] = Some l → 0 ≤ n → fd ∈ l → 0 ≤ fd).
  { intros l n fd [= <-] Hn ->%list_elem_of_singleton. done. }
  split; [split_and!|].
  - intros l fd Hl. by apply (Hf l 3).
  - intros _. split; [lia|]. apply not_elem_of_empty.
  - intros _. by split_and!.
  - by apply sample_io_ok.
  - by apply all_room_ok.
  - intros s' cs Hs. split; [|by intros]. vm_compute in Hs. simplify_eq. split_and!.
    + intros l fd Hl. by apply (Hf l 5).
    + done.
    + simpl. lia.
    + by apply sample_io_ok.
    + by apply all_room_ok.
Qed.

Lemma sample_reached : reached run_conf 3 sample_run sample_state.
Proof.
  split; [apply run_conf_ok|]. split; [lia|]. split; [apply sample_events_ok|]. split; [|by vm_compute].
  eexists. by vm_compute.
Qed.

(** The connection of the run. *)
Definition sample_connection : connection nat :=
  match cells (table sample_state) !! 2%positive with
  | Some ce => c_data ce
  | None => Connection 0 0 0 0 0 0 None (Timeval 0 0) None None 0 None (Traffic 0 0 0 0 (Timeval 0 0))
  end.

Lemma sample_open : open_at sample_state 2%positive sample_connection.
Proof. eexists. split; [by vm_compute|]. split; by vm_compute. Qed.

(** C34: the expiry thread races with the event loop. It decides that a connection is idle
    before it takes the lock; if the event loop closes that connection in between, the expiry
    closes it a second time and frees the copied address twice. *)
Theorem expiry_race :
  ∃ vs (s s1 : proxy nat nat nat) l cs tv timeout x source dst,
    reached run_conf 3 vs s ∧ is_idle tv timeout l s = Ok true ∧ io_ok x ∧
    do_proxying source dst l x s = Ok (s1, cs) ∧ expire_entry true l s1 = Undefined UseAfterFree.
Proof.
  exists sample_run, sample_state. eexists _, 2%positive, _, (Timeval 1000 0), 600000000, (sample_io []), 5, 6.
  split; [apply sample_reached|]. split; [by vm_compute|]. split; [by apply sample_io_ok|]. split; by vm_compute.
Qed.

(** *** Witnesses *)

Lemma proxy_runs_safely_witness :
  ∃ (s : proxy nat nat nat) cs, happens sample_run (start run_conf 3) = Ok (s, cs) ∧
    (alive s = true →
       Z.of_nat (size (open_fds s)) = 2 * number_of_entries (table s) ∧
       Z.of_nat (size (strings s)) ≤ number_of_entries (table s) ∧
       0 ≤ reference_count (plugin s) ≤ number_of_entries (table s)).
Proof. apply (proxy_runs_safely run_conf 3 sample_run); [apply run_conf_ok|lia|apply sample_events_ok]. Defined.


Lemma exactly_idle_expire_witness :
  ∃ s' cs, clean_idle_connections true true (Timeval 1000 0) 600000000 sample_state = Ok (s', cs) ∧
    ConnectionClose 1 0 1 true ∈ cs.
Proof.
  destruct (exactly_idle_expire run_conf 3 sample_run sample_state true (Timeval 1000 0) 600000000 sample_reached)
    as (s' & cs & Hcl & _ & _ & Hidle).
  exists s', cs. split; [exact Hcl|]. by apply (Hidle _ _ sample_open); [|eexists].
Defined.

Lemma shutdown_releases_witness :
  ∃ s' cs, proxy_main_end true true (Timeval 1000 0) 0 sample_state = Ok (s', cs) ∧ open_fds s' = ∅.
Proof.
  destruct (shutdown_releases run_conf 3 sample_run sample_state true (Timeval 1000 0) sample_reached)
    as (s' & cs & He & _ & _ & Hfd & _).
  - intros l d (ce & Hc & _ & <-). assert (Hl : l = 2%positive).
    { apply (elem_of_dom_2 (D := gset loc)) in Hc. vm_compute in Hc. by repeat case_match. }
    subst l. vm_compute in Hc. by simplify_eq.
  - exists s', cs. split; [exact He|exact Hfd].
Defined.

Lemma client_accepted_witness :
  ∃ s' cs, main_listener 7 (sample_env 8) sample_state = Ok (s', cs) ∧ open_fds s' = {[7; 8]} ∪ open_fds sample_state.
Proof.
  destruct (client_accepted run_conf 3 sample_run sample_state 7 (sample_env 8) sample_reached) as (s' & cs & Hm & _ & Hfd & _).
  - lia.
  - by vm_compute.
  - intros _. split; [|done]. split_and!; [done..|]. by vm_compute.
  - exists s', cs. split; [exact Hm|exact Hfd].
Defined.

Lemma admission_rules_witness : channel_of (decide_channel run_conf "::ffff:1.2.3.4" (Some 16909060) (sample_env 8)).1 = 0.
Proof.
  pose proof (admission_rules run_conf "::ffff:1.2.3.4" (Some 16909060) (sample_env 8)) as H. simpl in H.
  by destruct H as [Hq _]; [lia..|apply (Hq (DbProxyRequest None 7 0))].
Defined.

Definition no_servers : settings := Settings 0 0 None 5 100 86400 6 0 (Some [""%string]).

Lemma no_server_crashes_witness :
  happens [Round (Some [3]) 5 (sample_env 6) (sample_io [])] (start (I := nat) (L := nat) no_servers 3) = Undefined NullDeref.
Proof. by apply (no_server_crashes _ _ _ _ _ "::ffff:1.2.3.4" (Some 16909060)). Defined.

(** A request the database refuses with a negative channel. *)
Definition refused_env : accept_env nat :=
  AcceptEnv true (Some ("::ffff:1.2.3.4"%string, Some 16909060)) (Some (DbProxyRequest None 7 (-1))) 0 None false 0 0 0
    (Timeval 10 0) (-1) None None true true 1.

Lemma request_forgotten_witness :
  ∃ s' cs, main_listener 7 refused_env sample_state = Ok (s', cs) ∧ size (requests s') = 2%nat.
Proof.
  destruct (request_forgotten sample_state 7 refused_env "::ffff:1.2.3.4" (Some 16909060) (DbProxyRequest None 7 (-1)))
    as (s' & cs & Hm & _ & _ & Hs); [done..|]. exists s', cs. split; [exact Hm|]. by rewrite Hs.
Defined.
