(* ===== verification/ProxyMain.v ===== *)
(** * proxying.c: [proxy_main] from the configuration to the end

    [Startup.v] reads the settings and opens the socket, [ProxyRuns.v] has the loop and what
    follows it. Here they are put together as the thread's function; its theorem says what
    comes of it, and what it does not give back: the descriptor of the event loop, the sockets of
    names that were not resolved, the requests with a negative channel. *)

From S2P Require Import Prelude Heap Utils SysConf Events PacketAnalyzer ConnTable Proxying ProxySafety Startup ProxyRuns.

Section proxy_main.
Context {I L D : Type} `{EqDecision I} `{EqDecision D}.
(** [pcre2_match], as in [Startup.v]. *)
Variable re_match : string → option (string * string).

(** What the thread does, in order. *)
Inductive proxy_act :=
  | ReloadProductNames
  | ListenOn (fd : Z)
  | Service (c : service_call)
  | TerminateConfiguration
  | CloseSocket (fd : Z)
  | ExitProcess (code : Z).

(** How it ends: it has not listened, the process exits, a fault of the plugin has killed the
    process, or it has closed everything; with the descriptors that are left open. *)
Inductive proxy_end :=
  | NotListening (opened : gset Z)
  | Exiting
  | KilledByPlugin
  | Finished (s : proxy I L D) (opened : gset Z).

(** [epollfd]: what [epoll_create1] returns; when it fails, [new_event_loop] returns NULL. [vs]:
    what happens in the loop until it finds the configuration terminated; [tv]: the time then. *)
Definition proxy_main (c : sysconf) (epollfd : Z) (se : socket_env) (vs : list (event (I := I) (L := L) (D := D)))
    (memory dlclose_ok : bool) (tv : timeval) : outcome (proxy_end * list proxy_act) :=
  let opened0 := if epollfd =? -1 then ∅ else {[epollfd]} in
  r ← proxy_settings re_match c;
  match r with
  | None => Ok (NotListening opened0, [ReloadProductNames])
  | Some conf =>
      let '(sockfd, opened) := init_socket se opened0 in
      if 0 <=? sockfd then
        '(index, e) ← (if epollfd =? -1 then Undefined NullDeref
                       else ev_add_event true sockfd MainListener None new_event_loop);
        '(s, cs) ← happens vs (Proxy conf empty_table ∅ ∅ e init_analyzer false true ∅ 0 0 None []);
        let acts := ReloadProductNames :: ListenOn sockfd :: map Service cs in
        if alive s then
          '(s', cs') ← proxy_main_end memory dlclose_ok tv index s;
          Ok (Finished s' (opened ∖ {[sockfd]} ∪ open_fds s' ∪ list_to_set (lost_fds s')),
              acts ++ TerminateConfiguration :: map Service cs' ++ [CloseSocket sockfd])
        else Ok (KilledByPlugin, acts)
      else Ok (Exiting, [ReloadProductNames; TerminateConfiguration; ExitProcess 1])
  end.

(** The first registration takes the first slot. *)
Lemma first_registration sockfd : 0 ≤ sockfd →
  ev_add_event true sockfd MainListener None (new_event_loop (P := loc)) = Ok (0, listening sockfd).
Proof.
  intros H0. destruct (ev_add_event_ok (P := loc) new_event_loop ∅ sockfd MainListener None new_event_loop_rep H0)
    as (k & e & He & _ & Hlow & _); [done|].
  assert (k = 0%nat) as ->. { destruct k; [done|]. destruct (Hlow 0%nat) as [? [=]]. lia. }
  unfold listening. by rewrite He.
Qed.

(** The servers of the configuration, if every one has the form host:port. *)
Definition configured_servers (ds : list definition) : option (list (string * Z)) :=
  mapM (λ x, '(host, port) ← re_match x; Some (host, atoi port)) (servers_of ds).

(** The socket is made, bound and named. *)
Definition socket_ok (se : socket_env) : bool := (0 <=? se_socket se) && se_bind se && se_getsockname se.

Lemma init_socket_ok se opened : se_socket se ∉ opened →
  init_socket se opened = if socket_ok se then (se_socket se, {[se_socket se]} ∪ opened) else (-1, opened).
Proof.
  intros Hfr. unfold init_socket, socket_ok. destruct (Z.ltb_spec (se_socket se) 0), (Z.leb_spec 0 (se_socket se)); try lia; [done|]. cbn [andb].
  assert (({[se_socket se]} ∪ opened) ∖ {[se_socket se]} = opened) as -> by set_solver.
  by destruct (se_bind se); [destruct (se_getsockname se)|].
Qed.

(** From the loop on, once the settings are read and the socket is open. *)
Lemma proxy_loop_ends conf sockfd (vs : list (event (I := I) (L := L) (D := D))) ok tv :
  conf_ok conf → 0 ≤ sockfd → events_ok vs (start conf sockfd) →
  ∃ s cs, happens vs (start conf sockfd) = Ok (s, cs) ∧
    (alive s = true → (∀ l d, open_at s l d → -1000000 < elapsed_time tv (recent (info_traffic d))) →
     ∃ s' cs', proxy_main_end true ok tv 0 s = Ok (s', cs') ∧ number_of_entries (table s') = 0 ∧ open_fds s' = ∅ ∧
       strings s' = ∅ ∧ ev_count (ev s') = 0 ∧ reference_count (plugin s') = 0 ∧
       Z.of_nat (size (requests s')) ≤ countb forgetful vs ∧ Z.of_nat (length (lost_fds s')) ≤ countb unresolved vs).
Proof.
  intros Hc H0 Hok. destruct (happens_good _ _ _ _ (start_good conf sockfd Hc H0) Hok) as (s & cs & Hrun & _).
  exists s, cs. split; [done|]. intros Hal Hrec.
  destruct (shutdown_releases conf sockfd vs s ok tv) as (s' & cs' & He & _ & Hn & Hfd & Hst & Hev & Hrf & Hrq & Hlost); [|done|].
  - split_and!; try done. by exists cs.
  - by exists s', cs'.
Qed.

(** What is left when the thread has finished: of the descriptors the one of the event loop, and a
    socket for each time the name of a server could not be resolved; and the requests of clients
    with a negative channel. *)
Definition all_closed (vs : list (event (I := I) (L := L) (D := D))) (epollfd : Z) (s : proxy I L D) (opened : gset Z) : Prop :=
  opened = {[epollfd]} ∪ list_to_set (lost_fds s) ∧ Z.of_nat (length (lost_fds s)) ≤ countb unresolved vs ∧
  Z.of_nat (size (requests s)) ≤ countb forgetful vs ∧
  number_of_entries (table s) = 0 ∧ strings s = ∅ ∧ ev_count (ev s) = 0 ∧ reference_count (plugin s) = 0.

End proxy_main.

(** A configuration with one server, a client that comes and sends three bytes, and the end. *)
Definition one_server : list definition := [DefStrings "servers" (quoted "mail") []].

Definition one_server_conf : settings :=
  Settings 0 1 (Some [("mail"%string, 25)]) 5 5 432000 6 0 None.

Lemma one_server_events_ok : events_ok sample_run (start (I := nat) (L := nat) one_server_conf 3).
Proof.
  assert (Hf : ∀ (l : list Z) n fd, Some [n] = Some l → 0 ≤ n → fd ∈ l → 0 ≤ fd).
  { intros l n fd [= <-] Hn ->%list_elem_of_singleton. done. }
  split; [split_and!|].
  - intros l fd Hl. by apply (Hf l 3).
  - intros _. split; [lia|]. apply not_elem_of_empty.
  - intros _. by split_and!.
  - by apply sample_io_ok.
  - by apply all_room_ok.
  - intros s' cs Hs. split; [|by intros]. vm_compute in Hs. simplify_eq. split_and!.
    + intros l fd Hl. by apply (Hf l 5).
    + done.
    + simpl. lia.
    + by apply sample_io_ok.
    + by apply all_room_ok.
Qed.

