(* ===== verification/Sessions.v ===== *)
(** * The records of the database for the connections it admitted

    A client the database knows gets a record when its connection is established
    ([connection_established] answers its number), and the record is to be completed
    when the connection ends ([connection_close] with that number). This file follows the
    numbers through any run of the proxy. *)

From S2P Require Import Prelude Heap Utils Events PacketAnalyzer ConnTable Proxying ProxySafety ProxyRuns.

(** The record a call completes. *)
Definition closed_row (call : service_call) : option Z :=
  match call with ConnectionClose id _ _ _ => Some id | _ => None end.
Definition closed_rows (cs : list service_call) : list Z := omap closed_row cs.

Definition is_established (call : service_call) : bool :=
  match call with ConnectionEstablished _ _ _ => true | _ => false end.

(** The numbers [connection_close] gets are [int]s. *)
Definition call_ints (call : service_call) : Prop :=
  match call with ConnectionClose id _ count _ => is_int id ∧ is_int count | _ => True end.

Lemma closed_rows_app cs cs' : closed_rows (cs ++ cs') = closed_rows cs ++ closed_rows cs'.
Proof. apply omap_app. Qed.

Lemma closed_rows_writes dst sent : closed_rows (map (Write dst) sent) = [].
Proof. by induction sent. Qed.

Lemma writes_ints dst sent : Forall call_ints (map (Write dst) sent).
Proof. induction sent; by constructor. Qed.

Section sessions.
Context {I L D : Type} `{EqDecision I} `{EqDecision D}.
Implicit Types (s : proxy I L D) (d : connection D) (e : accept_env D) (es : list (loc * connection D)) (xr : list loc).

(** The record of a connection. *)
Definition row_of d : option Z := match request_in_db d with Some _ => Some (insert_id d) | None => None end.
Definition rows_of es : list Z := omap (row_of ∘ snd) es.

(** The records that are made in an event: [connection_established] is called, and answers
    [ae_inserted]. *)
Definition opened_rows (v : event (I := I) (L := L) (D := D)) (cs : list service_call) : list Z :=
  match v with
  | Round _ _ e _ => (λ _, ae_inserted e) <$> List.filter is_established cs
  | _ => []
  end.

(** A run with the records that are made in it. *)
Fixpoint sessions (vs : list event) s : outcome (proxy I L D * list Z * list service_call) :=
  match vs with
  | [] => Ok (s, [], [])
  | v :: vs' =>
      '(s1, cs1) ← happen v s;
      '(s2, o, cs2) ← sessions vs' s1;
      Ok (s2, opened_rows v cs1 ++ o, cs1 ++ cs2)
  end.

Lemma sessions_happens vs : ∀ s s' o cs, sessions vs s = Ok (s', o, cs) → happens vs s = Ok (s', cs).
Proof.
  induction vs as [|v vs IH]; intros s s' o cs H; [by injection H as <- <- <-|]. cbn [sessions happens] in *.
  apply bind_ok_inv in H as ([s1 cs1] & -> & H). rewrite bind_ok. apply bind_ok_inv in H as ([[s2 o2] cs2] & H2 & [= <- <- <-]).
  by rewrite (IH _ _ _ _ H2).
Qed.

(** What the connections know is told as [int]s. *)
Definition ints d : Prop := is_int (requestCount (info_traffic d)) ∧ ∀ id, row_of d = Some id → is_int id.

Lemma rows_of_app es1 es2 : rows_of (es1 ++ es2) = rows_of es1 ++ rows_of es2.
Proof. apply omap_app. Qed.

Lemma closing_rows d idle : closed_rows (closing_calls d idle) = option_list (row_of d).
Proof. unfold closing_calls, row_of. by destruct (request_in_db d). Qed.

Lemma closing_ints d idle : ints d → Forall call_ints (closing_calls d idle).
Proof.
  intros [Hc Hid]. unfold closing_calls, row_of in *. destruct (request_in_db d); cbn [app].
  - apply list.Forall_cons. split; [split; [by apply Hid|done]|by apply list.Forall_singleton].
  - by apply list.Forall_singleton.
Qed.

(** ** Each handler keeps the account *)

Lemma expiry_rows tv timeout es :
  rows_of es ≡ₚ closed_rows (expiry_calls tv timeout es) ++ rows_of (List.filter (λ x, negb (idle_at tv timeout x)) es).
Proof.
  unfold expiry_calls. induction es as [|[l d] es IH]; [done|]. rewrite bind_cons, closed_rows_app. cbn [List.filter].
  unfold rows_of at 1. rewrite omap_cons_list. fold (rows_of es). rewrite IH. destruct (idle_at tv timeout (l, d)); cbn [negb].
  - by rewrite closing_rows, <- app_assoc.
  - unfold rows_of at 2. rewrite omap_cons_list. fold (rows_of (List.filter (λ x, negb (idle_at tv timeout x)) es)). cbn [closed_rows omap list_omap app].
    by rewrite Permutation_app_swap_app.
Qed.

Lemma expiry_ints tv timeout es : Forall (ints ∘ snd) es → Forall call_ints (expiry_calls tv timeout es).
Proof.
  unfold expiry_calls. induction 1 as [|[l d] es Hd _ IH]; [done|]. rewrite bind_cons. apply Forall_app. split; [|done].
  destruct (idle_at _ _ _); [by apply closing_ints|done].
Qed.

Lemma filter_forall {A} (P : A → Prop) (f : A → bool) l : Forall P l → Forall P (List.filter f l).
Proof. induction 1; simpl; [done|]. destruct (f _); by repeat constructor. Qed.

Lemma packet_ints limit fromClient now buffer d tr close bytes :
  packet_spec limit fromClient now buffer (info_traffic d) tr close bytes → room (info_traffic d) → ints d → ints (with_traffic tr d).
Proof.
  intros Hp Hr [Hc Hid]. split; [|done]. cbn [info_traffic with_traffic]. unfold packet_spec in Hp. cbv zeta in Hp.
  destruct (_ || _); [by destruct Hp as (-> & _)|]. destruct Hp as (n & _ & _ & _ & ->). unfold is_int, room, INT_MIN, INT_MAX in *.
  destruct fromClient; cbn; lia.
Qed.

(** Looking a client up neither makes nor completes a record. *)
Definition no_session (call : service_call) : bool :=
  match call with ConnectionEstablished _ _ _ | ConnectionClose _ _ _ _ => false | _ => true end.

Lemma no_sessions cs : forallb no_session cs = true →
  closed_rows cs = [] ∧ List.filter is_established cs = [] ∧ Forall call_ints cs.
Proof.
  induction cs as [|call cs IH]; [done|]. cbn [forallb]. intros [Hc Hcs]%andb_true_iff. destruct (IH Hcs) as (H1 & H2 & H3).
  unfold closed_rows in *. cbn [omap list_omap List.filter]. destruct call; simpl in *; try done; by rewrite ?H1, ?H2; repeat constructor.
Qed.

Lemma decide_no_session c ip v4 e : forallb no_session (decide_channel c ip v4 e).2 = true.
Proof.
  unfold decide_channel, judge_counter. repeat (case_match; simplify_eq; simpl; try done).
Qed.
(** What an establishment or an admission tells: one record if the database knows the
    client, and none is completed. *)
Definition tells_rows (rows : list Z) e (cs : list service_call) : Prop :=
  closed_rows cs = [] ∧ (λ _, ae_inserted e) <$> List.filter is_established cs = rows ∧ Forall call_ints cs.

Lemma tells_none e cs : forallb no_session cs = true → tells_rows [] e cs.
Proof. intros (H1 & H2 & H3)%no_sessions. split; [done|]. by rewrite H2. Qed.

Lemma tells_app e cs cs' rows rows' :
  tells_rows rows e cs → tells_rows rows' e cs' → tells_rows (rows ++ rows') e (cs ++ cs').
Proof.
  intros (H1 & H2 & H3) (H1' & H2' & H3'). unfold tells_rows.
  by rewrite closed_rows_app, H1, H1', List.filter_app, fmap_app, H2, H2', Forall_app.
Qed.

Lemma establish_rows fdc id ip r dc e s s' cs :
  establish fdc id ip r dc e s = Ok (s', cs) →
  tells_rows (match r with Some _ => [ae_inserted e] | None => [] end) e cs.
Proof.
  unfold establish. intros H. apply bind_ok_inv in H as ([p t1] & _ & H). destruct p as [l|]; [|done].
  destruct (analyzer_allocate _ _) as [[data pl] ls]. apply bind_ok_inv in H as ([[ch sh] s2] & _ & H).
  apply bind_ok_inv in H as ([[[iid nth] s3] cs1] & H1 & H). apply bind_ok_inv in H as (t & _ & [= <- <-]).
  destruct r as [x|]; [|injection H1 as <- <- <- <-; by apply tells_none].
  apply bind_ok_inv in H1 as (q & _ & [= <- <- <- <-]). split; [done|]. split; [done|]. by apply list.Forall_singleton.
Qed.

Lemma accepting_rows fdc id e s s' cs :
  accepting_request fdc id e s = Ok (s', cs) →
  tells_rows (if admitted (conf s) e then match ae_available e with Some _ => [ae_inserted e] | None => [] end else []) e cs.
Proof.
  unfold accepting_request, admitted, chosen. intros H. destruct (ae_peer e) as [[ip v4]|].
  2: { injection H as <- <-. by apply tells_none. }
  apply bind_ok_inv in H as (z & _ & H). pose proof (tells_none e _ (decide_no_session (conf s) ip v4 e)) as Hd.
  destruct (decide_channel (conf s) ip v4 e) as [d cs0]. cbn [fst snd] in *.
  destruct (match ae_available e with Some _ => _ | None => _ end) as [r s0] eqn:Hr.
  destruct (0 <=? channel_of d); cbn [andb].
  - apply bind_ok_inv in H as (servers & _ & H). apply bind_ok_inv in H as (a & _ & H).
    assert (Hc : tells_rows [] e (match ae_available e, entry_of d with None, Some _ => [CountSuccess] | _, _ => [] end))
      by (apply tells_none; by repeat case_match).
    destruct (0 <=? ae_connect e).
    + apply bind_ok_inv in H as ([s1 cs2] & H1%establish_rows & [= <- <-]).
      assert (match r with Some _ => [ae_inserted e] | None => [] end = match ae_available e with Some _ => [ae_inserted e] | None => [] end) as <-
        by (destruct (ae_available e); by injection Hr as <- <-).
      exact (tells_app _ _ _ _ _ Hd (tells_app _ _ _ _ _ Hc H1)).
    + apply bind_ok_inv in H as (s1 & _ & [= <- <-]). exact (tells_app _ _ _ _ _ Hd Hc).
  - unfold refuse in H. injection H as <- <-. apply (tells_app _ _ _ [] []); [done|]. apply tells_none.
    rewrite forallb_app. by repeat case_match.
Qed.
(** ** Any run keeps the account *)

(** What an event leads to, unless the plugin kills the process: the records that were open
    before or made in it are completed in it or belong to a connection that is open now. *)
Definition settled lis (v : event) es (cs : list service_call) s' : Prop :=
  alive s' = true → conf_ok (conf s') ∧ ∃ es' fs' xr', inv lis s' es' fs' xr' ∧
    opened_rows v cs ++ rows_of es ≡ₚ closed_rows cs ++ rows_of es' ∧
    Forall (ints ∘ snd) es' ∧ Forall call_ints cs.

Lemma closing_not_established d idle : List.filter is_established (closing_calls d idle) = [].
Proof. unfold closing_calls. by destruct (request_in_db d). Qed.

Lemma writes_not_established dst sent : List.filter is_established (map (Write dst) sent) = [].
Proof. by induction sent. Qed.

Lemma expiry_not_established tv timeout es : List.filter is_established (expiry_calls tv timeout es) = [].
Proof.
  unfold expiry_calls. induction es as [|[l d] es IH]; [done|]. rewrite bind_cons, List.filter_app, IH, app_nil_r.
  destruct (idle_at _ _ _); [apply closing_not_established|done].
Qed.

Lemma packet_settled lis s es fs xr l d source dst x ready sock e :
  inv lis s es fs xr → conf_ok (conf s) → io_ok x → room (info_traffic d) → (l, d) ∈ es → Forall (ints ∘ snd) es →
  ∃ s' cs, do_proxying source dst l x s = Ok (s', cs) ∧ settled lis (Round ready sock e x) es cs s'.
Proof.
  intros Hinv Hc Hx Hroom (es1 & es2 & ->)%list_elem_of_split Hints.
  destruct (do_proxying_ok _ _ _ _ _ _ _ _ source dst x Hinv Hx Hroom) as (s' & cs & Hdo & Hcf & Hres).
  exists s', cs. split; [done|]. intros Hal. split; [by rewrite Hcf|].
  destruct Hres as [[Hdead _]|(_ & tr & close & sent & Hp & -> & Hinv')]; [congruence|].
  apply Forall_app in Hints as [H1 [Hd H2]%list.Forall_cons]. pose proof (packet_ints _ _ _ _ _ _ _ _ Hp Hroom Hd) as Hd'.
  cbn [opened_rows]. rewrite List.filter_app, writes_not_established, closed_rows_app, closed_rows_writes. cbn [app].
  destruct close.
  - exists (es1 ++ es2), (l :: fs), xr. split; [done|]. rewrite closing_not_established, closing_rows. cbn [fmap list_fmap app]. split; [|split].
    + rewrite !rows_of_app. unfold rows_of at 2. rewrite omap_cons_list. fold (rows_of es2). by rewrite Permutation_app_swap_app.
    + by apply Forall_app.
    + apply Forall_app. split; [apply writes_ints|by apply closing_ints].
  - exists (es1 ++ (l, with_traffic tr d) :: es2), fs, xr. split; [done|]. cbn. split; [|split].
    + by rewrite !rows_of_app.
    + apply Forall_app. split; [done|]. by apply list.Forall_cons.
    + rewrite app_nil_r. apply writes_ints.
Qed.

Lemma accept_settled lis s es fs xr ready sock e x :
  inv lis s es fs xr → conf_ok (conf s) → event_ok (Round ready sock e x) s → is_int (ae_inserted e) → Forall (ints ∘ snd) es →
  ∃ s' cs, main_listener sock e s = Ok (s', cs) ∧ settled lis (Round ready sock e x) es cs s'.
Proof.
  intros Hinv Hc (_ & Hs & He & _) Hid Hints.
  destruct (main_listener_ok _ _ _ _ _ sock e Hinv Hc Hs He) as (s' & cs & es' & fs' & xr' & Hml & Hinv' & [Hk _] & Hacc).
  exists s', cs. split; [done|]. intros _. split; [by rewrite Hk|]. exists es', fs', xr'. split; [done|].
  unfold main_listener in Hml. destruct (Z.eqb_spec sock (-1)) as [->|Hne].
  { injection Hml as <- <-. destruct Hacc as [-> _]. done. }
  apply accepting_rows in Hml as (H1 & H2 & H3). cbn [conf with_counters with_fds] in H2. cbn [opened_rows]. rewrite H1, H2.
  destruct Hacc as [Hes _]. destruct (admitted (conf s) e); [|by subst es'].
  destruct Hes as (l & d & -> & _ & _ & _ & Hrq & Htr & Hin). split; [|split; [|done]].
  - unfold rows_of at 2. rewrite omap_cons_list. fold (rows_of es). cbn [compose snd]. unfold compose, row_of. simpl snd.
    destruct (request_in_db d) as [r|], (ae_available e) as [q|]; cbn [option_list app].
    + by rewrite Hin.
    + destruct (proj1 Hrq) as [y [=]]. by eexists.
    + destruct (proj2 Hrq) as [y [=]]. by eexists.
    + done.
  - apply list.Forall_cons. split; [|done]. change (ints d). split; [by rewrite Htr|].
    unfold row_of. intros id. destruct (request_in_db d); [|done]. intros [= <-]. by rewrite Hin.
Qed.
Lemma happen_settled lis s es fs xr v :
  inv lis s es fs xr → conf_ok (conf s) → alive s = true → event_ok v s →
  match v with Round _ _ e _ => is_int (ae_inserted e) | _ => True end → Forall (ints ∘ snd) es →
  ∃ s' cs, happen v s = Ok (s', cs) ∧ settled lis v es cs s'.
Proof.
  intros Hinv Hc Hal Hok Hid Hints. unfold happen. rewrite Hal.
  assert (Hsame : ∀ s', inv lis s' es fs xr → conf_ok (conf s') → opened_rows v [] = [] → settled lis v es [] s').
  { intros s' Hi Hc' Ho _. split; [done|]. exists es, fs, xr. by rewrite Ho. }
  destruct v as [ready sock e x|ok tv timeout|r|ch|ch].
  - pose proof Hok as (Hrd & _ & _ & Hx & Hroom). pose proof Hinv as [Ht []]. destruct ow_events as (gm & Hrep & Hgm).
    unfold loop_once. destruct (ev_looping_ok _ _ ready Hrep Hrd) as ([[[h fd] a]|] & -> & Hr); rewrite bind_ok.
    2: { exists s, []. split; [done|]. by apply Hsame. }
    destruct Hr as [i Hi]. apply Hgm in Hi as [(fd' & _ & [= -> -> ->])|(l & d & Hin & Hr)]; [by eapply accept_settled|].
    destruct (chain_lookup _ _ _ _ _ _ Ht Hin) as (c & Hcell & _).
    pose proof (Hroom l d (proj2 (open_at_iff _ _ _ _ _ _ _ Hinv) Hin)) as Hrm. destruct Hr as [[_ [= -> -> ->]]|[_ [= -> -> ->]]]; unfold proxy_from_client_to_server, proxy_from_server_to_client;
      rewrite (deref_Some _ _ _ Hcell), bind_ok; by eapply packet_settled.
  - destruct (clean_idle_ok _ _ _ _ _ ok tv timeout Hinv) as (s' & fs' & -> & Hinv' & [Hk _]). eexists _, _. split; [done|].
    intros _. split; [by rewrite Hk|]. eexists _, fs', xr. split; [done|]. cbn [opened_rows app].
    split; [apply expiry_rows|]. split; [by apply filter_forall|by apply expiry_ints].
  - destruct (administer_good _ _ _ _ _ _ Hinv Hok) as (s' & -> & Hinv' & [Hk _]). eexists _, _. split; [done|]. apply Hsame; [done|by rewrite Hk|done].
  - eexists _, _. split; [done|]. apply Hsame; [by apply set_conf_good|by apply channel_conf_ok|done].
  - eexists _, _. split; [done|]. apply Hsame; [by apply set_conf_good|by apply channel_conf_ok|done].
Qed.

(** The numbers the database gives are [int]s. *)
Definition ids_ok (vs : list (event (I := I) (L := L) (D := D))) : Prop :=
  Forall (λ v, match v with Round _ _ e _ => is_int (ae_inserted e) | _ => True end) vs.

Lemma sessions_dead vs s : alive s = false → ∃ o, sessions vs s = Ok (s, o, []).
Proof.
  intros Hd. induction vs as [|v vs [o IH]]; [by eexists|]. cbn [sessions]. unfold happen. rewrite Hd, bind_ok, IH, bind_ok. by eexists.
Qed.

Lemma sessions_settled lis vs : ∀ s es fs xr,
  inv lis s es fs xr → conf_ok (conf s) → alive s = true → events_ok vs s → ids_ok vs → Forall (ints ∘ snd) es →
  ∃ s' o cs, sessions vs s = Ok (s', o, cs) ∧
    (alive s' = true → ∃ es' fs' xr', inv lis s' es' fs' xr' ∧ o ++ rows_of es ≡ₚ closed_rows cs ++ rows_of es' ∧
       Forall (ints ∘ snd) es' ∧ Forall call_ints cs).
Proof.
  induction vs as [|v vs IH]; intros s es fs xr Hinv Hc Hal Hok Hids Hints; cbn [sessions].
  { exists s, [], []. split; [done|]. intros _. by exists es, fs, xr. }
  destruct Hok as [Hv Hvs]. apply list.Forall_cons in Hids as [Hid Hids].
  destruct (happen_settled _ _ _ _ _ v Hinv Hc Hal Hv Hid Hints) as (s1 & cs1 & Hh & Hset). rewrite Hh, bind_ok.
  destruct (alive s1) eqn:Hal1.
  - destruct (Hset Hal1) as (Hc1 & es1 & fs1 & xr1 & Hinv1 & Hrows & Hints1 & Hcalls).
    destruct (IH _ _ _ _ Hinv1 Hc1 Hal1 (Hvs _ _ Hh) Hids Hints1) as (s' & o & cs & -> & Hres). rewrite bind_ok.
    eexists _, _, _. split; [done|]. intros Ha. destruct (Hres Ha) as (es' & fs' & xr' & Hinv' & Hr & Hi & Hcs).
    exists es', fs', xr'. split; [done|]. rewrite closed_rows_app, <- !app_assoc. split; [|split; [done|by apply Forall_app]].
    rewrite <- Hr, Permutation_app_swap_app, Hrows. by rewrite Permutation_app_swap_app.
  - destruct (sessions_dead vs s1 Hal1) as [o ->]. rewrite bind_ok. eexists _, _, _. split; [done|]. by rewrite Hal1.
Qed.
(** The end of [proxy_main] completes what is open. *)
Lemma end_settled c sockfd vs s es fs xr ok tv :
  reached c sockfd vs s → inv (Some (0%nat, sockfd)) s es fs xr → Forall (ints ∘ snd) es →
  (∀ l d, open_at s l d → -1000000 < elapsed_time tv (recent (info_traffic d))) →
  ∃ s' cs, proxy_main_end true ok tv 0 s = Ok (s', cs) ∧ rows_of es ≡ₚ closed_rows cs ∧ Forall call_ints cs.
Proof.
  intros Hr Hinv Hints Hrec. destruct (shutdown_releases c sockfd vs s ok tv Hr Hrec) as (s' & cs & He & _).
  exists s', cs. split; [done|]. unfold proxy_main_end in He.
  destruct (clean_idle_ok _ _ _ _ _ ok tv (-1000000) Hinv) as (s1 & fs1 & Hcl & _). rewrite Hcl, bind_ok in He.
  apply bind_ok_inv in He as ([b e] & _ & [= _ <-]). split; [|by apply expiry_ints].
  by rewrite (expiry_rows tv (-1000000) es), (all_idle _ _ _ _ _ _ Hinv Hrec), app_nil_r.
Qed.

(** The account of a run from the start. *)
Lemma sessions_account c sockfd vs :
  conf_ok c → 0 ≤ sockfd → events_ok vs (start c sockfd) → ids_ok vs →
  ∃ s o cs, sessions vs (start c sockfd) = Ok (s, o, cs) ∧
    (alive s = true → reached c sockfd vs s ∧ ∃ es fs xr, inv (Some (0%nat, sockfd)) s es fs xr ∧
       o ≡ₚ closed_rows cs ++ rows_of es ∧ Forall (ints ∘ snd) es ∧ Forall call_ints cs).
Proof.
  intros Hc H0 Hok Hids. destruct (start_good (I := I) (L := L) (D := D) c sockfd Hc H0) as (_ & es0 & fs0 & xr0 & Hinv0 & _).
  assert (es0 = []) as ->.
  { destruct Hinv0 as [Ht _]. pose proof (tr_entries _ _ _ _ Ht) as Hn. by destruct es0. }
  destruct (sessions_settled _ vs _ _ _ _ Hinv0 Hc eq_refl Hok Hids) as (s & o & cs & Hrun & Hres); [done|].
  exists s, o, cs. split; [done|]. intros Hal. destruct (Hres Hal) as (es & fs & xr & Hinv & Hrows & Hints & Hcalls).
  change (rows_of []) with (@nil Z) in Hrows. rewrite app_nil_r in Hrows. split; [|by exists es, fs, xr].
  split_and!; try done. exists cs. by eapply sessions_happens.
Qed.

End sessions.

(** The sample run of [ProxyRuns.v]: a client the database knows sends three bytes. *)
Lemma sample_end s o cs :
  sessions sample_run (start (I := nat) (L := nat) run_conf 3) = Ok (s, o, cs) →
  alive s = true ∧ o = [1] ∧ closed_rows cs = [] ∧
  ∀ l d, open_at s l d → -1000000 < elapsed_time (Timeval 1000 0) (recent (info_traffic d)).
Proof.
  intros Hrun. vm_compute in Hrun. injection Hrun as <- <- <-. split_and!; [done..|].
  intros l d (ce & Hl & _ & <-). apply (elem_of_dom_2 (D := gset loc)) in Hl as Hdom. vm_compute in Hdom. vm_compute in Hl.
  by repeat (case_match; simplify_eq).
Qed.

