(* ===== verification/Admission.v ===== *)
(** * Admission: the proxy together with its blacklist service

    [Proxying.v] takes the answer of the blacklist service as an argument and records
    the calls it makes to it; [AutoBlacklist.v] is the service. Here the two run
    together: a client that is looked up is counted by the service, the proxy decides
    with the entry it gets back, and what the proxy writes to the entry
    ([success_counter], [log_time]) is written to the service's cell. The theorems are
    about any run of both: it returns, and no address gets more than [threshold]
    clients through in one window. *)

From S2P Require Import Prelude Heap Utils Events AutoBlacklist BlacklistRace PacketAnalyzer ConnTable Proxying ProxySafety ProxyRuns.

(** ** The writes of the proxy to an entry *)

Definition with_success (n : Z) (e : ip_entry) : ip_entry :=
  IpEntry (ipaddr e) (access_count e) (counter e) n (log_time e) (entry_next e).
Definition with_log_time (tv : timeval) (e : ip_entry) : ip_entry :=
  IpEntry (ipaddr e) (access_count e) (counter e) (success_counter e) tv (entry_next e).

(** [entry->success_counter++] and [gettimeofday (&entry->log_time, NULL)]; the other
    calls of the proxy do not write to the entry. *)
Definition note_call (l : loc) (tv : timeval) (b : blacklist) (call : service_call) : outcome blacklist :=
  match call with
  | CountSuccess =>
      en ← deref (entries b) (Some l);
      n ← checked_int (success_counter en + 1);
      h ← store (entries b) (Some l) (with_success n en);
      Ok (with_entries h b)
  | TouchLogTime =>
      en ← deref (entries b) (Some l);
      h ← store (entries b) (Some l) (with_log_time tv en);
      Ok (with_entries h b)
  | _ => Ok b
  end.

Fixpoint note_calls (l : loc) (tv : timeval) (cs : list service_call) (b : blacklist) : outcome blacklist :=
  match cs with
  | [] => Ok b
  | call :: cs' => b1 ← note_call l tv b call; note_calls l tv cs' b1
  end.

Definition is_blacklist_call (call : service_call) : bool :=
  match call with FindAndIncrease _ | CountSuccess | TouchLogTime => true | _ => false end.

(** The calls to the blacklist service and the writes to its entries. *)
Definition blacklist_calls (cs : list service_call) : list service_call := List.filter is_blacklist_call cs.

Lemma blacklist_calls_app cs cs' : blacklist_calls (cs ++ cs') = blacklist_calls cs ++ blacklist_calls cs'.
Proof. apply List.filter_app. Qed.

Lemma note_calls_filter l tv cs b : note_calls l tv cs b = note_calls l tv (blacklist_calls cs) b.
Proof.
  revert b. induction cs as [|call cs IH]; intros b; [done|].
  unfold blacklist_calls in *. cbn [List.filter]. destruct (is_blacklist_call call) eqn:Hc; cbn [note_calls].
  - destruct (note_call l tv b call); [apply IH|done..].
  - replace (note_call l tv b call) with (Ok b) by (by destruct call). apply IH.
Qed.

(** No cell has more than [m] successes. *)
Definition few_successes (m : Z) (h : heap ip_entry) : Prop := map_Forall (λ _ e, 0 ≤ success_counter e ≤ m) h.

Lemma few_successes_insert m h l e :
  few_successes m h → 0 ≤ success_counter e ≤ m → few_successes m (<[l := e]> h).
Proof. intros Hh He. by apply map_Forall_insert_2. Qed.

Lemma few_successes_update m h l e e' :
  few_successes m h → h !! l = Some e → same_cell e e' → few_successes m (<[l := e']> h).
Proof. intros Hh He [_ Hs]. apply few_successes_insert; [done|]. rewrite Hs. exact (Hh l e He). Qed.

(** An entry whose ring, address and link stay may change in the table. *)
Lemma table_touch log c s ch pool l e e' ip :
  AutoBlacklist.table log c s ch pool None [] → 0 ≤ ip → l ∈ ch (home s ip) → entries s !! l = Some e →
  ipaddr e' = ipaddr e → entry_next e' = entry_next e → access_count e' = access_count e → counter e' = counter e →
  AutoBlacklist.table log c (with_entries (<[l := e']> (entries s)) s) ch pool None [].
Proof.
  intros Ht Hip Hl He H1 H2 H3 H4. pose proof (home_bucket s ip (proj1 (t_size _ _ _ _ _ _ _ Ht)) Hip) as Hk.
  eapply table_update; try done.
  - split; [done|]. apply (t_ips _ _ _ _ _ _ _ Ht).
  - destruct (t_entry _ _ _ _ _ _ _ Ht _ _ Hk Hl) as (e0 & He0 & _ & c' & Hc' & [[Hlen Hnn Htot Hb] Hp Hr]). simplify_eq.
    exists c'. split; [done|]. rewrite H1. split; [|done|by rewrite H3]. split; by rewrite ?H3, ?H4.
Qed.

(** ** The limit on a log of visits *)

(** A client that was counted: its address, the time slot, whether the database holds
    it for a VIP, and whether it was let through. *)
Record visit := Visit { v_ip : Z; v_slot : Z; v_vip : bool; v_through : bool }.

(** The accesses the service has counted. *)
Definition counted (log : list visit) : list (Z * Z) := map (λ v, (v_ip v, v_slot v)) log.

(** The visits of [ip], not as a VIP, that were let through in the twelve slots that end
    with [c]. *)
Definition let_in (ip c : Z) (log : list visit) : Z :=
  countb (λ v, (v_ip v =? ip) && v_through v && negb (v_vip v) && (c - 12 <? v_slot v) && (v_slot v <=? c)) log.

(** Whoever was let through had, at that time, at most [threshold] visits in the window. *)
Fixpoint limited (threshold : Z) (log : list visit) : Prop :=
  match log with
  | [] => True
  | v :: log' =>
      (v_through v = true → v_vip v = false → window_count (counted log) (v_slot v) (v_ip v) ≤ threshold) ∧
      limited threshold log'
  end.

Lemma countb_le {A} (P Q : A → bool) l : (∀ x, P x = true → Q x = true) → countb P l ≤ countb Q l.
Proof.
  intros HPQ. induction l as [|x l IH]; simpl; [done|]. specialize (HPQ x).
  destruct (P x), (Q x); try lia; by discriminate HPQ.
Qed.

Lemma window_count_counted log c ip :
  window_count (counted log) c ip = countb (λ v, (v_ip v =? ip) && (c - 12 <? v_slot v)) log.
Proof.
  unfold window_count, hits, counted. induction log as [|v log IH]; [done|]. simpl.
  destruct (v_ip v =? ip); simpl; by rewrite IH.
Qed.

(** Counting at the time of each visit bounds the number in every window. *)
Lemma limited_bound threshold log ip c : limited threshold log → let_in ip c log ≤ Z.max 0 threshold.
Proof.
  induction log as [|v log IH]; [unfold let_in; simpl; lia|]. intros [Hv Hlog]. specialize (IH Hlog).
  unfold let_in in *. cbn [countb]. cbv beta. destruct ((v_ip v =? ip) && v_through v && _ && _ && _) eqn:Hc; [|lia].
  apply andb_true_iff in Hc as [[[[<-%Z.eqb_eq Ht]%andb_true_iff Hvip%negb_true_iff]%andb_true_iff Hlo%Z.ltb_lt]%andb_true_iff Hhi%Z.leb_le].
  specialize (Hv Ht Hvip). rewrite window_count_counted in Hv. cbn [countb] in Hv. cbv beta in Hv.
  rewrite Z.eqb_refl, (proj2 (Z.ltb_lt (v_slot v - 12) _)) in Hv by lia. cbn [andb] in Hv.
  enough (countb (λ w, (v_ip w =? v_ip v) && v_through w && negb (v_vip w) && (c - 12 <? v_slot w) && (v_slot w <=? c)) log
    ≤ countb (λ w, (v_ip w =? v_ip v) && (v_slot v - 12 <? v_slot w)) log) by lia.
  apply countb_le. intros w. rewrite !andb_true_iff, !Z.ltb_lt. intros [[[[? _] _] ?] _]. split; [done|lia].
Qed.

Section admission.
Context {I L D : Type} `{EqDecision I} `{EqDecision D}.
Implicit Types (s : proxy I L D) (b : blacklist) (e : accept_env D).

(** ** The two together *)

(** The address that is looked up in the blacklist service in this round, if one is:
    the listening socket is ready, the peer has an IPv4 address that the database does
    not know and the white list admits. *)
Definition looked_up (ready : option (list Z)) (sock : Z) e s : outcome (option Z) :=
  r ← ev_looping ready (ev s);
  Ok (match r, ae_peer e, ae_available e with
      | Some (MainListener, _, _), Some (ip, Some addr), None =>
          if negb (sock =? -1) && check_remote_ip_in_whitelist ip (white_list_conf (conf s)) then Some addr else None
      | _, _, _ => None
      end).

(** [e] with the entry the service returned. *)
Definition answered (en : ip_entry) e : accept_env D :=
  AcceptEnv (ae_memory e) (ae_peer e) (ae_available e) (ae_blacklisted e) (Some (counter en, log_time en))
    (ae_guessing e) (ae_vip e) (ae_vip_again e) (ae_added e) (ae_now e) (ae_connect e) (ae_unresolved e) (ae_data e)
    (ae_epoll_client e) (ae_epoll_server e) (ae_inserted e).

Definition is_success (call : service_call) : bool := match call with CountSuccess => true | _ => false end.

(** An event of the proxy, or a run of the expiry of the blacklist; [now] is what
    [time (NULL)] answers to the service. *)
Inductive sys_event :=
  | Happens (v : event (I := I) (L := L) (D := D)) (now : Z)
  | ExpireBlacklist (now : Z).

Definition event_time (v : sys_event) : Z := match v with Happens _ now => now | ExpireBlacklist now => now end.

(** A round of the event loop; the entry is read after [find_and_increase] and written
    after the decision, both under the proxy's mutex. *)
Definition round_step (ready : option (list Z)) (sock : Z) e (x : io) (now : Z) s b
    : outcome (proxy I L D * blacklist * list service_call * option visit) :=
  q ← looked_up ready sock e s;
  match q with
  | Some addr =>
      '(l, b1) ← find_and_increase (ae_memory e) addr now (ae_now e) b;
      en ← deref (entries b1) (Some l);
      '(s', cs) ← happen (Round ready sock (answered en e) x) s;
      b2 ← note_calls l (ae_now e) cs b1;
      Ok (s', b2, cs, Some (Visit (htonl addr) (slot b now) (negb (ae_vip e =? 0)) (existsb is_success cs)))
  | None => '(s', cs) ← happen (Round ready sock e x) s; Ok (s', b, cs, None)
  end.

Definition sys_step (v : sys_event) s b : outcome (proxy I L D * blacklist * list service_call * option visit) :=
  match v with
  | Happens (Round ready sock e x) now =>
      if alive s then round_step ready sock e x now s b else Ok (s, b, [], None)
  | Happens v _ => '(s', cs) ← happen v s; Ok (s', b, cs, None)
  | ExpireBlacklist now => '(_, b') ← expiring now b; Ok (s, b', [], None)
  end.

(** The visits, the latest first. *)
Fixpoint sys_run (vs : list sys_event) s b (log : list visit) : outcome (proxy I L D * blacklist * list visit) :=
  match vs with
  | [] => Ok (s, b, log)
  | v :: vs' => '(s', b', _, w) ← sys_step v s b; sys_run vs' s' b' (option_list w ++ log)
  end.

(** ** The proxy calls the service exactly when the address is looked up *)

Lemma judge_blacklist_calls c ip e n ch : blacklist_calls (judge_counter c ip e n ch).2 = [].
Proof.
  unfold judge_counter. set (g := if negb _ && _ && _ && _ then _ else _).
  assert (∃ ch1 cs1, g = (ch1, cs1) ∧ blacklist_calls cs1 = []) as (ch1 & cs1 & -> & Hg).
  { subst g. destruct (_ && _); by eexists _, _. }
  destruct (connection_threshold c <? n); [destruct (ae_vip e =? 0)|]; cbn [snd];
    rewrite !blacklist_calls_app, Hg; destruct (ae_entry e) as [[m lt]|]; repeat case_match; done.
Qed.

(** The service is asked for this address. *)
Definition consulted c e : option Z :=
  match ae_peer e, ae_available e with
  | Some (ip, Some addr), None => if check_remote_ip_in_whitelist ip (white_list_conf c) then Some addr else None
  | _, _ => None
  end.

(** What the proxy writes to the entry after its decision. *)
Definition entry_writes e (d : decision) : list service_call :=
  if 0 <=? channel_of d then [CountSuccess]
  else if negb (auto_blacklisted d) && blacklisted d then
    match entry_of d with
    | Some (_, log_time) => if 1800000000 <? elapsed_time (ae_now e) log_time then [TouchLogTime] else []
    | None => []
    end
  else [].

Lemma decide_blacklist_calls c ip v4 e :
  ae_peer e = Some (ip, v4) →
  blacklist_calls (decide_channel c ip v4 e).2 = FindAndIncrease <$> option_list (consulted c e) ∧
  entry_of (decide_channel c ip v4 e).1 = match consulted c e with Some _ => ae_entry e | None => None end.
Proof.
  intros Hp. unfold decide_channel, consulted. rewrite Hp.
  destruct (ae_available e) as [q|]; [by destruct v4|].
  destruct (check_remote_ip_in_whitelist ip (white_list_conf c)); [|by destruct v4].
  destruct v4 as [addr|]; [|by destruct (0 <? ae_blacklisted e)].
  destruct (0 <? ae_blacklisted e); [done|].
  pose proof (judge_blacklist_calls c ip e (match ae_entry e with Some (n, _) => n | None => 0 end) (default_server c)) as Hj.
  destruct (judge_counter _ _ _ _ _) as [[ch auto] cs]. split; [|done]. cbn [snd] in *. by rewrite blacklist_calls_app, Hj.
Qed.

Lemma establish_blacklist_calls fdc id ip r dc e s s' cs :
  establish fdc id ip r dc e s = Ok (s', cs) → blacklist_calls cs = [].
Proof.
  unfold establish. intros H. apply bind_ok_inv in H as ([p t1] & _ & H). destruct p as [l|]; [|done].
  destruct (analyzer_allocate _ _) as [[data pl] ls]. apply bind_ok_inv in H as ([[ch sh] s2] & _ & H).
  apply bind_ok_inv in H as ([[[iid nth] s3] cs1] & H1 & H). apply bind_ok_inv in H as (t & _ & [= <- <-]).
  destruct r as [x|]; [|by simplify_eq]. by apply bind_ok_inv in H1 as (q & _ & [= <- <- <- <-]).
Qed.

Lemma accepting_blacklist_calls fdc id e s s' cs :
  accepting_request fdc id e s = Ok (s', cs) →
  blacklist_calls cs =
    match consulted (conf s) e, ae_peer e, ae_entry e with
    | Some addr, Some (ip, v4), Some _ => FindAndIncrease addr :: entry_writes e (decide_channel (conf s) ip v4 e).1
    | Some addr, Some (ip, v4), None => [FindAndIncrease addr]
    | _, _, _ => []
    end.
Proof.
  unfold accepting_request. intros H. destruct (ae_peer e) as [[ip v4]|] eqn:Hp.
  2: { unfold consulted. rewrite Hp. by simplify_eq. }
  apply bind_ok_inv in H as (z & _ & H).
  pose proof (decide_blacklist_calls (conf s) ip v4 e Hp) as [Hcs Hen].
  assert (Hav : is_Some (consulted (conf s) e) → ae_available e = None).
  { unfold consulted. rewrite Hp. destruct v4, (ae_available e); try done; by intros []. }
  destruct (decide_channel (conf s) ip v4 e) as [d cs0]. cbn [fst snd] in *.
  destruct (match ae_available e with Some _ => _ | None => _ end) as [r s0]. unfold entry_writes.
  destruct (0 <=? channel_of d).
  - apply bind_ok_inv in H as (servers & _ & H). apply bind_ok_inv in H as (a & _ & H).
    assert (∃ cs2, blacklist_calls cs2 = [] ∧
      cs = cs0 ++ match ae_available e, entry_of d with None, Some _ => [CountSuccess] | _, _ => [] end ++ cs2) as (cs2 & H2 & ->).
    { destruct (0 <=? ae_connect e).
      - apply bind_ok_inv in H as ([s1 cs2] & H1%establish_blacklist_calls & [= <- <-]). by exists cs2.
      - apply bind_ok_inv in H as (s1 & _ & [= <- <-]). exists []. by rewrite app_nil_r. }
    rewrite !blacklist_calls_app, Hcs, H2, Hen, app_nil_r. destruct (consulted (conf s) e) as [addr|] eqn:Hco; simpl.
    + rewrite Hav by done. by destruct (ae_entry e).
    + by destruct (ae_available e).
  - unfold refuse in H. simplify_eq. rewrite !blacklist_calls_app, Hcs, Hen, app_nil_r.
    destruct (consulted (conf s) e) as [addr|]; simpl; [|by destruct (negb _ && _)].
    destruct (ae_entry e) as [[n lt]|]; [|by destruct (negb _ && _)].
    destruct (negb _ && _); [|done]. by destruct (1800000000 <? _).
Qed.

Lemma close_blacklist_calls l idle ok s s' cs : close_event l idle ok s = Ok (s', cs) → blacklist_calls cs = [].
Proof.
  unfold close_event. intros H. apply bind_ok_inv in H as (c & _ & H). destruct (in_chain c); [by simplify_eq|].
  apply bind_ok_inv in H as ([? e1] & _ & H). apply bind_ok_inv in H as ([? e2] & _ & H).
  destruct (analyzer_release _ _ _) as [p ?]. apply bind_ok_inv in H as ([s2 cs2] & H2 & H).
  apply bind_ok_inv in H as (h & _ & [= <- <-]). rewrite blacklist_calls_app, app_nil_r.
  destruct (request_in_db _); [|by simplify_eq].
  apply bind_ok_inv in H2 as (? & _ & H2). apply bind_ok_inv in H2 as (? & _ & H2). by apply bind_ok_inv in H2 as (? & _ & [= <- <-]).
Qed.

Lemma writes_blacklist_calls fd bs : blacklist_calls (map (Write fd) bs) = [].
Proof. by induction bs. Qed.

Lemma packet_blacklist_calls src dst l x s s' cs : do_proxying src dst l x s = Ok (s', cs) → blacklist_calls cs = [].
Proof.
  unfold do_proxying. intros H. apply bind_ok_inv in H as (c & _ & H). destruct (in_chain c); [|by simplify_eq].
  cbv zeta in H. apply bind_ok_inv in H as (t1 & _ & H). apply bind_ok_inv in H as (r & Hr & H).
  assert (∀ tr cl s2 ws, r = Some (tr, cl, s2, ws) → blacklist_calls ws = []) as Hws.
  { intros tr cl s2 ws ->. destruct (0 <? read_len x); [|by simplify_eq]. unfold handle_packet in Hr.
    destruct (analyze_packet _ _ _ _) as [[[[? ?] ?]|] ?]; [|done].
    destruct (_ && _); [by apply bind_ok_inv in Hr as (? & _ & [= _ _ _ <-])|].
    apply bind_ok_inv in Hr as ([[? ?] sent] & _ & Hr). apply bind_ok_inv in Hr as (? & _ & [= _ _ _ <-]). apply writes_blacklist_calls. }
  destruct r as [[[[tr cl] s2] ws]|]; [|by simplify_eq]. specialize (Hws _ _ _ _ eq_refl).
  apply bind_ok_inv in H as (t3 & _ & H). destruct cl; [|by simplify_eq].
  apply bind_ok_inv in H as (s4 & _ & H). apply bind_ok_inv in H as ([s5 cs5] & H5%close_blacklist_calls & H).
  apply bind_ok_inv in H as (c5 & _ & H). apply bind_ok_inv in H as (s6 & _ & [= <- <-]).
  by rewrite blacklist_calls_app, Hws, H5.
Qed.

(** A round asks the service exactly for the address that is looked up, and then writes to
    the entry as its decision says. *)
Lemma round_blacklist_calls ready sock e x s q s' cs :
  looked_up ready sock e s = Ok q → loop_once ready sock e x s = Ok (s', cs) →
  blacklist_calls cs =
    match q, ae_peer e with
    | Some addr, Some (ip, v4) =>
        FindAndIncrease addr ::
        match ae_entry e with Some _ => entry_writes e (decide_channel (conf s) ip v4 e).1 | None => [] end
    | _, _ => []
    end.
Proof.
  unfold looked_up, loop_once. intros Hq H. apply bind_ok_inv in Hq as (r & Hl & [= <-]). rewrite Hl, bind_ok in H.
  destruct r as [[[[] fd] a]|]; [| | |by simplify_eq].
  - unfold main_listener in H. destruct (Z.eqb_spec sock (-1)) as [->|Hne].
    { simplify_eq. destruct (ae_peer e) as [[ip [addr|]]|]; [|done..]. by destruct (ae_available e). }
    apply accepting_blacklist_calls in H. rewrite H. unfold consulted. cbn [conf with_counters with_fds negb andb].
    destruct (ae_peer e) as [[ip [addr|]]|]; [|done..]. destruct (ae_available e); [done|].
    destruct (check_remote_ip_in_whitelist _ _); [|done]. by destruct (ae_entry e).
  - destruct a as [l|]; [|done]. unfold proxy_from_server_to_client in H.
    apply bind_ok_inv in H as (c & _ & H%packet_blacklist_calls). done.
  - destruct a as [l|]; [|done]. unfold proxy_from_client_to_server in H.
    apply bind_ok_inv in H as (c & _ & H%packet_blacklist_calls). done.
Qed.

(** ** Any run of both *)

(** The writes after a round's decision, on the entry [l] of the address [ip]. *)
Lemma entry_writes_ok log c b ch pool l en ip tv e d addr m :
  AutoBlacklist.table log c b ch pool None [] → 0 ≤ ip → l ∈ ch (home b ip) → entries b !! l = Some en →
  few_successes m (entries b) → m < INT_MAX →
  ∃ b', note_calls l tv (FindAndIncrease addr :: entry_writes e d) b = Ok b' ∧
    AutoBlacklist.table log c b' ch pool None [] ∧ few_successes (m + 1) (entries b') ∧ same_sizes b b'.
Proof.
  intros Ht Hip Hl Hen Hs Hm. pose proof (Hs _ _ Hen) as Hn. cbv beta in Hn.
  assert (Hs1 : few_successes (m + 1) (entries b)).
  { intros x ex Hx. specialize (Hs x ex Hx). cbv beta in *. lia. }
  unfold entry_writes. destruct (0 <=? channel_of d).
  - cbn [note_calls note_call]. rewrite bind_ok, (deref_Some _ _ _ Hen), bind_ok.
    rewrite checked_int_ok, bind_ok by (unfold is_int, INT_MIN, INT_MAX in *; lia).
    rewrite (store_Some _ _ _ _ Hen), bind_ok. eexists. split; [done|]. split; [by eapply table_touch|]. split; [|done].
    apply few_successes_insert; [done|]. simpl. lia.
  - destruct (_ && _); [destruct (entry_of d) as [[k lt]|]; [destruct (1800000000 <? _)|]|]; cbn [note_calls note_call];
      rewrite ?bind_ok; try (eexists; split; [done|by split_and!]).
    rewrite (deref_Some _ _ _ Hen), bind_ok, (store_Some _ _ _ _ Hen), !bind_ok. eexists. split; [done|].
    split; [by eapply table_touch|]. split; [|done]. apply few_successes_insert; [done|]. simpl. lia.
Qed.

(** Who is let through is not over the threshold, or a VIP. *)
Lemma through_within_threshold c e ip v4 addr :
  ae_peer e = Some (ip, v4) → consulted c e = Some addr →
  existsb is_success (entry_writes e (decide_channel c ip v4 e).1) = true →
  counter_of e ≤ connection_threshold c ∨ ae_vip e ≠ 0.
Proof.
  unfold consulted, entry_writes. intros Hp Hc Hth. rewrite Hp in Hc.
  assert (0 ≤ channel_of (decide_channel c ip v4 e).1) as Hch.
  { destruct (Z.leb_spec 0 (channel_of (decide_channel c ip v4 e).1)); [done|].
    exfalso. revert Hth. repeat (case_match; try done). }
  clear Hth. unfold decide_channel in Hch. destruct v4 as [v|]; [|done]. destruct (ae_available e); [done|].
  destruct (check_remote_ip_in_whitelist ip (white_list_conf c)); [|done].
  destruct (0 <? ae_blacklisted e); [simpl in Hch; lia|].
  pose proof (judge_counter_channel c ip e (default_server c)) as Hj. fold (counter_of e) in Hch.
  destruct (judge_counter c ip e (counter_of e) (default_server c)) as [[ch' auto] cs]. simpl in Hch, Hj. subst ch'.
  case_decide as Hd; lia.
Qed.

(** What is assumed of the outside: what the proxy assumes, memory for a new entry, and a
    clock that does not run backwards. *)
Definition sys_event_ok (v : sys_event) (c : Z) s b : Prop :=
  time_ok b c (event_time v) ∧
  match v with
  | Happens w _ => event_ok w s ∧ match w with Round _ _ e _ => ae_memory e = true | _ => True end
  | ExpireBlacklist _ => True
  end.

Fixpoint sys_events_ok (vs : list sys_event) (c : Z) s b : Prop :=
  match vs with
  | [] => True
  | v :: vs' => sys_event_ok v c s b ∧
      ∀ s' b' cs w, sys_step v s b = Ok (s', b', cs, w) → sys_events_ok vs' (slot b (event_time v)) s' b'
  end.

(** Both parts keep their invariants; no entry has more successes than visits were made,
    and nobody over the threshold was let through. *)
Record sys_good (sockfd threshold c : Z) (log : list visit) s b : Prop := {
  sg_proxy : alive s = true → ∃ n, good (Some (0%nat, sockfd)) n s;
  sg_threshold : connection_threshold (conf s) = threshold;
  sg_table : ∃ ch pool, AutoBlacklist.table (counted log) c b ch pool None [];
  sg_success : few_successes (Z.of_nat (length log)) (entries b);
  sg_limited : limited threshold log;
}.

Lemma existsb_blacklist_calls cs : existsb is_success cs = existsb is_success (blacklist_calls cs).
Proof. induction cs as [|[] cs IH]; simpl; try exact IH; done. Qed.

(** An event of the proxy that does not ask the service. *)
Lemma proxy_event_ok sockfd threshold c t log s b v :
  sys_good sockfd threshold c log s b → c ≤ t → (alive s = true → event_ok v s) →
  ∃ s' cs, happen v s = Ok (s', cs) ∧ sys_good sockfd threshold t log s' b.
Proof.
  intros [Hp Hth (ch & pool & Ht) Hs Hl] Hc Hok.
  assert (Ht' : ∃ ch pool, AutoBlacklist.table (counted log) t b ch pool None []).
  { exists ch, pool. by eapply table_later. }
  destruct (alive s) eqn:Hal.
  - destruct (Hp eq_refl) as [n Hg]. destruct (happen_good _ n v s Hg Hal (Hok eq_refl)) as (s' & cs & Hh & Hn & Hk).
    exists s', cs. split; [done|]. split; try done; [|by rewrite Hk].
    intros Ha. destruct (Hn Ha) as (m & Hm & _). by exists m.
  - exists s, []. unfold happen. rewrite Hal. split; [done|]. split; try done. by rewrite Hal.
Qed.

Lemma looked_up_consulted ready sock e s addr :
  looked_up ready sock e s = Ok (Some addr) →
  consulted (conf s) e = Some addr ∧ ∃ ip, ae_peer e = Some (ip, Some addr).
Proof.
  unfold looked_up, consulted. intros H. apply bind_ok_inv in H as (r & _ & [= H]).
  destruct r as [[[[] ?] ?]|]; try done. destruct (ae_peer e) as [[ip [a|]]|]; [|done..].
  destruct (ae_available e); [done|]. destruct (negb _); [|done]. simpl in H.
  destruct (check_remote_ip_in_whitelist _ _); [|done]. simplify_eq. eauto.
Qed.

Lemma round_step_ok sockfd threshold c log s b ready sock e x now :
  sys_good sockfd threshold c log s b → alive s = true → time_ok b c now → event_ok (Round ready sock e x) s →
  ae_memory e = true → Z.of_nat (length log) < INT_MAX →
  ∃ s' b' cs w, round_step ready sock e x now s b = Ok (s', b', cs, w) ∧
    sys_good sockfd threshold (slot b now) (option_list w ++ log) s' b' ∧ same_sizes b b'.
Proof.
  intros Hg Hal Htime Hok Hmem Hlen. unfold round_step.
  assert (∃ q, looked_up ready sock e s = Ok q) as [q Hq].
  { destruct (sg_proxy _ _ _ _ _ _ Hg Hal) as (n & _ & es & fs & xr & [_ []] & _). destruct ow_events as (gm & Hrep & _).
    unfold looked_up. destruct (ev_looping_ok _ _ ready Hrep (proj1 Hok)) as (r & -> & _). rewrite bind_ok. by eexists. }
  rewrite Hq, bind_ok. destruct q as [addr|].
  2: { destruct (proxy_event_ok _ _ _ (slot b now) _ _ _ (Round ready sock e x) Hg (proj2 Htime) (λ _, Hok)) as (s' & cs & -> & Hg').
       rewrite bind_ok. by exists s', b, cs, None. }
  destruct (sg_table _ _ _ _ _ _ Hg) as (ch & pool & Ht). rewrite Hmem.
  destruct (find_and_increase_ok _ _ _ _ _ addr now (ae_now e) Ht Htime) as
    (l & b1 & ch1 & pool1 & en & Hf & Ht1 & Hsz1 & _ & Hen & Hip & Hcnt & Hl).
  { unfold counted. by rewrite length_map. }
  rewrite Hf, bind_ok, (deref_Some _ _ _ Hen), bind_ok.
  destruct (proxy_event_ok _ _ _ (slot b now) _ _ _ (Round ready sock (answered en e) x) Hg (proj2 Htime) (λ _, Hok))
    as (s' & cs & Hh & Hg'). rewrite Hh, bind_ok.
  destruct (looked_up_consulted _ _ _ _ _ Hq) as (Hco & ip & Hpeer).
  pose proof Hh as Hcalls. unfold happen in Hcalls. rewrite Hal in Hcalls.
  apply (round_blacklist_calls _ _ _ _ _ (Some addr)) in Hcalls; [|exact Hq].
  cbn [answered ae_peer ae_entry] in Hcalls. rewrite Hpeer in Hcalls.
  assert (Hs1 : few_successes (Z.of_nat (length log)) (entries b1)).
  { eapply (find_and_increase_cells _ same_cell); [apply few_successes_update|apply hit_same| |apply (sg_success _ _ _ _ _ _ Hg)|exact Hf].
    intros h y ey Hfew _ Hy. apply few_successes_insert; [done|lia]. }
  rewrite note_calls_filter, Hcalls.
  destruct (entry_writes_ok _ _ _ _ _ l en (htonl addr) (ae_now e) (answered en e)
    (decide_channel (conf s) ip (Some addr) (answered en e)).1 addr (Z.of_nat (length log)) Ht1) as (b2 & -> & Ht2 & Hs2 & Hsz2); try done.
  { apply htonl_range. }
  rewrite bind_ok. eexists s', b2, cs, _. split; [done|]. split; [|by eapply same_sizes_trans].
  destruct Hg' as [Hp' Hth' _ _ Hlim']. split; try done; cbn [option_list app].
  - exists ch1, pool1. done.
  - intros y ey Hy. specialize (Hs2 y ey Hy). cbv beta in *.
    change (length (option_list (Some _) ++ log)) with (S (length log)). lia.
  - split; [|done]. cbn [v_through v_vip v_ip v_slot]. intros Hth Hvip%negb_false_iff%Z.eqb_eq.
    rewrite existsb_blacklist_calls, Hcalls in Hth. cbn [existsb is_success orb] in Hth.
    apply (through_within_threshold _ (answered en e) ip (Some addr) addr Hpeer Hco) in Hth.
    cbn [counter_of answered ae_entry ae_vip] in Hth. 
    change (window_count ((htonl addr, slot b now) :: counted log) (slot b now) (htonl addr) ≤ threshold).
    rewrite <- Hcnt, <- (sg_threshold _ _ _ _ _ _ Hg). tauto.
Qed.

Lemma sys_step_ok sockfd threshold c log s b v :
  sys_good sockfd threshold c log s b → sys_event_ok v c s b → Z.of_nat (length log) < INT_MAX →
  ∃ s' b' cs w, sys_step v s b = Ok (s', b', cs, w) ∧
    sys_good sockfd threshold (slot b (event_time v)) (option_list w ++ log) s' b' ∧ same_sizes b b'.
Proof.
  intros Hg [Htime Hok] Hlen.
  assert (Hproxy : ∀ w, (alive s = true → event_ok w s) → ∃ s' b' cs w', ('(s', cs) ← happen w s; Ok (s', b, cs, None)) = Ok (s', b', cs, w') ∧
    sys_good sockfd threshold (slot b (event_time v)) (option_list w' ++ log) s' b' ∧ same_sizes b b').
  { intros w Hw. destruct (proxy_event_ok _ _ _ (slot b (event_time v)) _ _ _ w Hg (proj2 Htime) Hw) as (s' & cs & -> & Hg').
    rewrite bind_ok. by eexists _, _, _, None. }
  destruct v as [[ready sock e x|ok tv timeout|r|ch|ch] now|now]; cbn [sys_step event_time] in *; try (by apply Hproxy; destruct Hok).
  - destruct Hok as [Hok Hmem]. destruct (alive s) eqn:Hal; [by eapply round_step_ok|].
    destruct (proxy_event_ok _ _ _ (slot b now) _ _ _ (SetDefault 0) Hg (proj2 Htime)) as (s' & cs & Hh & Hg'); [done|].
    unfold happen in Hh. rewrite Hal in Hh. simplify_eq. by exists s', b, [], None.
  - destruct Hg as [Hp Hth (ch & pool & Ht) Hs Hl].
    destruct (expiring_ok _ _ _ _ _ now Ht Htime) as (n & b' & ch' & pool' & Hx & Ht' & Hsz & _).
    rewrite Hx, bind_ok. exists s, b', [], None. split; [done|]. split; [|done]. split; try done; [by exists ch', pool'|].
    by eapply (expiring_cells _ same_cell); [apply few_successes_update|apply clear_slots_same|by split|..].
Qed.

Lemma sys_run_ok sockfd threshold vs : ∀ c log s b,
  sys_good sockfd threshold c log s b → sys_events_ok vs c s b →
  Z.of_nat (length log) + Z.of_nat (length vs) < INT_MAX →
  ∃ s' b' log' c', sys_run vs s b log = Ok (s', b', log') ∧ sys_good sockfd threshold c' log' s' b'.
Proof.
  induction vs as [|v vs IH]; intros c log s b Hg Hok Hlen; cbn [sys_run length] in *.
  { by eexists _, _, _, c. }
  destruct Hok as [Hv Hvs]. destruct (sys_step_ok _ _ c _ _ _ v Hg Hv) as (s1 & b1 & cs & w & Hst & Hg1 & _); [lia|].
  rewrite Hst, bind_ok. eapply IH; [exact Hg1|by eapply Hvs|]. rewrite length_app.
  assert (length (option_list w) ≤ 1)%nat by (destruct w; simpl; lia). lia.
Qed.

(** C3: the proxy and the blacklist service together, from the start, on any events the
    kernel allows and a clock that does not run backwards: the run returns, and in any
    twelve consecutive time slots no IPv4 address that is not a VIP gets more than
    [threshold] clients past the white list, expiries of either part in between or not. *)
Theorem admitted_within_threshold c sockfd hash_size monitor_period vs :
  conf_ok c → 0 ≤ sockfd → 0 < hash_size ≤ INT_MAX → 12 ≤ monitor_period → Z.of_nat (length vs) < INT_MAX →
  let s0 : proxy I L D := start c sockfd in
  let b0 := new_auto_blacklist_service hash_size monitor_period in
  sys_events_ok vs 0 s0 b0 →
  ∃ s b log, sys_run vs s0 b0 [] = Ok (s, b, log) ∧
    ∀ ip slot, let_in ip slot log ≤ Z.max 0 (connection_threshold c).
Proof.
  intros Hc H0 Hh Hm Hlen s0 b0 Hok.
  destruct (sys_run_ok sockfd (connection_threshold c) vs 0 [] s0 b0) as (s & b & log & c' & Hrun & Hg); [|done|simpl; lia|].
  - split; try done.
    + intros _. exists 0. by apply start_good.
    + eexists _, _. by apply new_service_table.
  - exists s, b, log. split; [done|]. intros ip t. by apply limited_bound, (sg_limited _ _ _ _ _ _ Hg).
Qed.
End admission.

(** ** Witnesses *)

(** One server, a white list that lets everyone in, and a threshold of one. *)
Definition strict_conf : settings :=
  Settings 0 1 (Some [("web"%string, 80)]) 1 100 86400 6 0 (Some [""%string]).

(** The same client twice; the server does not answer. *)
Definition knock : accept_env nat :=
  AcceptEnv true (Some ("::ffff:1.2.3.4"%string, Some 67305985)) None 0 None false 0 0 0 (Timeval 100 0) (-1) None None true true 1.

Definition knocks : list (sys_event (I := nat) (L := nat) (D := nat)) :=
  [ Happens (Round (Some [3]) 5 knock (sample_io [])) 100;
    ExpireBlacklist 105;
    Happens (Round (Some [3]) 5 knock (sample_io [])) 110 ].

Definition sys_start : proxy nat nat nat := start strict_conf 3.

Lemma knock_ok (s : proxy nat nat nat) : 5 ∉ open_fds s → all_room s = true → event_ok (Round (Some [3]) 5 knock (sample_io [])) s.
Proof.
  intros Hfr Hroom. split_and!.
  - intros l fd [= <-] ->%list_elem_of_singleton. lia.
  - intros _. split; [lia|done].
  - simpl. lia.
  - by apply sample_io_ok.
  - by apply all_room_ok.
Qed.

Lemma knocks_ok : sys_events_ok knocks 0 sys_start (new_auto_blacklist_service 7 120).
Proof.
  split; [|intros s1 b1 cs1 w1 H1; vm_compute in H1; simplify_eq; split; [|intros s2 b2 cs2 w2 H2; vm_compute in H2; simplify_eq; split; [|done]]].
  - split; [by vm_compute|]. split; [|done]. apply knock_ok; by vm_compute.
  - split; [by vm_compute|done].
  - split; [by vm_compute|]. split; [|done]. apply knock_ok; by vm_compute.
Qed.

(** The first is let through, the second is one too many. *)
Lemma admitted_within_threshold_witness :
  ∃ s b log, sys_run knocks sys_start (new_auto_blacklist_service 7 120) [] = Ok (s, b, log) ∧
    let_in 16909060 11 log ≤ 1 ∧ v_through <$> log = [false; true].
Proof.
  destruct (admitted_within_threshold strict_conf 3 7 120 knocks) as (s & b & log & Hrun & Hle).
  - split; [done|]. eexists. by split_and!.
  - lia.
  - by vm_compute.
  - lia.
  - by vm_compute.
  - apply knocks_ok.
  - exists s, b, log. split; [exact Hrun|]. split; [apply Hle|]. vm_compute in Hrun. by simplify_eq.
Defined.
