(* ===== verification/Words.v ===== *)
(** * cmdlintf.c: splitting command lines into words

    The four functions that walk over a line ([nofwords], [nthword], [nthwordptr],
    [stripwhite]) with their counters as the code keeps them, the reference definition
    [words], and the theorems that relate them. A [char *] into a line is the rest of the
    line. [nthword] answers in one of five static buffers that are used in turn:
    [word_buffers]. *)

From S2P Require Import Prelude.

(** [whitespace] of readline *)
Definition whitespace (c : ascii) : bool := (char_code c =? 32) || (char_code c =? 9).

Definition MAX_CMD_WORD_LEN : Z := 64.

(** ** The functions *)

(** [j]: the number of the current word, [m]: whether the position is inside a word. *)
Fixpoint nthwordptr_loop (cmd : string) (n j m : Z) : option string :=
  match cmd with
  | EmptyString => None
  | String c rest =>
      if whitespace c then
        if 0 <? m then if j =? n then None else nthwordptr_loop rest n (j + 1) 0
        else nthwordptr_loop rest n j m
      else if j =? n then Some cmd
      else nthwordptr_loop rest n j (m + 1)
  end.

Definition nthwordptr (cmd : string) (n : Z) : option string := nthwordptr_loop cmd n 1 0.

(** What is stored in the buffer; [k] characters were stored before. *)
Fixpoint nthword_loop (cmd : string) (n j m k : Z) : string :=
  match cmd with
  | EmptyString => EmptyString
  | String c rest =>
      if whitespace c then
        if 0 <? m then if j =? n then EmptyString else nthword_loop rest n (j + 1) 0 k
        else nthword_loop rest n j m k
      else if j =? n then
        if k <? MAX_CMD_WORD_LEN - 1 then String c (nthword_loop rest n j (m + 1) (k + 1))
        else nthword_loop rest n j (m + 1) k
      else nthword_loop rest n j (m + 1) k
  end.

(** The text of the answer; [None] is [NULL]. *)
Definition nth_word (cmd : string) (n : Z) : option string :=
  match nthword_loop cmd n 1 0 0 with EmptyString => None | w => Some w end.

(** [word] and [idx] *)
Record word_buffers := WordBuffers { word : list string; idx : Z }.

Definition initial_buffers : word_buffers := WordBuffers (replicate 5 EmptyString) 0.

(** The answer is the number of a buffer; without a word the buffer is not written. *)
Definition nthword (cmd : string) (n : Z) (b : word_buffers) : option Z * word_buffers :=
  let i := Z.rem (idx b + 1) 5 in
  match nth_word cmd n with
  | None => (None, WordBuffers (word b) i)
  | Some w => (Some i, WordBuffers (<[Z.to_nat i := w]> (word b)) i)
  end.

Fixpoint skip_white (s : string) : string :=
  match s with
  | String c rest => if whitespace c then skip_white rest else s
  | EmptyString => s
  end.

(** [while (t > s && whitespace ( *t)) t--]; [t] counts from [s]. *)
Fixpoint strip_end (t : nat) (s : string) : nat :=
  match t with
  | O => O
  | S t' => match String.get t s with
            | Some c => if whitespace c then strip_end t' s else t
            | None => t
            end
  end.

(** The text at the returned pointer, after the cut. *)
Definition stripwhite (s : string) : string :=
  match skip_white s with
  | EmptyString => EmptyString
  | t => String.substring 0 (strip_end (String.length t - 1) t + 1) t
  end.

Fixpoint nofwords_loop (cmd : string) (j m : Z) : Z :=
  match cmd with
  | EmptyString => if 0 <? m then j + 1 else j
  | String c rest =>
      if whitespace c then
        if 0 <? m then nofwords_loop rest (j + 1) 0 else nofwords_loop rest j m
      else nofwords_loop rest j (m + 1)
  end.

Definition nofwords (cmd : string) : Z := nofwords_loop cmd 0 0.

(** ** The words of a line *)

Fixpoint words_from (cur : string) (s : string) : list string :=
  match s with
  | EmptyString => match cur with EmptyString => [] | _ => [cur] end
  | String c rest =>
      if whitespace c
      then match cur with EmptyString => words_from EmptyString rest | _ => cur :: words_from EmptyString rest end
      else words_from (cur +:+ String c EmptyString) rest
  end.

Definition words : string → list string := words_from EmptyString.

(** At most the 63 characters a buffer has room for. *)
Definition fit (w : string) : string := str_take 63 w.

Example words_example : words " set  default	channel 3" = ["set"; "default"; "channel"; "3"]%string.
Proof. reflexivity. Qed.
Example nth_word_example : nth_word " set  default	channel 3" 3 = Some "channel"%string.
Proof. reflexivity. Qed.
Example nthwordptr_example : nthwordptr " set  default	channel 3" 3 = Some "channel 3"%string.
Proof. reflexivity. Qed.
Example stripwhite_example : stripwhite "  set  default	 " = "set  default"%string.
Proof. reflexivity. Qed.

(** ** The functions agree with the words *)

(** The counter [m] says whether a word has been begun. *)
Definition begun (m : Z) (cur : string) : Prop := 0 ≤ m ∧ (0 < m ↔ cur ≠ EmptyString).

Lemma begun_0 : begun 0 EmptyString.
Proof. split; [lia|]. split; [lia|done]. Qed.

Lemma begun_more m cur c : begun m cur → begun (m + 1) (cur +:+ String c EmptyString).
Proof. intros [Hm _]. split; [lia|]. split; [intros _; apply snoc_not_empty|lia]. Qed.

#[export] Hint Resolve begun_0 begun_more : proxy.

(** A white character ends the word that was begun, if any. *)
Lemma words_white m cur c s : begun m cur → whitespace c = true →
  words_from cur (String c s) = (if 0 <? m then [cur] else []) ++ words s.
Proof.
  intros [Hm Hb] Hc. simpl. rewrite Hc. destruct (Z.ltb_spec 0 m) as [H|H].
  - destruct cur; [|done]. by apply Hb in H.
  - destruct cur; [done|]. assert (0 < m) by by apply Hb. lia.
Qed.

Lemma begun_0_inv m cur : begun m cur → (0 <? m) = false → m = 0 ∧ cur = EmptyString.
Proof.
  intros [Hm Hb] H. apply Z.ltb_ge in H. split; [lia|]. destruct cur; [done|]. assert (0 < m) by by apply Hb. lia.
Qed.

Lemma nofwords_loop_ok s : ∀ j m cur, begun m cur →
  nofwords_loop s j m = j + Z.of_nat (length (words_from cur s)).
Proof.
  induction s as [|c s IH]; intros j m cur Hb.
  - simpl. destruct (Z.ltb_spec 0 m) as [H|H]; destruct cur; simpl; try lia.
    + by apply Hb in H.
    + assert (0 < m) by by apply Hb. lia.
  - cbn [nofwords_loop]. destruct (whitespace c) eqn:Hc.
    + rewrite (words_white m) by done. destruct (0 <? m) eqn:Hm.
      * rewrite (IH _ _ EmptyString) by auto with proxy. unfold words. simpl. lia.
      * destruct (begun_0_inv _ _ Hb Hm) as [-> ->]. by rewrite (IH _ _ EmptyString) by auto with proxy.
    + rewrite (IH _ _ (cur +:+ String c EmptyString)) by auto with proxy. simpl. by rewrite Hc.
Qed.

(** After the word that is asked for, nothing is stored. *)
Lemma nthword_loop_past s : ∀ n j m k, n < j → nthword_loop s n j m k = EmptyString.
Proof.
  induction s as [|c s IH]; intros n j m k Hj; [done|]. cbn [nthword_loop].
  destruct (Z.eqb_spec j n); [lia|]. destruct (whitespace c); [destruct (0 <? m)|]; apply IH; lia.
Qed.

(** What was stored of the current word before, and what will be. *)
Lemma nthword_loop_ok s : ∀ n j m cur, begun m cur → j ≤ n →
  (if decide (j = n) then fit cur else EmptyString) +:+
    nthword_loop s n j m (if decide (j = n) then Z.min 63 (strlen cur) else 0) =
  match words_from cur s !! Z.to_nat (n - j) with Some w => fit w | None => EmptyString end.
Proof.
  induction s as [|c s IH]; intros n j m cur Hb Hj; cbn [nthword_loop].
  { rewrite string_app_nil. simpl. case_decide; [subst|].
    - rewrite Z.sub_diag. by destruct cur.
    - destruct (Z.to_nat (n - j)) eqn:E; [lia|]. by destruct cur. }
  destruct (whitespace c) eqn:Hc.
  - rewrite (words_white m) by done. destruct (0 <? m) eqn:Hm.
    + destruct (Z.eqb_spec j n) as [->|Hne].
      * rewrite decide_True, string_app_nil, Z.sub_diag by done. done.
      * rewrite !decide_False, string_nil_app by done. replace (Z.to_nat (n - j)) with (S (Z.to_nat (n - (j + 1)))) by lia.
        change (([cur] ++ words s) !! S ?x) with (words s !! x). unfold words.
        rewrite <- (IH n (j + 1) 0 EmptyString) by (auto with proxy; lia). by case_decide.
    + destruct (begun_0_inv _ _ Hb Hm) as [-> ->]. apply (IH n j 0 EmptyString); [apply begun_0|done].
  - cbn [words_from]. rewrite Hc. specialize (IH n j (m + 1) (cur +:+ String c EmptyString) (begun_more _ _ _ Hb) Hj).
    destruct (Z.eqb_spec j n) as [->|Hne].
    + rewrite !decide_True in * by done. rewrite <- IH. unfold fit. rewrite str_take_snoc. unfold strlen, MAX_CMD_WORD_LEN.
      rewrite length_snoc_string. case_decide as Hlen.
      * rewrite (str_take_all 63 cur) by lia. rewrite (proj2 (Z.ltb_lt _ _)) by lia. rewrite string_app_assoc, string_cons_app, string_nil_app.
        do 3 f_equal. lia.
      * rewrite (proj2 (Z.ltb_ge _ _)) by lia. do 2 f_equal. lia.
    + by rewrite !decide_False in * by done.
Qed.

(** A text that begins with a word. *)
Definition starts_word (t : string) : Prop := ∃ c rest, t = String c rest ∧ whitespace c = false.

Lemma words_from_not_nil cur s : cur ≠ EmptyString → words_from cur s ≠ [].
Proof.
  revert cur. induction s as [|c s IH]; intros cur Hc; simpl; [by destruct cur|].
  destruct (whitespace c); [by destruct cur|]. apply IH, snoc_not_empty.
Qed.

Lemma starts_word_words t : starts_word t → words t ≠ [].
Proof. intros (c & rest & -> & Hc). unfold words. simpl. rewrite Hc. by apply words_from_not_nil. Qed.

(** The text from a word on, the words before it, and the words from it on. *)
Lemma nthwordptr_loop_ok s : ∀ n j m cur, begun m cur → j < n ∨ (j = n ∧ m = 0) →
  match nthwordptr_loop s n j m with
  | Some t => starts_word t ∧ words t = drop (Z.to_nat (n - j)) (words_from cur s) ∧
      ∃ p, s = p +:+ t ∧ words_from cur p = take (Z.to_nat (n - j)) (words_from cur s)
  | None => Z.of_nat (length (words_from cur s)) ≤ n - j
  end.
Proof.
  induction s as [|c s IH]; intros n j m cur Hb Hj; cbn [nthwordptr_loop].
  { simpl. destruct Hj as [Hj|[-> ->]]; destruct cur; simpl; try lia. assert (0 < 0) by by apply Hb. lia. }
  destruct (whitespace c) eqn:Hc.
  - rewrite (words_white m) by done. destruct (0 <? m) eqn:Hm.
    + destruct (Z.eqb_spec j n) as [->|Hne]; [apply Z.ltb_lt in Hm; lia|].
      specialize (IH n (j + 1) 0 EmptyString begun_0 ltac:(lia)). fold (words s) in IH.
      destruct (nthwordptr_loop s n (j + 1) 0) as [t|]; [|simpl; lia].
      destruct IH as (Ht & Hw & p & -> & Hp). replace (Z.to_nat (n - j)) with (S (Z.to_nat (n - (j + 1)))) by lia.
      split; [done|]. split; [done|]. exists (String c p). split; [done|]. rewrite (words_white m), Hm by done. cbn [app take].
      by f_equal.
    + destruct (begun_0_inv _ _ Hb Hm) as [-> ->]. specialize (IH n j 0 EmptyString begun_0 Hj). fold (words s) in IH.
      destruct (nthwordptr_loop s n j 0) as [t|]; [|done]. destruct IH as (Ht & Hw & p & -> & Hp).
      split; [done|]. split; [done|]. exists (String c p). split; [done|]. by rewrite (words_white 0).
  - destruct (Z.eqb_spec j n) as [->|Hne].
    + destruct Hj as [?|[_ ->]]; [lia|]. assert (cur = EmptyString) as -> by (destruct cur; [done|]; assert (0 < 0) by (by apply Hb); lia).
      rewrite Z.sub_diag. split; [by exists c, s|]. split; [done|]. by exists EmptyString.
    + specialize (IH n j (m + 1) (cur +:+ String c EmptyString) (begun_more _ _ _ Hb) ltac:(lia)). cbn [words_from]. rewrite Hc.
      destruct (nthwordptr_loop s n j (m + 1)) as [t|]; [|done]. destruct IH as (Ht & Hw & p & -> & Hp).
      split; [done|]. split; [done|]. exists (String c p). split; [done|]. cbn [words_from]. by rewrite Hc.
Qed.

Lemma nofwords_ok s : nofwords s = Z.of_nat (length (words s)).
Proof. unfold nofwords. by rewrite (nofwords_loop_ok _ _ _ EmptyString begun_0). Qed.

Lemma fit_empty w : fit w = EmptyString → w = EmptyString.
Proof. by destruct w. Qed.

Lemma words_from_ne cur s w : w ∈ words_from cur s → w ≠ EmptyString.
Proof.
  revert cur. induction s as [|c s IH]; intros cur; simpl.
  - destruct cur; [by intros ?%elem_of_nil|]. intros ->%list_elem_of_singleton. done.
  - destruct (whitespace c); [|apply IH]. destruct cur; [apply IH|]. intros [->|Hw]%elem_of_cons; [done|]. by eapply IH.
Qed.

Lemma nth_word_ok s n : nth_word s n = if 1 <=? n then fit <$> words s !! Z.to_nat (n - 1) else None.
Proof.
  unfold nth_word. destruct (Z.leb_spec 1 n) as [Hn|Hn].
  - pose proof (nthword_loop_ok s n 1 0 EmptyString begun_0 Hn) as H. fold (words s) in H.
    assert (Hk : (if decide (1 = n) then Z.min 63 (strlen EmptyString) else 0) = 0) by by case_decide.
    rewrite Hk in H. assert (Hf : (if decide (1 = n) then fit EmptyString else EmptyString) = EmptyString) by by case_decide.
    rewrite Hf, string_nil_app in H. rewrite H. destruct (words s !! Z.to_nat (n - 1)) as [w|] eqn:Hw; [|done]. simpl.
    destruct (fit w) eqn:E; [|done]. apply fit_empty in E. subst. by apply list_elem_of_lookup_2, words_from_ne in Hw.
  - by rewrite nthword_loop_past by lia.
Qed.

(** *** White space at the ends *)

Definition last_char_of (s : string) : option ascii :=
  match String.length s with O => None | S n => String.get n s end.

Lemma words_skip_white s : words (skip_white s) = words s.
Proof. induction s as [|c s IH]; [done|]. simpl. destruct (whitespace c) eqn:Hc; [|done]. rewrite IH. unfold words. simpl. by rewrite Hc. Qed.

Lemma skip_white_starts s : skip_white s = EmptyString ∨ starts_word (skip_white s).
Proof. induction s as [|c s IH]; [by left|]. simpl. destruct (whitespace c) eqn:Hc; [done|]. right. by exists c, s. Qed.

Lemma white_drop n s :
  (∀ i c, (n ≤ i)%nat → String.get i s = Some c → whitespace c = true) → str_forall whitespace (str_drop n s) = true.
Proof.
  revert n. induction s as [|c s IH]; intros [|n] H; simpl; try done.
  - rewrite (H 0%nat c) by (simpl; first [lia|done]). apply (IH 0%nat). intros i d Hi Hd. apply (H (S i)); [lia|done].
  - apply IH. intros i d Hi Hd. apply (H (S i)); [lia|done].
Qed.

Lemma words_white_tail p q cur : str_forall whitespace q = true → words_from cur (p +:+ q) = words_from cur p.
Proof.
  intros Hq. revert cur. induction p as [|c p IH]; intros cur.
  - rewrite string_nil_app. revert cur. induction q as [|c q IHq]; intros cur; [done|]. simpl in Hq. apply andb_true_iff in Hq as [Hc Hq].
    simpl. rewrite Hc. specialize (IHq Hq). rewrite IHq. by destruct cur.
  - rewrite string_cons_app. simpl. rewrite !IH. by destruct (whitespace c), cur.
Qed.

Lemma strip_end_ok t s : let k := strip_end t s in
  (k ≤ t)%nat ∧ (∀ i c, (k < i ≤ t)%nat → String.get i s = Some c → whitespace c = true) ∧
  (k = 0%nat ∨ ∃ c, String.get k s = Some c ∧ whitespace c = false) ∨ ∃ i, (0 < i ≤ t)%nat ∧ String.get i s = None.
Proof.
  induction t as [|t IH]; simpl; [left; split_and!; [lia|intros; lia|by left]|].
  destruct (String.get (S t) s) as [c|] eqn:Hg; [|right; exists (S t); split; [lia|done]]. destruct (whitespace c) eqn:Hc.
  - destruct IH as [(Hk & Hw & Hend)|(i & Hi & Hn)]; [left|right; exists i; split; [lia|done]]. split_and!; [lia| |done].
    intros i d Hi Hd. destruct (decide (i = S t)) as [->|]; [congruence|]. apply (Hw i); [lia|done].
  - left. split_and!; [lia|intros; lia|]. right. by exists c.
Qed.

Lemma get_some i s : (i < String.length s)%nat ↔ is_Some (String.get i s).
Proof.
  revert i. induction s as [|c s IH]; intros [|i]; simpl; [split; [lia|by intros []]..|split; [by eexists|lia]|]. rewrite <- IH. lia.
Qed.

Lemma get_take n i s : (i < n)%nat → String.get i (str_take n s) = String.get i s.
Proof. revert n i. induction s as [|c s IH]; intros [|n] [|i] Hi; simpl; try done; [lia..|]. apply IH. lia. Qed.

Lemma length_str_take n s : (n ≤ String.length s)%nat → String.length (str_take n s) = n.
Proof. revert n. induction s as [|c s IH]; intros [|n] Hn; simpl in *; try done; [lia|]. by rewrite IH by lia. Qed.

Lemma stripwhite_ok s :
  words (stripwhite s) = words s ∧
  (stripwhite s = EmptyString ∨ starts_word (stripwhite s) ∧ ∃ c, last_char_of (stripwhite s) = Some c ∧ whitespace c = false).
Proof.
  unfold stripwhite. rewrite <- (words_skip_white s). destruct (skip_white_starts s) as [->|Hs]; [split; [done|by left]|].
  destruct (skip_white s) as [|c rest] eqn:E; [by destruct Hs as (? & ? & ? & _)|]. set (t := String c rest) in *.
  rewrite substring_take. set (n := (String.length t - 1)%nat).
  destruct (strip_end_ok n t) as [(Hk & Hw & Hend)|(i & Hi & Hn)].
  2: { assert (Hlt : (i < String.length t)%nat) by (unfold n, t in *; simpl in *; lia). apply get_some in Hlt as [? ?]. congruence. }
  set (k := strip_end n t) in *.
  assert (Hd : str_forall whitespace (str_drop (k + 1) t) = true).
  { apply white_drop. intros i d Hi Hg. apply (Hw i); [|done]. assert (i < String.length t)%nat by (apply get_some; eauto). unfold n. lia. }
  assert (Hlen : (k + 1 ≤ String.length t)%nat) by (unfold n, t in *; simpl in *; lia).
  split; [rewrite <- (str_take_drop (k + 1) t) at 2; symmetry; by apply words_white_tail|]. right. split.
  - destruct Hs as (c' & rest' & Heq & Hc'). exists c', (str_take k rest'). split; [|done]. rewrite Heq. by rewrite Nat.add_comm.
  - unfold last_char_of. rewrite length_str_take by done. rewrite Nat.add_comm. cbn [Nat.add]. rewrite get_take by lia.
    destruct Hend as [Hk0|?]; [|done]. rewrite Hk0. destruct Hs as (c' & rest' & Heq & Hc'). rewrite Heq. by exists c'.
Qed.

(** C33: the four functions that take a command line apart agree with the words of the line,
    for every line: [nofwords] counts them; [nthword] gives the n-th one, cut to 63
    characters, or [NULL] if there is none; [nthwordptr] points at the n-th word in the line,
    the words before it and from it on are those of the line, and is [NULL] exactly if there
    is none; [stripwhite] keeps all words and leaves no white space at either end. *)
Theorem words_equivalence s :
  nofwords s = Z.of_nat (length (words s)) ∧
  (∀ n, nth_word s n = if 1 <=? n then fit <$> words s !! Z.to_nat (n - 1) else None) ∧
  (∀ n, 1 ≤ n → match nthwordptr s n with
    | Some t => starts_word t ∧ ∃ p, s = p +:+ t ∧ words s = words p ++ words t ∧ Z.of_nat (length (words p)) = n - 1
    | None => nofwords s < n
    end) ∧
  words (stripwhite s) = words s ∧
  (words s ≠ [] → starts_word (stripwhite s) ∧ ∃ c, last_char_of (stripwhite s) = Some c ∧ whitespace c = false).
Proof.
  split; [apply nofwords_ok|]. split; [apply nth_word_ok|]. destruct (stripwhite_ok s) as [Hw He]. split; [|split; [done|]].
  - intros n Hn. unfold nthwordptr. pose proof (nthwordptr_loop_ok s n 1 0 EmptyString begun_0 ltac:(lia)) as H. fold (words s) in H.
    destruct (nthwordptr_loop s n 1 0) as [t|]; [|rewrite nofwords_ok; lia].
    destruct H as (Ht & Hwt & p & -> & Hp). fold (words p) in Hp. split; [done|]. exists p. split; [done|].
    rewrite Hp, Hwt, take_drop. split; [done|]. apply starts_word_words in Ht. rewrite Hwt in Ht. rewrite length_take_le; [lia|].
    destruct (decide (Z.to_nat (n - 1) ≤ length (words (p +:+ t)))%nat); [done|]. by rewrite drop_ge in Ht by lia.
  - intros Hne. destruct He as [He|He]; [|done]. by rewrite He in Hw.
Qed.

(** *** The static buffers *)

Record buffers_ok (b : word_buffers) : Prop := { bo_five : length (word b) = 5%nat; bo_idx : 0 ≤ idx b < 5 }.

Lemma initial_buffers_ok : buffers_ok initial_buffers.
Proof. by split. Qed.

Lemma nthword_step cmd n b : buffers_ok b →
  let '(r, b') := nthword cmd n b in
  buffers_ok b' ∧ idx b' = (idx b + 1) mod 5 ∧
  (∀ i, i ≠ (idx b + 1) mod 5 → 0 ≤ i → word b' !! Z.to_nat i = word b !! Z.to_nat i) ∧
  (∀ w, nth_word cmd n = Some w → r = Some ((idx b + 1) mod 5) ∧ word b' !! Z.to_nat ((idx b + 1) mod 5) = Some w).
Proof.
  intros [Hl Hi]. unfold nthword. rewrite Z.rem_mod_nonneg by lia. pose proof (Z.mod_pos_bound (idx b + 1) 5 ltac:(lia)) as Hm.
  destruct (nth_word cmd n) as [w|]; cbn [word idx].
  - split; [split; cbn [word idx]; [by rewrite length_insert|done]|]. split; [done|]. split.
    + intros i Hne H0. apply list_lookup_insert_ne. lia.
    + intros w' [= <-]. split; [done|]. apply list_lookup_insert_eq. lia.
  - by split_and!.
Qed.

Fixpoint nthwords (calls : list (string * Z)) (b : word_buffers) : word_buffers :=
  match calls with
  | [] => b
  | (cmd, n) :: calls' => nthwords calls' (nthword cmd n b).2
  end.

Lemma nthwords_keep calls : ∀ b i k, buffers_ok b → 0 ≤ i < 5 → 0 ≤ k → idx b = (i + k) mod 5 →
  k + Z.of_nat (length calls) ≤ 4 → word (nthwords calls b) !! Z.to_nat i = word b !! Z.to_nat i.
Proof.
  induction calls as [|[cmd n] calls IH]; intros b i k Hb Hi Hk Hidx Hlen; simpl; [done|].
  pose proof (nthword_step cmd n b Hb) as H. destruct (nthword cmd n b) as [r b']. destruct H as (Hb' & Hidx' & Hsame & _). simpl in *.
  assert (Hne : i ≠ (idx b + 1) mod 5).
  { rewrite Hidx. Z.to_euclidean_division_equations. lia. }
  rewrite (IH b' i (k + 1)); [apply Hsame; [done|lia]|done|done|lia| |lia].
  rewrite Hidx', Hidx, Z.add_mod_idemp_l by lia. f_equal. lia.
Qed.

(** The answer of [nthword] is a buffer of five that are used in turn: it holds the word,
    and still holds it after up to four more calls, whatever these are. *)
Theorem nthword_survives cmd n w b calls :
  buffers_ok b → nth_word cmd n = Some w → Z.of_nat (length calls) ≤ 4 →
  ∃ i b', nthword cmd n b = (Some i, b') ∧ word (nthwords calls b') !! Z.to_nat i = Some w.
Proof.
  intros Hb Hw Hc. pose proof (nthword_step cmd n b Hb) as H. destruct (nthword cmd n b) as [r b'].
  destruct H as (Hb' & Hidx & _ & Hres). destruct (Hres w Hw) as [-> Hword]. eexists _, b'. split; [done|].
  rewrite (nthwords_keep calls b' _ 0); [done|done|apply Z.mod_pos_bound; lia|lia| |lia].
  rewrite Hidx, Z.add_0_r. by rewrite Z.mod_mod.
Qed.

Lemma nthword_survives_witness :
  ∃ i b', nthword "set default" 2 initial_buffers = (Some i, b') ∧
    word (nthwords [("a b", 1); ("c", 1); ("d", 1); ("e", 1)]%string b') !! Z.to_nat i = Some "default"%string.
Proof. apply (nthword_survives "set default" 2 "default" initial_buffers); [apply initial_buffers_ok|reflexivity|simpl; lia]. Defined.
