(* ===== verification/CmdTree.v ===== *)
(** * cmdlintf.c: the tree of commands

    A command is a word below another command; commands below the same one are a chain
    linked by [next], new ones at its head. A chain is a list, and a pointer to a command is
    the rest of its chain from that command on, [[]] for [NULL]. Here are registering a
    command ([cli_addcmd]), finding the one a line means, executing a line, the help for a
    line, and the two generators readline calls to complete a line. A handler is a value of
    the type [F]. Memory is assumed to be available. *)

From S2P Require Import Prelude Words.

Section tree.
Context {F : Type}.

(** [struct cmd_struct_t] without [next]. *)
Inductive command :=
  Command (cmd_name : string) (cmd_is_rmt : bool) (cmd_func : option F) (cmd_cmd_type : Z) (cmd_doc : option string)
    (cmd_nargs : Z) (cmd_subcmd : list command).

Definition name (c : command) : string := let '(Command n _ _ _ _ _ _) := c in n.
Definition is_rmt (c : command) : bool := let '(Command _ r _ _ _ _ _) := c in r.
Definition func (c : command) : option F := let '(Command _ _ f _ _ _ _) := c in f.
Definition cmd_type (c : command) : Z := let '(Command _ _ _ t _ _ _) := c in t.
Definition doc (c : command) : option string := let '(Command _ _ _ _ d _ _) := c in d.
Definition nargs (c : command) : Z := let '(Command _ _ _ _ _ n _) := c in n.
Definition subcmd (c : command) : list command := let '(Command _ _ _ _ _ _ s) := c in s.

Definition with_subcmd (s : list command) (c : command) : command :=
  Command (name c) (is_rmt c) (func c) (cmd_type c) (doc c) (nargs c) s.

(** The search along a chain. *)
Fixpoint find_name (w : string) (chain : list command) : list command :=
  match chain with
  | [] => []
  | q :: rest => if decide (name q = w) then chain else find_name w rest
  end.

(** The chain after the first command of that name was changed. *)
Fixpoint update_name (w : string) (q' : command) (chain : list command) : list command :=
  match chain with
  | [] => []
  | q :: rest => if decide (name q = w) then q' :: rest else q :: update_name w q' rest
  end.

(** ** Registering *)

(** The rounds [level .. wds] of the loop, [n] of them, below a command with the
    subcommands [chain]. *)
Fixpoint addcmd_loop (n : nat) (level wds : Z) (cmd : string) (rmt : bool) (cmdfunc : F) (d : option string)
    (args cmdtype : Z) (chain : list command) : Z * list command :=
  match n with
  | O => (0, chain)
  | S n' =>
      match nth_word cmd level with
      | None => (0, chain)
      | Some word =>
          match find_name word chain with
          | q :: _ =>
              if level =? wds then (0, chain)   (* Duplicate Command *)
              else let '(r, s) := addcmd_loop n' (level + 1) wds cmd rmt cmdfunc d args cmdtype (subcmd q) in
                   (r, update_name word (with_subcmd s q) chain)
          | [] =>
              if level =? wds then (1, Command word rmt (Some cmdfunc) cmdtype d args [] :: chain)
              else let '(r, s) := addcmd_loop n' (level + 1) wds cmd rmt cmdfunc d args cmdtype [] in
                   (r, Command word rmt None cmdtype None 0 s :: chain)
          end
      end
  end.

Definition cli_addcmd (cmd : string) (rmt : bool) (cmdfunc : F) (d : option string) (args cmdtype : Z)
    (root : list command) : Z * list command :=
  let wds := nofwords cmd in
  addcmd_loop (Z.to_nat wds) 1 wds cmd rmt cmdfunc d args cmdtype root.

(** ** Finding *)

(** [found] and the pointer after the rounds [i .. mcnt], [n] of them. *)
Fixpoint match_command_loop (n : nat) (i : Z) (text : string) (found : bool) (ptr chain : list command) : list command :=
  match n with
  | O => if found then ptr else []
  | S n' =>
      match nth_word text i with
      | None => if found then ptr else []
      | Some word =>
          match chain with
          | [] => []                                  (* [found] may be 1, but the pointer is NULL *)
          | _ => match find_name word chain with
                 | [] => []
                 | (q :: _) as p => match_command_loop n' (i + 1) text true p (subcmd q)
                 end
          end
      end
  end.

Definition find_match_command (text : string) (mcnt : Z) (root : list command) : list command :=
  match_command_loop (Z.to_nat mcnt) 1 text false [] root.

(** The loop has no bound of its own. [mcnt] is only written when a command is found. *)
Fixpoint as_possible_loop (fuel : nat) (i : Z) (text : string) (fptr : list command) (mcnt : option Z)
    (chain : list command) : outcome (list command * option Z) :=
  match fuel with
  | O => Diverges
  | S fuel' =>
      match nth_word text i with
      | None => Ok (fptr, mcnt)
      | Some word =>
          match chain with
          | [] => Ok (fptr, mcnt)
          | _ => match find_name word chain with
                 | [] => Ok (fptr, mcnt)
                 | (q :: _) as p => as_possible_loop fuel' (i + 1) text p (Some i) (subcmd q)
                 end
          end
      end
  end.

Definition find_match_as_possible (text : string) (mcnt : option Z) (root : list command)
    : outcome (list command * option Z) :=
  as_possible_loop (S (String.length text)) 1 text [] mcnt root.

(** ** Executing a line *)

Inductive reaction :=
  | Call (f : F) (args : option string)
  | NoSuchCommand (w : option string)
  | IncompleteCommand (cmd : string)
  | AskServer (cmd : string)
  | OtherType.

Definition read_count (mcnt : option Z) : outcome Z :=
  match mcnt with Some i => Ok i | None => Undefined Uninitialised end.

Definition execute_line (svc_fd : Z) (cmd : string) (root : list command) : outcome reaction :=
  '(p, mcnt) ← find_match_as_possible cmd None root;
  match p with
  | [] => Ok (NoSuchCommand (nth_word cmd 1))
  | c :: _ =>
      match func c with
      | None => Ok (IncompleteCommand cmd)
      | Some f =>
          if negb (is_rmt c) then i ← read_count mcnt; Ok (Call f (nthwordptr cmd (i + 1)))
          else if 0 <=? svc_fd then Ok (AskServer cmd)
          else i ← read_count mcnt; Ok (Call f (nthwordptr cmd (i + 1)))
      end
  end.

Definition external_execute (cmd : string) (cmdtype : Z) (root : list command) : outcome reaction :=
  '(p, mcnt) ← find_match_as_possible cmd None root;
  match p with
  | [] => Ok (NoSuchCommand (nth_word cmd 1))
  | c :: _ =>
      match func c with
      | None => Ok (IncompleteCommand cmd)
      | Some f =>
          if cmdtype =? cmd_type c then i ← read_count mcnt; Ok (Call f (nthwordptr cmd (i + 1)))
          else Ok OtherType
      end
  end.

(** What the help for a line prints. *)
Inductive help := Subcommands (names : list string) | Unrecognized | Silent.

Definition show_subcmd (chain : list command) : help := Subcommands (map name chain).

Definition find_match_commands (cmd : string) (root : list command) : outcome help :=
  '(p, mcnt) ← find_match_as_possible cmd (Some 0) root;
  i ← read_count mcnt;
  if bool_decide (cmd = EmptyString) && (i =? 0) then Ok (show_subcmd root)
  else match p with
       | [] => Ok Unrecognized
       | c :: _ =>
           match func c with
           | None => if i =? nofwords cmd then Ok (show_subcmd (subcmd c)) else Ok Unrecognized
           | Some _ => Ok Silent
           end
       end.

(** ** Completion *)

(** [strncmp (name, text, strlen (text)) == 0] *)
Fixpoint strprefix (text nm : string) : bool :=
  match text, nm with
  | EmptyString, _ => true
  | String c text', String d nm' => if decide (c = d) then strprefix text' nm' else false
  | String _ _, EmptyString => false
  end.

(** The next command of the chain whose name begins with the text: its name, and where to
    go on. *)
Fixpoint next_completion (text : string) (chain : list command) : option string * list command :=
  match chain with
  | [] => (None, [])
  | c :: rest => if strprefix text (name c) then (Some (name c), rest) else next_completion text rest
  end.

(** [ptr] is static; readline calls with [state] 0 first. *)
Definition command_generator (text : string) (state : Z) (root : list command) (ptr : list command)
    : option string * list command :=
  next_completion text (if state =? 0 then root else ptr).

(** [cptr] is static; [line] is [rl_line_buffer]. *)
Definition entry_completion (text : string) (state : Z) (line : string) (root : list command) (cptr : list command)
    : option string * list command :=
  if state =? 0 then
    let iwds := nofwords text in
    let wds := nofwords line - iwds in
    match find_match_command line wds root with
    | [] => (None, [])
    | c :: rest =>
        match subcmd c with
        | [] => (None, c :: rest)   (* the documentation is printed if [iwds] is 0 *)
        | s => next_completion text s
        end
    end
  else next_completion text cptr.

(** What a generator answers when it is called with 0 and then with other numbers until it answers
    [NULL], as the manual of readline says it is called. *)
Fixpoint offered (fuel : nat) (gen : Z → list command → option string * list command) (state : Z)
    (ptr : list command) : outcome (list string) :=
  match fuel with
  | O => Diverges
  | S fuel' =>
      match gen state ptr with
      | (None, _) => Ok []
      | (Some m, ptr') => ms ← offered fuel' gen (state + 1) ptr'; Ok (m :: ms)
      end
  end.

(** ** The registry the tree stands for *)

(** What is kept about a command, without its place in the tree. *)
Record cmd_entry := Entry {
  e_rmt : bool; e_func : option F; e_type : Z; e_doc : option string; e_nargs : Z
}.

Definition info (c : command) : cmd_entry := Entry (is_rmt c) (func c) (cmd_type c) (doc c) (nargs c).

(** The command at a path, as the pointer to it. *)
Fixpoint node_at (path : list string) (chain : list command) : list command :=
  match path with
  | [] => []
  | w :: path' =>
      match find_name w chain with
      | [] => []
      | (q :: _) as p => match path' with [] => p | _ => node_at path' (subcmd q) end
      end
  end.

Definition entry_at (chain : list command) (path : list string) : option cmd_entry := info <$> head (node_at path chain).

(** The path a line names: its words, as far as they fit a buffer. *)
Definition path_of (line : string) : list string := map fit (words line).

(** A registry answers for every path. *)
Definition cmd_registry : Type := list string → option cmd_entry.

(** Registering under a path that is free also creates, below no command, the words that
    lead to it. *)
Definition register (path : list string) (rmt : bool) (f : F) (d : option string) (args t : Z) (m : cmd_registry)
    : Z * cmd_registry :=
  match path, m path with
  | [], _ | _, Some _ => (0, m)
  | _, None => (1, λ q, match m q with
      | Some e => Some e
      | None => if decide (q = path) then Some (Entry rmt (Some f) t d args)
                else if decide (q ≠ [] ∧ q `prefix_of` path) then Some (Entry rmt None t None 0)
                else None
      end)
  end.

(** *** The loop over the words *)

Fixpoint add_words (ws : list string) (rmt : bool) (f : F) (d : option string) (args t : Z) (chain : list command)
    : Z * list command :=
  match ws with
  | [] => (0, chain)
  | w :: ws' =>
      match find_name w chain, ws' with
      | _ :: _, [] => (0, chain)
      | [], [] => (1, Command w rmt (Some f) t d args [] :: chain)
      | q :: _, _ => let '(r, s) := add_words ws' rmt f d args t (subcmd q) in (r, update_name w (with_subcmd s q) chain)
      | [], _ => let '(r, s) := add_words ws' rmt f d args t [] in (r, Command w rmt None t None 0 s :: chain)
      end
  end.

Lemma nth_word_path line i : nth_word line (Z.of_nat i + 1) = path_of line !! i.
Proof.
  rewrite nth_word_ok. unfold path_of. destruct (Z.leb_spec 1 (Z.of_nat i + 1)); [|lia].
  replace (Z.to_nat (Z.of_nat i + 1 - 1)) with i by lia. by rewrite <- list_lookup_fmap.
Qed.

Lemma nofwords_path line : nofwords line = Z.of_nat (length (path_of line)).
Proof. rewrite nofwords_ok. unfold path_of. by rewrite length_map. Qed.

Lemma drop_cons {A} (l : list A) i x ws : drop i l = x :: ws → l !! i = Some x ∧ drop (S i) l = ws.
Proof.
  intros H. split.
  - rewrite <- (Nat.add_0_r i), <- lookup_drop, H. done.
  - by rewrite <- Nat.add_1_r, <- drop_drop, H.
Qed.

Lemma addcmd_loop_words cmd rmt f d args t ws : ∀ i chain,
  drop i (path_of cmd) = ws →
  addcmd_loop (length ws) (Z.of_nat i + 1) (nofwords cmd) cmd rmt f d args t chain = add_words ws rmt f d args t chain.
Proof.
  induction ws as [|w ws IH]; intros i chain Hd; [done|]. cbn [length addcmd_loop add_words].
  destruct (drop_cons _ _ _ _ Hd) as [Hw Hd']. rewrite nth_word_path, Hw, nofwords_path.
  assert (Hl : length (path_of cmd) = (i + S (length ws))%nat).
  { apply (f_equal length) in Hd. rewrite length_drop in Hd. apply lookup_lt_Some in Hw. simpl in Hd. lia. }
  rewrite Hl. rewrite nofwords_path, Hl in IH. replace (Z.of_nat i + 1 + 1) with (Z.of_nat (S i) + 1) by lia.
  destruct ws as [|w' ws].
  - rewrite (proj2 (Z.eqb_eq _ _)) by (simpl; lia). by destruct (find_name w chain).
  - rewrite (proj2 (Z.eqb_neq _ _)) by (simpl; lia). destruct (find_name w chain); by rewrite IH.
Qed.

Lemma cli_addcmd_words cmd rmt f d args t root :
  cli_addcmd cmd rmt f d args t root = add_words (path_of cmd) rmt f d args t root.
Proof.
  unfold cli_addcmd. rewrite <- (addcmd_loop_words cmd rmt f d args t (path_of cmd) 0) by by rewrite drop_0.
  by rewrite nofwords_path, Nat2Z.id.
Qed.

(** *** Chains *)

Lemma find_name_head w chain q rest : find_name w chain = q :: rest → name q = w.
Proof. induction chain as [|c chain IH]; simpl; [done|]. case_decide; [by intros [= <- _]|done]. Qed.

Lemma find_update w w' q' chain q rest : name q' = w → find_name w chain = q :: rest →
  head (find_name w' (update_name w q' chain)) = if decide (w' = w) then Some q' else head (find_name w' chain).
Proof.
  intros Hn. induction chain as [|c chain IH]; [done|]. cbn [find_name update_name].
  destruct (decide (name c = w)) as [Hc|Hc]; cbn [find_name].
  - intros _. destruct (decide (name q' = w')); destruct (decide (w' = w)); destruct (decide (name c = w')); simpl; congruence.
  - intros Hf. specialize (IH Hf). destruct (decide (name c = w')); [|done]. by rewrite decide_False by congruence.
Qed.

Lemma name_with_subcmd s q : name (with_subcmd s q) = name q.
Proof. by destruct q. Qed.

Lemma info_with_subcmd s q : info (with_subcmd s q) = info q.
Proof. by destruct q. Qed.

Lemma entry_at_cons w path chain :
  entry_at chain (w :: path) =
    match head (find_name w chain) with
    | None => None
    | Some q => match path with [] => Some (info q) | _ => entry_at (subcmd q) path end
    end.
Proof. unfold entry_at. cbn [node_at]. destruct (find_name w chain); [done|]. by destruct path. Qed.

(** *** Registering in the tree is registering in the registry *)

Lemma register_free path rmt f d args t m q : path ≠ [] → m path = None →
  (register path rmt f d args t m).1 = 1 ∧
  (register path rmt f d args t m).2 q =
    match m q with
    | Some e => Some e
    | None => if decide (q = path) then Some (Entry rmt (Some f) t d args)
              else if decide (q ≠ [] ∧ q `prefix_of` path) then Some (Entry rmt None t None 0) else None
    end.
Proof. intros Hp Hm. destruct path; [done|]. unfold register. by rewrite Hm. Qed.

Lemma register_taken path rmt f d args t m : path = [] ∨ is_Some (m path) → register path rmt f d args t m = (0, m).
Proof. destruct path; [done|]. unfold register. by intros [[=]|[e ->]]. Qed.

Lemma entry_at_nil chain : entry_at chain [] = None.
Proof. done. Qed.

Lemma entry_at_empty path : entry_at [] path = None.
Proof. by destruct path. Qed.

(** The two ways to go down one word. *)
Lemma entry_at_update w s q rest chain w' path : find_name w chain = q :: rest →
  entry_at (update_name w (with_subcmd s q) chain) (w' :: path) =
    if decide (w' = w) then match path with [] => Some (info q) | _ => entry_at s path end
    else entry_at chain (w' :: path).
Proof.
  intros Hf. pose proof (find_name_head _ _ _ _ Hf) as Hn. rewrite !entry_at_cons.
  rewrite (find_update w w' _ chain q rest); [|by rewrite name_with_subcmd|done].
  case_decide; [|done]. rewrite info_with_subcmd. by destruct q.
Qed.

Lemma entry_at_new c chain w' path :
  entry_at (c :: chain) (w' :: path) =
    if decide (w' = name c) then match path with [] => Some (info c) | _ => entry_at (subcmd c) path end
    else entry_at chain (w' :: path).
Proof. rewrite !entry_at_cons. cbn [find_name]. repeat case_decide; congruence || done. Qed.

Lemma add_words_found w ws rmt f d args t chain q rest : find_name w chain = q :: rest → ws ≠ [] →
  add_words (w :: ws) rmt f d args t chain =
    ((add_words ws rmt f d args t (subcmd q)).1,
     update_name w (with_subcmd (add_words ws rmt f d args t (subcmd q)).2 q) chain).
Proof. intros Hf Hw. cbn [add_words]. rewrite Hf. destruct ws; [done|]. by destruct (add_words _ _ _ _ _ _ (subcmd q)). Qed.

Lemma add_words_missing w ws rmt f d args t chain : find_name w chain = [] → ws ≠ [] →
  add_words (w :: ws) rmt f d args t chain =
    ((add_words ws rmt f d args t []).1, Command w rmt None t None 0 (add_words ws rmt f d args t []).2 :: chain).
Proof. intros Hf Hw. cbn [add_words]. rewrite Hf. destruct ws; [done|]. by destruct (add_words _ _ _ _ _ _ []). Qed.

(** One word less to go. *)
Lemma register_cons_result w ws rmt f d args t m m' :
  ws ≠ [] → (∀ p, p ≠ [] → m (w :: p) = m' p) →
  (register (w :: ws) rmt f d args t m).1 = (register ws rmt f d args t m').1.
Proof. intros Hws Hm. unfold register. rewrite Hm by done. destruct ws; [done|]. by destruct (m' (s :: ws)). Qed.

Lemma register_cons w ws rmt f d args t m m' w' q :
  ws ≠ [] → (∀ p, p ≠ [] → m (w :: p) = m' p) → m (w' :: q) = None →
  (register (w :: ws) rmt f d args t m).2 (w' :: q) =
    if decide (w' = w) then
      match q with
      | [] => if decide (m' ws = None) then Some (Entry rmt None t None 0) else None
      | _ => (register ws rmt f d args t m').2 q
      end
    else None.
Proof.
  intros Hws Hm Hq. destruct (m' ws) as [e|] eqn:He.
  - rewrite (register_taken (w :: ws)) by (right; rewrite Hm by done; by rewrite He).
    rewrite (register_taken ws) by (right; by rewrite He). cbn [snd]. rewrite Hq.
    case_decide; [subst|done]. destruct q; [by rewrite decide_False|]. by rewrite <- Hm.
  - destruct (register_free (w :: ws) rmt f d args t m (w' :: q)) as [_ ->]; [done|by rewrite Hm|].
    destruct (register_free ws rmt f d args t m' q) as [_ Hr]; [done|done|]. rewrite Hq.
    destruct (decide (w' = w)) as [->|Hne].
    + destruct q as [|x q].
      * rewrite decide_False by congruence. rewrite !decide_True; [done|done|]. split; [done|]. by exists ws.
      * rewrite Hr, <- Hm, Hq by done. destruct (decide (w :: x :: q = w :: ws)) as [[= <-]|Hne].
        { by rewrite decide_True. }
        rewrite (decide_False (P := x :: q = ws)) by congruence.
        apply decide_ext. split; intros [_ Hp]; (split; [done|]); [by eapply prefix_cons_inv_2|by apply prefix_cons].
    + rewrite decide_False by congruence. rewrite decide_False; [done|]. intros [_ Hp]. by apply prefix_cons_inv_1 in Hp.
Qed.

Lemma register_keeps path rmt f d args t m q e : m q = Some e → (register path rmt f d args t m).2 q = Some e.
Proof.
  intros Hq. destruct path as [|w ws]; [done|]. destruct (m (w :: ws)) eqn:E.
  - rewrite register_taken by (right; by rewrite E). done.
  - destruct (register_free (w :: ws) rmt f d args t m q) as [_ ->]; [done|done|]. by rewrite Hq.
Qed.

(** The root has no entry. *)
Lemma register_nil path rmt f d args t m : m [] = None → (register path rmt f d args t m).2 [] = None.
Proof.
  intros Hq. destruct path as [|w ws]; [done|]. destruct (m (w :: ws)) eqn:E.
  - rewrite register_taken by (right; by rewrite E). done.
  - destruct (register_free (w :: ws) rmt f d args t m []) as [_ ->]; [done|done|]. rewrite Hq.
    rewrite !decide_False; [done|by intros []|done].
Qed.

Lemma add_last_word w rmt f d args t chain q : find_name w chain = [] →
  entry_at (Command w rmt (Some f) t d args [] :: chain) q =
    match entry_at chain q with
    | Some e => Some e
    | None => if decide (q = [w]) then Some (Entry rmt (Some f) t d args)
              else if decide (q ≠ [] ∧ q `prefix_of` [w]) then Some (Entry rmt None t None 0) else None
    end.
Proof.
  intros Hf. destruct q as [|w' q]; [by rewrite !entry_at_nil, !decide_False by naive_solver|].
  rewrite entry_at_new. cbn [name subcmd]. case_decide as Hw; [subst|].
  - rewrite (entry_at_cons _ _ chain), Hf. destruct q as [|x q]; [by rewrite decide_True|].
    rewrite entry_at_empty, !decide_False; [done| |done]. intros [_ Hp%prefix_length]. simpl in Hp. lia.
  - destruct (entry_at chain (w' :: q)); [done|]. rewrite !decide_False; [done| |by intros [= ]].
    intros [_ Hp]. by apply prefix_cons_inv_1 in Hp.
Qed.

Lemma add_words_register ws rmt f d args t : ∀ chain,
  (add_words ws rmt f d args t chain).1 = (register ws rmt f d args t (entry_at chain)).1 ∧
  ∀ q, entry_at (add_words ws rmt f d args t chain).2 q = (register ws rmt f d args t (entry_at chain)).2 q.
Proof.
  induction ws as [|w ws IH]; intros chain; [done|]. destruct (decide (ws = [])) as [->|Hws].
  { cbn [add_words]. destruct (find_name w chain) as [|c rest] eqn:Hf; cbn [fst snd].
    - destruct (register_free [w] rmt f d args t (entry_at chain) []) as [-> _]; [done|by rewrite entry_at_cons, Hf|].
      split; [done|]. intros q. destruct (register_free [w] rmt f d args t (entry_at chain) q) as [_ ->]; [done|by rewrite entry_at_cons, Hf|].
      by apply add_last_word.
    - by rewrite register_taken by (right; rewrite entry_at_cons, Hf; by eexists). }
  destruct (find_name w chain) as [|c rest] eqn:Hf.
  - rewrite add_words_missing by done. destruct (IH []) as [IH1 IH2]. cbn [fst snd].
    assert (Hm : ∀ p, p ≠ [] → entry_at chain (w :: p) = entry_at [] p)
      by (intros p _; by rewrite entry_at_empty, entry_at_cons, Hf).
    rewrite (register_cons_result _ _ _ _ _ _ _ _ (entry_at [])) by done. split; [done|]. intros [|w' q].
    { rewrite register_nil; done. }
    rewrite entry_at_new. cbn [name subcmd]. destruct (entry_at chain (w' :: q)) as [e|] eqn:E.
    + erewrite register_keeps by done. rewrite decide_False; [done|]. intros ->. by rewrite entry_at_cons, Hf in E.
    + rewrite (register_cons _ _ _ _ _ _ _ _ (entry_at [])) by done. case_decide; [|done].
      destruct q; [by rewrite decide_True by apply entry_at_empty|apply IH2].
  - rewrite (add_words_found _ _ _ _ _ _ _ _ c rest) by done. destruct (IH (subcmd c)) as [IH1 IH2]. cbn [fst snd].
    assert (Hm : ∀ p, p ≠ [] → entry_at chain (w :: p) = entry_at (subcmd c) p)
      by (intros [|x p] ?; [done|]; by rewrite entry_at_cons, Hf).
    rewrite (register_cons_result _ _ _ _ _ _ _ _ (entry_at (subcmd c))) by done. split; [done|]. intros [|w' q].
    { rewrite register_nil; done. }
    rewrite (entry_at_update _ _ c rest) by done. destruct (entry_at chain (w' :: q)) as [e|] eqn:E.
    + erewrite register_keeps by done. case_decide; [subst|done]. rewrite <- E. destruct q as [|x q].
      * by rewrite entry_at_cons, Hf.
      * rewrite IH2, E. apply register_keeps. by rewrite <- Hm.
    + rewrite (register_cons _ _ _ _ _ _ _ _ (entry_at (subcmd c))) by done. case_decide; [subst|done].
      destruct q; [by rewrite entry_at_cons, Hf in E|apply IH2].
Qed.

(** *** Sequences of registrations *)

(** The arguments of one call of [cli->add]. *)
Record add_call := AddCall {
  a_cmd : string; a_rmt : bool; a_func : F; a_doc : option string; a_args : Z; a_type : Z
}.

Definition add_step (st : list Z * list command) (a : add_call) : list Z * list command :=
  let '(r, root) := cli_addcmd (a_cmd a) (a_rmt a) (a_func a) (a_doc a) (a_args a) (a_type a) (st.2) in
  (st.1 ++ [r], root).

Definition register_step (st : list Z * cmd_registry) (a : add_call) : list Z * cmd_registry :=
  let '(r, m) := register (path_of (a_cmd a)) (a_rmt a) (a_func a) (a_doc a) (a_args a) (a_type a) (st.2) in
  (st.1 ++ [r], m).

(** The answers are the same, and so is what every path leads to. *)
Definition implements (st : list Z * list command) (sp : list Z * cmd_registry) : Prop :=
  st.1 = sp.1 ∧ ∀ q, entry_at (st.2) q = sp.2 q.

Lemma register_ext path rmt f d args t m m' : (∀ q, m q = m' q) →
  (register path rmt f d args t m).1 = (register path rmt f d args t m').1 ∧
  ∀ q, (register path rmt f d args t m).2 q = (register path rmt f d args t m').2 q.
Proof.
  intros Hm. destruct path as [|w ws]; [done|]. unfold register. rewrite (Hm (w :: ws)).
  destruct (m' (w :: ws)); [done|]. split; [done|]. intros q. cbn [snd]. by rewrite (Hm q).
Qed.

Lemma add_step_simulates st sp a : implements st sp → implements (add_step st a) (register_step sp a).
Proof.
  intros [Hr Hm]. unfold add_step, register_step. rewrite cli_addcmd_words.
  destruct (add_words_register (path_of (a_cmd a)) (a_rmt a) (a_func a) (a_doc a) (a_args a) (a_type a) st.2) as [H1 H2].
  destruct (register_ext (path_of (a_cmd a)) (a_rmt a) (a_func a) (a_doc a) (a_args a) (a_type a) _ _ Hm) as [H3 H4].
  destruct (add_words _ _ _ _ _ _ _), (register _ _ _ _ _ _ (sp.2)). simpl in *. split; simpl; [congruence|].
  intros q. by rewrite H2.
Qed.

(** C24: the tree of commands implements a registry from paths to commands: after any
    sequence of registrations, starting from no commands, the registrations answered what
    the registry answers (1 if the path was free, 0 if it was empty or taken), and every
    path leads to the command the registry has for it. A registration never changes an
    entry that exists, also when it only was a word on the way to another command. *)
Theorem tree_implements_registry (calls : list add_call) :
  implements (foldl add_step ([], []) calls) (foldl register_step ([], λ _, None) calls).
Proof.
  assert (H : ∀ st sp, implements st sp → implements (foldl add_step st calls) (foldl register_step sp calls)).
  { induction calls as [|a calls IH]; intros st sp H; [done|]. simpl. by apply IH, add_step_simulates. }
  apply H. split; [done|]. apply entry_at_empty.
Qed.

(** ** Finding is walking down the registry *)

(** How many words can be followed. *)
Fixpoint depth (ws : list string) (chain : list command) : nat :=
  match ws with
  | [] => 0
  | w :: ws' => match find_name w chain with [] => 0 | q :: _ => S (depth ws' (subcmd q)) end
  end.

Lemma depth_le ws : ∀ chain, (depth ws chain ≤ length ws)%nat.
Proof.
  induction ws as [|w ws IH]; intros chain; simpl; [lia|]. destruct (find_name w chain) as [|q rest]; [lia|].
  specialize (IH (subcmd q)). lia.
Qed.

(** A path along the line leads somewhere exactly if it is not longer than that. *)
Lemma entry_at_depth ws : ∀ chain k, (1 ≤ k ≤ length ws)%nat → is_Some (entry_at chain (take k ws)) ↔ (k ≤ depth ws chain)%nat.
Proof.
  induction ws as [|w ws IH]; intros chain [|k] Hk; simpl in *; try lia.
  rewrite entry_at_cons. destruct (find_name w chain) as [|q rest]; cbn [head].
  { split; [by intros [? ?]|lia]. }
  destruct (decide (k = 0%nat)) as [->|Hk0].
  { split; [lia|]. rewrite take_0. by eexists. }
  destruct (take k ws) as [|x t] eqn:Ht.
  { apply (f_equal length) in Ht. rewrite length_take in Ht. simpl in Ht. lia. }
  rewrite <- Ht. rewrite IH by lia. lia.
Qed.

Lemma node_at_cons w ws chain q rest : find_name w chain = q :: rest → ws ≠ [] →
  node_at (w :: ws) chain = node_at ws (subcmd q).
Proof. intros Hf Hw. cbn [node_at]. rewrite Hf. by destruct ws. Qed.

(** The loop without a bound of its own ends: it goes at most one round beyond the words. *)
Lemma as_possible_loop_ok text ws : ∀ i fptr mcnt chain fuel,
  drop i (path_of text) = ws → (length ws < fuel)%nat →
  as_possible_loop fuel (Z.of_nat i + 1) text fptr mcnt chain =
    match depth ws chain with
    | O => Ok (fptr, mcnt)
    | k => Ok (node_at (take k ws) chain, Some (Z.of_nat (i + k)))
    end.
Proof.
  induction ws as [|w ws IH]; intros i fptr mcnt chain [|fuel] Hd Hfuel; simpl in Hfuel; try lia; cbn [as_possible_loop].
  { assert (Hl : (length (path_of text) ≤ i)%nat) by (apply (f_equal length) in Hd; rewrite length_drop in Hd; simpl in Hd; lia).
    by rewrite nth_word_path, lookup_ge_None_2. }
  destruct (drop_cons _ _ _ _ Hd) as [Hw Hd']. rewrite nth_word_path, Hw. cbn [depth].
  destruct (find_name w chain) as [|q rest] eqn:Hf; [by destruct chain|]. destruct chain as [|c chain]; [done|].
  replace (Z.of_nat i + 1 + 1) with (Z.of_nat (S i) + 1) by lia. rewrite IH by (done || lia).
  destruct (depth ws (subcmd q)) as [|k] eqn:Hk; cbn [take].
  - rewrite take_0. cbn [node_at]. rewrite Hf. do 3 f_equal. lia.
  - rewrite (node_at_cons _ _ _ q rest); [do 3 f_equal; lia|done|]. pose proof (depth_le ws (subcmd q)). by destruct ws.
Qed.

Lemma words_from_length s : ∀ cur, (length (words_from cur s) ≤ String.length cur + String.length s)%nat.
Proof.
  induction s as [|c s IH]; intros cur; simpl.
  - destruct cur; simpl; lia.
  - destruct (whitespace c).
    + specialize (IH EmptyString). destruct cur; simpl in *; lia.
    + specialize (IH (cur +:+ String c EmptyString)). rewrite length_snoc_string in IH. lia.
Qed.

Lemma path_of_length s : (length (path_of s) ≤ String.length s)%nat.
Proof. unfold path_of, words. rewrite length_map. apply (words_from_length s EmptyString). Qed.

Lemma find_match_as_possible_ok text mcnt root :
  find_match_as_possible text mcnt root =
    match depth (path_of text) root with
    | O => Ok ([], mcnt)
    | k => Ok (node_at (take k (path_of text)) root, Some (Z.of_nat k))
    end.
Proof.
  unfold find_match_as_possible. pose proof (path_of_length text).
  by rewrite (as_possible_loop_ok text (path_of text) 0) by (rewrite ?drop_0; done || lia).
Qed.

(** What a line means: the longest path along its words that leads to a command, and its
    length. *)
Inductive meaning (root : list command) (line : string) : option (cmd_entry * nat) → Prop :=
  | MeansNothing : (∀ k, (1 ≤ k ≤ length (path_of line))%nat → entry_at root (take k (path_of line)) = None) →
      meaning root line None
  | MeansEntry e k : (1 ≤ k ≤ length (path_of line))%nat → entry_at root (take k (path_of line)) = Some e →
      (∀ k', (k < k' ≤ length (path_of line))%nat → entry_at root (take k' (path_of line)) = None) →
      meaning root line (Some (e, k)).

Lemma find_means root line mcnt :
  meaning root line None ∧ find_match_as_possible line mcnt root = Ok ([], mcnt) ∨
  ∃ c rest k, meaning root line (Some (info c, k)) ∧
    find_match_as_possible line mcnt root = Ok (c :: rest, Some (Z.of_nat k)).
Proof.
  rewrite find_match_as_possible_ok. set (ws := path_of line). destruct (depth ws root) as [|k] eqn:Hd.
  - left. split; [|done]. constructor. fold ws. intros k Hk. apply eq_None_not_Some. rewrite entry_at_depth by done. lia.
  - right. pose proof (depth_le ws root) as Hle.
    assert (Hs : is_Some (entry_at root (take (S k) ws))) by (apply entry_at_depth; lia).
    unfold entry_at in Hs. destruct (node_at (take (S k) ws) root) as [|c rest] eqn:Hn; [by destruct Hs|].
    exists c, rest, (S k). split; [|by rewrite <- Hn]. constructor; fold ws; [lia|unfold entry_at; by rewrite Hn|].
    intros k' Hk'. apply eq_None_not_Some. rewrite entry_at_depth by lia. lia.
Qed.

(** C25: what executing a line does, for every tree and line; the search, which has no bound
    of its own, ends, and the number of words it found is never read uninitialised. The line
    means the longest path along its words that leads to a command. No command: a message
    with the first word. A word that only leads to commands: "Incomplete command". Otherwise
    the handler is called with the rest of the line after the path, unless the command is
    a remote one and there is a server to ask. *)
Theorem execute_line_dispatch svc_fd line (root : list command) :
  ∃ o, meaning root line o ∧
    execute_line svc_fd line root =
      match o with
      | None => Ok (NoSuchCommand (head (path_of line)))
      | Some (e, k) =>
          match e_func e with
          | None => Ok (IncompleteCommand line)
          | Some f => if e_rmt e && (0 <=? svc_fd) then Ok (AskServer line)
                      else Ok (Call f (nthwordptr line (Z.of_nat k + 1)))
          end
      end.
Proof.
  unfold execute_line. destruct (find_means root line None) as [[Hm ->]|(c & rest & k & Hm & ->)]; eexists; (split; [exact Hm|]).
  - cbn. change 1 with (Z.of_nat 0 + 1). rewrite nth_word_path. by destruct (path_of line).
  - cbn. destruct (func c); [|done]. destruct (is_rmt c); cbn; [|done]. by destruct (0 <=? svc_fd).
Qed.

(** ** Well-formed trees *)

(** A name of a command: a word of a line, as far as it fits a buffer. *)
Definition name_ok (w : string) : Prop :=
  w ≠ EmptyString ∧ str_forall (λ c, negb (whitespace c)) w = true ∧ (String.length w ≤ 63)%nat.

Inductive wf_tree : list command → Prop :=
  | wf_nil : wf_tree []
  | wf_cons c chain : name_ok (name c) → name c ∉ map name chain → wf_tree (subcmd c) → wf_tree chain → wf_tree (c :: chain).
#[local] Hint Constructors wf_tree : proxy.

Lemma find_name_None w chain : find_name w chain = [] ↔ w ∉ map name chain.
Proof.
  induction chain as [|c chain IH]; simpl; [split; [set_solver|done]|].
  case_decide as Hc; [subst|]; [split; [done|set_solver]|]. rewrite IH. set_solver.
Qed.

Lemma wf_find w chain q rest : wf_tree chain → find_name w chain = q :: rest → wf_tree (subcmd q).
Proof. induction 1; simpl; [done|]. case_decide; [by intros [= <- _]|done]. Qed.

Lemma map_name_update w q' chain : name q' = w → map name (update_name w q' chain) = map name chain.
Proof. intros Hq. induction chain as [|c chain IH]; simpl; [done|]. case_decide; simpl; congruence. Qed.

Lemma wf_update w s q rest chain : wf_tree chain → find_name w chain = q :: rest → wf_tree s →
  wf_tree (update_name w (with_subcmd s q) chain).
Proof.
  intros Hwf Hf Hs. pose proof (find_name_head _ _ _ _ Hf) as Hn.
  induction Hwf as [|c chain Hc Hnc Hsub _ Hchain IH]; [done|]. simpl in *. case_decide as Hd.
  - injection Hf as -> ->. constructor; [by rewrite name_with_subcmd|by rewrite name_with_subcmd|by destruct q|done].
  - constructor; [done|rewrite map_name_update; [done|by rewrite name_with_subcmd]|done|by apply IH].
Qed.

Lemma add_words_wf ws rmt f d args t : ∀ chain, Forall name_ok ws → wf_tree chain → wf_tree (add_words ws rmt f d args t chain).2.
Proof.
  induction ws as [|w ws IH]; intros chain Hws Hwf; [done|]. apply list.Forall_cons in Hws as [Hw Hws].
  destruct (decide (ws = [])) as [->|Hne].
  { cbn [add_words]. destruct (find_name w chain) eqn:Hf; [|done]. constructor; simpl; auto with proxy. by apply find_name_None. }
  destruct (find_name w chain) as [|q rest] eqn:Hf.
  - rewrite add_words_missing by done. constructor; simpl; auto with proxy. by apply find_name_None.
  - rewrite (add_words_found _ _ _ _ _ _ _ _ q rest) by done. eapply wf_update; [done|done|]. by eauto using wf_find.
Qed.

Lemma str_forall_snoc P s c : str_forall P (s +:+ String c EmptyString) = str_forall P s && P c.
Proof. rewrite str_forall_app. cbn [str_forall]. by rewrite andb_true_r. Qed.

Lemma words_from_solid s : ∀ cur, str_forall (λ c, negb (whitespace c)) cur = true →
  Forall (λ w, str_forall (λ c, negb (whitespace c)) w = true) (words_from cur s).
Proof.
  induction s as [|c s IH]; intros cur Hc; simpl.
  - destruct cur; by auto using list.Forall_cons.
  - destruct (whitespace c) eqn:Hw.
    + destruct cur; [by apply IH|]. constructor; [done|by apply IH].
    + apply IH. by rewrite str_forall_snoc, Hc, Hw.
Qed.

Lemma str_forall_take P n s : str_forall P s = true → str_forall P (str_take n s) = true.
Proof. revert n. induction s as [|c s IH]; intros [|n]; simpl; try done. intros [-> H]%andb_true_iff. by apply IH. Qed.

Lemma path_of_ok line : Forall name_ok (path_of line).
Proof.
  unfold path_of. apply Forall_fmap, list.Forall_forall. intros w Hw. unfold compose. split; [|split].
  - intros H%fit_empty. by apply (words_from_ne _ _ _ Hw).
  - apply str_forall_take. pose proof (words_from_solid line EmptyString eq_refl) as H. rewrite list.Forall_forall in H. by apply H.
  - apply str_take_length.
Qed.

Lemma build_wf (calls : list add_call) : wf_tree (foldl add_step ([], []) calls).2.
Proof.
  assert (H : ∀ st, wf_tree st.2 → wf_tree (foldl add_step st calls).2); [|apply H; constructor].
  induction calls as [|a calls IH]; intros st H; [done|]. simpl. apply IH. unfold add_step. rewrite cli_addcmd_words.
  pose proof (add_words_wf (path_of (a_cmd a)) (a_rmt a) (a_func a) (a_doc a) (a_args a) (a_type a) st.2 (path_of_ok _) H) as Hwf.
  by destruct (add_words _ _ _ _ _ _ _).
Qed.

(** C32: every tree that registrations build from no commands is well formed: at every level,
    the names are different from each other, not empty, without white space and of at most
    63 characters. *)
Theorem tree_well_formed (calls : list add_call) : wf_tree (foldl add_step ([], []) calls).2.
Proof. apply build_wf. Qed.

(** ** Completion enumerates the names that begin with the text *)

(** The names of a chain that begin with the text, in the order of the chain. *)
Definition completions (text : string) (chain : list command) : list string := List.filter (strprefix text) (map name chain).

Lemma next_completion_ok text chain :
  match next_completion text chain with
  | (None, _) => completions text chain = []
  | (Some m, rest) => completions text chain = m :: completions text rest ∧ (length rest < length chain)%nat
  end.
Proof.
  induction chain as [|c chain IH]; [done|]. cbn [next_completion]. unfold completions in *. simpl.
  destruct (strprefix text (name c)); [split; [done|simpl; lia]|]. destruct (next_completion text chain) as [[m|] rest]; [|done].
  destruct IH as [-> ?]. split; [done|simpl; lia].
Qed.

Lemma offered_rest text gen fuel : ∀ st chain,
  (∀ st p, st ≠ 0 → gen st p = next_completion text p) → 0 < st → (length chain < fuel)%nat →
  offered fuel gen st chain = Ok (completions text chain).
Proof.
  induction fuel as [|fuel IH]; intros st chain Hgen Hst Hf; [lia|]. cbn [offered]. rewrite Hgen by lia.
  pose proof (next_completion_ok text chain) as H. destruct (next_completion text chain) as [[m|] rest]; [|by rewrite H].
  destruct H as [-> Hl]. rewrite IH by (done || lia). done.
Qed.

Lemma offered_first text gen chain ptr :
  gen 0 ptr = next_completion text chain → (∀ st p, st ≠ 0 → gen st p = next_completion text p) →
  offered (S (length chain)) gen 0 ptr = Ok (completions text chain).
Proof.
  intros H0 Hgen. cbn [offered]. rewrite H0. pose proof (next_completion_ok text chain) as H.
  destruct (next_completion text chain) as [[m|] rest]; [|by rewrite H].
  destruct H as [-> Hl]. by rewrite (offered_rest text) by (done || lia).
Qed.

Lemma completions_nodup text chain : wf_tree chain → NoDup (completions text chain).
Proof.
  unfold completions. induction 1 as [|c chain _ Hn _ _ _ IH]; simpl; [constructor|]. destruct (strprefix text (name c)); [|done].
  constructor; [|done]. rewrite list_elem_of_In, filter_In, <- list_elem_of_In. by intros [? _].
Qed.

Lemma wf_node path : ∀ chain c rest, wf_tree chain → node_at path chain = c :: rest → wf_tree (subcmd c).
Proof.
  induction path as [|w path IH]; intros chain c rest Hwf; cbn [node_at]; [done|].
  destruct (find_name w chain) as [|q tl] eqn:Hf; [done|]. pose proof (wf_find _ _ _ _ Hwf Hf).
  destruct path; [by intros [= <- _]|]. by apply IH.
Qed.

Lemma match_command_loop_ok text ws : ∀ n i chain found ptr,
  drop i (path_of text) = ws → (found = false → ptr = []) →
  match_command_loop n (Z.of_nat i + 1) text found ptr chain =
    match take n ws with [] => ptr | t => node_at t chain end.
Proof.
  induction ws as [|w ws IH]; intros n i chain found ptr Hd Hptr; destruct n as [|n]; cbn [match_command_loop take].
  - destruct found; [done|]. by rewrite Hptr.
  - assert (Hl : (length (path_of text) ≤ i)%nat) by (apply (f_equal length) in Hd; rewrite length_drop in Hd; simpl in Hd; lia).
    rewrite nth_word_path, lookup_ge_None_2 by done. destruct found; [done|]. by rewrite Hptr.
  - destruct found; [done|]. by rewrite Hptr.
  - destruct (drop_cons _ _ _ _ Hd) as [Hw Hd']. rewrite nth_word_path, Hw. cbn [node_at].
    destruct (find_name w chain) as [|q rest] eqn:Hf; [by destruct chain|]. destruct chain as [|c chain]; [done|].
    replace (Z.of_nat i + 1 + 1) with (Z.of_nat (S i) + 1) by lia. rewrite IH by done. by destruct (take n ws).
Qed.

Lemma find_match_command_ok text mcnt root : find_match_command text mcnt root = node_at (take (Z.to_nat mcnt) (path_of text)) root.
Proof.
  unfold find_match_command. rewrite (match_command_loop_ok text (path_of text) _ 0) by done. by destruct (take _ _).
Qed.

(** The commands below the words of the line before the text that is completed. *)
Definition candidates (text line : string) (root : list command) : list command :=
  match node_at (take (Z.to_nat (nofwords line - nofwords text)) (path_of line)) root with [] => [] | c :: _ => subcmd c end.

(** C31: completion terminates and offers the right names, whatever the static pointer of the
    generator was left at: for the first word of a line, the names at the top that begin
    with the text; for a later one, the names below the command the words before it lead to
    that begin with the text; each once and in the order of the chain. *)
Theorem completion_offers (calls : list add_call) text line ptr :
  let root := (foldl add_step ([], []) calls).2 in
  offered (S (length root)) (λ st p, command_generator text st root p) 0 ptr = Ok (completions text root) ∧
  offered (S (length (candidates text line root))) (λ st p, entry_completion text st line root p) 0 ptr
    = Ok (completions text (candidates text line root)) ∧
  NoDup (completions text root) ∧ NoDup (completions text (candidates text line root)).
Proof.
  intros root. assert (Hwf : wf_tree root) by apply build_wf. split; [|split; [|split]].
  - apply (offered_first text); [done|]. intros st p Hst. unfold command_generator. by destruct (Z.eqb_spec st 0).
  - destruct (node_at (take (Z.to_nat (nofwords line - nofwords text)) (path_of line)) root) as [|c rest] eqn:Hn.
    { unfold candidates, entry_completion. cbn. by rewrite find_match_command_ok, Hn. }
    unfold candidates. rewrite Hn. destruct (subcmd c) as [|c' s] eqn:Hs.
    { unfold entry_completion. cbn. by rewrite find_match_command_ok, Hn, Hs. }
    rewrite <- Hs. apply (offered_first text).
    + unfold entry_completion. cbn. rewrite find_match_command_ok, Hn. by rewrite Hs.
    + intros st p Hst. unfold entry_completion. by destruct (Z.eqb_spec st 0).
  - by apply completions_nodup.
  - apply completions_nodup. unfold candidates. destruct (node_at _ root) as [|c rest] eqn:Hn; [constructor|]. by eapply wf_node.
Qed.
End tree.
Arguments command : clear implicits.
Arguments reaction : clear implicits.
Arguments cmd_entry : clear implicits.
Arguments cmd_registry : clear implicits.
