(* ===== verification/Cli.v ===== *)
(** * cmdlintf.c: the command server and its client

    The server runs a line and answers with the handler's value, the length of what was
    printed, and the text: four bytes, four bytes, text. Handlers print into a buffer
    ([bprint]); the server sends the buffer after each line. Here are the buffer, the
    server's loop for one client ([accept_client]), the loop over clients and the set-up of
    the socket ([cli_start]), and the client's part of [execute_line]. What the kernel does
    (select, accept, read) is given as a list of events. *)

From S2P Require Import Prelude Words CmdTree.

(** ** The print buffer *)

(** [bp_index] is the length of [bp_text]. *)
Record print_buffer := PrintBuffer { bp_size : Z; bp_text : string }.

Definition bp_index (b : print_buffer) : Z := strlen (bp_text b).

Definition bpinit (b : print_buffer) : print_buffer := PrintBuffer (bp_size b) EmptyString.
Definition bplen (b : print_buffer) : Z := bp_index b.

(** [vsprintf] writes the text and a NUL. *)
Definition bprint (text : string) (b : print_buffer) : outcome (Z * print_buffer) :=
  if bp_size b <? bp_index b + 80 then Ok (0, b)
  else if bp_index b + strlen text + 1 <=? bp_size b
       then Ok (strlen text, PrintBuffer (bp_size b) (bp_text b +:+ text))
       else Undefined OutOfBounds.

(** A handler ignores what [print] answers. *)
Fixpoint bprints (texts : list string) (b : print_buffer) : outcome print_buffer :=
  match texts with
  | [] => Ok b
  | t :: texts' => '(_, b') ← bprint t b; bprints texts' b'
  end.

(** ** Integers on the wire *)

(** The bytes of an [int] in memory. *)
Definition byte_of (z : Z) (i : Z) : ascii := ascii_of_N (Z.to_N (Z.land (Z.shiftr z (8 * i)) 255)).
Definition int_bytes (z : Z) : list ascii := map (byte_of z) [0; 1; 2; 3].

Fixpoint bytes_value (bs : list ascii) : Z :=
  match bs with [] => 0 | b :: bs' => char_code b + 256 * bytes_value bs' end.
Definition bytes_int (bs : list ascii) : Z := int32 (bytes_value bs).

(** What the text in a buffer is as a string: up to the first NUL. *)
Fixpoint cstring (bs : list ascii) : string :=
  match bs with
  | [] => EmptyString
  | b :: bs' => if decide (b = Ascii.zero) then EmptyString else String b (cstring bs')
  end.

(** ** The server *)

Section server.
(** The handlers, the state they change, and [pdptr->terminate] in it. *)
Context {F St : Type} (terminate : St → bool).
Context (handler : F → option string → St → outcome (Z * list string * St)).

Definition new_line : string := String "010"%char EmptyString.

Definition no_such_command (w : option string) : string :=
  "% " +:+ default "(null)"%string w +:+ ": no such command" +:+ new_line.
Definition incomplete_command (cmd : string) : string := "% " +:+ cmd +:+ ": Incomplete command." +:+ new_line.

(** What [execute_line] prints and returns where there is no server to ask ([svc_fd] is -1). *)
Definition execute_here (root : list (command F)) (cmd : string) (st : St) : outcome (Z * list string * St) :=
  r ← execute_line (-1) cmd root;
  match r with
  | Call f args => handler f args st
  | NoSuchCommand w => Ok (1, [no_such_command w], st)
  | IncompleteCommand c => Ok (1, [incomplete_command c], st)
  | AskServer _ | OtherType => Ok (1, [], st)
  end.

(** What the server does to the outside. *)
Inductive act :=
  | Unlink | Bind | OnSuccess | Listen
  | Accept (fd : Z) | Send (fd : Z) (bs : list ascii) | Alarm (pid : Z) | Close (fd : Z).

(** What [select], and then [read], say in a round. [Readable []] is the end of file. *)
Inductive round := SelectFails | SelectTimesOut | Readable (data : list ascii).

Definition text_bytes (s : string) : list ascii := list_ascii_of_string s.

(** The answer to a line: three writes. *)
Definition send_reply (fd retval : Z) (b : print_buffer) : list act :=
  [Send fd (int_bytes retval); Send fd (int_bytes (bplen b))] ++
  (if 0 <? bplen b then [Send fd (text_bytes (bp_text b))] else []).

(** How the loop ended: [Left], or [Waiting] for more than the given rounds. *)
Inductive ending := Left | Waiting.

(** [FD_SET] writes a bit of a set of 1024. *)
Definition FD_SETSIZE : Z := 1024.
Definition fd_set (fd : Z) : outcome () :=
  if (0 <=? fd) && (fd <? FD_SETSIZE) then Ok () else Undefined OutOfBounds.

Fixpoint accept_client (idle_time : Z) (root : list (command F)) (fd : Z) (cli_pid : option Z) (rounds : list round)
    (cnt : Z) (st : St) (b : print_buffer) : outcome (ending * St * print_buffer * list act) :=
  if terminate st then Ok (Left, st, b, [])
  else
  _ ← fd_set fd;
  match rounds with
  | [] => Ok (Waiting, st, b, [])
  | SelectFails :: rounds' => accept_client idle_time root fd cli_pid rounds' cnt st b
  | SelectTimesOut :: rounds' =>
      if 0 <? idle_time then
        if idle_time <? cnt + 1 then
          match cli_pid with
          | Some pid => Ok (Left, st, b, [Alarm pid])
          | None => Undefined Uninitialised
          end
        else accept_client idle_time root fd cli_pid rounds' (cnt + 1) st b
      else accept_client idle_time root fd cli_pid rounds' cnt st b
  | Readable [] :: _ => Ok (Left, st, b, [])
  | Readable data :: rounds' =>
      if 4095 <? Z.of_nat (length data) then Undefined OutOfBounds
      else
        '(retval, texts, st') ← execute_here root (cstring data) st;
        b' ← bprints texts b;
        if retval =? 0 then Ok (Left, st', bpinit b', send_reply fd retval b')
        else '(e, st'', b'', acts) ← accept_client idle_time root fd cli_pid rounds' 0 st' (bpinit b');
             Ok (e, st'', b'', send_reply fd retval b' ++ acts)
  end.

(** A round of the loop over clients; [login] is what the callback prints. *)
Inductive arrival := NoClient | AcceptFails | Client (fd : Z) (cli_pid : option Z) (rounds : list round).

Fixpoint serve (sockfd idle_time : Z) (login : list string) (root : list (command F)) (arrivals : list arrival) (st : St)
    (b : print_buffer) : outcome (ending * St * print_buffer * list act) :=
  if terminate st then Ok (Left, st, b, [])
  else
  _ ← fd_set sockfd;
  match arrivals with
  | [] => Ok (Waiting, st, b, [])
  | NoClient :: arrivals' | AcceptFails :: arrivals' => serve sockfd idle_time login root arrivals' st b
  | Client fd cli_pid rounds :: arrivals' =>
      b' ← bprints login b;
      let hello := Accept fd :: Send fd (int_bytes (bplen b')) ::
                   (if 0 <? bplen b' then [Send fd (text_bytes (bp_text b'))] else []) in
      '(e, st', b'', acts) ← accept_client idle_time root fd cli_pid rounds 0 st (bpinit b');
      match e with
      | Waiting => Ok (Waiting, st', b'', hello ++ acts)
      | Left => '(e', st'', b3, acts') ← serve sockfd idle_time login root arrivals' st' b'';
                Ok (e', st'', b3, hello ++ acts ++ [Close fd] ++ acts')
      end
  end.

(** What the calls that set the socket up say. [stat_sock]: [None] if [stat] fails, else
    whether the file is a socket. *)
Record setup := Setup { stat_sock : option bool; connect_ok : bool; bind_ok : bool }.

(** From [bind] on; [before]: what was done before. *)
Definition bind_and_serve (sockfd : Z) (s : setup) (idle_time : Z) (login : list string) (root : list (command F))
    (arrivals : list arrival) (st : St) (b : print_buffer) (before : list act) : outcome (option Z * St * list act) :=
  if negb (bind_ok s) then Ok (Some 0, st, before ++ [Bind; Close sockfd])
  else
    '(e, st', _, acts) ← serve sockfd idle_time login root arrivals st (bpinit b);
    match e with
    | Waiting => Ok (None, st', before ++ [Bind; OnSuccess; Listen] ++ acts)
    | Left => Ok (Some 1, st', before ++ [Bind; OnSuccess; Listen] ++ acts ++ [Close sockfd; Unlink])
    end.

(** [cli_start (true, on_success)]; the socket is the descriptor [sockfd], negative if
    [socket] failed. [sun_path] has 108 bytes. [None]: still serving. Without a socket name
    readline is set up and nothing else. *)
Definition start_server (sockname : option string) (sockfd : Z) (s : setup) (idle_time : Z) (login : list string)
    (root : list (command F)) (arrivals : list arrival) (st : St) (b : print_buffer)
    : outcome (option Z * St * list act) :=
  match sockname with
  | None => Ok (Some 1, st, [])
  | Some path =>
      if sockfd <? 0 then Ok (Some 0, st, [])
      else if 108 <? strlen path + 1 then Undefined OutOfBounds
      else match stat_sock s with
           | Some true => if connect_ok s then Ok (Some 0, st, [])   (* another server is running *)
                          else bind_and_serve sockfd s idle_time login root arrivals st b [Unlink]
           | Some false => Ok (Some 0, st, [])                       (* the file exists *)
           | None => bind_and_serve sockfd s idle_time login root arrivals st b []
           end
  end.
End server.
Arguments act : clear implicits.

(** ** The client *)

(** What arrives from the server, as the pieces that [read] finds. *)
Definition stream : Type := list (list ascii).

Definition read_bytes (n : nat) (s : stream) : list ascii * stream :=
  match s with
  | [] => ([], [])
  | c :: s' => (take n c, if decide (drop n c = []) then s' else drop n c :: s')
  end.

(** The value of an [int] after [read] into it: bytes that did not arrive stay; [None] is
    an indeterminate value. *)
Definition read_int (old : option Z) (s : stream) : option Z * stream :=
  let '(bs, s') := read_bytes 4 s in
  match bs, old with
  | [], _ => (old, s')
  | _, Some z => (Some (bytes_int (bs ++ drop (length bs) (int_bytes z))), s')
  | _, None => (if decide (length bs = 4%nat) then Some (bytes_int bs) else None, s')
  end.

(** The loop that copies [len] bytes through a buffer of [cap] bytes. *)
Fixpoint copy_loop (fuel : nat) (cap len : Z) (s : stream) : outcome (list ascii * stream) :=
  match fuel with
  | O => Diverges
  | S fuel' =>
      if 0 <? len then
        let xlen := if cap <? len then cap else len in
        let '(bs, s') := read_bytes (Z.to_nat xlen) s in
        match bs with
        | [] => Ok ([], s')
        | _ => '(out, s'') ← copy_loop fuel' cap (len - Z.of_nat (length bs)) s'; Ok (bs ++ out, s'')
        end
      else Ok ([], s)
  end.

(** The answer to a line that was sent: the value and the text on the terminal. *)
Definition receive_reply (s : stream) : outcome (Z * list ascii * stream) :=
  let '(retval, s1) := read_int (Some 1) s in
  let '(len, s2) := read_int None s1 in
  match len with
  | None => Undefined Uninitialised
  | Some n => '(out, s3) ← copy_loop (S (Z.to_nat n)) 1023 n s2; Ok (default 1 retval, out, s3)
  end.

(** [cli_start (false, NULL)] with a socket name: what is returned, what was sent, [svc_fd],
    and the greeting on the terminal; its buffer has the length it is said to have. *)
Definition start_client (sockname : option string) (sockfd : Z) (connect_ok : bool) (pid : Z) (s : stream)
    : outcome (Z * list ascii * Z * list ascii * stream) :=
  match sockname with
  | None => Ok (1, [], -1, [], s)
  | Some path =>
      if sockfd <? 0 then Ok (0, [], -1, [], s)
      else if 108 <? strlen path + 1 then Undefined OutOfBounds
      else if negb connect_ok then Ok (0, [], -1, [], s)
      else
        let '(bs, s1) := read_bytes 4 s in
        if decide (length bs = 4%nat) then
          '(out, s2) ← copy_loop (S (Z.to_nat (bytes_int bs))) (bytes_int bs) (bytes_int bs) s1;
          Ok (1, int_bytes pid, sockfd, out, s2)
        else Ok (1, int_bytes pid, sockfd, [], s1)
  end.

(** ** The settings of the interface *)

(** [struct cmdlintf_pd_t] and [idle_time], as far as the file sets them. *)
Record cli_settings := CliSettings {
  sockname : option string; prompt : option string; idle_seconds : Z; login_callback : bool; print_size : Z
}.

(** An empty name clears it; [NULL] asks for it. *)
Definition cli_socket_name (filename : option string) (s : cli_settings) : option string * cli_settings :=
  let n := match filename with
           | None => sockname s
           | Some EmptyString => None
           | Some f => Some f
           end in
  (n, CliSettings n (prompt s) (idle_seconds s) (login_callback s) (print_size s)).

(** [strdup] follows the pointer. *)
Definition cli_set_prompt (text : option string) (s : cli_settings) : outcome cli_settings :=
  match text with
  | Some t => Ok (CliSettings (sockname s) (Some t) (idle_seconds s) (login_callback s) (print_size s))
  | None => Undefined NullDeref
  end.

Definition cli_set_timeout (sec : Z) (s : cli_settings) : Z * cli_settings :=
  (sec, CliSettings (sockname s) (prompt s) sec (login_callback s) (print_size s)).

Definition cli_set_login_callback (cbk : bool) (s : cli_settings) : cli_settings :=
  CliSettings (sockname s) (prompt s) (idle_seconds s) cbk (print_size s).

(** [None]: [cliptr] is [NULL], nothing was initialised. Later calls change nothing. *)
Definition init_cmdline_interface (bsize : Z) (memory : bool) (s : option cli_settings) : cli_settings :=
  match s with
  | Some s => s
  | None => CliSettings None None 0 false (if memory then bsize else 0)
  end.

(** ** The buffer *)

Lemma strlen_app a b : strlen (a +:+ b) = strlen a + strlen b.
Proof. unfold strlen. induction a as [|c a IH]; [done|]. rewrite string_cons_app. cbn [String.length]. lia. Qed.

Lemma strlen_nonneg a : 0 ≤ strlen a.
Proof. unfold strlen. lia. Qed.

#[export] Hint Rewrite strlen_app : proxy.
#[export] Hint Resolve strlen_nonneg : proxy.

(** All the texts of a list, one after the other. *)
Definition concat_texts (texts : list string) : string := foldr String.append EmptyString texts.

(** Texts that fit with 80 bytes to spare are all printed. *)
Lemma bprints_room texts : ∀ b, bp_index b + strlen (concat_texts texts) + 80 ≤ bp_size b →
  bprints texts b = Ok (PrintBuffer (bp_size b) (bp_text b +:+ concat_texts texts)).
Proof.
  induction texts as [|t texts IH]; intros [size text] Hroom; unfold bp_index in *; cbn [bp_size bp_text] in *.
  { simpl. by rewrite string_app_nil. }
  cbn [concat_texts foldr] in Hroom. fold (concat_texts texts) in Hroom. rewrite strlen_app in Hroom.
  pose proof (strlen_nonneg text). pose proof (strlen_nonneg t). pose proof (strlen_nonneg (concat_texts texts)).
  cbn [bprints]. unfold bprint, bp_index. cbn [bp_size bp_text].
  rewrite (proj2 (Z.ltb_ge _ _)) by lia. rewrite (proj2 (Z.leb_le _ _)) by lia. cbn.
  rewrite IH by (unfold bp_index; cbn; rewrite strlen_app; lia). cbn. by rewrite string_app_assoc.
Qed.

Lemma bprints_size texts : ∀ b b', bprints texts b = Ok b' → bp_size b' = bp_size b.
Proof.
  induction texts as [|t texts IH]; intros b b'; cbn [bprints]; [by intros [= <-]|]. intros H. inv_ok. rewrite (IH _ _ H).
  unfold bprint in E. destruct (bp_size b <? _); [by simplify_eq|]. destruct (_ <=? bp_size b); by simplify_eq.
Qed.

(** A sublist of the texts, in order, one after the other. *)
Definition some_printed (texts : list string) (out : string) : Prop :=
  ∃ kept, kept `sublist_of` texts ∧ out = concat_texts kept.

(** Texts of less than 80 characters never overrun the print buffer, however many there
    are: what is in the buffer afterwards is what was in it, followed by some of the texts
    in order, each whole, and it is still within the buffer. A text is left out only when
    the buffer has less than 80 bytes left. *)
Theorem bprints_safe texts b :
  Forall (λ t, strlen t < 80) texts → bp_index b ≤ bp_size b →
  ∃ b' out, bprints texts b = Ok b' ∧ bp_size b' = bp_size b ∧ bp_index b' ≤ bp_size b ∧
    bp_text b' = bp_text b +:+ out ∧ some_printed texts out ∧
    (bp_size b < bp_index b' + 80 ∨ out = concat_texts texts).
Proof.
  revert b. induction texts as [|t texts IH]; intros b Ht Hb.
  { exists b, EmptyString. rewrite string_app_nil. repeat split; try done; [|by right]. by exists []. }
  apply list.Forall_cons in Ht as [Ht Hts]. pose proof (strlen_nonneg t). cbn [bprints]. unfold bprint.
  destruct (Z.ltb_spec (bp_size b) (bp_index b + 80)) as [Hfull|Hroom]; cbn.
  - destruct (IH b Hts Hb) as (b' & out & -> & Hs & Hi & Htx & (kept & Hk & ->) & Hall).
    exists b', (concat_texts kept). repeat split; try done; [exists kept; split; [by constructor|done]|].
    left. unfold bp_index in *. rewrite Htx, strlen_app. pose proof (strlen_nonneg (concat_texts kept)). lia.
  - rewrite (proj2 (Z.leb_le _ _)) by lia. cbn. set (b1 := PrintBuffer _ _).
    destruct (IH b1 Hts) as (b' & out & -> & Hs & Hi & Htx & (kept & Hk & ->) & Hall).
    { unfold b1, bp_index in *. cbn. rewrite strlen_app. lia. }
    exists b', (t +:+ concat_texts kept). unfold b1 in *. cbn in *.
    repeat split; try done; [by rewrite Htx, string_app_assoc|exists (t :: kept); split; [by constructor|done]|].
    destruct Hall as [Hall|Hall]; [by left|]. right. cbn. by rewrite Hall.
Qed.

Lemma bprints_safe_witness :
  ∃ b' out, bprints ["ab"; "cd"]%string (PrintBuffer 81 EmptyString) = Ok b' ∧ bp_size b' = 81 ∧ bp_index b' ≤ 81 ∧
    bp_text b' = EmptyString +:+ out ∧ some_printed ["ab"; "cd"]%string out ∧
    (81 < bp_index b' + 80 ∨ out = concat_texts ["ab"; "cd"]%string).
Proof.
  apply (bprints_safe ["ab"; "cd"]%string (PrintBuffer 81 EmptyString)); [|by vm_compute].
  repeat constructor; by vm_compute.
Defined.

(** A longer text can overrun it. *)
Example bprint_overrun : bprint (String.concat "" (replicate 9 "0123456789"%string)) (PrintBuffer 80 EmptyString) = Undefined OutOfBounds.
Proof. reflexivity. Qed.

(** ** Integers and pieces *)

Lemma byte_of_code z i : 0 ≤ i → char_code (byte_of z i) = (z / 2 ^ (8 * i)) mod 256.
Proof.
  intros Hi. unfold char_code, byte_of. rewrite Z.shiftr_div_pow2 by lia. change 255 with (Z.ones 8). rewrite Z.land_ones by lia.
  change (2 ^ 8) with 256. pose proof (Z.mod_pos_bound (z / 2 ^ (8 * i)) 256). rewrite N_ascii_embedding; lia.
Qed.

Lemma int_bytes_round z : is_int z → bytes_int (int_bytes z) = z.
Proof.
  intros Hz. rewrite <- (int32_id z) at 2 by done. unfold bytes_int, int_bytes. cbn [map bytes_value].
  rewrite !byte_of_code by lia. change (2 ^ (8 * 0)) with 1. change (2 ^ (8 * 1)) with 256. change (2 ^ (8 * 2)) with 65536.
  change (2 ^ (8 * 3)) with 16777216. unfold int32. f_equal. Z.to_euclidean_division_equations. lia.
Qed.

Lemma length_int_bytes z : length (int_bytes z) = 4%nat.
Proof. done. Qed.

Lemma length_text_bytes t : Z.of_nat (length (text_bytes t)) = strlen t.
Proof. unfold strlen, text_bytes. induction t as [|c t IH]; [done|]. cbn [list_ascii_of_string length String.length]. lia. Qed.

(** No piece is empty: [read] answers 0 only at the end. *)
Definition pieces (s : stream) : Prop := Forall (λ c, c ≠ []) s.

Lemma read_ok n s : (0 < n)%nat → pieces s →
  let '(bs, s') := read_bytes n s in
  bs ++ concat s' = concat s ∧ (length bs ≤ n)%nat ∧ pieces s' ∧ (bs = [] → concat s = []).
Proof.
  intros Hn Hs. unfold read_bytes. destruct s as [|c s]; [by repeat split; simpl; try lia|].
  apply list.Forall_cons in Hs as [Hc Hs]. split; [|split; [|split]].
  - case_decide as Hd; simpl; [|by rewrite app_assoc, take_drop].
    rewrite <- (take_drop n c) at 2. by rewrite Hd, app_nil_r.
  - rewrite length_take. lia.
  - case_decide; [done|]. by constructor.
  - destruct c, n; try done. lia.
Qed.

Lemma app_inj_length {A} (a b c d : list A) : a ++ b = c ++ d → (length a ≤ length c)%nat → ∃ e, c = a ++ e ∧ b = e ++ d.
Proof.
  revert c. induction a as [|x a IH]; intros c H Hl; [by exists c|]. destruct c as [|y c]; simpl in *; [lia|].
  injection H as -> H. destruct (IH c H) as (e & -> & ->); [lia|]. by exists e.
Qed.

(** However the text is cut into pieces, the loop copies it whole and nothing after it. *)
Lemma copy_loop_ok fuel : ∀ cap text rest s, 0 < cap → pieces s → concat s = text ++ rest → (length text < fuel)%nat →
  ∃ s', copy_loop fuel cap (Z.of_nat (length text)) s = Ok (text, s') ∧ concat s' = rest ∧ pieces s'.
Proof.
  induction fuel as [|fuel IH]; intros cap text rest s Hcap Hs Hc Hf; [lia|]. cbn [copy_loop].
  destruct (Z.ltb_spec 0 (Z.of_nat (length text))) as [Hlen|Hlen].
  2:{ destruct text; [|simpl in Hlen; lia]. by exists s. }
  set (xlen := if cap <? _ then cap else _). assert (Hx : 0 < xlen ≤ Z.of_nat (length text)).
  { unfold xlen. destruct (Z.ltb_spec cap (Z.of_nat (length text))); lia. }
  pose proof (read_ok (Z.to_nat xlen) s) as Hr. destruct (read_bytes (Z.to_nat xlen) s) as [bs s'].
  destruct Hr as (Happ & Hle & Hs' & Hnil); [lia|done|]. rewrite Hc in Happ.
  destruct (app_inj_length _ _ _ _ Happ) as (t' & -> & Hrest); [lia|].
  destruct bs as [|x bs].
  { rewrite Hnil in Hc by done. simpl in *. destruct t'; [simpl in Hlen; lia|done]. }
  rewrite length_app in *. destruct (IH cap t' rest s') as (s'' & Heq & ? & ?); [done|done|done|simpl in Hf; lia|].
  replace (Z.of_nat (length (x :: bs) + length t') - Z.of_nat (length (x :: bs))) with (Z.of_nat (length t')) by lia.
  rewrite Heq. by exists s''.
Qed.

(** The four bytes of the next integer arrive in one piece. *)
Definition whole_int (s : stream) : Prop := length (read_bytes 4 s).1 = 4%nat.

Lemma read_int_ok old z rest s : is_int z → pieces s → whole_int s → concat s = int_bytes z ++ rest →
  ∃ s', read_int old s = (Some z, s') ∧ read_bytes 4 s = (int_bytes z, s') ∧ concat s' = rest ∧ pieces s'.
Proof.
  intros Hz Hs Hw Hc. unfold whole_int in Hw. pose proof (read_ok 4 s) as Hr. unfold read_int. destruct (read_bytes 4 s) as [bs s'].
  destruct Hr as (Happ & _ & Hs' & _); [lia|done|]. cbn [fst] in Hw. rewrite Hc in Happ. apply app_inj_1 in Happ as [-> Hrest]; [|done].
  exists s'. split; [|done]. rewrite length_int_bytes, decide_True by done. cbn [int_bytes map]. destruct old; do 2 f_equal.
  - change (drop 4 (int_bytes z0)) with (@nil ascii). rewrite app_nil_r. by apply int_bytes_round.
  - by apply int_bytes_round.
Qed.

Lemma reply_stream retval text rest s :
  is_int retval → is_int (strlen text) → pieces s → whole_int s → whole_int (read_bytes 4 s).2 →
  concat s = int_bytes retval ++ int_bytes (strlen text) ++ text_bytes text ++ rest →
  ∃ s', receive_reply s = Ok (retval, text_bytes text, s') ∧ concat s' = rest ∧ pieces s'.
Proof.
  intros Hr Ht Hs Hw1 Hw2 Hc. unfold receive_reply.
  destruct (read_int_ok (Some 1) retval _ s Hr Hs Hw1 Hc) as (s1 & -> & Hrd & Hc1 & Hs1).
  rewrite Hrd in Hw2. destruct (read_int_ok None (strlen text) _ s1 Ht Hs1 Hw2 Hc1) as (s2 & -> & _ & Hc2 & Hs2).
  rewrite <- length_text_bytes.
  destruct (copy_loop_ok (S (Z.to_nat (Z.of_nat (length (text_bytes text))))) 1023 (text_bytes text) rest s2)
    as (s3 & -> & ? & ?); [lia|done|done|lia|]. by exists s3.
Qed.

(** The client understands the server: whatever value and text the server answered,
    and however the bytes of the text are cut into pieces on the way, the client's loop
    terminates with that value and exactly that text, and what follows in the stream is
    left for the next reads. The two integers must each arrive in one piece. *)
Theorem reply_round_trip retval text rest s :
  is_int retval → is_int (strlen text) → pieces s → whole_int s → whole_int (read_bytes 4 s).2 →
  concat s = int_bytes retval ++ int_bytes (strlen text) ++ text_bytes text ++ rest →
  ∃ s', receive_reply s = Ok (retval, text_bytes text, s') ∧ concat s' = rest ∧ pieces s'.
Proof. apply reply_stream. Qed.

Lemma reply_round_trip_witness :
  ∃ s', receive_reply [int_bytes (-7); int_bytes 5; text_bytes "he"; text_bytes "llo+"] = Ok (-7, text_bytes "hello", s') ∧
    concat s' = text_bytes "+" ∧ pieces s'.
Proof.
  apply (reply_round_trip (-7) "hello" (text_bytes "+")); try by vm_compute. by repeat constructor.
Defined.

(** A server that goes away before it answers leaves [len] as it was: indeterminate. *)
Example no_reply : receive_reply [] = Undefined Uninitialised.
Proof. reflexivity. Qed.

(** ** Running a line on the server is running it here *)

Lemma cstring_text line : str_forall (λ c, bool_decide (c ≠ Ascii.zero)) line = true → cstring (text_bytes line) = line.
Proof.
  induction line as [|c line IH]; [done|]. cbn [str_forall]. intros [Hc H]%andb_true_iff. apply bool_decide_eq_true in Hc.
  unfold text_bytes. cbn [list_ascii_of_string cstring]. rewrite decide_False by done. f_equal. by apply IH.
Qed.

(** What a list of acts sends. *)
Definition sent (acts : list act) : list ascii := acts ≫= λ a, match a with Send _ bs => bs | _ => [] end.

Lemma sent_reply fd retval b : sent (send_reply fd retval b) = int_bytes retval ++ int_bytes (bplen b) ++ text_bytes (bp_text b).
Proof.
  unfold send_reply, sent. destruct (Z.ltb_spec 0 (bplen b)) as [H|H]; [simpl; by rewrite app_nil_r|].
  unfold bplen, bp_index in H. destruct b as [size [|c t]]; [done|]. unfold strlen in H. simpl in H. lia.
Qed.

Section transparency.
Context {F St : Type} (terminate : St → bool).
Context (handler : F → option string → St → outcome (Z * list string * St)).
Abbreviation run_here := (execute_here handler).
Abbreviation session := (accept_client terminate handler).

Definition not_blank (line : string) : Prop := line ≠ EmptyString ∧ strlen line ≤ 4095.

Lemma fd_set_ok fd : 0 ≤ fd < FD_SETSIZE → fd_set fd = Ok ().
Proof. unfold fd_set. intros [H1%Z.leb_le H2%Z.ltb_lt]. by rewrite H1, H2. Qed.

(** One round of the server with a line that runs. *)
Lemma accept_client_line idle_time root fd pid rounds cnt st b line retval texts st' :
  0 ≤ fd < FD_SETSIZE → terminate st = false → not_blank line → str_forall (λ c, bool_decide (c ≠ Ascii.zero)) line = true →
  run_here root line st = Ok (retval, texts, st') →
  bp_text b = EmptyString → strlen (concat_texts texts) + 80 ≤ bp_size b →
  let b' := PrintBuffer (bp_size b) (concat_texts texts) in
  session idle_time root fd pid (Readable (text_bytes line) :: rounds) cnt st b =
    if retval =? 0 then Ok (Left, st', b, send_reply fd retval b')
    else '(e, st'', b'', acts) ← session idle_time root fd pid rounds 0 st' b; Ok (e, st'', b'', send_reply fd retval b' ++ acts).
Proof.
  intros Hfd Ht [Hne Hlen] Hnul He Hb Hroom b'. cbn [accept_client]. rewrite Ht, (fd_set_ok fd Hfd). cbn [mbind outcome_bind]. rewrite <- (cstring_text line Hnul) in He.
  rewrite <- length_text_bytes in Hlen. destruct (text_bytes line) as [|c bs] eqn:Hl; [by destruct line|].
  rewrite (proj2 (Z.ltb_ge _ _)) by lia. rewrite He. cbn [mbind outcome_bind].
  rewrite bprints_room by (unfold bp_index; rewrite Hb; done). cbn. rewrite Hb, string_nil_app.
  unfold bpinit. cbn. by destruct b as [size text]; cbn in *; subst.
Qed.

(** C23: asking the server is running the line on the server's state: if executing the line
    there gives a value and texts, then the server sends back an answer from which the
    client gets that value and the texts, one after the other, however the text is cut on
    its way, provided that each of the two integers before it is read in one piece
    ([cut_integer_garbles]: the length is indeterminate when it is not);
    the server then goes on with the state the handler left and an empty buffer, or ends the
    session if the value is 0. *)
Theorem remote_is_local idle_time root fd pid rounds cnt st b line retval texts st' :
  0 ≤ fd < FD_SETSIZE → terminate st = false → not_blank line →
  str_forall (λ c, bool_decide (c ≠ Ascii.zero)) line = true →
  run_here root line st = Ok (retval, texts, st') → is_int retval →
  bp_text b = EmptyString → strlen (concat_texts texts) + 80 ≤ bp_size b → is_int (bp_size b) →
  ∃ answer,
    session idle_time root fd pid (Readable (text_bytes line) :: rounds) cnt st b =
      (if retval =? 0 then Ok (Left, st', b, answer)
       else '(e, st'', b'', acts) ← session idle_time root fd pid rounds 0 st' b; Ok (e, st'', b'', answer ++ acts)) ∧
    ∀ s, pieces s → whole_int s → whole_int (read_bytes 4 s).2 → concat s = sent answer →
      ∃ s', receive_reply s = Ok (retval, text_bytes (concat_texts texts), s') ∧ concat s' = [].
Proof.
  intros Hfd Ht Hl Hn He Hr Hb Hroom Hsize. eexists. split; [by eapply accept_client_line|].
  intros s Hs Hw1 Hw2 Hc. rewrite sent_reply in Hc. unfold bplen, bp_index in Hc. cbn [bp_text] in Hc.
  assert (Hint : is_int (strlen (concat_texts texts))).
  { pose proof (strlen_nonneg (concat_texts texts)). unfold is_int, INT_MIN, INT_MAX in *. lia. }
  pose proof (reply_stream retval (concat_texts texts) [] s Hr Hint Hs Hw1 Hw2) as H. rewrite app_nil_r in H.
  destruct (H Hc) as (s' & ? & ? & _). by exists s'.
Qed.
End transparency.

(** An answer whose second integer is cut after its first byte: the length that is read is
    indeterminate, and the client's loop tests it. *)
Theorem cut_integer_garbles :
  ∃ s, pieces s ∧ concat s = int_bytes 1 ++ int_bytes 2 ++ text_bytes "hi" ∧ receive_reply s = Undefined Uninitialised.
Proof.
  exists [int_bytes 1; take 1 (int_bytes 2); drop 1 (int_bytes 2) ++ text_bytes "hi"].
  split; [by repeat constructor|]. by split.
Qed.

Definition sample_root : list (command bool) := [Command "date" true (Some true) 1 (Some "Date"%string) 0 []].
Definition sample_handler (f : bool) (args : option string) (st : nat) : outcome (Z * list string * nat) :=
  Ok (1, ["Mon"; "day"]%string, S st).

Lemma remote_is_local_witness :
  ∃ answer,
    accept_client (λ _, false) sample_handler 0 sample_root 5 None [Readable (text_bytes "date now"); Readable []] 0 0%nat
        (PrintBuffer 100 EmptyString) =
      ('(e, st'', b'', acts) ← accept_client (λ _, false) sample_handler 0 sample_root 5 None [Readable []] 0 1%nat (PrintBuffer 100 EmptyString);
       Ok (e, st'', b'', answer ++ acts)) ∧
    ∀ s, pieces s → whole_int s → whole_int (read_bytes 4 s).2 → concat s = sent answer →
      ∃ s', receive_reply s = Ok (1, text_bytes "Monday", s') ∧ concat s' = [].
Proof.
  apply (remote_is_local (λ _, false) sample_handler 0 sample_root 5 None [Readable []] 0 0%nat (PrintBuffer 100 EmptyString)
    "date now" 1 ["Mon"; "day"]%string 1%nat); by vm_compute.
Defined.

(** ** The order of what the server does *)

(** Where the server is: nothing bound, bound, announced, listening, with a client, bind
    failed, the socket closed, and its file removed. *)
Inductive phase := Fresh | Bound | Announced | Listening | Busy (fd : Z) | Failed | ClosedDown | Gone.

Definition advance (sockfd : Z) (p : phase) (a : act) : option phase :=
  match p, a with
  | Fresh, Unlink => Some Fresh
  | Fresh, Bind => Some Bound
  | Bound, Close fd => if fd =? sockfd then Some Failed else None
  | Bound, OnSuccess => Some Announced
  | Announced, Listen => Some Listening
  | Listening, Accept fd => Some (Busy fd)
  | Busy fd, Send fd' _ => if fd' =? fd then Some p else None
  | Busy _, Alarm _ => Some p
  | Busy fd, Close fd' => if fd' =? fd then Some Listening else None
  | Listening, Close fd => if fd =? sockfd then Some ClosedDown else None
  | ClosedDown, Unlink => Some Gone
  | _, _ => None
  end.

Fixpoint advances (sockfd : Z) (p : phase) (acts : list act) : option phase :=
  match acts with
  | [] => Some p
  | a :: acts' => p' ← advance sockfd p a; advances sockfd p' acts'
  end.

Lemma advances_app sockfd p acts acts' : advances sockfd p (acts ++ acts') = advances sockfd p acts ≫= λ q, advances sockfd q acts'.
Proof.
  revert p. induction acts as [|a acts IH]; intros p; [done|]. simpl. destruct (advance sockfd p a); [apply IH|done].
Qed.

Section order.
Context {F St : Type} (terminate : St → bool).
Context (handler : F → option string → St → outcome (Z * list string * St)).

Lemma advances_reply sockfd fd retval b : advances sockfd (Busy fd) (send_reply fd retval b) = Some (Busy fd).
Proof. unfold send_reply. destruct (0 <? bplen b); repeat (cbn; rewrite Z.eqb_refl); done. Qed.

Lemma advances_reply_app sockfd fd retval b more :
  advances sockfd (Busy fd) (send_reply fd retval b ++ more) = advances sockfd (Busy fd) more.
Proof. by rewrite advances_app, advances_reply. Qed.

Lemma accept_client_order sockfd idle_time root fd pid rounds : ∀ cnt st b e st' b' acts,
  accept_client terminate handler idle_time root fd pid rounds cnt st b = Ok (e, st', b', acts) →
  advances sockfd (Busy fd) acts = Some (Busy fd) ∧ (bp_text b = EmptyString → bp_text b' = EmptyString) ∧ bp_size b' = bp_size b.
Proof.
  induction rounds as [|r rounds IH]; intros cnt st b e st' b' acts; cbn [accept_client].
  { destruct (terminate st); [by intros [= <- <- <- <-]|]. by intros ([] & _ & [= <- <- <- <-])%bind_ok_inv. }
  destruct (terminate st); [by intros [= <- <- <- <-]|]. intros (u & _ & H)%bind_ok_inv. revert H. clear u. destruct r as [| |data]; [apply IH| |].
  { destruct (0 <? idle_time); [|apply IH]. destruct (idle_time <? cnt + 1); [|apply IH]. destruct pid; by intros [= <- <- <- <-]. }
  destruct data as [|c data]; [by intros [= <- <- <- <-]|]. destruct (4095 <? _); [done|].
  intros ([[retval texts] st1] & _ & (b1 & Hb1 & H)%bind_ok_inv)%bind_ok_inv. apply bprints_size in Hb1.
  destruct (retval =? 0); [injection H as <- <- <- <-; by split; [apply advances_reply|]|].
  apply bind_ok_inv in H as ([[[e1 st2] b2] acts1] & Hrest & H). injection H as <- <- <- <-.
  destruct (IH _ _ _ _ _ _ _ Hrest) as (Hadv & Htext & Hs).
  split; [exact (eq_trans (advances_reply_app sockfd fd retval b1 acts1) Hadv)|split; [|by rewrite Hs]]. intros _. by apply Htext.
Qed.

Lemma serve_order sockfd idle_time login root arrivals : ∀ st b e st' b' acts,
  serve terminate handler sockfd idle_time login root arrivals st b = Ok (e, st', b', acts) →
  ∃ p, advances sockfd Listening acts = Some p ∧ match e with Left => p = Listening | Waiting => p = Listening ∨ ∃ fd, p = Busy fd end.
Proof.
  induction arrivals as [|a arrivals IH]; intros st b e st' b' acts; cbn [serve].
  { destruct (terminate st); [intros [= <- <- <- <-]; by eexists|]. intros ([] & _ & [= <- <- <- <-])%bind_ok_inv.
    eexists. split; [done|by left]. }
  destruct (terminate st); [intros [= <- <- <- <-]; by eexists|]. intros (u & _ & H)%bind_ok_inv. revert H. clear u. destruct a as [| |fd pid rounds]; [apply IH|apply IH|].
  intros (b1 & Hb1 & ([[[e1 st1] b2] acts1] & Hses & H)%bind_ok_inv)%bind_ok_inv.
  apply (accept_client_order sockfd) in Hses as (Hadv & _).
  assert (Hhello : ∀ more, advances sockfd Listening ((Accept fd :: Send fd (int_bytes (bplen b1)) ::
      (if 0 <? bplen b1 then [Send fd (text_bytes (bp_text b1))] else [])) ++ acts1 ++ more) = advances sockfd (Busy fd) more).
  { intros more. destruct (0 <? bplen b1); repeat (cbn; rewrite ?Z.eqb_refl); by rewrite advances_app, Hadv. }
  destruct e1.
  - apply bind_ok_inv in H as ([[[e2 st2] b3] acts2] & Hrest & H). injection H as <- <- <- <-. destruct (IH _ _ _ _ _ _ Hrest) as (p & Hp & He).
    exists p. split; [|done]. etransitivity; [exact (Hhello ([Close fd] ++ acts2))|]. cbn. by rewrite Z.eqb_refl.
  - injection H as <- <- <- <-. exists (Busy fd). split; [|by eauto]. specialize (Hhello []). rewrite app_nil_r in Hhello. exact Hhello.
Qed.

(** How a run of the server may end. *)
Definition run_ends (sockfd : Z) (ret : option Z) (acts : list act) : Prop :=
  ∃ p, advances sockfd Fresh acts = Some p ∧
    match ret with
    | Some 1 => p = Gone
    | Some _ => ret = Some 0 ∧ (p = Failed ∨ p = Fresh ∧ acts = []) ∧ OnSuccess ∉ acts
    | None => p = Listening ∨ ∃ fd, p = Busy fd
    end.

Lemma run_ends_early sockfd : run_ends sockfd (Some 0) [].
Proof. exists Fresh. repeat split; [by right|set_solver]. Qed.
#[local] Hint Resolve run_ends_early : proxy.

Lemma bind_and_serve_order sockfd s idle_time login root arrivals st b before ret st' acts :
  before = [] ∨ before = [Unlink] →
  bind_and_serve terminate handler sockfd s idle_time login root arrivals st b before = Ok (ret, st', acts) →
  run_ends sockfd ret acts.
Proof.
  intros Hb. assert (Hfresh : ∀ more, advances sockfd Fresh (before ++ more) = advances sockfd Fresh more) by (by destruct Hb as [->| ->]).
  unfold bind_and_serve, run_ends. destruct (negb (bind_ok s)).
  - intros [= <- <- <-]. exists Failed. rewrite Hfresh. cbn. rewrite Z.eqb_refl. repeat split; [by left|]. destruct Hb as [->| ->]; set_solver.
  - intros ([[[e st1] b1] acts1] & Hserve & H)%bind_ok_inv. apply serve_order in Hserve as (p & Hp & He).
    destruct e; injection H as <- <- <-.
    + exists Gone. rewrite Hfresh. cbn. rewrite advances_app, Hp. subst p. cbn. by rewrite Z.eqb_refl.
    + exists p. rewrite Hfresh. cbn. by rewrite Hp.
Qed.

(** C30: what the command server does to the outside is in order, whatever its clients send:
    success is announced only after [bind] and before [listen]; every accepted connection is
    served alone and closed before the next [accept], and only it is written to; a server
    that returns 1 has closed its socket and then removed the file, one that returns 0 has
    announced nothing. *)
Theorem server_order sockname sockfd s idle_time login root arrivals st b ret st' acts :
  start_server terminate handler (Some sockname) sockfd s idle_time login root arrivals st b = Ok (ret, st', acts) →
  run_ends sockfd ret acts.
Proof.
  unfold start_server. destruct (sockfd <? 0); [intros [= <- <- <-]; auto with proxy|]. destruct (108 <? _); [done|].
  destruct (stat_sock s) as [[|]|]; [destruct (connect_ok s)| |]; try (intros [= <- <- <-]; by auto with proxy).
  - apply bind_and_serve_order. by right.
  - apply bind_and_serve_order. by left.
Qed.
End order.

Lemma server_order_witness :
  run_ends 3 None [Bind; OnSuccess; Listen; Accept 7; Send 7 (int_bytes 2); Send 7 (text_bytes "hi"); Send 7 (int_bytes 1);
    Send 7 (int_bytes 6); Send 7 (text_bytes "Monday"); Close 7].
Proof.
  apply (server_order (λ _, false) sample_handler "/run/x.sock" 3 (Setup None false true) 0 ["hi"]%string sample_root
    [Client 7 (Some 99) [Readable (text_bytes "date"); Readable []]] 0%nat (PrintBuffer 100 EmptyString) None 1%nat).
  by vm_compute.
Defined.

(** If another server answers, or the file is not a socket, the new socket stays open. *)
Example socket_left_open :
  start_server (λ _ : nat, false) sample_handler (Some "/run/x.sock"%string) 3 (Setup (Some false) false true) 0 [] sample_root [] 0%nat
    (PrintBuffer 100 EmptyString) = Ok (Some 0, 0%nat, []).
Proof. reflexivity. Qed.
