(* ===== verification/Handshake.v ===== *)
(** * cmdlintf.c: starting the command server in its own thread

    The main thread creates the thread and waits, with a mutex and a condition variable,
    until [command_thread_success] is not -1 any more; the thread sets it to 1 once the
    socket is bound, and to 0 when the server has returned. The two threads are interleaved
    one access at a time; a waiting thread may wake up without a signal. *)

From stdpp Require Import relations.
From S2P Require Import Prelude.

(** Where the command thread is. [change_state_and_wakeup] has four accesses. *)
Inductive server_at :=
  | Starting                      (* in [start_server], before [on_success] or a failure *)
  | Storing (v : Z)               (* about to store *)
  | Locking (v : Z)
  | Signalling (v : Z)            (* holds the mutex *)
  | Unlocking (v : Z)             (* holds the mutex *)
  | Serving
  | Ended.

(** Where the main thread is, after [pthread_create]. *)
Inductive main_at :=
  | MLock | MTest | MSleep | MWake | MUnlock | MRead | MDone (answer : bool).

Inductive holder := Nobody | TheServer | TheMain.

Record threads := Threads { success : Z; mutex : holder; server : server_at; main : main_at }.

Definition created : threads := Threads (-1) Nobody Starting MLock.

(** After the calls of [change_state_and_wakeup (v)]. *)
Definition server_next (v : Z) : server_at := if v =? 1 then Serving else Ended.

(** One access of the command thread. *)
Inductive server_step : threads → threads → Prop :=
  | sv_bound m x n : server_step (Threads m x Starting n) (Threads m x (Storing 1) n)
  | sv_fails m x n : server_step (Threads m x Starting n) (Threads m x (Storing 0) n)
  | sv_returns m x n : server_step (Threads m x Serving n) (Threads m x (Storing 0) n)
  | sv_store m x v n : server_step (Threads m x (Storing v) n) (Threads v x (Locking v) n)
  | sv_lock m v n : server_step (Threads m Nobody (Locking v) n) (Threads m TheServer (Signalling v) n)
  | sv_signal m x v : server_step (Threads m x (Signalling v) MSleep) (Threads m x (Unlocking v) MWake)
  | sv_signal_none m x v n : n ≠ MSleep → server_step (Threads m x (Signalling v) n) (Threads m x (Unlocking v) n)
  | sv_unlock m x v n : server_step (Threads m x (Unlocking v) n) (Threads m Nobody (server_next v) n).

(** One access of the main thread; [pthread_cond_wait] unlocks and sleeps in one. *)
Inductive main_step : threads → threads → Prop :=
  | mn_lock m p : main_step (Threads m Nobody p MLock) (Threads m TheMain p MTest)
  | mn_wait x p : main_step (Threads (-1) x p MTest) (Threads (-1) Nobody p MSleep)
  | mn_leave m x p : m ≠ -1 → main_step (Threads m x p MTest) (Threads m x p MUnlock)
  | mn_relock m p : main_step (Threads m Nobody p MWake) (Threads m TheMain p MTest)
  | mn_unlock m x p : main_step (Threads m x p MUnlock) (Threads m Nobody p MRead)
  | mn_read m x p : main_step (Threads m x p MRead) (Threads m x p (MDone (0 <? m))).

(** A wake-up without a signal. *)
Inductive spurious : threads → threads → Prop :=
  | wake m x p : spurious (Threads m x p MSleep) (Threads m x p MWake).

Definition hand_step (a b : threads) : Prop := server_step a b ∨ main_step a b ∨ spurious a b.

Definition reachable : threads → Prop := rtc hand_step created.

(** ** The invariant *)

Definition server_holds (p : server_at) : bool := match p with Signalling _ | Unlocking _ => true | _ => false end.
Definition main_holds (n : main_at) : bool := match n with MTest | MUnlock => true | _ => false end.

(** What [command_thread_success] is, given where the command thread is. *)
Definition stored (p : server_at) (m : Z) : Prop :=
  match p with
  | Starting => m = -1
  | Storing v => v = 1 ∧ m = -1 ∨ v = 0 ∧ (m = -1 ∨ m = 1)
  | Locking v | Signalling v | Unlocking v => m = v ∧ (v = 0 ∨ v = 1)
  | Serving => m = 1
  | Ended => m = 0
  end.

(** The command thread is past its store and has not signalled yet. *)
Definition will_signal (p : server_at) : Prop := match p with Locking _ | Signalling _ => True | _ => False end.

Record handshake (s : threads) : Prop := Handshake {
  hs_mutex : mutex s = (if server_holds (server s) then TheServer else if main_holds (main s) then TheMain else Nobody);
  hs_excl : server_holds (server s) = true → main_holds (main s) = false;
  hs_stored : stored (server s) (success s);
  hs_awake : main s = MSleep → success s ≠ -1 → will_signal (server s);
  hs_left : main s = MUnlock ∨ main s = MRead ∨ (∃ a, main s = MDone a) → success s ≠ -1;
}.

Lemma handshake_created : handshake created.
Proof. split; cbn; try done. intros [?|[?|[? ?]]]; done. Qed.

Ltac handshake_case :=
  match goal with
  | |- handshake _ => split; cbn in *
  end; try (intuition (subst; try congruence; try lia; eauto); fail).

Lemma server_step_handshake s s' : server_step s s' → handshake s → handshake s'.
Proof.
  destruct 1; intros [H1 H2 H3 H4 H5]; handshake_case.
  all: try (unfold server_next in *; destruct (Z.eqb_spec v 1)); try (destruct n; cbn in *; naive_solver).
Qed.

Lemma main_step_handshake s s' : main_step s s' → handshake s → handshake s'.
Proof.
  destruct 1; intros [H1 H2 H3 H4 H5]; handshake_case.
  all: destruct p; cbn in *; naive_solver.
Qed.

Lemma spurious_handshake s s' : spurious s s' → handshake s → handshake s'.
Proof. destruct 1; intros [H1 H2 H3 H4 H5]; handshake_case. all: destruct p; cbn in *; naive_solver. Qed.

Lemma reachable_handshake s : reachable s → handshake s.
Proof.
  intros H. assert (Hgo : ∀ a b, rtc hand_step a b → handshake a → handshake b).
  { induction 1 as [|a b c Hstep _ IH]; [done|]. intros Ha. apply IH.
    destruct Hstep as [Hs|[Hs|Hs]]; eauto using server_step_handshake, main_step_handshake, spurious_handshake. }
  eapply Hgo; [done|apply handshake_created].
Qed.

(** ** The main thread is not left waiting *)

(** Accesses the main thread still makes once the value is stored and it is awake. *)
Definition distance (n : main_at) : nat :=
  match n with MLock | MWake => 4 | MTest => 3 | MUnlock => 2 | MRead => 1 | _ => 0 end.

(** C28: no wake-up is lost. In every state the threads can reach, if the command thread is
    not about to store or to signal (it is serving, or it has ended), the main thread does
    not sleep: it has finished, or it can make its next access at once, without the command
    thread and without a spurious wake-up, and is then closer to its end. *)
Theorem no_lost_wakeup s :
  reachable s → server s = Serving ∨ server s = Ended →
  (∃ a, main s = MDone a) ∨
  ∃ s', main_step s s' ∧ server s' = server s ∧ (distance (main s') < distance (main s))%nat.
Proof.
  intros [H1 H2 H3 H4 H5]%reachable_handshake Hs. destruct s as [m x p n]. cbn in *.
  assert (Hm : m ≠ -1) by (destruct Hs as [-> | ->]; cbn in *; lia).
  assert (Hp : server_holds p = false) by (by destruct Hs as [-> | ->]). rewrite Hp in H1.
  destruct n; cbn in *; subst x; [right|right| |right|right|right|left; by eexists].
  all: try (eexists; split; [by constructor|cbn; split; [done|lia]]).
  specialize (H4 eq_refl Hm). by destruct Hs as [-> | ->].
Qed.

Definition mid_handshake : threads := Threads 1 Nobody Serving MWake.

Lemma mid_handshake_reachable : reachable mid_handshake.
Proof.
  unfold reachable, mid_handshake, created.
  eapply rtc_l; [right; left; apply mn_lock|].
  eapply rtc_l; [left; apply sv_bound|].
  eapply rtc_l; [right; left; apply mn_wait|].
  eapply rtc_l; [left; apply sv_store|].
  eapply rtc_l; [left; apply sv_lock|].
  eapply rtc_l; [left; apply sv_signal|].
  eapply rtc_l; [left; apply sv_unlock|]. apply rtc_refl.
Qed.

Lemma no_lost_wakeup_witness :
  (∃ a, main mid_handshake = MDone a) ∨
  ∃ s', main_step mid_handshake s' ∧ server s' = Serving ∧ (distance (main s') < distance MWake)%nat.
Proof. apply (no_lost_wakeup mid_handshake mid_handshake_reachable). by left. Defined.

(** ** The answer *)

(** A run in which the server never gets as far as to announce its socket. *)
Definition unannounced (a b : threads) : Prop := hand_step a b ∧ server b ≠ Storing 1.

Definition failing (s : threads) : Prop :=
  success s ≤ 0 ∧ server s ≠ Serving ∧
  (∀ v, server s = Storing v ∨ server s = Locking v ∨ server s = Signalling v ∨ server s = Unlocking v → v = 0) ∧
  main s ≠ MDone true.

Lemma failing_step a b : unannounced a b → failing a → failing b.
Proof.
  intros [[Hs|[Hs|Hs]] Hn] (H1 & H2 & H3 & H4); destruct Hs; cbn in *; (split; [|split; [|split]]); cbn in *; try done; try naive_solver.
  intros [= Hlt]. apply Z.ltb_lt in Hlt. lia.
Qed.

(** A server that could not be started is reported: if the command thread never gets as
    far as to announce its socket, the main thread's answer, if it has one, is false. *)
Theorem failed_start_reported s answer :
  rtc unannounced created s → main s = MDone answer → answer = false.
Proof.
  intros H Hm. assert (Hgo : ∀ a b, rtc unannounced a b → failing a → failing b).
  { induction 1; eauto using failing_step. }
  destruct (Hgo _ _ H) as (_ & _ & _ & Hf); [split; [cbn; lia|naive_solver]|]. destruct answer; [by rewrite Hm in Hf|done].
Qed.

Definition failed_handshake : threads := Threads 0 Nobody Ended (MDone false).

Lemma failed_start_reported_witness : rtc unannounced created failed_handshake ∧ false = false.
Proof.
  assert (H : rtc unannounced created failed_handshake).
  { unfold created, failed_handshake.
    eapply rtc_l; [split; [left; apply sv_fails|done]|].
    eapply rtc_l; [split; [left; apply sv_store|done]|].
    eapply rtc_l; [split; [left; apply sv_lock|done]|].
    eapply rtc_l; [split; [left; by apply sv_signal_none|done]|].
    eapply rtc_l; [split; [left; apply sv_unlock|done]|].
    eapply rtc_l; [split; [right; left; apply mn_lock|done]|].
    eapply rtc_l; [split; [right; left; by apply mn_leave|done]|].
    eapply rtc_l; [split; [right; left; apply mn_unlock|done]|].
    eapply rtc_l; [split; [right; left; apply mn_read|done]|]. apply rtc_refl. }
  split; [exact H|]. exact (failed_start_reported failed_handshake false H eq_refl).
Defined.
