(* ===== verification/Commands.v ===== *)
(** * commands.c and cmdlintf.c: the commands and their handlers

    The handlers of the console commands over the state they act on ([console]): the log level,
    the proxy and its plugin, the request to terminate, the history. A client process has
    no proxy: the pointers to the services are [NULL] there. What the outside answers
    (the clock, the dynamic linker) is given per call by [env]. The messages the handlers
    write to the log are left out. Then the registration of
    all commands, the interactive loop, and what a line does from end to end. *)

From stdpp Require Import pretty.
From S2P Require Import Prelude Heap Utils Events Logger PacketAnalyzer ConnTable Proxying Words CmdTree Cli.

(** ** Numbers as text *)

(** [%d] *)
Definition dec (n : Z) : string := pretty n.

(** [%02d] *)
Definition dec2 (n : Z) : string := if (0 <=? n) && (n <? 10) then "0" +:+ dec n else dec n.

Fixpoint pad_left (k : nat) (s : string) : string :=
  match k with O => s | S k' => if decide (String.length s < k)%nat then String " "%char (pad_left k' s) else s end.

(** The handlers, by the names they have in the code. *)
Inductive command_handler :=
  | h_history | h_clear_history | h_logout | h_shutdown | h_date | h_echo | h_uptime
  | h_logging_trace | h_logging_debug | h_logging_info | h_logging_notice | h_logging_warning | h_logging_error
  | h_fall_back_channel | h_default_channel | h_load_module | h_unload_module
  | h_enable_packet_analyzer | h_disable_packet_analyzer
  | h_packet_analyzer_mode_safe | h_packet_analyzer_mode_fast | h_packet_analyzer_mode.

Section commands.
Context {I L D A : Type} `{EqDecision I} `{EqDecision D}.
Abbreviation proxy := (proxy I L D).

(** What the outside answers during a call. *)
Record cmd_env := CmdEnv {
  now : Z; boot_time : Z; ctime : string;
  env_dlopen : option L; env_dlsym : symbol (I := I); env_dlclose : bool;
}.

(** [services]: [proxyingService] and [packetAnalyzer], [NULL] in a client, which has not
    started the threads either. [calls] counts the handlers called. *)
Record console := Console {
  log : logger A;
  services : option proxy;
  stop : bool;              (* [pdptr->terminate] *)
  interrupted : bool;       (* SIGINT was sent to the two threads *)
  history : list string;
  calls : nat;
}.

Definition with_log (l : logger A) (a : console) : console := Console l (services a) (stop a) (interrupted a) (history a) (calls a).
Definition with_services (p : proxy) (a : console) : console := Console (log a) (Some p) (stop a) (interrupted a) (history a) (calls a).
Definition with_history (h : list string) (a : console) : console := Console (log a) (services a) (stop a) (interrupted a) h (calls a).
Definition set_plugin (x : analyzer (I := I) (L := L)) (p : proxy) : proxy :=
  Proxy (conf p) (table p) (strings p) (requests p) (ev p) x (segv_blocked p) (alive p) (open_fds p)
    (user_counter p) (connection_counter p) (expiring_holder p) (lost_fds p).

(** A handler: its value, what it prints, the state. *)
Abbreviation handled := (outcome (Z * list string * console)).

Definition the_services (a : console) : outcome proxy :=
  match services a with Some p => Ok p | None => Undefined NullDeref end.

Definition line (s : string) : string := s +:+ new_line.

(** ** The handlers *)

Definition invalid_input (cmd : string) : string := line ("% Invalid input detected: " +:+ String "034"%char cmd +:+ String "034"%char EmptyString).

(** [history_base] is 1. *)
Definition cmd_history (cmd : option string) (a : console) : handled :=
  match cmd with
  | Some c => Ok (1, [invalid_input c], a)
  | None => Ok (2, imap (λ i l, line (pad_left 5 (dec (Z.of_nat i + 1)) +:+ " " +:+ l)) (history a), a)
  end.

Definition cmd_clear_history (cmd : option string) (a : console) : handled :=
  match cmd with
  | Some c => Ok (1, [invalid_input c], a)
  | None => Ok (2, [], with_history [] a)
  end.

Definition cmd_echo (args : option string) (a : console) : handled := Ok (1, [line (default EmptyString args)], a).

Definition cmd_date (e : cmd_env) (a : console) : handled := Ok (1, [ctime e], a).

Definition cmd_logout (a : console) : handled := Ok (0, [line "**** Exit ****"], a).

Definition external_terminate (a : console) : console := Console (log a) (services a) true (interrupted a) (history a) (calls a).

(** [pthread_kill] of a thread that was never created. *)
Definition cmd_shutdown (a : console) : handled :=
  let a1 := external_terminate a in
  _ ← the_services a1;
  Ok (0, [line "**** Shutdown ****"], Console (log a1) (services a1) (stop a1) true (history a1) (calls a1)).

Definition cmd_uptime (e : cmd_env) (a : console) : handled :=
  let '(day, hour, min, sec) := uptime_parts (now e - boot_time e) in
  let clock := dec2 hour +:+ ":" +:+ dec2 min +:+ ":" +:+ dec2 sec in
  Ok (1, [if 0 <? day then line ("Uptime: " +:+ dec day +:+ " day(s), " +:+ clock) else line ("Uptime:  " +:+ clock)], a).

(** One of the [cmd_logging_..] of [Logger.v]. *)
Definition logging (f : logger A → string * logger A) (a : console) : handled :=
  let '(text, l) := f (log a) in Ok (1, [text], with_log l a).

Definition cmd_fall_back_channel (args : option string) (a : console) : handled :=
  p ← the_services a;
  match args with
  | None => Ok (1, [line ("usage: set fall back channel <channel> (current = " +:+ dec (get_fallback_channel p) +:+ ")")], a)
  | Some s =>
      let channel := atoi s in
      let '(r, p') := set_fallback_channel channel p in
      Ok (1, [if r =? channel then line ("default channel set to " +:+ dec channel)
              else line ("failed to set default channel to " +:+ dec channel)], with_services p' a)
  end.

Definition cmd_default_channel (args : option string) (a : console) : handled :=
  p ← the_services a;
  match args with
  | None => Ok (1, [line ("usage: set default channel <channel> (current = " +:+ dec (get_default_channel p) +:+ ")")], a)
  | Some s =>
      let channel := atoi s in
      let '(r, p') := set_default_channel channel p in
      Ok (1, [if r =? channel then line ("default channel set to " +:+ dec channel)
              else line ("failed to set default channel to " +:+ dec channel)], with_services p' a)
  end.

(** The file named by the argument, or by the configuration, is what [env_dlopen] opens. *)
Definition cmd_load_module (e : cmd_env) (a : console) : handled :=
  p ← the_services a;
  '(r, x, _) ← load_packet_analyzer (D := D) false 0 0 (env_dlopen e) (env_dlsym e) (plugin p);
  Ok (1, [line (if (r =? 0)%Z then "module loaded successfully" else if (r =? 1)%Z then "module not load-on-boot"
                else if (r =? 2)%Z then "failed to loading module" else if (r =? 3)%Z then "module file name required"
                else "unknow error")%string], with_services (set_plugin x p) a).

Definition cmd_unload_module (e : cmd_env) (a : console) : handled :=
  p ← the_services a;
  let '(ok, x, _) := module_unload (D := D) (env_dlclose e) (plugin p) in
  Ok (1, [line (if ok then "module unload successfully" else "failed to unload module unload module")%string], with_services (set_plugin x p) a).

Definition cmd_packet_analyzer_mode_safe (a : console) : handled :=
  p ← the_services a;
  Ok (1, [line "packet analyzer mode: safe"], with_services (set_plugin (set_safe_mode true (plugin p)) p) a).

Definition cmd_packet_analyzer_mode_fast (a : console) : handled :=
  p ← the_services a;
  Ok (1, [line "packet analyzer mode: fast"], with_services (set_plugin (set_safe_mode false (plugin p)) p) a).

Definition cmd_packet_analyzer_mode (a : console) : handled :=
  p ← the_services a;
  Ok (1, [line ("packet analyzer mode: " +:+ (if get_safe_mode (plugin p) then "safe" else "fast")%string)], a).

Definition cmd_enable_packet_analyzer (a : console) : handled :=
  p ← the_services a;
  let '(on, x) := set_enable true (plugin p) in
  Ok (1, [line (if on then "packet analyzer: enabled" else "packet analyzer: NOT enabled")%string], with_services (set_plugin x p) a).

Definition cmd_disable_packet_analyzer (a : console) : handled :=
  p ← the_services a;
  let '(on, x) := set_enable false (plugin p) in
  Ok (1, [line (if on then "packet analyzer: disable" else "packet analyzer: NOT disable")%string], with_services (set_plugin x p) a).

(** Calling through the pointer. *)
Definition call_handler (env : nat → cmd_env) (h : command_handler) (args : option string) (a0 : console) : handled :=
  let e := env (calls a0) in
  let a := Console (log a0) (services a0) (stop a0) (interrupted a0) (history a0) (S (calls a0)) in
  match h with
  | h_history => cmd_history args a
  | h_clear_history => cmd_clear_history args a
  | h_logout => cmd_logout a
  | h_shutdown => cmd_shutdown a
  | h_date => cmd_date e a
  | h_echo => cmd_echo args a
  | h_uptime => cmd_uptime e a
  | h_logging_trace => logging cmd_logging_trace a
  | h_logging_debug => logging cmd_logging_debug a
  | h_logging_info => logging cmd_logging_info a
  | h_logging_notice => logging cmd_logging_notice a
  | h_logging_warning => logging cmd_logging_warning a
  | h_logging_error => logging cmd_logging_error a
  | h_fall_back_channel => cmd_fall_back_channel args a
  | h_default_channel => cmd_default_channel args a
  | h_load_module => cmd_load_module e a
  | h_unload_module => cmd_unload_module e a
  | h_enable_packet_analyzer => cmd_enable_packet_analyzer a
  | h_disable_packet_analyzer => cmd_disable_packet_analyzer a
  | h_packet_analyzer_mode_safe => cmd_packet_analyzer_mode_safe a
  | h_packet_analyzer_mode_fast => cmd_packet_analyzer_mode_fast a
  | h_packet_analyzer_mode => cmd_packet_analyzer_mode a
  end.
End commands.
Arguments console : clear implicits.
Arguments cmd_env : clear implicits.

(** ** Registration *)

(** [have_precommand]: done once. *)
Definition regist_default_command (st : bool * list (command command_handler)) : bool * list (command command_handler) :=
  if st.1 then st
  else
    let '(_, root1) := cli_addcmd "history" false h_history None 0 0 (st.2) in
    let '(_, root2) := cli_addcmd "clear history" false h_clear_history None 0 0 root1 in
    (true, root2).

(** The calls of [cmd->add]. *)
Definition command_table : list (@add_call command_handler) :=
  [ AddCall "exit" false h_logout (Some "Exit") 0 1;
    AddCall "shutdown" true h_shutdown (Some "Shutdown") 0 1;
    AddCall "date" true h_date (Some "Date") 0 1;
    AddCall "echo" false h_echo (Some "Echo") 0 1;
    AddCall "uptime" true h_uptime (Some "Uptime") 0 1;
    AddCall "set logging level trace" true h_logging_trace (Some "Log level = trace") 0 1;
    AddCall "set logging level debug" true h_logging_debug (Some "Log level = debug") 0 1;
    AddCall "set logging level info" true h_logging_info (Some "Log level = info") 0 1;
    AddCall "set logging level notice" true h_logging_notice (Some "Log level = notice") 0 1;
    AddCall "set logging level warning" true h_logging_warning (Some "Log level = warning") 0 1;
    AddCall "set logging level error" true h_logging_error (Some "Log level = error") 0 1;
    AddCall "set fall back channel" true h_fall_back_channel (Some "setting fall back channel") 1 1;
    AddCall "set default channel" true h_default_channel (Some "setting default channel") 1 1;
    AddCall "load module" true h_load_module (Some "load module") 1 1;
    AddCall "unload module" true h_unload_module (Some "unload module") 0 1;
    AddCall "analyzer enable" true h_enable_packet_analyzer (Some "enable packet analyzer") 0 1;
    AddCall "analyzer disable" true h_disable_packet_analyzer (Some "enable packet analyzer") 0 1;
    AddCall "analyzer mode safe" true h_packet_analyzer_mode_safe (Some "enable packet analyzer safe mode") 0 1;
    AddCall "analyzer mode fast" true h_packet_analyzer_mode_fast (Some "enable packet analyzer fast mode") 0 1;
    AddCall "show analyzer mode" true h_packet_analyzer_mode (Some "packet analyzer mode") 0 1 ]%string.

Definition register_commands (st : bool * list (command command_handler)) : bool * list (command command_handler) :=
  let '(pre, root) := regist_default_command st in
  (pre, (foldl add_step ([], root) command_table).2).

(** The tree of a program that has registered its commands. *)
Definition the_commands : list (command command_handler) := (register_commands (false, [])).2.

(** ** The interactive loop *)

Section interactive.
Context {I L D A : Type} `{EqDecision I} `{EqDecision D}.
Abbreviation console := (console I L D A).

(** What [readline] returns, and whether the key [?] ended it ([pending_cmd]). *)
Record typed := Typed { text : option string; pending : bool }.

Inductive reading := EndOfInput | Stopped | Line (l : string) | NoInput.

Definition help_texts (h : help) : list string :=
  match h with
  | Subcommands names => map (λ n, String "009"%char n +:+ new_line) names
  | Unrecognized => [line "% Unrecognized command"]
  | Silent => []
  end.

(** The loop that reads a line and gives help as long as [?] is typed. *)
Fixpoint read_commands (root : list (command command_handler)) (a : console) (inputs : list typed)
    : outcome (reading * list string * list typed) :=
  match inputs with
  | [] => Ok (NoInput, [], [])
  | Typed None _ :: rest => Ok (EndOfInput, [], rest)
  | Typed (Some l) p :: rest =>
      if stop a then Ok (Stopped, [], rest)
      else if negb p then Ok (Line l, [], rest)
      else
        h ← find_match_commands l root;
        '(r, texts, rest') ← read_commands root a rest;
        Ok (r, help_texts h ++ texts, rest')
  end.

(** [expand]: [history_expand]. [exec]: [execute_line]. The value is [None] while [readline]
    waits. *)
Definition cmdline_interface (expand : string → Z * string) (exec : string → console → outcome (Z * list string * console))
    (root : list (command command_handler)) (inputs : list typed) (a : console)
    : outcome (option Z * list string * console * list typed) :=
  '(r, texts, rest) ← read_commands root a inputs;
  match r with
  | NoInput => Ok (None, texts, a, rest)
  | EndOfInput => Ok (Some 1, texts, a, rest)
  | Stopped => Ok (Some 0, texts, a, rest)
  | Line l =>
      match stripwhite l with
      | EmptyString => Ok (Some 1, texts, a, rest)
      | linenbs =>
          let '(result, expansion) := expand linenbs in
          let shown := if result =? 0 then [] else [line expansion] in
          if (result <? 0) || (result =? 2) then Ok (Some 1, texts ++ shown, a, rest)
          else
            '(retval, out, a1) ←
              (if bool_decide (String.get 0 expansion = Some ";"%char) then Ok (1, [], a) else exec expansion a);
            let a2 := if retval =? 2 then a1 else with_history (history a1 ++ [expansion]) a1 in
            Ok (Some retval, texts ++ shown ++ out ++ [String "013"%char new_line], a2, rest)
      end
  end.

(** [while (cmd->cli () != 0);] of [main]. *)
Fixpoint client_loop (fuel : nat) (expand : string → Z * string) (exec : string → console → outcome (Z * list string * console))
    (root : list (command command_handler)) (inputs : list typed) (a : console) : outcome (list string * console) :=
  match fuel with
  | O => Diverges
  | S fuel' =>
      '(r, texts, a1, rest) ← cmdline_interface expand exec root inputs a;
      match r with
      | Some 0 | None => Ok (texts, a1)
      | Some _ => '(more, a2) ← client_loop fuel' expand exec root rest a1; Ok (texts ++ more, a2)
      end
  end.
End interactive.

(** ** Lines with arguments *)

Lemma words_from_white p : ∀ cur c q, whitespace c = true → words_from cur (p +:+ String c q) = words_from cur p ++ words q.
Proof.
  induction p as [|d p IH]; intros cur c q Hc.
  - rewrite string_nil_app. simpl. rewrite Hc. by destruct cur.
  - rewrite string_cons_app. cbn [words_from]. destruct (whitespace d); [|by apply IH].
    destruct cur; rewrite IH by done; done.
Qed.

Lemma path_of_args l args : path_of (l +:+ String " "%char args) = path_of l ++ path_of args.
Proof. unfold path_of, words at 1. rewrite words_from_white by done. by rewrite map_app. Qed.

(** The arguments as a handler gets them. *)
Definition args_of (s : string) : option string := match skip_white s with EmptyString => None | t => Some t end.

Lemma nthwordptr_here q : ∀ n, nthwordptr_loop q n n 0 = args_of q.
Proof.
  induction q as [|c q IH]; intros n; [done|]. cbn [nthwordptr_loop]. unfold args_of. cbn [skip_white].
  destruct (whitespace c); [apply IH|]. by rewrite Z.eqb_refl.
Qed.

Lemma nthwordptr_loop_tail p : ∀ c q n j m cur, whitespace c = true → begun m cur →
  n = j + Z.of_nat (length (words_from cur p)) → nthwordptr_loop (p +:+ String c q) n j m = args_of q.
Proof.
  induction p as [|d p IH]; intros c q n j m cur Hc Hb Hn.
  - rewrite string_nil_app. cbn [nthwordptr_loop]. rewrite Hc. destruct (0 <? m) eqn:Hm.
    + assert (Hcur : cur ≠ EmptyString) by (apply Hb; by apply Z.ltb_lt). destruct cur; [done|]. simpl in Hn.
      rewrite (proj2 (Z.eqb_neq _ _)) by lia. rewrite <- (nthwordptr_here q n). f_equal. lia.
    + destruct (begun_0_inv _ _ Hb Hm) as [-> ->]. simpl in Hn. rewrite <- (nthwordptr_here q n). f_equal. lia.
  - rewrite string_cons_app. cbn [nthwordptr_loop]. destruct (whitespace d) eqn:Hd.
    + rewrite (words_white m) in Hn by done. rewrite length_app in Hn. destruct (0 <? m) eqn:Hm; simpl in Hn.
      * rewrite (proj2 (Z.eqb_neq _ _)) by lia. apply (IH c q n _ _ EmptyString Hc begun_0). unfold words in Hn. lia.
      * destruct (begun_0_inv _ _ Hb Hm) as [-> ->]. apply (IH c q n _ _ EmptyString Hc begun_0). unfold words in Hn. lia.
    + cbn [words_from] in Hn. rewrite Hd in Hn. pose proof (words_from_not_nil (cur +:+ String d EmptyString) p (snoc_not_empty _ _)).
      rewrite (proj2 (Z.eqb_neq _ _)).
      2:{ destruct (words_from (cur +:+ String d EmptyString) p); [done|]. simpl in Hn. lia. }
      eapply IH; [done|by apply begun_more|done].
Qed.

Lemma nthwordptr_args l args : nthwordptr (l +:+ String " "%char args) (Z.of_nat (length (path_of l)) + 1) = args_of args.
Proof.
  unfold nthwordptr. apply (nthwordptr_loop_tail l _ _ _ _ _ EmptyString); [done|apply begun_0|].
  unfold path_of, words. rewrite length_map. lia.
Qed.

(** ** Every command can be reached *)

(** A command without subcommands ends the search, whatever follows. *)
Lemma depth_leaf {F} p ws : ∀ chain (c : command F) rest,
  node_at p chain = c :: rest → subcmd c = [] → depth (p ++ ws) chain = length p.
Proof.
  induction p as [|w p IH]; intros chain c rest; cbn [node_at]; [done|]. intros Hn Hs. cbn [app depth length].
  destruct (find_name w chain) as [|q tl]; [done|]. f_equal. destruct p as [|w' p].
  - injection Hn as <- <-. rewrite Hs. by destruct ws.
  - by eapply IH.
Qed.

Lemma execute_leaf {F} svc_fd l args (root : list (command F)) c rest f :
  path_of l ≠ [] → node_at (path_of l) root = c :: rest → subcmd c = [] → func c = Some f →
  execute_line svc_fd (l +:+ String " "%char args) root =
    Ok (if is_rmt c && (0 <=? svc_fd) then AskServer (l +:+ String " "%char args) else Call f (args_of args)).
Proof.
  intros Hp Hn Hs Hf. unfold execute_line. rewrite find_match_as_possible_ok, path_of_args.
  rewrite (depth_leaf _ _ _ _ _ Hn Hs).
  destruct (length (path_of l)) as [|k] eqn:Hl; [by destruct (path_of l)|]. cbv zeta. rewrite <- Hl, take_app_length, Hn.
  cbn [mbind outcome_bind read_count]. rewrite Hf.
  rewrite nthwordptr_args. destruct (is_rmt c); cbn; [|done]. by destruct (0 <=? svc_fd).
Qed.

(** The registrations all succeed, and each command is a leaf of the tree with what was
    registered for it. *)
Definition registered (a : @add_call command_handler) : Prop :=
  path_of (a_cmd a) ≠ [] ∧
  ∃ c rest, node_at (path_of (a_cmd a)) the_commands = c :: rest ∧ subcmd c = [] ∧
    info c = Entry (a_rmt a) (Some (a_func a)) (a_type a) (a_doc a) (a_args a).

Lemma table_registered : Forall registered command_table.
Proof.
  unfold command_table. repeat apply list.Forall_cons_2; try apply list.Forall_nil_2.
  all: split; [by vm_compute|eexists _, _; split; [vm_compute; reflexivity|by split]].
Qed.

Lemma table_answers : (foldl add_step ([], (regist_default_command (false, [])).2) command_table).1 = replicate 20 1.
Proof. by vm_compute. Qed.

(** Every command that [register_commands] adds can be reached: all registrations are
    accepted, and a line that consists of the command, a blank and any text calls exactly
    its handler, with the text from its first word on as the argument ([NULL] if it is
    blank); a remote command is sent to the server instead if there is one. *)
Theorem commands_dispatch svc_fd args :
  (foldl add_step ([], (regist_default_command (false, [])).2) command_table).1 = replicate 20 1 ∧
  Forall (λ a, execute_line svc_fd (a_cmd a +:+ String " "%char args) the_commands =
    Ok (if a_rmt a && (0 <=? svc_fd) then AskServer (a_cmd a +:+ String " "%char args) else Call (a_func a) (args_of args)))
    command_table.
Proof.
  split; [exact table_answers|]. eapply list.Forall_impl; [exact table_registered|].
  intros a (Hp & c & rest & Hn & Hs & Hi). injection Hi as Hr Hf _ _ _. rewrite <- Hr.
  by eapply execute_leaf.
Qed.

(** ** The command server is safe from its clients *)

Lemma pretty_go_length k : ∀ (x : N) s, (x < 10 ^ N.of_nat k)%N → strlen (pretty_N_go x s) ≤ Z.of_nat k + strlen s.
Proof.
  induction k as [|k IH]; intros x s Hx.
  { assert (x = 0%N) as -> by (simpl in Hx; lia). rewrite pretty_N_go_0. lia. }
  destruct (decide (x = 0%N)) as [->|Hne]; [rewrite pretty_N_go_0; lia|]. rewrite pretty_N_go_step by lia.
  assert (Hd : (x `div` 10 < 10 ^ N.of_nat k)%N).
  { apply N.Div0.div_lt_upper_bound. replace (N.of_nat (S k)) with (N.succ (N.of_nat k)) in Hx by lia. rewrite N.pow_succ_r' in Hx. lia. }
  etransitivity; [by apply IH|]. unfold strlen. cbn [String.length]. lia.
Qed.

Lemma dec_length z : is_int z → strlen (dec z) ≤ 11.
Proof.
  unfold is_int, INT_MIN, INT_MAX. intros Hz.
  assert (Hp : ∀ p, Z.pos p ≤ 2147483648 → strlen (pretty p) ≤ 10).
  { intros p Hle. unfold pretty, pretty_positive, pretty, pretty_N. case_decide; [done|].
    change 10 with (Z.of_nat 10 + strlen EmptyString). apply pretty_go_length.
    change (10 ^ N.of_nat 10)%N with 10000000000%N. lia. }
  unfold dec. destruct z as [|p|p]; [done| |]; unfold pretty, pretty_Z.
  - etransitivity; [apply Hp|]; lia.
  - rewrite strlen_app. change (strlen "-") with 1. specialize (Hp p). lia.
Qed.

Lemma dec2_length z : is_int z → strlen (dec2 z) ≤ 12.
Proof.
  intros Hz. pose proof (dec_length z Hz). unfold dec2. destruct (_ && _); [|lia]. rewrite strlen_app. change (strlen "0") with 1. lia.
Qed.

Lemma atoi_int s : is_int (atoi s).
Proof. unfold atoi. destruct (skip_spaces s); [done|]. repeat case_match; apply int32_range. Qed.

#[export] Hint Resolve atoi_int dec_length dec2_length : proxy.

Lemma strlen_cons c s : strlen (String c s) = strlen s + 1.
Proof. unfold strlen. cbn [String.length]. lia. Qed.

Lemma strlen_line s : strlen (line s) = strlen s + 1.
Proof. unfold line. by rewrite strlen_app. Qed.

(** The lengths of literals, and of what they are put together with. *)
Ltac literal_lengths :=
  rewrite ?strlen_line, ?strlen_app;
  repeat match goal with
    | |- context [strlen (String ?a ?b)] =>
        let n := eval vm_compute in (strlen (String a b)) in change (strlen (String a b)) with n
    end.

Section safety.
Context {I L D A : Type} `{EqDecision I} `{EqDecision D}.
Context (env : nat → cmd_env I L).

(** What the C library and the plugin promise: [ctime] gives a line of 25 characters, and
    [dlsym] no null address without an error. *)
Hypothesis ctime_short : ∀ n, strlen (ctime (env n)) ≤ 26.
Hypothesis symbol_address : ∀ n, env_dlsym (env n) ≠ SymAddress None.

(** The settings of the proxy when the server starts; the proxy thread has perhaps not read
    them yet. *)
Variable c0 : settings.

(** What the commands can make of a channel: it stays as it was, or it is one of a server. *)
Definition channel_valid (ch0 ch : Z) : Prop := ch = ch0 ∨ 0 ≤ ch < number_of_remote_servers c0.

Definition ints_conf : Prop :=
  is_int (number_of_remote_servers c0) ∧ is_int (default_server c0) ∧ is_int (on_failed_channel c0).

Definition channels_ok (p : proxy I L D) : Prop :=
  ints_conf ∧ number_of_remote_servers (conf p) = number_of_remote_servers c0 ∧
  channel_valid (default_server c0) (default_server (conf p)) ∧ channel_valid (on_failed_channel c0) (on_failed_channel (conf p)).

(** The state of a server: it has its services, with such channels, and no history. *)
Definition serving (a : console I L D A) : Prop := history a = [] ∧ ∃ p, services a = Some p ∧ channels_ok p.

Lemma channels_int p : channels_ok p → is_int (get_default_channel p) ∧ is_int (get_fallback_channel p).
Proof.
  unfold channels_ok, ints_conf, channel_valid, get_default_channel, get_fallback_channel, is_int, INT_MIN, INT_MAX. intros. lia.
Qed.

Lemma set_default_channel_ok ch p : channels_ok p → channels_ok (set_default_channel ch p).2.
Proof.
  unfold channels_ok, channel_valid, set_default_channel. intros H.
  destruct (_ && _) eqn:E; [|done]. apply andb_true_iff in E as [?%Z.leb_le ?%Z.ltb_lt]. simpl. destruct H as (? & ? & ? & ?).
  split_and!; done || lia.
Qed.

Lemma set_fallback_channel_ok ch p : channels_ok p → channels_ok (set_fallback_channel ch p).2.
Proof.
  unfold channels_ok, channel_valid, set_fallback_channel. intros H.
  destruct (_ && _) eqn:E; [|done]. apply andb_true_iff in E as [?%Z.leb_le ?%Z.ltb_lt]. simpl. destruct H as (? & ? & ? & ?).
  split_and!; done || lia.
Qed.

Lemma channels_ok_plugin x p : channels_ok p → channels_ok (set_plugin x p).
Proof. done. Qed.

(** The value, a bound for the text, and the state after a handler. *)
Definition handles (n : Z) (o : outcome (Z * list string * console I L D A)) : Prop :=
  ∃ r texts a', o = Ok (r, texts, a') ∧ is_int r ∧ strlen (concat_texts texts) ≤ n ∧ serving a'.

Lemma handles_one n r t a : is_int r → strlen t ≤ n → serving a → handles n (Ok (r, [t], a)).
Proof.
  intros Hr Ht Ha. exists r, [t], a. split; [done|]. split; [done|]. split; [|done]. simpl. by rewrite string_app_nil.
Qed.

Definition args_length (args : option string) : Z := match args with Some s => strlen s | None => 0 end.

Lemma args_length_nonneg args : 0 ≤ args_length args.
Proof. destruct args; cbn; auto with proxy. lia. Qed.

Lemma serving_services p a : serving a → channels_ok p → serving (with_services p a).
Proof. intros [Hh _] Hp. split; [done|]. by exists p. Qed.

Lemma serving_again a a' : serving a → history a' = history a → services a' = services a → serving a'.
Proof. intros [Hh Hs] Heq Hs'. split; [by rewrite Heq|]. by rewrite Hs'. Qed.

Lemma with_the_services n (f : proxy I L D → outcome (Z * list string * console I L D A)) a :
  serving a → (∀ p, services a = Some p → channels_ok p → handles n (f p)) → handles n (p ← the_services a; f p).
Proof. intros [_ (p & Hp & Hc)] Hf. unfold the_services. rewrite Hp. by apply Hf. Qed.

Lemma history_handlers_ok args a : serving a →
  handles (args_length args + 200) (cmd_history args a) ∧ handles (args_length args + 200) (cmd_clear_history args a).
Proof.
  intros Ha. pose proof (args_length_nonneg args) as Hn. assert (Hs : serving (with_history [] a)) by (by split; [|apply Ha]).
  unfold cmd_history, cmd_clear_history. destruct args as [c|]; cbn [args_length] in *.
  - assert (Hl : strlen (invalid_input c) ≤ strlen c + 200).
    { unfold invalid_input. rewrite strlen_line, !strlen_app, (strlen_cons _ c). literal_lengths. lia. }
    by split; apply handles_one.
  - destruct Ha as [Hh Ha]. rewrite Hh. cbn. split; eexists 2, [], _; repeat split; try done; by apply Hs.
Qed.

Lemma cmd_shutdown_ok a : serving a → handles 200 (cmd_shutdown a).
Proof. intros Ha. unfold cmd_shutdown. apply with_the_services; [done|]. intros p Hp Hc. by apply handles_one. Qed.

Lemma cmd_uptime_ok e a : serving a → handles 200 (cmd_uptime e a).
Proof.
  intros Ha. unfold cmd_uptime. destruct (uptime_parts (now e - boot_time e)) as [[[day hour] min] sec] eqn:E.
  assert (Hints : is_int day ∧ is_int hour ∧ is_int min ∧ is_int sec).
  { unfold uptime_parts in E. injection E as <- <- <- <-. pose proof (int32_range (Z.quot (now e - boot_time e) 86400)).
    pose proof (int32_range (Z.rem (now e - boot_time e) 86400)).
    split; [done|]. unfold is_int, INT_MIN, INT_MAX in *. Z.to_euclidean_division_equations. lia. }
  destruct Hints as (H1%dec_length & H2%dec2_length & H3%dec2_length & H4%dec2_length).
  apply handles_one; [done| |done]. destruct (0 <? day); literal_lengths; lia.
Qed.

Lemma logging_ok f a : serving a → (∀ l, strlen (f l).1 ≤ 200) → handles 200 (logging f a).
Proof.
  intros Ha Hf. unfold logging. specialize (Hf (log a)). destruct (f (log a)) as [t l]. apply handles_one; [done|done|].
  by apply (serving_again a).
Qed.

Lemma set_log_level_short p (l : logger A) : strlen (cmd_set_log_level p l).1 ≤ 200.
Proof. destruct p; by vm_compute. Qed.
#[local] Hint Resolve set_log_level_short : proxy.

Lemma channel_handlers_ok args a : serving a →
  handles 200 (cmd_fall_back_channel args a) ∧ handles 200 (cmd_default_channel args a).
Proof.
  intros Ha. unfold cmd_fall_back_channel, cmd_default_channel.
  split; apply with_the_services; try done; intros p Hp Hc; destruct (channels_int p Hc) as [Hd%dec_length Hf%dec_length];
    (destruct args as [s|]; [pose proof (dec_length _ (atoi_int s))|]).
  - pose proof (set_fallback_channel_ok (atoi s) p Hc) as Hok. destruct (set_fallback_channel (atoi s) p) as [r p']. cbn [snd] in Hok.
    apply handles_one; [done| |by apply serving_services]. destruct (r =? atoi s); literal_lengths; lia.
  - apply handles_one; [done|literal_lengths; lia|done].
  - pose proof (set_default_channel_ok (atoi s) p Hc) as Hok. destruct (set_default_channel (atoi s) p) as [r p']. cbn [snd] in Hok.
    apply handles_one; [done| |by apply serving_services]. destruct (r =? atoi s); literal_lengths; lia.
  - apply handles_one; [done|literal_lengths; lia|done].
Qed.

Lemma module_handlers_ok n a : serving a → handles 200 (cmd_load_module (env n) a) ∧ handles 200 (cmd_unload_module (env n) a).
Proof.
  intros Ha. unfold cmd_load_module, cmd_unload_module. split; apply with_the_services; try done; intros p Hp Hc.
  - assert (Hl : ∃ r x cs, load_packet_analyzer (D := D) false 0 0 (env_dlopen (env n)) (env_dlsym (env n)) (plugin p) = Ok (r, x, cs)).
    { unfold load_packet_analyzer, module_loader. cbn. specialize (symbol_address n).
      repeat case_match; try done; subst; try (by do 3 eexists). }
    destruct Hl as (r & x & cs & ->). cbn. apply handles_one; [done| |by apply serving_services]. repeat case_match; by vm_compute.
  - destruct (module_unload _ (plugin p)) as [[ok x] cs]. apply handles_one; [done| |by apply serving_services]. by destruct ok.
Qed.

Lemma analyzer_handlers_ok a : serving a →
  handles 200 (cmd_enable_packet_analyzer a) ∧ handles 200 (cmd_disable_packet_analyzer a) ∧
  handles 200 (cmd_packet_analyzer_mode_safe a) ∧ handles 200 (cmd_packet_analyzer_mode_fast a) ∧
  handles 200 (cmd_packet_analyzer_mode a).
Proof.
  intros Ha. unfold cmd_enable_packet_analyzer, cmd_disable_packet_analyzer, cmd_packet_analyzer_mode_safe,
    cmd_packet_analyzer_mode_fast, cmd_packet_analyzer_mode. split_and!; apply with_the_services; try done; intros p Hp Hc.
  - destruct (set_enable true (plugin p)) as [on x]. apply handles_one; [done|by destruct on|by apply serving_services].
  - destruct (set_enable false (plugin p)) as [on x]. apply handles_one; [done|by destruct on|by apply serving_services].
  - apply handles_one; [done|done|by apply serving_services].
  - apply handles_one; [done|done|by apply serving_services].
  - apply handles_one; [done|by destruct (get_safe_mode (plugin p))|done].
Qed.

Lemma handles_more n m o : n ≤ m → handles n o → handles m o.
Proof. intros Hn (r & texts & a' & -> & ? & ? & ?). exists r, texts, a'. split_and!; done || lia. Qed.

Lemma call_handler_ok h args a : serving a → handles (args_length args + 200) (call_handler env h args a).
Proof.
  intros Ha0. unfold call_handler. set (a1 := Console _ _ _ _ _ _). assert (Ha : serving a1) by by apply (serving_again a).
  clearbody a1. pose proof (args_length_nonneg args) as Hn.
  assert (Hmore : ∀ o, handles 200 o → handles (args_length args + 200) o) by (intros o; apply handles_more; lia).
  destruct h; try (apply Hmore, logging_ok; by auto with proxy).
  - by apply history_handlers_ok.
  - by apply history_handlers_ok.
  - by apply Hmore, handles_one.
  - by apply Hmore, cmd_shutdown_ok.
  - apply Hmore, handles_one; [done| |done]. specialize (ctime_short (calls a)). lia.
  - apply handles_one; [done| |done]. rewrite strlen_line.
    destruct args as [s|]; [change (strlen s + 1 ≤ strlen s + 200)|change (0 + 1 ≤ 0 + 200)]; lia.
  - by apply Hmore, cmd_uptime_ok.
  - by apply Hmore, channel_handlers_ok.
  - by apply Hmore, channel_handlers_ok.
  - by apply Hmore, module_handlers_ok.
  - by apply Hmore, module_handlers_ok.
  - by apply Hmore, analyzer_handlers_ok.
  - by apply Hmore, analyzer_handlers_ok.
  - by apply Hmore, analyzer_handlers_ok.
  - by apply Hmore, analyzer_handlers_ok.
  - by apply Hmore, analyzer_handlers_ok.
Qed.

(** *** The rest of a line is not longer than the line *)

Lemma nthwordptr_loop_length s : ∀ n j m t, nthwordptr_loop s n j m = Some t → strlen t ≤ strlen s.
Proof.
  induction s as [|c s IH]; intros n j m t; cbn [nthwordptr_loop]; [done|]. rewrite strlen_cons.
  repeat case_match; intros Heq; simplify_eq; try (apply IH in Heq; lia). rewrite strlen_cons. lia.
Qed.

Lemma str_take_strlen n s : strlen (str_take n s) ≤ Z.of_nat n.
Proof. unfold strlen. pose proof (str_take_length n s). lia. Qed.

Lemma first_word_length l : strlen (default "(null)"%string (nth_word l 1)) ≤ 63.
Proof.
  rewrite nth_word_ok. cbn [Z.leb Z.compare Pos.compare Pos.compare_cont]. destruct (words l !! _) as [w|]; [apply (str_take_strlen 63)|by vm_compute].
Qed.

(** Whatever a line is, executing it on the server returns. *)
Lemma execute_here_ok l a : serving a → handles (strlen l + 200) (execute_here (call_handler env) the_commands l a).
Proof.
  intros Ha. pose proof (strlen_nonneg l). unfold execute_here, execute_line.
  destruct (find_means the_commands l None) as [[_ ->]|(c & rest & k & _ & ->)]; cbn [mbind outcome_bind].
  - apply handles_one; [done| |done]. pose proof (first_word_length l). unfold no_such_command, new_line.
    literal_lengths. lia.
  - destruct (func c) as [f|]; [|].
    + assert (Hcall : handles (strlen l + 200) (call_handler env f (nthwordptr l (Z.of_nat k + 1)) a)).
      { eapply handles_more; [|by apply call_handler_ok]. unfold args_length. destruct (nthwordptr _ _) eqn:E; [|lia].
        apply nthwordptr_loop_length in E. lia. }
      by destruct (is_rmt c).
    + apply handles_one; [done| |done]. unfold incomplete_command, new_line. literal_lengths. lia.
Qed.

(** *** Sessions *)

(** What the kernel promises: [read] returns at most what was asked for. *)
Definition round_ok (r : round) : Prop := match r with Readable data => Z.of_nat (length data) ≤ 4095 | _ => True end.

(** A client with a descriptor below FD_SETSIZE that sent its process number, or no idle timeout,
    and rounds as above. *)
Definition arrival_ok (idle_time : Z) (x : arrival) : Prop :=
  match x with Client fd pid rounds => 0 ≤ fd < FD_SETSIZE ∧ (idle_time ≤ 0 ∨ is_Some pid) ∧ Forall round_ok rounds | _ => True end.

Definition fresh_buffer (b : print_buffer) : Prop := bp_size b = 65536 ∧ bp_text b = EmptyString.

Lemma cstring_length data : strlen (cstring data) ≤ Z.of_nat (length data).
Proof.
  induction data as [|c data IH]; [done|]. cbn [cstring length]. case_decide; [unfold strlen; cbn; lia|]. rewrite strlen_cons. lia.
Qed.

(** A run of a loop that returns, with the state and the buffer as they should be. *)
Definition runs_well (o : outcome (ending * console I L D A * print_buffer * list act)) : Prop :=
  ∃ e a b acts, o = Ok (e, a, b, acts) ∧ serving a ∧ fresh_buffer b.

Lemma runs_well_done e a b acts : serving a → fresh_buffer b → runs_well (Ok (e, a, b, acts)).
Proof. intros. by exists e, a, b, acts. Qed.

Lemma accept_client_safe idle_time fd pid rounds : ∀ cnt a b,
  0 ≤ fd < FD_SETSIZE → idle_time ≤ 0 ∨ is_Some pid → Forall round_ok rounds → serving a → fresh_buffer b →
  runs_well (accept_client stop (call_handler env) idle_time the_commands fd pid rounds cnt a b).
Proof.
  induction rounds as [|r rounds IH]; intros cnt a b Hfd Hpid Hrs Ha Hb; cbn [accept_client];
    rewrite (fd_set_ok fd Hfd); cbn [mbind outcome_bind].
  { destruct (stop a); by apply runs_well_done. }
  apply list.Forall_cons in Hrs as [Hr Hrs]. destruct (stop a); [by apply runs_well_done|].
  destruct r as [| |data]; [by apply IH| |].
  { destruct (Z.ltb_spec 0 idle_time); [|by apply IH]. destruct (idle_time <? cnt + 1); [|by apply IH].
    destruct Hpid as [?|[n ->]]; [lia|]. by apply runs_well_done. }
  destruct data as [|c data]; [by apply runs_well_done|]. set (bs := c :: data) in *. cbn [round_ok] in Hr.
  rewrite (proj2 (Z.ltb_ge _ _)) by done. pose proof (cstring_length bs).
  destruct (execute_here_ok (cstring bs) a Ha) as (retval & texts & a' & -> & _ & Ht & Ha'). cbn [mbind outcome_bind].
  destruct Hb as [Hsize Htext]. rewrite bprints_room by (unfold bp_index; rewrite Htext, Hsize; change (strlen EmptyString) with 0; lia).
  cbn [mbind outcome_bind]. assert (Hb : fresh_buffer (bpinit (PrintBuffer (bp_size b) (bp_text b +:+ concat_texts texts)))) by done.
  destruct (retval =? 0); [by apply runs_well_done|].
  destruct (IH 0 a' _ Hfd Hpid Hrs Ha' Hb) as (e & a2 & b2 & acts & -> & ? & ?). by apply runs_well_done.
Qed.

Lemma serve_safe sockfd idle_time login arrivals : ∀ a b,
  0 ≤ sockfd < FD_SETSIZE → strlen (concat_texts login) ≤ 1000 → Forall (arrival_ok idle_time) arrivals → serving a → fresh_buffer b →
  runs_well (serve stop (call_handler env) sockfd idle_time login the_commands arrivals a b).
Proof.
  induction arrivals as [|x arrivals IH]; intros a b Hfd Hl Hxs Ha Hb; cbn [serve];
    rewrite (fd_set_ok sockfd Hfd); cbn [mbind outcome_bind].
  { destruct (stop a); by apply runs_well_done. }
  apply list.Forall_cons in Hxs as [Hx Hxs]. destruct (stop a); [by apply runs_well_done|].
  destruct x as [| |fd pid rounds]; [by apply IH|by apply IH|]. destruct Hx as (Hcfd & Hpid & Hrs). destruct Hb as [Hsize Htext].
  rewrite bprints_room by (unfold bp_index; rewrite Htext, Hsize; change (strlen EmptyString) with 0; lia).
  cbn [mbind outcome_bind].
  destruct (accept_client_safe idle_time fd pid rounds 0 a (bpinit (PrintBuffer (bp_size b) (bp_text b +:+ concat_texts login))))
    as (e & a1 & b1 & acts & -> & Ha1 & Hb1); [done..|]. cbn [mbind outcome_bind].
  destruct e; [|by apply runs_well_done]. destruct (IH a1 b1 Hfd Hl Hxs Ha1 Hb1) as (e' & a2 & b2 & acts' & -> & ? & ?).
  by apply runs_well_done.
Qed.

Lemma start_server_safe sockname sockfd s idle_time login arrivals a b :
  sockfd < FD_SETSIZE → strlen sockname ≤ 107 → strlen (concat_texts login) ≤ 1000 → Forall (arrival_ok idle_time) arrivals →
  serving a → bp_size b = 65536 →
  ∃ ret a' acts, start_server stop (call_handler env) (Some sockname) sockfd s idle_time login the_commands arrivals a b
    = Ok (ret, a', acts) ∧ serving a'.
Proof.
  intros Hfd Hn Hl Hxs Ha Hb. unfold start_server. destruct (Z.ltb_spec sockfd 0); [by eauto|]. rewrite (proj2 (Z.ltb_ge _ _)) by lia.
  assert (Hgo : ∀ before, ∃ ret a' acts,
    bind_and_serve stop (call_handler env) sockfd s idle_time login the_commands arrivals a b before = Ok (ret, a', acts) ∧ serving a').
  { intros before. unfold bind_and_serve. destruct (negb (bind_ok s)); [by eauto|].
    destruct (serve_safe sockfd idle_time login arrivals a (bpinit b) ltac:(done) Hl Hxs Ha) as (e & a1 & b1 & acts & -> & ? & _); [done|].
    destruct e; cbn; by eauto. }
  destruct (stat_sock s) as [[|]|]; [destruct (connect_ok s)| |]; by eauto.
Qed.
End safety.


(** A client whose descriptor is 1024 or more, which takes as many open connections, makes the
    server write outside its set of descriptors. *)
Theorem descriptor_too_big {F St : Type} (terminate : St → bool) (handler : F → option string → St → outcome (Z * list string * St))
    idle_time root fd pid rounds cnt st b :
  terminate st = false → FD_SETSIZE ≤ fd →
  accept_client terminate handler idle_time root fd pid rounds cnt st b = Undefined OutOfBounds.
Proof.
  intros Ht Hfd. destruct rounds; cbn [accept_client]; rewrite Ht; unfold fd_set;
    by rewrite (proj2 (Z.ltb_ge _ _) Hfd), andb_false_r.
Qed.

(** ** Concrete runs *)

Definition sample_proxy : Proxying.proxy nat nat nat :=
  Proxy (Settings 0 2 None 5 100 86400 6 0 None) empty_table ∅ ∅ new_event_loop init_analyzer false true ∅ 0 0 None [].

Definition sample_console (p : option (Proxying.proxy nat nat nat)) : console nat nat nat nat :=
  Console (new_logger (A := nat)) p false false [] 0.

Definition sample_cmd_env (n : nat) : cmd_env nat nat := CmdEnv 93784 0 "Thu Jan  1 00:00:00 1970" None SymError true.

Definition run_here (p : option (Proxying.proxy nat nat nat)) (l : string) : outcome (Z * list string) :=
  '(r, texts, _) ← execute_here (call_handler sample_cmd_env) the_commands l (sample_console p); Ok (r, texts).

Example uptime_run : run_here (Some sample_proxy) "uptime" = Ok (1, [line "Uptime: 1 day(s), 02:03:04"]).
Proof. by vm_compute. Qed.
Example channel_run : run_here (Some sample_proxy) "set default channel 1" = Ok (1, [line "default channel set to 1"]).
Proof. by vm_compute. Qed.
Example incomplete_run : run_here (Some sample_proxy) "set default 1" = Ok (1, [line "% set default 1: Incomplete command."]).
Proof. by vm_compute. Qed.

(** Disabling the analyzer is never confirmed: the answer of [set_enable] is the new state. *)
Lemma disable_not_confirmed {I L D A : Type} (p : Proxying.proxy I L D) (a : console I L D A) : services a = Some p →
  ∃ a', cmd_disable_packet_analyzer a = Ok (1, [line "packet analyzer: NOT disable"], a').
Proof. intros Hp. unfold cmd_disable_packet_analyzer, the_services. rewrite Hp. by eexists. Qed.

(** A client that is not connected runs remote commands itself, without the services. *)
Example client_without_server : run_here None "set default channel 1" = Undefined NullDeref.
Proof. by vm_compute. Qed.

(** A client whose input has ended does not stop: [readline] keeps answering [NULL],
    [cmdline_interface] returns 1 each time, and the loop of [main] goes round as often as
    one likes without doing anything else. *)
Theorem client_spins_at_end_of_input {I L D A : Type} expand exec root (a : console I L D A) fuel :
  client_loop fuel expand exec root (replicate fuel (Typed None false)) a = Diverges.
Proof. induction fuel as [|fuel IH]; [done|]. cbn. by rewrite IH. Qed.

(** The value with which a server ended, and its channel. *)
Definition sample_arrivals : list arrival :=
  [ NoClient; Client 7 (Some 99) [Readable (text_bytes "set default channel 1"); SelectTimesOut; Readable (text_bytes "exit")];
    AcceptFails; Client 8 (Some 100) [SelectFails; Readable (text_bytes "shutdown now")] ].

