(* ===== verification/Keyboard.v ===== *)
(** * The keyboard of the command line

    What src/cmdlintf.c gives to the readline library and takes from it: the key [?], which
    ends the line that is being typed, shows help, and has the line typed again by the
    program; and the functions that complete words. The library is an argument: a stream of
    keys gives a line and the keys that are left. *)

From S2P Require Import Prelude Words CmdTree Cli Commands.

(** ** What the library is told *)

(** [cli_init], and [rl_bind_key ('?', help_function)] after it. [Generator] is the function that
    makes the completions. *)
Inductive cli_function := CommandCompletion | EntryCompletion | HelpFunction.

Record readline_settings := ReadlineSettings {
  rl_catch_signals : bool;
  rl_readline_name : string;
  rl_attempted_completion_function : option cli_function;
  rl_completion_entry_function : option cli_function;
  key_bindings : list (ascii * cli_function);
}.

Definition cli_init (s : readline_settings) : readline_settings :=
  ReadlineSettings true "CLI" (Some CommandCompletion) (Some EntryCompletion) (key_bindings s).

Definition bind_help (s : readline_settings) : readline_settings :=
  ReadlineSettings (rl_catch_signals s) (rl_readline_name s) (rl_attempted_completion_function s)
    (rl_completion_entry_function s) (("?"%char, HelpFunction) :: key_bindings s).

(** What [help_function] prints, the line it ends ([rl_done]) and what it asks for ([pending_cmd]). *)
Definition help_function : string * bool * bool := (line "?", true, true).

(** [rl_stuff_str]: the characters that are typed again. *)
Definition rl_stuff_str (str : option string) : list ascii :=
  match str with Some s => String.list_ascii_of_string s | None => [] end.

Abbreviation generator F := (Z → list (command F) → option string * list (command F)).

(** [command_completion]: the commands at the beginning of a line; later the library asks
    [entry_completion]. *)
Definition command_completion {F} (rl_completion_matches : generator F → list (command F) → outcome (list string))
    (text : string) (start : Z) (root ptr : list (command F)) : outcome (list string) :=
  if start =? 0 then rl_completion_matches (λ st p, command_generator text st root p) ptr else Ok [].

(** At the beginning of a line the names of the commands that begin with the text are offered,
    later nothing, so that the words of the entry are; when the library asks a generator for all it
    has. *)
Theorem first_word_completed {F} (rl_completion_matches : generator F → list (command F) → outcome (list string))
    (calls : list (add_call (F := F))) text start ptr :
  (∀ gen p fuel ms, offered fuel gen 0 p = Ok ms → rl_completion_matches gen p = Ok ms) →
  let root := (foldl add_step ([], []) calls).2 in
  command_completion rl_completion_matches text start root ptr = Ok (if start =? 0 then completions text root else []).
Proof.
  intros Hrl root. unfold command_completion. destruct (start =? 0); [|done].
  eapply Hrl, offered_first; [done|]. intros st p Hst. unfold command_generator. by rewrite (proj2 (Z.eqb_neq _ _) Hst).
Qed.

(** ** Help in the middle of a line *)

Section keyboard.
Context {I L D A : Type} `{EqDecision I} `{EqDecision D}.

(** The keys that are inserted as they are. The library inserts them; a key that is bound calls
    its function, and [help_function] ends the line; the return key ends it as well. *)
Context (plain : ascii → bool) (readline : list ascii → typed * list ascii).

Definition return_key : ascii := "010"%char.
Definition typed_text (keys : list ascii) : string := String.string_of_list_ascii keys.
Definition all_plain (keys : list ascii) : Prop := Forall (λ c, plain c = true) keys.

Definition readline_help : Prop := ∀ s rest, all_plain s →
  readline (s ++ "?"%char :: rest) = (Typed (Some (typed_text s)) help_function.2, rest).
Definition readline_return : Prop := ∀ s rest, all_plain s →
  readline (s ++ return_key :: rest) = (Typed (Some (typed_text s)) false, rest).

(** The loop of [cmdline_interface] over the keys: the help ends a line, which is typed again. *)
Fixpoint read_keys (fuel : nat) (root : list (command command_handler)) (a : console I L D A) (keys : list ascii)
    : outcome (reading * list string * list ascii) :=
  match fuel with
  | O => Diverges
  | S fuel' =>
      let '(t, rest) := readline keys in
      let shown := if pending t then [help_function.1.1] else [] in
      match text t with
      | None => Ok (EndOfInput, shown, rest)
      | Some l =>
          if stop a then Ok (Stopped, shown, rest)
          else if negb (pending t) then Ok (Line l, shown, rest)
          else
            h ← find_match_commands l root;
            '(r, texts, rest') ← read_keys fuel' root a (rl_stuff_str (Some l) ++ rest);
            Ok (r, shown ++ help_texts h ++ texts, rest')
      end
  end.

(** Pieces of a line, with the help key after each of them but the last. *)
Definition typing (pieces : list (list ascii)) (last : list ascii) : list ascii :=
  flat_map (λ p, p ++ ["?"%char]) pieces ++ last ++ [return_key].

Lemma read_keys_step fuel root a keys : read_keys (S fuel) root a keys =
  let '(t, rest) := readline keys in
  let shown := if pending t then [help_function.1.1] else [] in
  match text t with
  | None => Ok (EndOfInput, shown, rest)
  | Some l =>
      if stop a then Ok (Stopped, shown, rest)
      else if negb (pending t) then Ok (Line l, shown, rest)
      else
        h ← find_match_commands l root;
        '(r, texts, rest') ← read_keys fuel root a (rl_stuff_str (Some l) ++ rest);
        Ok (r, shown ++ help_texts h ++ texts, rest')
  end.
Proof. reflexivity. Qed.

Lemma help_total l (root : list (command command_handler)) : ∃ h, find_match_commands l root = Ok h.
Proof.
  unfold find_match_commands. rewrite find_match_as_possible_ok. destruct (depth (path_of l) root); cbn;
    destruct (_ && _); try (by eexists); destruct (node_at _ _) as [|c ?]; try (by eexists); destruct (func c); try (by eexists);
    destruct (_ =? _); by eexists.
Qed.

(** However often help is asked for in the middle of a line, the line that is read in the end is
    what was typed, and nothing after it is touched. *)
Theorem help_keeps_line root a pieces : ∀ last rest,
  readline_help → readline_return → stop a = false → Forall all_plain pieces → all_plain last →
  ∃ texts, read_keys (S (length pieces)) root a (typing pieces last ++ rest) = Ok (Line (typed_text (concat pieces ++ last)), texts, rest).
Proof.
  remember (length pieces) as n eqn:Hn. revert pieces Hn.
  induction n as [|n IH]; intros [|p pieces] Hn last rest Hh Hr Ha Hp Hl; try discriminate Hn.
  - unfold typing. cbn [flat_map concat]. rewrite !app_nil_l, <- app_assoc. cbn [app read_keys]. rewrite Hr by done. cbn. rewrite Ha. by eexists.
  - injection Hn as Hn. apply list.Forall_cons in Hp as [Hp Hps].
    assert (∃ texts, read_keys (S n) root a (p ++ typing pieces last ++ rest) =
      Ok (Line (typed_text (p ++ concat pieces ++ last)), texts, rest)) as [texts E].
    { destruct pieces as [|q pieces].
      - destruct (IH [] Hn (p ++ last) rest Hh Hr Ha) as [texts E]; [done|by apply list.Forall_app|].
        exists texts. unfold typing in *. cbn [flat_map concat] in *. rewrite !app_nil_l in *. by rewrite <- !app_assoc in *.
      - apply list.Forall_cons in Hps as [Hq Hps].
        destruct (IH ((p ++ q) :: pieces) Hn last rest Hh Hr Ha) as [texts E]; [constructor; [by apply list.Forall_app|done]|done|].
        exists texts. unfold typing in *. cbn [flat_map concat] in *. by rewrite <- !app_assoc in *. }
    destruct (help_total (typed_text p) root) as [h Hhelp]. exists ([line "?"] ++ help_texts h ++ texts).
    rewrite read_keys_step. unfold typing. cbn [flat_map concat]. rewrite <- !app_assoc. cbn [app]. rewrite Hh by done.
    cbn [pending text help_function fst snd]. rewrite Ha. cbn [negb]. rewrite Hhelp. unfold rl_stuff_str, typed_text at 1.
    rewrite list_ascii_of_string_of_list_ascii. unfold typing in E. rewrite <- !app_assoc in E. cbn [app] in *.
    cbn [mbind outcome_bind]. by rewrite E.
Qed.
End keyboard.

(** A library that inserts every character but the two that end a line does what is assumed. *)
Fixpoint sample_readline (before keys : list ascii) : typed * list ascii :=
  match keys with
  | [] => (Typed None false, [])
  | c :: rest =>
      if bool_decide (c = "?"%char) then (Typed (Some (typed_text before)) true, rest)
      else if bool_decide (c = return_key) then (Typed (Some (typed_text before)) false, rest)
      else sample_readline (before ++ [c]) rest
  end.

Definition sample_plain (c : ascii) : bool := negb (bool_decide (c = "?"%char)) && negb (bool_decide (c = return_key)).

Lemma sample_readline_plain s : all_plain sample_plain s → ∀ before rest,
  sample_readline before (s ++ rest) = sample_readline (before ++ s) rest.
Proof.
  induction 1 as [|c s Hc Hs IH]; intros before rest; [by rewrite app_nil_r|]. unfold sample_plain in Hc. cbn [app sample_readline].
  destruct (bool_decide (c = "?"%char)), (bool_decide (c = return_key)); try done. by rewrite IH, <- app_assoc.
Qed.

Lemma sample_readline_ok : readline_help sample_plain (sample_readline []) ∧ readline_return sample_plain (sample_readline []).
Proof. split; intros s rest Hs; by rewrite sample_readline_plain. Qed.
