(* ===== verification/DbMysql.v ===== *)
(** * db_mysql.c: prepared statements and their results

    A statement has, per parameter, a [MYSQL_BIND] that tells the client library where the
    value is, and a block that holds the value; a result has the same per column. The
    setters and getters are translated on these structures. The MySQL client library is not
    part of the program: what it makes of a bound parameter and what it stores for a column
    are the operations of the class [MysqlClient], whose laws are what its manual says. *)

From S2P Require Import Prelude.

(** ** Integers in the union *)

(** Conversion to a signed type of [w] bits. *)
Definition sint (w z : Z) : Z := (z + 2 ^ (w - 1)) mod 2 ^ w - 2 ^ (w - 1).

(** The low [w] bits of the eight bytes are replaced (the machine is little-endian). *)
Definition write_low (w v raw : Z) : Z := raw / 2 ^ w * 2 ^ w + v mod 2 ^ w.

Lemma write_low_mod w v raw : 0 ≤ w → write_low w v raw mod 2 ^ w = v mod 2 ^ w.
Proof.
  intros Hw. unfold write_low. rewrite Z.add_comm, Z.mod_add by (apply Z.pow_nonzero; lia). apply Z.mod_mod, Z.pow_nonzero; lia.
Qed.

Lemma sint_mod w a b : a mod 2 ^ w = b mod 2 ^ w → sint w a = sint w b.
Proof. intros H. unfold sint. by rewrite Zplus_mod, H, <- Zplus_mod. Qed.

Lemma sint_id w z : 0 < w → - 2 ^ (w - 1) ≤ z < 2 ^ (w - 1) → sint w z = z.
Proof.
  intros Hw Hz. unfold sint. assert (2 ^ w = 2 * 2 ^ (w - 1)) by (rewrite <- Z.pow_succ_r by lia; f_equal; lia).
  rewrite Z.mod_small by lia. lia.
Qed.

Lemma sint_write w v raw : 0 < w → - 2 ^ (w - 1) ≤ v < 2 ^ (w - 1) → sint w (write_low w v raw) = v.
Proof. intros Hw Hv. rewrite <- (sint_id w v) at 2 by done. apply sint_mod, write_low_mod. lia. Qed.

Lemma uint_write w v raw : 0 < w → 0 ≤ v < 2 ^ w → write_low w v raw mod 2 ^ w = v.
Proof. intros Hw Hv. rewrite write_low_mod by lia. by apply Z.mod_small. Qed.

(** ** The structures shared with the client library *)

Inductive buffer_kind := TYPE_NULL | TYPE_SHORT | TYPE_LONG | TYPE_LONGLONG | TYPE_STRING | TYPE_TIMESTAMP | TYPE_ZERO.

(** [buffer]: [NULL], the union of the block, its [ts], or its [str_data]. *)
Inductive buffer_ptr := NoBuffer | ToUnion | ToTime | ToString.

(** [MYSQL_BIND]; [length_ptr] and [null_ptr]: the pointers are set, to the block's fields. *)
Record mysql_bind := MysqlBind {
  buffer_type : buffer_kind;
  buffer : buffer_ptr;
  is_unsigned : bool;
  length_ptr : bool;
  null_ptr : bool;
  buffer_length : Z;
}.

Record mysql_time := MysqlTime { year : Z; month : Z; day : Z; hour : Z; minute : Z; second : Z }.

(** [struct db_mysql_result_bind_data_t]; [raw] is the union's eight bytes, as a number. *)
Record bind_data := BindData {
  raw : Z;
  ts : mysql_time;
  is_null : bool;
  data_length : Z;
  real_length : Z;
  str_data : option string;
}.

Definition zero_bind : mysql_bind := MysqlBind TYPE_ZERO NoBuffer false false false 0.
Definition zero_data : bind_data := BindData 0 (MysqlTime 0 0 0 0 0 0) false 0 0 None.

(** What travels: a parameter, or the value of a column. *)
Inductive sql_value := SqlNull | SqlInt (z : Z) | SqlText (t : string) | SqlTime (t : mysql_time).

(** ** The client library *)

Class MysqlClient := {
  (** The value the server gets for a bound parameter. *)
  param_value : mysql_bind → bind_data → sql_value;
  (** [mysql_stmt_fetch]: the block of a column after a row with this value. *)
  store : mysql_bind → sql_value → bind_data → bind_data;
  (** [mysql_stmt_fetch_column] into a buffer of this length: the text, or an error. *)
  fetch_text : sql_value → Z → option string;

  param_null b d : buffer_type b = TYPE_NULL → param_value b d = SqlNull;
  param_is_null b d : null_ptr b = true → is_null d = true → param_value b d = SqlNull;
  param_int w k b d : (k, w) ∈ [(TYPE_SHORT, 16); (TYPE_LONG, 32); (TYPE_LONGLONG, 64)] →
    buffer_type b = k → buffer b = ToUnion → (null_ptr b = true → is_null d = false) →
    param_value b d = SqlInt (if is_unsigned b then raw d mod 2 ^ w else sint w (raw d));
  param_text b d t : buffer_type b = TYPE_STRING → buffer b = ToString → str_data d = Some t →
    length_ptr b = true → data_length d = strlen t → (null_ptr b = true → is_null d = false) →
    param_value b d = SqlText t;

  store_null b d : is_null (store b SqlNull d) = true;
  store_int w k b z d : (k, w) ∈ [(TYPE_LONG, 32); (TYPE_LONGLONG, 64)] → buffer_type b = k → buffer b = ToUnion →
    is_null (store b (SqlInt z) d) = false ∧ raw (store b (SqlInt z) d) = write_low w z (raw d);
  store_text b t d : buffer_type b = TYPE_STRING → buffer b = NoBuffer →
    is_null (store b (SqlText t) d) = false ∧ real_length (store b (SqlText t) d) = strlen t;
  fetch_text_ok t n : strlen t ≤ n → fetch_text (SqlText t) n = Some t;
  (** A text that does not fit is reported in the bind's [error]. *)
  fetch_text_fits v n t : fetch_text v n = Some t → strlen t ≤ n;
}.

(** ** Parameters *)

Abbreviation param := (mysql_bind * bind_data)%type.

(** The setters: [i] is the parameter's number, from 1; others are ignored. *)
Definition set_param (f : param → param) (i : Z) (ps : list param) : list param :=
  if (1 <=? i) && (i <=? Z.of_nat (length ps)) then alter f (Z.to_nat (i - 1)) ps else ps.

Definition clear_param (p : param) : param :=
  (MysqlBind TYPE_NULL NoBuffer false true true 0,
   BindData (raw p.2) (ts p.2) true 0 (real_length p.2) None).

Definition dbmysql_clearParameters (ps : list param) : list param := map clear_param ps.

(** The common part of the setters of integers. *)
Definition set_union (k : buffer_kind) (w v : Z) (u : bool) (p : param) : param :=
  (MysqlBind k ToUnion u false (null_ptr p.1) (buffer_length p.1),
   BindData (write_low w v (raw p.2)) (ts p.2) false 0 (real_length p.2) (str_data p.2)).

Definition dbmysql_stmt_setInt (i v : Z) : list param → list param := set_param (set_union TYPE_LONG 32 v false) i.
Definition dbmysql_stmt_setuInt (i v : Z) : list param → list param := set_param (set_union TYPE_LONG 32 v true) i.
Definition dbmysql_stmt_setShort (i v : Z) : list param → list param := set_param (set_union TYPE_SHORT 16 v false) i.
Definition dbmysql_stmt_setBigint (i v : Z) : list param → list param := set_param (set_union TYPE_LONGLONG 64 v false) i.
Definition dbmysql_stmt_setuBigint (i v : Z) : list param → list param := set_param (set_union TYPE_LONGLONG 64 v true) i.

Definition set_text (t : string) (p : param) : param :=
  (MysqlBind TYPE_STRING ToString (is_unsigned p.1) true false (strlen t),
   BindData (raw p.2) (ts p.2) false (strlen t) (real_length p.2) (Some t)).

(** A null pointer is followed, if the parameter exists. *)
Definition dbmysql_stmt_setString (i : Z) (str : option string) (ps : list param) : outcome (list param) :=
  match str with
  | Some t => Ok (set_param (set_text t) i ps)
  | None => if (1 <=? i) && (i <=? Z.of_nat (length ps)) then Undefined NullDeref else Ok ps
  end.

Definition dbmysql_stmt_setNull (i : Z) : list param → list param :=
  set_param (λ p, (MysqlBind TYPE_NULL NoBuffer (is_unsigned p.1) (length_ptr p.1) (null_ptr p.1) 0, p.2)) i.

(** The calls of setters. *)
Inductive setter :=
  | SetInt (v : Z) | SetuInt (v : Z) | SetShort (v : Z) | SetBigint (v : Z) | SetuBigint (v : Z)
  | SetString (t : string) | SetNull.

Definition apply_setter (c : Z * setter) (ps : list param) : list param :=
  let '(i, s) := c in
  match s with
  | SetInt v => dbmysql_stmt_setInt i v ps
  | SetuInt v => dbmysql_stmt_setuInt i v ps
  | SetShort v => dbmysql_stmt_setShort i v ps
  | SetBigint v => dbmysql_stmt_setBigint i v ps
  | SetuBigint v => dbmysql_stmt_setuBigint i v ps
  | SetString t => set_param (set_text t) i ps
  | SetNull => dbmysql_stmt_setNull i ps
  end.

(** The arguments are of their C types. *)
Definition setter_ok (s : setter) : Prop :=
  match s with
  | SetInt v => - 2 ^ 31 ≤ v < 2 ^ 31
  | SetuInt v => 0 ≤ v < 2 ^ 32
  | SetShort v => - 2 ^ 15 ≤ v < 2 ^ 15
  | SetBigint v => - 2 ^ 63 ≤ v < 2 ^ 63
  | SetuBigint v => 0 ≤ v < 2 ^ 64
  | SetString _ | SetNull => True
  end.

Definition setter_value (s : setter) : sql_value :=
  match s with
  | SetInt v | SetuInt v | SetShort v | SetBigint v | SetuBigint v => SqlInt v
  | SetString t => SqlText t
  | SetNull => SqlNull
  end.

(** The specification: a list of values, one per parameter. *)
Definition assign (c : Z * setter) (vs : list sql_value) : list sql_value :=
  if (1 <=? c.1) && (c.1 <=? Z.of_nat (length vs)) then <[Z.to_nat (c.1 - 1) := setter_value c.2]> vs else vs.

Section client.
Context `{MysqlClient}.

Definition sent_values (ps : list param) : list sql_value := map (λ p, param_value p.1 p.2) ps.

Lemma sent_union k w v (u : bool) p : (k, w) ∈ [(TYPE_SHORT, 16); (TYPE_LONG, 32); (TYPE_LONGLONG, 64)] →
  (if u then 0 ≤ v < 2 ^ w else - 2 ^ (w - 1) ≤ v < 2 ^ (w - 1)) →
  param_value (set_union k w v u p).1 (set_union k w v u p).2 = SqlInt v.
Proof.
  intros Hk Hv. rewrite (param_int w k) by done. cbn. f_equal.
  assert (0 < w) by (rewrite !elem_of_cons, elem_of_nil in Hk; naive_solver lia).
  destruct u; [by apply uint_write|by apply sint_write].
Qed.

Lemma sent_text t p : param_value (set_text t p).1 (set_text t p).2 = SqlText t.
Proof. by apply param_text. Qed.

Lemma sent_set f i ps v : (∀ p, param_value (f p).1 (f p).2 = v) →
  sent_values (set_param f i ps) =
    if (1 <=? i) && (i <=? Z.of_nat (length ps)) then <[Z.to_nat (i - 1) := v]> (sent_values ps) else sent_values ps.
Proof.
  intros Hf. unfold set_param. destruct (_ && _) eqn:E; [|done]. apply andb_true_iff in E as [Hlo%Z.leb_le Hhi%Z.leb_le].
  apply list_eq. intros k. unfold sent_values. rewrite list_lookup_fmap.
  destruct (decide (k = Z.to_nat (i - 1))) as [->|Hne].
  - rewrite list_lookup_insert_eq by (rewrite length_map; lia). rewrite list_lookup_alter_eq.
    destruct (lookup_lt_is_Some_2 ps (Z.to_nat (i - 1))) as [p Hp]; [lia|]. rewrite Hp. cbn. by rewrite Hf.
  - by rewrite list_lookup_insert_ne, list_lookup_alter_ne, list_lookup_fmap by done.
Qed.

Lemma set_param_length f i ps : length (set_param f i ps) = length ps.
Proof. unfold set_param. destruct (_ && _); [|done]. apply length_alter. Qed.

Lemma apply_setter_length c ps : length (apply_setter c ps) = length ps.
Proof. destruct c as [i []]; apply set_param_length. Qed.

Lemma sent_setter c ps : setter_ok c.2 → sent_values (apply_setter c ps) = assign c (sent_values ps).
Proof.
  destruct c as [i s]. intros Hok. unfold assign, sent_values at 2. rewrite length_map. cbn [fst snd].
  destruct s; cbn [setter_ok snd] in Hok; cbn [apply_setter setter_value]; apply sent_set; intros p;
    try (apply sent_union; [rewrite !elem_of_cons; by auto|done]).
  - apply sent_text.
  - by apply param_null.
Qed.

Lemma setters_round_trip calls : ∀ ps, Forall (λ c, setter_ok c.2) calls →
  sent_values (foldl (λ ps c, apply_setter c ps) ps calls) = foldl (λ vs c, assign c vs) (sent_values ps) calls.
Proof.
  induction calls as [|c calls IH]; intros ps Hok; [done|]. apply list.Forall_cons in Hok as [Hc Hok]. cbn [foldl].
  by rewrite IH, sent_setter.
Qed.

Lemma cleared_values ps : sent_values (dbmysql_clearParameters ps) = replicate (length ps) SqlNull.
Proof.
  unfold sent_values, dbmysql_clearParameters. induction ps as [|p ps IH]; [done|]. cbn [map length replicate]. f_equal; [|done].
  by apply param_null.
Qed.

(** C26: what a statement sends is what was set: after [clearParameters] and any sequence of
    setters, with arguments of their C types, the server gets for each parameter the value
    that was last set for it, and NULL for one that was not set; a setter for a parameter
    that does not exist has no effect. *)
Theorem parameters_round_trip ps calls :
  Forall (λ c, setter_ok c.2) calls →
  sent_values (foldl (λ ps c, apply_setter c ps) (dbmysql_clearParameters ps) calls) =
    foldl (λ vs c, assign c vs) (replicate (length ps) SqlNull) calls.
Proof. intros Hok. by rewrite setters_round_trip, cleared_values. Qed.
End client.

(** ** Results *)

(** [enum enum_field_types], as far as the code names them. *)
Inductive field_type :=
  | MYSQL_TYPE_NEWDECIMAL | MYSQL_TYPE_DECIMAL | MYSQL_TYPE_TINY | MYSQL_TYPE_SHORT | MYSQL_TYPE_LONG | MYSQL_TYPE_INT24
  | MYSQL_TYPE_LONGLONG | MYSQL_TYPE_FLOAT | MYSQL_TYPE_DOUBLE | MYSQL_TYPE_NULL
  | MYSQL_TYPE_TIMESTAMP | MYSQL_TYPE_DATE | MYSQL_TYPE_TIME | MYSQL_TYPE_DATETIME | MYSQL_TYPE_YEAR | MYSQL_TYPE_NEWDATE
  | MYSQL_TYPE_VARCHAR | MYSQL_TYPE_STRING | MYSQL_TYPE_VAR_STRING | MYSQL_TYPE_ENUM
  | MYSQL_TYPE_SET | MYSQL_TYPE_BIT | MYSQL_TYPE_TINY_BLOB | MYSQL_TYPE_MEDIUM_BLOB | MYSQL_TYPE_LONG_BLOB
  | MYSQL_TYPE_BLOB | MYSQL_TYPE_GEOMETRY.

(** The bind of a column; the pointer [length] is to [real_length]. *)
Definition bind_of_field (t : field_type) : mysql_bind :=
  match t with
  | MYSQL_TYPE_NEWDECIMAL | MYSQL_TYPE_DECIMAL | MYSQL_TYPE_TINY | MYSQL_TYPE_SHORT | MYSQL_TYPE_LONG | MYSQL_TYPE_INT24 =>
      MysqlBind TYPE_LONG ToUnion false true true 0
  | MYSQL_TYPE_LONGLONG => MysqlBind TYPE_LONGLONG ToUnion false true true 0
  | MYSQL_TYPE_TIMESTAMP | MYSQL_TYPE_DATE | MYSQL_TYPE_TIME | MYSQL_TYPE_DATETIME | MYSQL_TYPE_YEAR | MYSQL_TYPE_NEWDATE =>
      MysqlBind TYPE_TIMESTAMP ToTime false true true 0
  | MYSQL_TYPE_VARCHAR | MYSQL_TYPE_STRING | MYSQL_TYPE_VAR_STRING | MYSQL_TYPE_ENUM => MysqlBind TYPE_STRING NoBuffer false true true 0
  | _ => MysqlBind TYPE_ZERO NoBuffer false true true 0
  end.

Record db_field := DbField { fieldName : string; fieldType : field_type }.

(** [struct db_mysql_stmt_t]. [connection] tells which connection it was prepared on; it
    stands for the handle. [result_columns]: [result_bind] and [result_bind_data], allocated
    together. *)
Record stmt := Stmt {
  connection : nat;
  params : list param;
  result_columns : option (list param);
  affected_rows : Z;
}.

(** [struct db_mysql_result_t]: the number of fields and the fields. *)
Record result := Result { fields : list db_field }.

Definition number_fields (r : result) : Z := Z.of_nat (length (fields r)).

(** What is allocated and not freed: pairs of column arrays, results, statements, and the
    library's handles of statements. *)
Record ledger := Ledger { column_arrays : Z; results : Z; statements : Z; handles : Z }.

(** [meta]: the columns [mysql_stmt_result_metadata] tells of; [None] if it fails. The old
    arrays of the statement are not freed. *)
Definition internal_fetch_result (meta : option (list db_field)) (s : stmt) (m : ledger) : option result * stmt * ledger :=
  match meta with
  | None => (None, s, m)
  | Some fs =>
      (Some (Result fs),
       Stmt (connection s) (params s) (Some (map (λ f, (bind_of_field (fieldType f), zero_data)) fs)) (affected_rows s),
       Ledger (column_arrays m + 1) (results m + 1) (statements m) (handles m))
  end.

(** [execute_ok]: whether binding and executing succeed. *)
Definition dbmysql_local_execute (execute_ok : bool) : bool := execute_ok.

Definition dbmysql_executeQuery (execute_ok : bool) (meta : option (list db_field)) (s : stmt) (m : ledger)
    : option result * stmt * ledger :=
  if dbmysql_local_execute execute_ok then internal_fetch_result meta s m else (None, s, m).

(** [rows]: what [mysql_stmt_affected_rows] says, a 64-bit number; the value is an [int]. *)
Definition dbmysql_executeUpdate (execute_ok : bool) (rows : Z) (s : stmt) : Z * stmt :=
  if dbmysql_local_execute execute_ok
  then (int32 rows, Stmt (connection s) (params s) (result_columns s) rows)
  else (-1, s).

Definition dbmysql_result_close (m : ledger) : ledger :=
  Ledger (column_arrays m) (results m - 1) (statements m) (handles m).

(** [sets]: the result sets the statement produces, [Some meta] for one with columns. *)
Fixpoint multiple_results {P} (handler : result → stmt → P → P) (sets : list (option (list db_field))) (s : stmt) (m : ledger) (p : P)
    : stmt * ledger * P :=
  match sets with
  | [] => (s, m, p)
  | None :: sets' => multiple_results handler sets' s m p
  | Some fs :: sets' =>
      match internal_fetch_result (Some fs) s m with
      | (Some r, s1, m1) => multiple_results handler sets' s1 (dbmysql_result_close m1) (handler r s1 p)
      | (None, s1, m1) => multiple_results handler sets' s1 m1 p
      end
  end.

Definition dbmysql_executeMultipleQuery {P} (execute_ok : bool) (handler : result → stmt → P → P)
    (sets : list (option (list db_field))) (s : stmt) (m : ledger) (p : P) : bool * stmt * ledger * P :=
  if dbmysql_local_execute execute_ok
  then let '(s', m', p') := multiple_results handler sets s m p in (true, s', m', p')
  else (false, s, m, p).

(** [count]: the number of parameters, [None] if preparing fails, in which case the handle
    is not closed. [init_ok]: [mysql_stmt_init] gives a handle. *)
Definition dbmysql_createStatement (conn : nat) (init_ok : bool) (count : option nat) (m : ledger) : option stmt * ledger :=
  if init_ok then
    match count with
    | Some n => (Some (Stmt conn (dbmysql_clearParameters (replicate n (zero_bind, zero_data))) None 0),
                 Ledger (column_arrays m) (results m) (statements m + 1) (handles m + 1))
    | None => (None, Ledger (column_arrays m) (results m) (statements m) (handles m + 1))
    end
  else (None, m).

Definition dbmysql_stmt_close (s : stmt) (m : ledger) : ledger :=
  Ledger (match result_columns s with Some _ => column_arrays m - 1 | None => column_arrays m end)
    (results m) (statements m - 1) (handles m - 1).

(** *** Rows and getters *)

Section rows.
Context `{MysqlClient}.

(** [mysql_stmt_fetch] stores a row into the columns. *)
Definition fetch_row (row : list sql_value) (cols : list param) : list param :=
  zip_with (λ (c : param) v, (c.1, store c.1 v c.2)) cols row.

(** Answers of [mysql_stmt_fetch]. *)
Inductive fetched := FetchRow (row : list sql_value) | FetchTruncated (row : list sql_value) | FetchError (errno : Z) | FetchNoData | FetchOther.

(** Whether there is a row, [*errno], and the columns. *)
Definition dbmysql_result_next (f : fetched) (cols : list param) : bool * Z * list param :=
  match f with
  | FetchRow row | FetchTruncated row => (true, 0, fetch_row row cols)
  | FetchError e => (false, e, cols)
  | FetchNoData | FetchOther => (false, 0, cols)
  end.

Definition column (r : result) (i : Z) (cols : list param) : option bind_data :=
  if (1 <=? i) && (i <=? number_fields r) then snd <$> cols !! Z.to_nat (i - 1) else None.

(** A number of the union, as the member of [w] bits; 0 for NULL and for no such column. *)
Definition get_union (conv : Z → Z) (r : result) (i : Z) (cols : list param) : Z :=
  match column r i cols with
  | Some d => if is_null d then 0 else conv (raw d)
  | None => 0
  end.

Definition dbmysql_result_getInt := get_union (sint 32).
Definition dbmysql_result_getShort := get_union (sint 16).
Definition dbmysql_result_getuInt := get_union (λ z, z mod 2 ^ 32).
Definition dbmysql_result_getuBigint := get_union (λ z, z mod 2 ^ 64).
Definition dbmysql_result_getBigint := get_union (sint 64).

(** [tm] as year, month, day, hour, minute, second, the way [mktime] takes them. *)
Definition dbmysql_result_getTimestamp (mktime : Z * Z * Z * Z * Z * Z → Z) (r : result) (i : Z) (cols : list param) : Z :=
  match column r i cols with
  | Some d =>
      let t := ts d in
      let ret := mktime (year t - 1900, month t - 1, day t, hour t, minute t, second t) in
      if ret =? -1 then 0 else ret
  | None => 0
  end.

(** [cell]: the value of the column in the current row. *)
Definition dbmysql_result_getString (r : result) (i : Z) (cell : sql_value) (cols : list param)
    : outcome (option string * list param) :=
  match column r i cols with
  | None => Ok (None, cols)
  | Some d =>
      if is_null d then Ok (None, cols)
      else if 0 <? real_length d then
        let keep (t : option string) :=
          set_param (λ p, (p.1, BindData (raw p.2) (ts p.2) (is_null p.2) (data_length p.2) (real_length p.2) t)) i cols in
        match fetch_text cell (real_length d) with
        | Some t => if strlen t <=? real_length d then Ok (Some t, keep (Some t)) else Undefined OutOfBounds
        | None => Ok (None, keep None)
        end
      else Ok (None, cols)
  end.

Fixpoint index_of (str : string) (fs : list db_field) (i : Z) : Z :=
  match fs with
  | [] => 0
  | f :: fs' => if decide (fieldName f = str) then i + 1 else index_of str fs' (i + 1)
  end.

Definition dbmysql_result_getIndex (r : result) (str : string) : Z := index_of str (fields r) 0.

Definition dbmysql_result_getFields (r : result) : list db_field := fields r.
Definition dbmysql_result_getNumberOfFields (r : result) : Z := number_fields r.
End rows.

(** *** Connections *)

(** [struct db_mysql_data_t]: whether there is a connection, and how many there have been. *)
Record db_data := DbData { db_connected : bool; connections : nat }.

Definition newInstance : db_data := DbData false 0.

Definition dbmysql_connect (real_connect_ok : bool) (d : db_data) : bool * db_data :=
  if db_connected d then (true, d)
  else if real_connect_ok then (true, DbData true (S (connections d))) else (false, d).

Definition dbmysql_disconnect (d : db_data) : db_data := if db_connected d then DbData false (connections d) else d.

Definition error_number (errno : Z) (d : db_data) : Z := if db_connected d then errno else 0.

(** [message]: what [mysql_error] answers. *)
Definition error_string (message : string) (d : db_data) : string := if db_connected d then message else EmptyString.

(** ** What the getters see of a row *)

Section getters.
Context `{MysqlClient}.

Definition new_columns (fs : list db_field) : list param := map (λ f, (bind_of_field (fieldType f), zero_data)) fs.

Lemma fetched_column fs row i f v :
  fs !! i = Some f → row !! i = Some v →
  column (Result fs) (Z.of_nat i + 1) (fetch_row row (new_columns fs)) = Some (store (bind_of_field (fieldType f)) v zero_data).
Proof.
  intros Hf Hv. unfold column, number_fields. cbn [fields]. pose proof (lookup_lt_Some _ _ _ Hf).
  rewrite (proj2 (Z.leb_le _ _)), (proj2 (Z.leb_le _ _)) by lia. cbn [andb].
  replace (Z.to_nat (Z.of_nat i + 1 - 1)) with i by lia. unfold fetch_row. rewrite lookup_zip_with.
  unfold new_columns. rewrite list_lookup_fmap, Hf, Hv. done.
Qed.

(** What the program reads of a row is what the server sent, with these exceptions: NULL
    is read as the number 0 and as no text; a number of a BIGINT column read by [getInt] is
    cut to 32 bits; an empty text is read as no text. *)
Theorem getters_read_row fs row i f v :
  fs !! i = Some f → row !! i = Some v →
  let r := Result fs in let k := Z.of_nat i + 1 in let cols := fetch_row row (new_columns fs) in
  let kind := buffer_type (bind_of_field (fieldType f)) in
  match v with
  | SqlNull => dbmysql_result_getInt r k cols = 0 ∧ dbmysql_result_getBigint r k cols = 0 ∧
               dbmysql_result_getString r k v cols = Ok (None, cols)
  | SqlInt z => (kind = TYPE_LONG → - 2 ^ 31 ≤ z < 2 ^ 31 → dbmysql_result_getInt r k cols = z) ∧
                (kind = TYPE_LONGLONG → - 2 ^ 63 ≤ z < 2 ^ 63 →
                 dbmysql_result_getBigint r k cols = z ∧ dbmysql_result_getInt r k cols = sint 32 z)
  | SqlText t => kind = TYPE_STRING →
                 ∃ cols', dbmysql_result_getString r k v cols = Ok (if decide (t = EmptyString) then None else Some t, cols')
  | SqlTime _ => True
  end.
Proof.
  intros Hf Hv r k cols kind. pose proof (fetched_column fs row i f v Hf Hv) as Hc.
  fold r in Hc. fold k in Hc. fold cols in Hc.
  unfold dbmysql_result_getInt, dbmysql_result_getBigint, dbmysql_result_getString, get_union. rewrite Hc. destruct v as [|z|t|?]; [| | |done].
  - by rewrite store_null.
  - split; intros Hk Hz.
    + destruct (store_int 32 TYPE_LONG (bind_of_field (fieldType f)) z zero_data) as [-> ->];
        [rewrite !elem_of_cons; by auto|done|unfold kind in Hk; by destruct (fieldType f)|]. by apply sint_write.
    + destruct (store_int 64 TYPE_LONGLONG (bind_of_field (fieldType f)) z zero_data) as [-> ->];
        [rewrite !elem_of_cons; by auto|done|unfold kind in Hk; by destruct (fieldType f)|].
      split; [by apply sint_write|]. apply sint_mod. unfold write_low. cbn [raw zero_data].
      rewrite Z.div_0_l, Z.add_0_l by done. rewrite Z.mod_mod_divide; [done|]. by exists (2 ^ 32).
  - intros Hk. destruct (store_text (bind_of_field (fieldType f)) t zero_data) as [-> ->];
      [done|unfold kind in Hk; by destruct (fieldType f)|]. destruct t as [|c t].
    + by eexists.
    + change (0 <? strlen (String c t)) with true. rewrite fetch_text_ok, Z.leb_refl by done. by eexists.
Qed.
End getters.

(** ** Memory of results *)

(** A query whose result is read and closed. *)
Definition query_and_close (meta : list db_field) (sm : stmt * ledger) : stmt * ledger :=
  let '(_, s, m) := dbmysql_executeQuery true (Some meta) (sm.1) (sm.2) in (s, dbmysql_result_close m).

(** A prepared statement that is used for [n] queries, each result closed, and is then
    closed itself gives back everything but the column arrays of all queries except the
    last: every further query on a statement loses one pair of arrays. *)
Theorem column_arrays_lost conn count metas s m0 m1 :
  dbmysql_createStatement conn true (Some count) m0 = (Some s, m1) →
  let '(s', m2) := foldl (λ sm meta, query_and_close meta sm) (s, m1) metas in
  dbmysql_stmt_close s' m2 =
    Ledger (column_arrays m0 + Z.of_nat (pred (length metas))) (results m0) (statements m0) (handles m0).
Proof.
  intros [= <- <-]. set (s0 := Stmt _ _ _ _).
  assert (Hrun : ∀ metas s m, let '(s', m2) := foldl (λ sm meta, query_and_close meta sm) (s, m) metas in
    m2 = Ledger (column_arrays m + Z.of_nat (length metas)) (results m) (statements m) (handles m) ∧
    (result_columns s' = None ↔ result_columns s = None ∧ metas = [])).
  { clear. induction metas as [|meta metas IH]; intros s m; cbn [foldl].
    - split; [|naive_solver]. cbn [length]. rewrite Z.add_0_r. by destruct m.
    - specialize (IH (query_and_close meta (s, m)).1 (query_and_close meta (s, m)).2).
      rewrite <- surjective_pairing in IH. destruct (foldl _ _ metas) as [s' m2]. destruct IH as [-> Hc]. split.
      + cbn. f_equal; lia.
      + rewrite Hc. cbn. naive_solver. }
  specialize (Hrun metas s0 (Ledger (column_arrays m0) (results m0) (statements m0 + 1) (handles m0 + 1))).
  destruct (foldl _ _ metas) as [s' m2]. destruct Hrun as [-> Hc]. unfold dbmysql_stmt_close. cbn.
  destruct metas as [|meta metas]; cbn [length pred].
  - rewrite (proj2 Hc) by done. f_equal; lia.
  - destruct (result_columns s'); [f_equal; lia|]. by destruct (proj1 Hc eq_refl) as [_ ?].
Qed.

(** ** A client library *)

Definition sample_param_value (b : mysql_bind) (d : bind_data) : sql_value :=
  if null_ptr b && is_null d then SqlNull
  else match buffer_type b with
  | TYPE_SHORT => SqlInt (if is_unsigned b then raw d mod 2 ^ 16 else sint 16 (raw d))
  | TYPE_LONG => SqlInt (if is_unsigned b then raw d mod 2 ^ 32 else sint 32 (raw d))
  | TYPE_LONGLONG => SqlInt (if is_unsigned b then raw d mod 2 ^ 64 else sint 64 (raw d))
  | TYPE_STRING => match str_data d with Some t => SqlText t | None => SqlNull end
  | TYPE_TIMESTAMP => SqlTime (ts d)
  | TYPE_NULL | TYPE_ZERO => SqlNull
  end.

Definition sample_store (b : mysql_bind) (v : sql_value) (d : bind_data) : bind_data :=
  match v with
  | SqlNull => BindData (raw d) (ts d) true (data_length d) (real_length d) (str_data d)
  | SqlInt z => BindData (write_low (match buffer_type b with TYPE_LONG => 32 | _ => 64 end) z (raw d)) (ts d) false
                  (data_length d) (real_length d) (str_data d)
  | SqlText t => BindData (raw d) (ts d) false (data_length d) (strlen t) (str_data d)
  | SqlTime t => BindData (raw d) t false (data_length d) (real_length d) (str_data d)
  end.

Definition sample_fetch_text (v : sql_value) (n : Z) : option string :=
  match v with SqlText t => if strlen t <=? n then Some t else None | _ => None end.

Definition sample_client : MysqlClient.
Proof.
  refine {| param_value := sample_param_value; store := sample_store; fetch_text := sample_fetch_text |}.
  - intros b d Hb. unfold sample_param_value. rewrite Hb. by destruct (_ && _).
  - intros b d Hn Hd. unfold sample_param_value. by rewrite Hn, Hd.
  - intros w k b d Hk Hb Hu Hn. unfold sample_param_value. rewrite Hb. rewrite !elem_of_cons, elem_of_nil in Hk.
    assert (Hf : null_ptr b && is_null d = false) by (destruct (null_ptr b); [by rewrite Hn|done]). rewrite Hf.
    destruct Hk as [[= -> ->]|[[= -> ->]|[[= -> ->]|[]]]]; done.
  - intros b d t Hb Hs Ht Hl Hd Hn. unfold sample_param_value. rewrite Hb, Ht.
    assert (Hf : null_ptr b && is_null d = false) by (destruct (null_ptr b); [by rewrite Hn|done]). by rewrite Hf.
  - done.
  - intros w k b z d Hk Hb Hu. unfold sample_store. rewrite Hb. rewrite !elem_of_cons, elem_of_nil in Hk.
    destruct Hk as [[= -> ->]|[[= -> ->]|[]]]; done.
  - done.
  - intros t n Hn. unfold sample_fetch_text. by rewrite (proj2 (Z.leb_le _ _)).
  - intros [|z|u|u] n w; cbn; try done. destruct (Z.leb_spec (strlen u) n); [|done]. by intros [= <-].
Defined.

Definition sample_params : list param := replicate 2 (zero_bind, zero_data).
Definition sample_setters : list (Z * setter) := [(1, SetInt (-5)); (2, SetString "x"); (3, SetNull); (1, SetuInt 4294967295)].

Lemma parameters_round_trip_witness :
  sent_values (H := sample_client) (foldl (λ ps c, apply_setter c ps) (dbmysql_clearParameters sample_params) sample_setters) =
    [SqlInt 4294967295; SqlText "x"].
Proof.
  apply (parameters_round_trip (H := sample_client) sample_params sample_setters). repeat constructor; cbn; lia.
Defined.

Lemma getters_read_row_witness :
  let fs := [DbField "n" MYSQL_TYPE_LONG; DbField "id" MYSQL_TYPE_LONGLONG] in
  let cols := fetch_row (H := sample_client) [SqlInt 7; SqlInt 4294967297] (new_columns fs) in
  (TYPE_LONGLONG = TYPE_LONG → - 2 ^ 31 ≤ 4294967297 < 2 ^ 31 → dbmysql_result_getInt (Result fs) 2 cols = 4294967297) ∧
  (TYPE_LONGLONG = TYPE_LONGLONG → - 2 ^ 63 ≤ 4294967297 < 2 ^ 63 →
   dbmysql_result_getBigint (Result fs) 2 cols = 4294967297 ∧ dbmysql_result_getInt (Result fs) 2 cols = 1).
Proof.
  intros fs cols.
  apply (getters_read_row (H := sample_client) fs [SqlInt 7; SqlInt 4294967297] 1 (DbField "id" MYSQL_TYPE_LONGLONG) (SqlInt 4294967297)); done.
Defined.

Definition one_column : list db_field := [DbField "id" MYSQL_TYPE_LONGLONG].

Lemma column_arrays_lost_witness :
  let '(s', m2) := foldl (λ sm meta, query_and_close meta sm)
    (Stmt 1 (dbmysql_clearParameters sample_params) None 0, Ledger 0 0 1 1) [one_column; one_column; one_column] in
  dbmysql_stmt_close s' m2 = Ledger 2 0 0 0.
Proof.
  apply (column_arrays_lost 1 2 [one_column; one_column; one_column] (Stmt 1 (dbmysql_clearParameters sample_params) None 0)
    (Ledger 0 0 0 0) (Ledger 0 0 1 1)). reflexivity.
Defined.

(** A statement that cannot be prepared keeps its handle. *)
Example handle_lost : dbmysql_createStatement 1 true None (Ledger 0 0 0 0) = (None, Ledger 0 0 0 1).
Proof. done. Qed.
