(* ===== verification/DbInstances.v ===== *)
(** * db_mysql.c: instances, and how db_service.c sets one up

    [DbMysql.v] has what is done over a connection. Here are the two cells of an instance:
    the handle ([struct db_xsql_data_t]) the service has, and the body it points to
    ([struct db_mysql_data_t]), with the pointer to the connection's parameters, which is
    indeterminate until [setInfo] writes it. *)

From S2P Require Import Prelude Heap DbMysql.

(** [struct db_connection_info_t] *)
Record conn_info := ConnInfo { dbhost : option string; dbname : option string; dbuser : option string; dbpasswd : option string }.

(** [in_info]: [None] before the first [setInfo]; then what the pointer points to, if it is
    not [NULL]. Nothing writes to the parameters once they are set. *)
Record instance := Instance {
  in_state : db_data;
  have_init : bool;
  in_id : Z;
  in_info : option (option conn_info);
}.

Record instances := Instances {
  db_handles : heap ptr;        (* the field [data] of a handle *)
  bodies : heap instance;
  instance_id : Z;
}.

(** [dispose]; it does not close the connection. *)
Definition dispose_instance (self : ptr) (s : instances) : outcome instances :=
  match self with
  | None => Ok s
  | Some _ =>
      d ← deref (db_handles s) self;
      b ← free_cell (bodies s) d;
      h ← free_cell (db_handles s) self;
      Ok (Instances h b (instance_id s))
  end.

(** [memory], [memory']: whether the two allocations succeed; [init_ok]: [mysql_init]. *)
Definition new_instance (memory memory' init_ok : bool) (s : instances) : outcome (ptr * instances) :=
  match malloc memory (db_handles s) with
  | None => Ok (None, s)
  | Some l =>
      match malloc memory' (bodies s) with
      | Some b =>
          id ← checked_int (instance_id s + 1);
          Ok (Some l, Instances (<[l := Some b]> (db_handles s))
                        (<[b := Instance newInstance init_ok id None]> (bodies s)) id)
      | None =>
          s' ← dispose_instance (Some l) (Instances (<[l := None]> (db_handles s)) (bodies s) (instance_id s));
          Ok (None, s')
      end
  end.

(** The body of a handle. *)
Definition body_of (p : ptr) (s : instances) : outcome (ptr * instance) :=
  d ← deref (db_handles s) p; b ← deref (bodies s) d; Ok (d, b).

Definition put_body (d : ptr) (b : instance) (s : instances) : outcome instances :=
  h ← Heap.store (bodies s) d b; Ok (Instances (db_handles s) h (instance_id s)).

Definition dbmysql_setInfo (p : ptr) (info : option conn_info) (s : instances) : outcome instances :=
  '(d, b) ← body_of p s;
  put_body d (Instance (in_state b) (have_init b) (in_id b) (Some info)) s.

(** What the client library is asked for. *)
Inductive library_call :=
  | RealConnect (host user passwd name : option string)
  | SelectDb (name : option string)
  | SetCharacterSet (name : string)
  | CloseHandle.

(** [answer]: what [mysql_real_connect] answers. *)
Definition connect_instance (answer : bool) (p : ptr) (s : instances) : outcome (bool * list library_call * instances) :=
  '(d, b) ← body_of p s;
  if db_connected (in_state b) then Ok (true, [], s)
  else
    match in_info b with
    | None => Undefined Uninitialised
    | Some None => Undefined NullDeref
    | Some (Some i) =>
        let '(ok, st) := dbmysql_connect answer (in_state b) in
        s' ← put_body d (Instance st (have_init b) (in_id b) (in_info b)) s;
        Ok (ok, RealConnect (dbhost i) (dbuser i) (dbpasswd i) (dbname i) ::
                (if ok then [SelectDb (dbname i); SetCharacterSet "utf8"] else []), s')
    end.

Definition disconnect_instance (p : ptr) (s : instances) : outcome (list library_call * instances) :=
  '(d, b) ← body_of p s;
  if db_connected (in_state b) then
    s' ← put_body d (Instance (dbmysql_disconnect (in_state b)) (have_init b) (in_id b) (in_info b)) s;
    Ok ([CloseHandle], s')
  else Ok ([], s).

(** The part of [new_database_service] that makes the instance; [str] is [sysconf->str]. *)
Definition set_up_instance (memory memory' init_ok : bool) (str : string → option string) (s : instances)
    : outcome (ptr * instances) :=
  '(p, s1) ← new_instance memory memory' init_ok s;
  let info := ConnInfo (str "mysql-server"%string) (str "mysql-database"%string) (str "mysql-account"%string)
                (str "mysql-passwd"%string) in
  s2 ← dbmysql_setInfo p (Some info) s1;
  Ok (p, s2).

(** The loggers of the two files. *)
Record loggers (L : Type) := Loggers { service_logger : L; mysql_logger : L }.
Arguments Loggers {L} _ _.
Arguments service_logger {L} _.
Arguments mysql_logger {L} _.

Definition dbmysql_setLogger {L} (new_logger : L) (l : loggers L) : loggers L := Loggers (service_logger l) new_logger.

(** [db_made]: [db != NULL]. *)
Definition set_logger {L} (db_made : bool) (new_logger : L) (l : loggers L) : loggers L :=
  let l1 := if db_made then dbmysql_setLogger new_logger l else l in Loggers new_logger (mysql_logger l1).

(** ** The life of an instance *)

Lemma new_instance_ok init_ok s : INT_MIN ≤ instance_id s < INT_MAX →
  ∃ l b, new_instance true true init_ok s =
      Ok (Some l, Instances (<[l := Some b]> (db_handles s))
                    (<[b := Instance newInstance init_ok (instance_id s + 1) None]> (bodies s)) (instance_id s + 1)) ∧
    db_handles s !! l = None ∧ bodies s !! b = None.
Proof.
  intros Hid. unfold new_instance. cbn [malloc]. rewrite checked_int_ok, bind_ok by (unfold is_int, INT_MIN, INT_MAX in *; lia).
  eexists _, _. split; [done|]. split; apply fresh_loc_fresh.
Qed.

(** A handle with its body. *)
Definition live_instance (l b : loc) (i : instance) (s : instances) : Prop :=
  db_handles s !! l = Some (Some b) ∧ bodies s !! b = Some i.

Lemma body_of_live l b i s : live_instance l b i s → body_of (Some l) s = Ok (Some b, i).
Proof. intros [Hl Hb]. unfold body_of. by rewrite (deref_Some _ _ _ Hl), bind_ok, (deref_Some _ _ _ Hb), bind_ok. Qed.

Lemma put_body_live l b i i' s : live_instance l b i s →
  ∃ s', put_body (Some b) i' s = Ok s' ∧ live_instance l b i' s' ∧
    db_handles s' = db_handles s ∧ bodies s' = <[b := i']> (bodies s).
Proof.
  intros [Hl Hb]. unfold put_body. rewrite (store_Some _ _ _ _ Hb), bind_ok. eexists. split; [done|]. split; [|done].
  split; [done|]. apply lookup_insert_eq.
Qed.

Lemma connect_live answer l b i info s : live_instance l b i s → in_info i = Some (Some info) → db_connected (in_state i) = false →
  ∃ s' i', connect_instance answer (Some l) s =
      Ok (answer, RealConnect (dbhost info) (dbuser info) (dbpasswd info) (dbname info) ::
                  (if answer then [SelectDb (dbname info); SetCharacterSet "utf8"] else []), s') ∧
    live_instance l b i' s' ∧ db_connected (in_state i') = answer ∧
    db_handles s' = db_handles s ∧ bodies s' = <[b := i']> (bodies s).
Proof.
  intros Hl Hi Hc. unfold connect_instance. rewrite (body_of_live _ _ _ _ Hl), bind_ok. cbv iota beta. rewrite Hc, Hi.
  unfold dbmysql_connect. rewrite Hc. destruct answer.
  - destruct (put_body_live l b i (Instance (DbData true (S (connections (in_state i)))) (have_init i) (in_id i) (in_info i)) s Hl)
      as (s' & Hput & Hl' & Hh & Hb). rewrite Hi in Hput. rewrite Hput, bind_ok. eexists s', _. split; [done|]. rewrite <- Hi in *. by split_and!.
  - destruct (put_body_live l b i (Instance (in_state i) (have_init i) (in_id i) (in_info i)) s Hl) as (s' & Hput & Hl' & Hh & Hb).
    rewrite Hi in Hput. rewrite Hput, bind_ok. eexists s', _. split; [done|]. rewrite <- Hi in *. by split_and!.
Qed.

Lemma dispose_live l b i s : live_instance l b i s →
  dispose_instance (Some l) s = Ok (Instances (delete l (db_handles s)) (delete b (bodies s)) (instance_id s)).
Proof.
  intros [Hl Hb]. unfold dispose_instance. rewrite (deref_Some _ _ _ Hl), bind_ok. rewrite (free_cell_Some _ _ _ Hb), bind_ok.
  by rewrite (free_cell_Some _ _ _ Hl), bind_ok.
Qed.

(** An instance that is set up connects with the four values of the configuration, asks the
    library once as long as it is connected, and is disposed of without a trace. *)
Theorem instance_life init_ok str s : INT_MIN ≤ instance_id s < INT_MAX →
  ∃ p s1, set_up_instance true true init_ok str s = Ok (p, s1) ∧
    ∀ answer, ∃ s2,
      connect_instance answer p s1 =
        Ok (answer, RealConnect (str "mysql-server"%string) (str "mysql-account"%string) (str "mysql-passwd"%string)
                      (str "mysql-database"%string) ::
                    (if answer then [SelectDb (str "mysql-database"%string); SetCharacterSet "utf8"] else []), s2) ∧
      (answer = true → ∀ again, connect_instance again p s2 = Ok (true, [], s2)) ∧
      ∃ s3, dispose_instance p s2 = Ok s3 ∧ db_handles s3 = db_handles s ∧ bodies s3 = bodies s.
Proof.
  intros Hid. destruct (new_instance_ok init_ok s Hid) as (l & b & Hnew & Hfl & Hfb). unfold set_up_instance. rewrite Hnew, bind_ok.
  set (i0 := Instance newInstance init_ok (instance_id s + 1) None). set (s0 := Instances _ _ _).
  assert (Hl0 : live_instance l b i0 s0) by (split; apply lookup_insert_eq).
  set (info := ConnInfo _ _ _ _). set (i1 := Instance newInstance init_ok (instance_id s + 1) (Some (Some info))).
  destruct (put_body_live l b i0 i1 s0 Hl0) as (s1 & Hput & Hl1 & Hh1 & Hb1).
  assert (dbmysql_setInfo (Some l) (Some info) s0 = Ok s1) as ->.
  { unfold dbmysql_setInfo. rewrite (body_of_live _ _ _ _ Hl0), bind_ok. exact Hput. }
  rewrite bind_ok. eexists _, _. split; [done|]. intros answer.
  destruct (connect_live answer l b i1 info s1 Hl1 eq_refl eq_refl) as (s2 & i2 & Hcon & Hl2 & Hc2 & Hh2 & Hb2).
  exists s2. split; [exact Hcon|]. split.
  - intros -> again. unfold connect_instance. by rewrite (body_of_live _ _ _ _ Hl2), bind_ok, Hc2.
  - eexists. split; [by apply (dispose_live _ _ _ _ Hl2)|]. cbn [db_handles bodies].
    rewrite Hh2, Hh1, Hb2, Hb1. cbn [db_handles bodies s0]. rewrite !insert_insert_eq. split; by rewrite delete_insert_id.
Qed.

(** Without memory for the instance the service writes through a null pointer. *)
Lemma no_memory_for_instance memory memory' init_ok str s :
  memory && memory' = false → set_up_instance memory memory' init_ok str s = Undefined NullDeref.
Proof.
  intros Hm. unfold set_up_instance, new_instance. destruct memory; cbn [malloc]; [|done]. destruct memory'; [done|]. cbn [malloc].
  unfold dispose_instance. cbn [db_handles bodies]. rewrite (deref_Some _ _ None), bind_ok by apply lookup_insert_eq.
  cbn [free_cell]. rewrite bind_ok. by rewrite lookup_insert_eq.
Qed.

(** An instance that is not told its parameters cannot be connected. *)
Lemma connect_without_info init_ok answer s p s1 :
  new_instance true true init_ok s = Ok (Some p, s1) → connect_instance answer (Some p) s1 = Undefined Uninitialised.
Proof.
  unfold new_instance. cbn [malloc]. intros H. apply bind_ok_inv in H as (id & _ & [= <- <-]).
  unfold connect_instance, body_of. cbn [db_handles bodies].
  rewrite (deref_Some _ _ (Some (fresh_loc (bodies s)))), bind_ok by apply lookup_insert_eq.
  by rewrite (deref_Some _ _ (Instance newInstance init_ok id None)) by apply lookup_insert_eq.
Qed.

(** Both files log to the logger that is set, if there is an instance. *)
Lemma set_logger_sets {L} (new : L) l : set_logger true new l = Loggers new new ∧ mysql_logger (set_logger false new l) = mysql_logger l.
Proof. done. Qed.
