(* ===== verification/DbService.v ===== *)
(** * db_service.c: what the proxy asks the database

    The service keeps one connection and one prepared statement per query, made on first
    use. A failed preparation or query leads to disconnecting and connecting again. The
    static variables are [service]; the operations are programs of a state monad over it.
    What the database and the network answer are functions of the number of times they were
    asked; [sleep] advances the clock. The messages to the log are left out, and so is the
    exit of the process when connecting again raises a fault. *)

From S2P Require Import Prelude Utils StringMap HashMap DbMysql.

(** ** Queries *)

Inductive query_name_enum :=
  | SQL_NAME_NOT_FOUND | SQL_CHECK_AVAILABLE | SQL_CONNECTION_CLOSE | SQL_LAST_INSERT_ID | SQL_CONNECTION_NOT_ALLOWED
  | SQL_CHECK_VIP | SQL_CONNECTION_ESTABLISHED | SQL_CONNECTION_BEGIN | SQL_BLACKLIST | SQL_ADD_TO_BLACKLIST
  | SQL_ADD_DETAILS | SQL_ADD_MACHINE_OWNER | SQL_UPDATE_MACHINE_ACCESS | SQL_CALL_FAILURE_GUESSING | SQL_ALL_PRODUCT_NAMES.

#[export] Instance query_name_eq_dec : EqDecision query_name_enum.
Proof. solve_decision. Defined.

(** [struct queries_and_statements] *)
Record queries_and_statements := Holder {
  index : query_name_enum;
  query_name : option string;
  query : option string;
  holder_stmt : option stmt;
}.

Definition stmt_holder : list queries_and_statements :=
  [ Holder SQL_CHECK_AVAILABLE (Some "sql-check-available") None None;
    Holder SQL_CONNECTION_CLOSE (Some "sql-connection-close") None None;
    Holder SQL_LAST_INSERT_ID None (Some "SELECT LAST_INSERT_ID()") None;
    Holder SQL_CONNECTION_NOT_ALLOWED (Some "sql-connection-not-allowed") None None;
    Holder SQL_CHECK_VIP (Some "sql-check-vip") None None;
    Holder SQL_CONNECTION_ESTABLISHED (Some "sql-connection-established") None None;
    Holder SQL_CONNECTION_BEGIN (Some "sql-connection-begin") None None;
    Holder SQL_BLACKLIST (Some "sql-blacklist") None None;
    Holder SQL_ADD_TO_BLACKLIST (Some "sql-add-to-blacklist") None None;
    Holder SQL_ADD_DETAILS (Some "sql-add-details") None None;
    Holder SQL_ADD_MACHINE_OWNER (Some "sql-add-machine-owner") None None;
    Holder SQL_UPDATE_MACHINE_ACCESS (Some "sql-update-machine-access") None None;
    Holder SQL_CALL_FAILURE_GUESSING (Some "sql-call-failure-guessing") None None;
    Holder SQL_ALL_PRODUCT_NAMES (Some "sql-all-product-names") None None ]%string.

Definition with_stmt (s : option stmt) (h : queries_and_statements) : queries_and_statements :=
  Holder (index h) (query_name h) (query h) s.

(** ** The state *)

Record service := Service {
  enabled : bool;
  connected : bool;
  db : db_data;
  holders : list queries_and_statements;
  recent_use_time : timeval;
  connection_time : timeval;
  clock : timeval;
  slept : Z;                                          (* seconds spent in [sleep] *)
  connects : nat;                                     (* connection attempts *)
  prepares : nat;
  executes : nat;
  told : list (query_name_enum * list sql_value * bool);  (* what was executed, and whether it succeeded, latest first *)
  memory : ledger;
}.

Definition set_link (c : bool) (d : db_data) (s : service) : service :=
  Service (enabled s) c d (holders s) (recent_use_time s) (connection_time s) (clock s) (slept s)
    (connects s) (prepares s) (executes s) (told s) (memory s).
Definition set_holders (hs : list queries_and_statements) (s : service) : service :=
  Service (enabled s) (connected s) (db s) hs (recent_use_time s) (connection_time s) (clock s) (slept s)
    (connects s) (prepares s) (executes s) (told s) (memory s).
Definition set_recent (t : timeval) (s : service) : service :=
  Service (enabled s) (connected s) (db s) (holders s) t (connection_time s) (clock s) (slept s)
    (connects s) (prepares s) (executes s) (told s) (memory s).
Definition set_connection_time (t : timeval) (s : service) : service :=
  Service (enabled s) (connected s) (db s) (holders s) (recent_use_time s) t (clock s) (slept s)
    (connects s) (prepares s) (executes s) (told s) (memory s).
Definition set_clock (t : timeval) (s : service) : service :=
  Service (enabled s) (connected s) (db s) (holders s) (recent_use_time s) (connection_time s) t (slept s)
    (connects s) (prepares s) (executes s) (told s) (memory s).
Definition set_counts (c p e : nat) (s : service) : service :=
  Service (enabled s) (connected s) (db s) (holders s) (recent_use_time s) (connection_time s) (clock s) (slept s)
    c p e (told s) (memory s).
Definition set_slept (n : Z) (s : service) : service :=
  Service (enabled s) (connected s) (db s) (holders s) (recent_use_time s) (connection_time s) (clock s) n
    (connects s) (prepares s) (executes s) (told s) (memory s).
Definition set_told (l : list (query_name_enum * list sql_value * bool)) (s : service) : service :=
  Service (enabled s) (connected s) (db s) (holders s) (recent_use_time s) (connection_time s) (clock s) (slept s)
    (connects s) (prepares s) (executes s) l (memory s).
Definition set_memory (m : ledger) (s : service) : service :=
  Service (enabled s) (connected s) (db s) (holders s) (recent_use_time s) (connection_time s) (clock s) (slept s)
    (connects s) (prepares s) (executes s) (told s) m.

(** A program over the service. *)
Definition prog (A : Type) : Type := service → outcome (A * service).

#[export] Instance prog_ret : MRet prog := λ A a s, Ok (a, s).
#[export] Instance prog_bind : MBind prog := λ A B f m s, '(a, s') ← m s; f a s'.

Definition get : prog service := λ s, Ok (s, s).
Definition modify (f : service → service) : prog () := λ s, Ok ((), f s).
Definition lift {A} (o : outcome A) : prog A := λ s, a ← o; Ok (a, s).

Section service.
Context `{MysqlClient}.

(** An execution: whether it succeeds, the error, the rows that were affected, the columns
    of the result, and what the fetches of rows answer, per result set. *)
Record execution := Execution {
  x_ok : bool; x_errno : Z; x_rows : Z; x_meta : option (list db_field); x_fetches : list fetched;
}.

(** What the network and the server answer when they are asked for the n-th time. A
    preparation is told the text of the query, and answers the number of its parameters; an
    execution is told the connection the statement was prepared on, and the current one. *)
Record database := Database {
  connect_answer : nat → bool;
  prepare_answer : nat → string → option nat;
  execute_answer : nat → nat → nat → execution;
}.

Context (world : database).
(** The bytes one can use of a block that was allocated for a pointer: 8 were asked for, and
    nothing promises more. *)
Context (block : Z).

(** ** Connecting *)

Definition connect_to_database (re_connect : bool) : prog bool := λ s,
  let s1 :=
    if enabled s && negb (connected s) then
      let '(ok, d) := dbmysql_connect (connect_answer world (connects s)) (db s) in
      let s0 := set_counts (S (connects s)) (prepares s) (executes s) (set_link (ok : bool) d s) in
      if ok then set_connection_time (clock s) s0 else s0
    else s in
  Ok (connected s1, set_recent (clock s1) s1).

Definition reconnect_to_database : prog bool :=
  modify (λ s, set_link false (dbmysql_disconnect (db s)) s);;
  connect_to_database true.

Definition sleep (sec : Z) : prog () :=
  modify (λ s, set_slept (slept s + sec) (set_clock (Timeval (tv_sec (clock s) + sec) (tv_usec (clock s))) s)).

(** [while (!reconnect_to_database ()) {..}] *)
Fixpoint safe_reconnect_loop (fuel : nat) (counter : Z) : prog () :=
  match fuel with
  | O => λ _, Diverges
  | S fuel' =>
      ok ← reconnect_to_database;
      if (ok : bool) then mret ()
      else sleep 10;; if 20 <? counter + 1 then mret () else safe_reconnect_loop fuel' (counter + 1)
  end.

Definition safe_reconnect_to_database : prog () := safe_reconnect_loop 21 0.

Definition try_reconnect : prog () := safe_reconnect_to_database.

(** ** Statements *)

(** [db->createStatement] *)
Definition prepare (query : string) : prog (option stmt) := λ s,
  let a := prepare_answer world (prepares s) query in
  let '(r, m) := dbmysql_createStatement (connections (db s)) true a (memory s) in
  Ok (r, set_memory m (set_counts (connects s) (S (prepares s)) (executes s) s)).

Fixpoint create_statement_loop (query : string) (fuel : nat) (tried : Z) : prog (option stmt) :=
  match fuel with
  | O => λ _, Diverges
  | S fuel' =>
      r ← prepare query;
      match r with
      | Some st => mret (Some st)
      | None =>
          (if 0 <? tried then sleep 10 else mret ());;
          try_reconnect;;
          if tried + 1 <? 60 then create_statement_loop query fuel' (tried + 1) else mret None
      end
  end.

Definition create_statement (query : string) : prog (option stmt) := create_statement_loop query 60 0.

Definition with_params (f : list param → list param) (st : stmt) : stmt :=
  Stmt (connection st) (f (params st)) (result_columns st) (affected_rows st).

(** [ptr->stmt = stmt] *)
Definition put_stmt (k : nat) (st : option stmt) : prog () := modify (λ s, set_holders (alter (with_stmt st) k (holders s)) s).

Definition find_query (q : query_name_enum) (hs : list queries_and_statements) : option (nat * queries_and_statements) :=
  list_find (λ h, index h = q) hs.

(** The statement of a query, with cleared parameters, and where it is; [None] for [NULL]. *)
Definition retrieve_statement (q : query_name_enum) : prog (option (nat * stmt)) :=
  s ← get;
  match find_query q (holders s) with
  | None => mret None
  | Some (k, h) =>
      st ← match holder_stmt h, query h with
           | None, Some text => create_statement text
           | st, _ => mret st
           end;
      let st' := with_params dbmysql_clearParameters <$> st in
      put_stmt k st';;
      mret (pair k <$> st')
  end.

(** The setters on the statement at [k]; a string may be [NULL]. *)
Inductive argument := AInt (z : Z) | AString (t : option string).

Definition set_argument (i : Z) (a : argument) (ps : list param) : outcome (list param) :=
  match a with
  | AInt z => Ok (dbmysql_stmt_setInt i z ps)
  | AString t => dbmysql_stmt_setString i t ps
  end.

Fixpoint set_arguments (i : Z) (args : list argument) (ps : list param) : outcome (list param) :=
  match args with
  | [] => Ok ps
  | a :: args' => ps' ← set_argument i a ps; set_arguments (i + 1) args' ps'
  end.

(** The arguments are set from 1 on. *)
Definition bind_arguments (k : nat) (st : stmt) (args : list argument) : prog stmt :=
  ps ← lift (set_arguments 1 args (params st));
  let st' := with_params (λ _, ps) st in
  put_stmt k (Some st');; mret st'.

(** The server is asked to execute: the answer; what was sent is recorded, with whether it was
    executed. *)
Definition execute (q : query_name_enum) (st : stmt) : prog execution := λ s,
  let x := execute_answer world (executes s) (connection st) (connections (db s)) in
  Ok (x, set_told ((q, sent_values (params st), x_ok x) :: told s) (set_counts (connects s) (prepares s) (S (executes s)) s)).

(** [stmt->executeUpdate] *)
Definition execute_update (q : query_name_enum) (k : nat) (st : stmt) : prog Z :=
  x ← execute q st;
  let '(rows, st') := dbmysql_executeUpdate (x_ok x) (x_rows x) st in
  put_stmt k (Some st');; mret rows.

(** [stmt->executeQuery]: the result and its rows. *)
Definition execute_query (q : query_name_enum) (k : nat) (st : stmt) : prog (option (result * list fetched * list param)) :=
  x ← execute q st;
  s ← get;
  let '(r, st', m) := dbmysql_executeQuery (x_ok x) (x_meta x) st (memory s) in
  modify (set_memory m);; put_stmt k (Some st');;
  mret (match r, result_columns st' with Some r, Some cols => Some (r, x_fetches x, cols) | _, _ => None end).

Definition close_result : prog () := modify (λ s, set_memory (dbmysql_result_close (memory s)) s).

Definition first_fetch (fs : list fetched) : fetched := default FetchNoData (head fs).

(** The cells of a row, for [getString]. *)
Definition cells_of (f : fetched) : list sql_value := match f with FetchRow row | FetchTruncated row => row | _ => [] end.
Definition row_cell (f : fetched) (i : Z) : sql_value := default SqlNull (cells_of f !! Z.to_nat (i - 1)).

(** An update with these arguments: what [executeUpdate] returns; 0 without a statement. *)
Definition run_update (q : query_name_enum) (args : list argument) : prog Z :=
  ok ← connect_to_database false;
  if (ok : bool) then
    p ← retrieve_statement q;
    match p with
    | None => mret 0
    | Some (k, st) => st1 ← bind_arguments k st args; execute_update q k st1
    end
  else mret 0.

(** ** The operations *)

(** [struct db_proxy_request_t] as it is returned. *)
Record db_request := DbRequest { rq_sn : Z; rq_account : option string; rq_channel : Z }.

(** The fields of the request are at the bytes 8 to 11, 0 to 7 and 12 to 15. *)
Definition write_request (sn : Z) (account : option string) (channel : Z) : outcome db_request :=
  if 16 <=? block then Ok (DbRequest sn account channel) else Undefined OutOfBounds.

Definition check_available (remote_ip : option string) : prog (option db_request) :=
  ok ← connect_to_database false;
  if (ok : bool) then
    p ← retrieve_statement SQL_CHECK_AVAILABLE;
    match p with
    | None => mret None
    | Some (k, st) =>
        st1 ← bind_arguments k st [AString remote_ip];
        r ← execute_query SQL_CHECK_AVAILABLE k st1;
        match r with
        | None => try_reconnect;; mret None
        | Some (res, fs, cols) =>
            let f := first_fetch fs in
            let '(row, errno, cols1) := dbmysql_result_next f cols in
            request ← (if (row : bool) then
                '(account, cols2) ← lift (dbmysql_result_getString res 2 (row_cell f 2) cols1);
                q ← lift (write_request (dbmysql_result_getInt res 1 cols1) account (dbmysql_result_getInt res 3 cols2));
                mret (Some q)
              else mret None);
            close_result;;
            (if errno =? 0 then mret () else try_reconnect);;
            mret request
        end
    end
  else mret None.

(** [setInt] takes an [int]: the number of bytes is cut. *)
Definition connection_close (sn bytes count : Z) (idle : bool) : prog () :=
  _ ← run_update SQL_CONNECTION_CLOSE
        [AInt (int32 bytes); AInt count; AString (Some (if idle then "timeout" else "normal")%string); AInt sn];
  mret ().

Definition connection_established (sn : Z) (account ipaddr : option string) : prog Z :=
  ok ← connect_to_database false;
  if (ok : bool) then
    p ← retrieve_statement SQL_CONNECTION_ESTABLISHED;
    match p with
    | None => mret 0
    | Some (k, st) =>
        st1 ← bind_arguments k st [AInt sn];
        _ ← execute_update SQL_CONNECTION_ESTABLISHED k st1;
        p2 ← retrieve_statement SQL_CONNECTION_BEGIN;
        match p2 with
        | None => mret 0
        | Some (k2, st2) =>
            st3 ← bind_arguments k2 st2 [AString (Some (default EmptyString ipaddr)); AString (Some (default EmptyString account))];
            _ ← execute_update SQL_CONNECTION_BEGIN k2 st3;
            p3 ← retrieve_statement SQL_LAST_INSERT_ID;
            match p3 with
            | None => mret 0
            | Some (k3, st4) =>
                r ← execute_query SQL_LAST_INSERT_ID k3 st4;
                match r with
                | None => mret 0
                | Some (res, fs, cols) =>
                    let '(row, _, cols1) := dbmysql_result_next (first_fetch fs) cols in
                    close_result;;
                    mret (if (row : bool) then dbmysql_result_getInt res 1 cols1 else 0)
                end
            end
        end
    end
  else mret 0.

Definition connection_not_allowed (ipaddr : option string) : prog () :=
  _ ← run_update SQL_CONNECTION_NOT_ALLOWED [AString ipaddr]; mret ().

Definition check_vip (ipaddr : option string) : prog Z := run_update SQL_CHECK_VIP [AString ipaddr].
Definition connection_blacklisted (ipaddr : option string) : prog Z := run_update SQL_BLACKLIST [AString ipaddr].
Definition add_ip_to_auto_blacklist (ipaddr : option string) : prog Z := run_update SQL_ADD_TO_BLACKLIST [AString ipaddr].

(** [request]: [info->request_in_db], with its account. *)
Definition add_kms_details (request : option (option string)) (remote_ip workstation : option string)
    (major_version minor_version : Z) (app_id kms_id client_machine_id : option string) (remaining_min : Z) : prog Z :=
  run_update SQL_ADD_DETAILS
    [AString (match request with Some account => account | None => Some EmptyString end);
     AString remote_ip; AString workstation; AInt major_version; AInt minor_version; AString app_id; AString kms_id;
     AString client_machine_id; AInt remaining_min].

Definition update_machine_owner (request : option (option string)) (remote_ip client_machine_id : option string) : prog Z :=
  match mjoin request with
  | Some account => run_update SQL_ADD_MACHINE_OWNER
      [AString client_machine_id; AString (Some account); AString remote_ip; AString remote_ip; AString (Some account)]
  | None => run_update SQL_UPDATE_MACHINE_ACCESS
      [AString client_machine_id; AString (Some EmptyString); AString remote_ip; AString remote_ip]
  end.

(** The handler of a result set: the last one decides. *)
Definition fail_guessing_handler (f : fetched) (res : result) (cols : list param) : bool :=
  let '(row, _, cols1) := dbmysql_result_next f cols in
  5 <? (if (row : bool) then dbmysql_result_getInt res 1 cols1 else 0).

(** Every result set of the procedure has the columns [x_meta], and the row [x_fetches] says. *)
Definition fail_guessing (ip_address : option string) : prog bool :=
  ok ← connect_to_database false;
  if (ok : bool) then
    p ← retrieve_statement SQL_CALL_FAILURE_GUESSING;
    match p with
    | None => mret false
    | Some (k, st) =>
        st1 ← bind_arguments k st [AString ip_address];
        x ← execute SQL_CALL_FAILURE_GUESSING st1;
        s ← get;
        let handler res st '(_, fs) :=
          (fail_guessing_handler (first_fetch fs) res (default [] (result_columns st)), tl fs) in
        let '(_, st2, m, (answer, _)) :=
          dbmysql_executeMultipleQuery (x_ok x) handler (map (λ _, x_meta x) (x_fetches x)) st1 (memory s) (false, x_fetches x) in
        modify (set_memory m);; put_stmt k (Some st2);; mret answer
    end
  else mret false.

(** ** Closing *)

Fixpoint close_statements (hs : list queries_and_statements) (m : ledger) : list queries_and_statements * ledger :=
  match hs with
  | [] => ([], m)
  | h :: hs' =>
      let m1 := match holder_stmt h with Some st => dbmysql_stmt_close st m | None => m end in
      let '(hs1, m2) := close_statements hs' m1 in (with_stmt None h :: hs1, m2)
  end.

Definition close_all_statements : prog () := λ s,
  let '(hs, m) := close_statements (holders s) (memory s) in Ok ((), set_memory m (set_holders hs s)).

Definition close_connection : prog () :=
  close_all_statements;; modify (λ s, set_link false (dbmysql_disconnect (db s)) s).

(** [database_timeout], in microseconds *)
Definition database_timeout : Z := 300 * 1000000.

Definition close_idle (tv : timeval) : prog () :=
  s ← get;
  if connected s && (database_timeout <? elapsed_time tv (recent_use_time s)) then close_connection else mret ().

(** [max_connection_time]: of the configuration, in seconds. *)
Definition db_service_done (max_connection_time : Z) : prog () :=
  s ← get;
  if connected s && (max_connection_time * 1000000 <? elapsed_time (clock s) (connection_time s))
  then close_connection else mret ().
End service.

(** ** Reconnecting ends *)

Section reconnecting.
Context `{MysqlClient} (world : database).

Lemma prog_bind_ok {A B} (m : prog A) (f : A → prog B) s a s' : m s = Ok (a, s') → (m ≫= f) s = f a s'.
Proof. intros Hm. unfold mbind, prog_bind. by rewrite Hm. Qed.

(** The connection was given up and made again, or tried to: [n] attempts at most, each
    followed by at most ten seconds. *)
Record reconnected (n : nat) (s s' : service) : Prop := Reconnected {
  rc_enabled : enabled s' = enabled s;
  rc_holders : holders s' = holders s;
  rc_counts : prepares s' = prepares s ∧ executes s' = executes s ∧ told s' = told s ∧ memory s' = memory s;
  rc_connects : (connects s ≤ connects s' ≤ connects s + n)%nat;
  rc_slept : slept s ≤ slept s' ≤ slept s + 10 * Z.of_nat n;
  rc_fresh : connected s' = true → connection_time s' = clock s' ∧ recent_use_time s' = clock s';
  rc_generation : (connections (db s) ≤ connections (db s'))%nat;
  rc_link : db_connected (db s') = connected s';
  rc_new : connected s' = true → (connections (db s) < connections (db s'))%nat;
}.

Lemma reconnect_ok s : ∃ ok s', reconnect_to_database world s = Ok (ok, s') ∧ reconnected 1 s s' ∧ slept s' = slept s ∧ ok = connected s'.
Proof.
  unfold reconnect_to_database, modify, mbind, prog_bind, connect_to_database. cbn. eexists _, _. split; [done|].
  destruct (enabled s) eqn:He; cbn.
  - unfold dbmysql_disconnect, dbmysql_connect. destruct (db_connected (db s)) eqn:Hd; cbn; rewrite ?Hd; cbn;
      destruct (connect_answer world (connects s)); cbn; (split; [split; cbn; try done; try lia; by rewrite ?He|done]).
  - split; [|done]. split; cbn; try done; try lia.
    all: unfold dbmysql_disconnect; destruct (db_connected (db s)) eqn:Hd; cbn; rewrite ?Hd; done || lia.
Qed.

Lemma reconnected_more n m s1 s2 s3 : reconnected n s1 s2 → reconnected m s2 s3 → reconnected (n + m) s1 s3.
Proof.
  intros [A1 A2 (A3 & A4 & A5 & A6) A7 A8 A9 A10 A11 A12] [B1 B2 (B3 & B4 & B5 & B6) B7 B8 B9 B10 B11 B12].
  split; try congruence; try lia; [split_and!; congruence|done|]. intros Hc. specialize (B12 Hc). lia.
Qed.

Lemma reconnected_weaken n m s s' : (n ≤ m)%nat → reconnected n s s' → reconnected m s s'.
Proof. intros Hn [A1 A2 A3 A4 A5 A6 A7 A8 A9]. split; try done; lia. Qed.

Lemma reconnected_sleep n s s' : reconnected n s s' → connected s' = false → slept s' ≤ slept s + 10 * (Z.of_nat n - 1) →
  ∃ s'', sleep 10 s' = Ok ((), s'') ∧ reconnected n s s'' ∧ connected s'' = false.
Proof.
  intros [A1 A2 A3 A4 A5 A6 A7 A8 A9] Hc Hs. eexists. split; [done|]. split; [|done]. split; cbn; try done; [lia|]. by rewrite Hc.
Qed.

Lemma safe_reconnect_loop_ok fuel : ∀ counter s, 0 ≤ counter ≤ 20 → 21 - counter ≤ Z.of_nat fuel →
  ∃ s', safe_reconnect_loop world fuel counter s = Ok ((), s') ∧ reconnected (Z.to_nat (21 - counter)) s s'.
Proof.
  induction fuel as [|fuel IH]; intros counter s Hc Hf; [lia|]. cbn [safe_reconnect_loop].
  destruct (reconnect_ok s) as (ok & s1 & Hr & Hrel & Hsl & ->). rewrite (prog_bind_ok _ _ _ _ _ Hr).
  destruct (connected s1) eqn:Hconn.
  - exists s1. split; [done|]. apply (reconnected_weaken 1); [lia|exact Hrel].
  - destruct (reconnected_sleep 1 s s1 Hrel Hconn) as (s2 & Hs2 & Hrel2 & _); [lia|]. rewrite (prog_bind_ok _ _ _ _ _ Hs2).
    destruct (Z.ltb_spec 20 (counter + 1)).
    + exists s2. split; [done|]. apply (reconnected_weaken 1); [lia|exact Hrel2].
    + destruct (IH (counter + 1) s2) as (s3 & -> & Hrel3); [lia|lia|]. eexists. split; [done|].
      replace (Z.to_nat (21 - counter)) with (1 + Z.to_nat (21 - (counter + 1)))%nat by lia. by eapply reconnected_more.
Qed.

Lemma try_reconnect_ok s : ∃ s', try_reconnect world s = Ok ((), s') ∧ reconnected 21 s s'.
Proof. by apply (safe_reconnect_loop_ok 21 0). Qed.

(** What a failed preparation leaves, besides reconnecting: [p] preparations, [n] connects. *)
Record prepared (p n : nat) (extra : Z) (s s' : service) : Prop := Prepared {
  pr_enabled : enabled s' = enabled s;
  pr_holders : holders s' = holders s;
  pr_counts : executes s' = executes s ∧ told s' = told s;
  pr_prepares : (prepares s' ≤ prepares s + p)%nat;
  pr_connects : (connects s' ≤ connects s + n)%nat;
  pr_slept : slept s' ≤ slept s + extra;
  pr_generation : (connections (db s) ≤ connections (db s'))%nat;
}.

Lemma create_statement_loop_ok query fuel : ∀ tried s, 0 ≤ tried < 60 → 60 - tried ≤ Z.of_nat fuel →
  ∃ r s', create_statement_loop world query fuel tried s = Ok (r, s') ∧
    prepared (Z.to_nat (60 - tried)) (21 * Z.to_nat (60 - tried)) (220 * (60 - tried) - (if tried =? 0 then 10 else 0)) s s' ∧
    match r with
    | Some st => connection st = connections (db s')
    | None => prepares s' = (prepares s + Z.to_nat (60 - tried))%nat
    end.
Proof.
  induction fuel as [|fuel IH]; intros tried s Ht Hf; [lia|]. cbn [create_statement_loop].
  unfold prepare at 1. unfold mbind at 1, prog_bind at 1. unfold dbmysql_createStatement.
  destruct (prepare_answer world (prepares s) query) as [n|]; cbn [mbind outcome_bind].
  { eexists _, _. split; [done|]. split; [|done]. split; cbn; try done; try lia. destruct (Z.eqb_spec tried 0); lia. }
  set (s1 := set_memory _ _).
  assert (Hsleep : ∃ s2, (if 0 <? tried then sleep 10 else mret ()) s1 = Ok ((), s2) ∧
    prepared 1 0 (if tried =? 0 then 0 else 10) s s2 ∧ prepares s2 = S (prepares s)).
  { destruct (Z.eqb_spec tried 0) as [->|Hne]; [|rewrite (proj2 (Z.ltb_lt _ _)) by lia]; eexists; (split; [done|]); (split; [|done]);
      split; cbn; try done; lia. }
  destruct Hsleep as (s2 & Hs2 & Hp & Hpr). rewrite (prog_bind_ok _ _ _ _ _ Hs2).
  destruct (try_reconnect_ok s2) as (s3 & Hs3 & Hrel). rewrite (prog_bind_ok _ _ _ _ _ Hs3).
  destruct Hp as [P1 P2 (P3 & P4) P5 P6 P7 P8]. destruct Hrel as [A1 A2 (A3 & A4 & A5 & A6) A7 A8 A9 A10 _ _].
  destruct (Z.ltb_spec (tried + 1) 60) as [Hlt|Hge].
  - destruct (IH (tried + 1) s3) as (r & s4 & -> & [Q1 Q2 (Q3 & Q4) Q5 Q6 Q7 Q8] & Hr); [lia|lia|].
    eexists _, _. split; [done|]. rewrite (proj2 (Z.eqb_neq (tried + 1) 0)) in Q7 by lia. split.
    + split; try congruence; [split; congruence| | |destruct (tried =? 0); lia|lia]; lia.
    + destruct r; [done|]. rewrite Hr. lia.
  - eexists _, _. split; [done|]. split; [|cbn; lia]. split; try congruence; [split; congruence|lia|lia|destruct (tried =? 0); lia|lia].
Qed.

(** C18: preparing a statement ends, whatever the database and the network answer: it gives
    up after 60 preparations and 1260 attempts to connect, and 13190 seconds of sleep, and
    it gives up no earlier: without a statement, 60 preparations have failed. A statement it
    returns was prepared on the current connection. Nothing was executed meanwhile and no
    statement of the other queries was touched. *)
Theorem create_statement_ends query s :
  ∃ r s', create_statement world query s = Ok (r, s') ∧
    (prepares s' ≤ prepares s + 60)%nat ∧ (connects s' ≤ connects s + 1260)%nat ∧ slept s' ≤ slept s + 13190 ∧
    holders s' = holders s ∧ told s' = told s ∧
    match r with
    | Some st => connection st = connections (db s')
    | None => prepares s' = (prepares s + 60)%nat
    end.
Proof.
  destruct (create_statement_loop_ok query 60 0 s) as (r & s' & Heq & [P1 P2 (P3 & P4) P5 P6 P7 P8] & Hr); [lia|lia|].
  exists r, s'. split; [exact Heq|]. split_and!; try done; cbn in *; lia.
Qed.
End reconnecting.

(** ** A lost connection is not recovered *)

Section outage.
Context `{MysqlClient} (world : database) (block : Z).

Lemma find_query_alter q hs k h st : find_query q hs = Some (k, h) → find_query q (alter (with_stmt st) k hs) = Some (k, with_stmt st h).
Proof.
  unfold find_query. rewrite !list_find_Some. intros (Hk & Hq & Hbefore). split; [by rewrite list_lookup_alter_eq, Hk|]. split; [done|].
  intros j y Hj Hlt. rewrite list_lookup_alter_ne in Hj by lia. by eapply Hbefore.
Qed.

Lemma find_query_alter_ne q q' hs k h st : find_query q hs = Some (k, h) → q' ≠ q → find_query q' (alter (with_stmt st) k hs) = find_query q' hs.
Proof.
  unfold find_query. revert k. induction hs as [|h0 hs IH]; intros k Hf Hne; [done|]. cbn [list_find] in *.
  destruct (decide (index h0 = q)) as [Hq|Hq].
  - simplify_eq. cbn [alter list_alter list_find]. rewrite (decide_False (P := index h = q')) by congruence.
    by rewrite (decide_False (P := index (with_stmt st h) = q')) by (cbn; congruence).
  - destruct (list_find _ hs) as [[j y]|] eqn:Hj; [|done]. cbn in Hf. simplify_eq. cbn [alter list_alter list_find].
    destruct (decide (index h0 = q')); [done|]. by rewrite (IH j).
Qed.

(** The other queries keep their statements. *)
Definition others (q : query_name_enum) (s s' : service) : Prop :=
  ∀ q', q' ≠ q → find_query q' (holders s') = find_query q' (holders s).

(** The statement of a query, as it is cached. *)
Definition cached (q : query_name_enum) (s : service) (k : nat) (st : stmt) : Prop :=
  ∃ h, find_query q (holders s) = Some (k, h) ∧ holder_stmt h = Some st.

(** Put a statement in its place. *)
Lemma put_stmt_cached q s k st st' : cached q s k st →
  ∃ s', put_stmt k (Some st') s = Ok ((), s') ∧ cached q s' k st' ∧ s' = set_holders (holders s') s ∧ others q s s'.
Proof.
  intros (h & Hf & _). eexists. split; [done|]. split; [|split; [done|]].
  - exists (with_stmt (Some st') h). by rewrite <- (find_query_alter _ _ _ _ _ Hf).
  - intros q' Hq. by apply (find_query_alter_ne q q' _ k h).
Qed.

Lemma retrieve_cached q s k st : cached q s k st →
  ∃ s', retrieve_statement world q s = Ok (Some (k, with_params dbmysql_clearParameters st), s') ∧
    cached q s' k (with_params dbmysql_clearParameters st) ∧ s' = set_holders (holders s') s ∧ others q s s'.
Proof.
  intros Hc. pose proof Hc as (h & Hf & Hst).
  destruct (put_stmt_cached q s k st (with_params dbmysql_clearParameters st) Hc) as (s' & Hput & Hc' & Hs').
  exists s'. split; [|done]. unfold retrieve_statement. rewrite (prog_bind_ok get _ s s s), Hf, Hst by done.
  rewrite (prog_bind_ok (mret (Some st)) _ s (Some st) s) by done. by rewrite (prog_bind_ok _ _ _ _ _ Hput).
Qed.

(** The statement of [check_available] is cached, and if there is a connection, it was
    prepared on an earlier one. *)
Definition stale (s : service) : Prop :=
  ∃ k st, cached SQL_CHECK_AVAILABLE s k st ∧ (connection st ≤ connections (db s))%nat ∧ db_connected (db s) = connected s ∧
    (connected s = true → (connection st < connections (db s))%nat).

(** The connection is as young as its last use. *)
Definition outage (s : service) : Prop :=
  stale s ∧ (connected s = true → connection_time s = clock s ∧ recent_use_time s = clock s).

(** A client comes [dt] seconds later; idle and old connections are closed before. *)
Definition visit (max_connection_time : Z) (v : Z * string) : prog (option db_request) :=
  modify (λ s, set_clock (Timeval (tv_sec (clock s) + v.1) (tv_usec (clock s))) s);;
  s ← get;
  close_idle (clock s);;
  db_service_done max_connection_time;;
  check_available world block (Some v.2).

Fixpoint visits (max_connection_time : Z) (vs : list (Z * string)) : prog (list (option db_request)) :=
  match vs with
  | [] => mret []
  | v :: vs' => r ← visit max_connection_time v; rs ← visits max_connection_time vs'; mret (r :: rs)
  end.

Lemma connect_connected s : connected s = true → connect_to_database world false s = Ok (true, set_recent (clock s) s).
Proof. intros Hc. unfold connect_to_database. by rewrite Hc, andb_false_r, Hc. Qed.

Lemma bind_arguments_cached q s k st args ps : cached q s k st → set_arguments 1 args (params st) = Ok ps →
  ∃ s', bind_arguments k st args s = Ok (with_params (λ _, ps) st, s') ∧ cached q s' k (with_params (λ _, ps) st) ∧
    s' = set_holders (holders s') s ∧ others q s s'.
Proof.
  intros Hc Hps. destruct (put_stmt_cached q s k st (with_params (λ _, ps) st) Hc) as (s' & Hput & Hc' & Hs').
  exists s'. split; [|done]. unfold bind_arguments. rewrite (prog_bind_ok _ _ s ps s) by (unfold lift; by rewrite Hps).
  by rewrite (prog_bind_ok _ _ _ _ _ Hput).
Qed.

(** A query that fails leaves the statement and the connection as they were. *)
Lemma execute_query_fails q s k st : cached q s k st →
  x_ok (execute_answer world (executes s) (connection st) (connections (db s))) = false →
  ∃ s', execute_query world q k st s = Ok (None, s') ∧ cached q s' k st ∧ db s' = db s ∧ connected s' = connected s.
Proof.
  intros Hc Hx. unfold execute_query. set (x := execute_answer _ _ _ _) in Hx.
  set (s1 := set_told ((q, sent_values (params st), x_ok x) :: told s) (set_counts (connects s) (prepares s) (S (executes s)) s)).
  rewrite (prog_bind_ok (execute world q st) _ s x s1), (prog_bind_ok get _ s1 s1 s1) by done.
  unfold dbmysql_executeQuery. rewrite Hx. cbn [dbmysql_local_execute].
  rewrite (prog_bind_ok _ _ s1 () (set_memory (memory s1) s1)) by done.
  destruct (put_stmt_cached q (set_memory (memory s1) s1) k st st Hc) as (s2 & Hput & Hc2 & Hs2 & _).
  rewrite (prog_bind_ok _ _ _ _ _ Hput). exists s2. split; [done|]. split; [done|]. by rewrite Hs2.
Qed.

(** A cached statement whose execution fails. *)
Lemma check_fails ip s s0 k st : connect_to_database world false s = Ok (true, s0) → cached SQL_CHECK_AVAILABLE s0 k st →
  (connection st ≤ connections (db s0))%nat →
  x_ok (execute_answer world (executes s0) (connection st) (connections (db s0))) = false →
  ∃ s', check_available world block (Some ip) s = Ok (None, s') ∧ outage s'.
Proof.
  intros Hconn Hc0 Hle Hfail. unfold check_available. rewrite (prog_bind_ok _ _ _ _ _ Hconn). cbv iota.
  destruct (retrieve_cached _ _ _ _ Hc0) as (s1 & Hr1 & Hc1 & Hs1 & _). rewrite (prog_bind_ok _ _ _ _ _ Hr1). cbv iota beta.
  set (st1 := with_params dbmysql_clearParameters st) in *.
  destruct (bind_arguments_cached _ s1 k st1 [AString (Some ip)] _ Hc1 eq_refl) as (s2 & Hb2 & Hc2 & Hs2 & _).
  rewrite (prog_bind_ok _ _ _ _ _ Hb2). set (st2 := with_params _ st1) in *.
  assert (Hdb2 : db s2 = db s0 ∧ executes s2 = executes s0) by (rewrite Hs2; cbn; by rewrite Hs1). destruct Hdb2 as [Hdb2 Hex2].
  destruct (execute_query_fails _ s2 k st2 Hc2) as (s3 & Hx3 & Hc3 & Hdb3 & Hconn3); [by rewrite Hdb2, Hex2|].
  rewrite (prog_bind_ok _ _ _ _ _ Hx3). cbv iota. destruct (try_reconnect_ok world s3) as (s4 & Ht4 & Hrel).
  rewrite (prog_bind_ok _ _ _ _ _ Ht4). exists s4. split; [done|]. destruct Hrel as [A1 A2 A3 A4 A5 A6 A7 A8 A9].
  rewrite Hdb3, Hdb2 in A7, A9. split; [|done]. exists k, st2. split_and!; [|cbn; lia|done|].
  - destruct Hc3 as (h & Hf & Hh). exists h. by rewrite A2.
  - intros Hc4. specialize (A9 Hc4). cbn. lia.
Qed.

(** What the manual of the client library says: closing a connection makes the statements
    that were prepared on it unusable. *)
Hypothesis closed_statements_fail : ∀ n c c', c ≠ c' → x_ok (execute_answer world n c c') = false.

(** What [connect_to_database] makes of a service without connection. *)
Lemma connect_unconnected s : connected s = false → db_connected (db s) = false →
  ∃ ok s1, connect_to_database world false s = Ok (ok, s1) ∧ connected s1 = ok ∧ db_connected (db s1) = ok ∧ holders s1 = holders s ∧
    connections (db s1) = (connections (db s) + if ok then 1 else 0)%nat.
Proof.
  intros Hc Hd. unfold connect_to_database, dbmysql_connect. rewrite Hc, Hd, andb_true_r.
  destruct (enabled s); [destruct (connect_answer world (connects s))|]; eexists _, _; (split; [done|]); cbn; rewrite ?Hc, ?Hd; split_and!; done || lia.
Qed.

Lemma stale_check ip s : stale s → ∃ s', check_available world block (Some ip) s = Ok (None, s') ∧ outage s'.
Proof.
  intros (k & st & Hc & Hle & Hlink & Hnew). destruct (connected s) eqn:Hconn.
  - specialize (Hnew eq_refl). apply (check_fails ip s _ k st (connect_connected s Hconn)); [done|cbn; lia|].
    apply closed_statements_fail. cbn. lia.
  - destruct (connect_unconnected s Hconn Hlink) as (ok & s1 & Hs1 & Hc1 & Hd1 & Hh1 & Hn1).
    assert (Hcached : cached SQL_CHECK_AVAILABLE s1 k st) by (destruct Hc as (h & ? & ?); exists h; by rewrite Hh1).
    destruct ok.
    + apply (check_fails ip s s1 k st Hs1); [done|lia|]. apply closed_statements_fail. lia.
    + exists s1. split; [unfold check_available; by rewrite (prog_bind_ok _ _ _ _ _ Hs1)|]. split; [|congruence]. exists k, st.
      split_and!; [done|lia|congruence|congruence].
Qed.

Lemma elapsed_seconds t dt : elapsed_time (Timeval (tv_sec t + dt) (tv_usec t)) t = dt * 1000000.
Proof. rewrite elapsed_time_exact. unfold usec_of. cbn. lia. Qed.

Lemma outage_visit mx dt ip s : 300 ≤ mx → 0 ≤ dt ≤ 300 → outage s → ∃ s', visit mx (dt, ip) s = Ok (None, s') ∧ outage s'.
Proof.
  intros Hmx Hdt Ho. unfold visit. cbn [fst snd]. set (t := Timeval (tv_sec (clock s) + dt) (tv_usec (clock s))).
  rewrite (prog_bind_ok _ _ s () (set_clock t s)), (prog_bind_ok get _ (set_clock t s) (set_clock t s) (set_clock t s)) by done.
  destruct Ho as [Hst Hyoung].
  assert (Hidle : close_idle (clock (set_clock t s)) (set_clock t s) = Ok ((), set_clock t s) ∧
    db_service_done mx (set_clock t s) = Ok ((), set_clock t s)).
  { unfold close_idle, db_service_done. rewrite !(prog_bind_ok get _ (set_clock t s) (set_clock t s) (set_clock t s)) by done.
    cbn [connected clock recent_use_time connection_time set_clock]. destruct (connected s) eqn:Hconn; [|done].
    destruct (Hyoung eq_refl) as (Hct & Hru). rewrite Hct, Hru. unfold t. rewrite !elapsed_seconds. unfold database_timeout.
    rewrite !(proj2 (Z.ltb_ge _ _)) by lia. done. }
  destruct Hidle as [Hi Hd]. rewrite (prog_bind_ok _ _ _ _ _ Hi), (prog_bind_ok _ _ _ _ _ Hd). by apply stale_check.
Qed.

Lemma outage_visits mx vs : ∀ s, 300 ≤ mx → Forall (λ v, 0 ≤ v.1 ≤ 300) vs → outage s →
  ∃ s', visits mx vs s = Ok (replicate (length vs) None, s') ∧ outage s'.
Proof.
  induction vs as [|[dt ip] vs IH]; intros s Hmx Hvs Ho; [by exists s|]. apply list.Forall_cons in Hvs as [Hdt Hvs].
  cbn [visits length replicate]. destruct (outage_visit mx dt ip s Hmx Hdt Ho) as (s1 & Hv & Ho1). rewrite (prog_bind_ok _ _ _ _ _ Hv).
  destruct (IH s1 Hmx Hvs Ho1) as (s2 & Hvs2 & Ho2). rewrite (prog_bind_ok _ _ _ _ _ Hvs2). by exists s2.
Qed.
End outage.

(** C16: once the connection to the database was lost, clients are not looked up any more:
    when a cached statement fails on the current connection, the service connects again but
    keeps the statement, and closed connections make their statements unusable; so this
    check and the checks of all clients that come at intervals of at most 300 seconds answer
    [NULL], whatever the database would say, and although idle and old connections are
    closed in between. *)
Theorem lost_connection_not_recovered `{MysqlClient} (world : database) block mx ip vs s k st :
  (∀ n c c', c ≠ c' → x_ok (execute_answer world n c c') = false) → 300 ≤ mx → Forall (λ v, 0 ≤ v.1 ≤ 300) vs →
  connected s = true → cached SQL_CHECK_AVAILABLE s k st → connection st = connections (db s) →
  x_ok (execute_answer world (executes s) (connection st) (connection st)) = false →
  ∃ s1 s2, check_available world block (Some ip) s = Ok (None, s1) ∧
    visits world block mx vs s1 = Ok (replicate (length vs) None, s2).
Proof.
  intros Hclosed Hmx Hvs Hconn Hc Heq Hfail.
  destruct (check_fails world block ip s _ k st (connect_connected world s Hconn)) as (s1 & H1 & Ho1); [done|cbn; lia|cbn; by rewrite <- Heq|].
  destruct (outage_visits world block Hclosed mx vs s1 Hmx Hvs Ho1) as (s2 & H2 & _). by exists s1, s2.
Qed.

(** ** What the database is told *)

Section telling.
Context `{MysqlClient} (world : database).

Definition argument_setter (a : argument) : setter :=
  match a with AInt z => SetInt z | AString t => SetString (default EmptyString t) end.

(** An [int], or a text that is not [NULL]. *)
Definition argument_ok (a : argument) : Prop := match a with AInt z => is_int z | AString t => is_Some t end.

Definition argument_value (a : argument) : sql_value := setter_value (argument_setter a).

Fixpoint numbered (i : Z) (args : list argument) : list (Z * setter) :=
  match args with [] => [] | a :: args' => (i, argument_setter a) :: numbered (i + 1) args' end.

Lemma set_arguments_setters args : ∀ i ps, Forall argument_ok args →
  set_arguments i args ps = Ok (foldl (λ ps c, apply_setter c ps) ps (numbered i args)).
Proof.
  induction args as [|a args IH]; intros i ps Hok; [done|]. apply list.Forall_cons in Hok as [Ha Hok]. cbn [set_arguments numbered foldl].
  destruct a as [z|t]; cbn [set_argument]; [by rewrite bind_ok, IH|]. destruct Ha as [t' ->]. cbn. by rewrite IH.
Qed.

Lemma numbered_ok args : ∀ i, Forall argument_ok args → Forall (λ c, setter_ok c.2) (numbered i args).
Proof.
  induction args as [|a args IH]; intros i Hok; [constructor|]. apply list.Forall_cons in Hok as [Ha Hok]. constructor; [|by apply IH].
  destruct a; cbn in *; [unfold is_int, INT_MIN, INT_MAX in Ha; lia|done].
Qed.

Lemma assign_numbered args : ∀ pre, foldl (λ vs c, assign c vs) (pre ++ replicate (length args) SqlNull) (numbered (Z.of_nat (length pre) + 1) args)
  = pre ++ map argument_value args.
Proof.
  induction args as [|a args IH]; intros pre; cbn [numbered foldl length replicate map]; [done|].
  unfold assign at 2. cbn [fst snd]. rewrite length_app, (proj2 (Z.leb_le _ _)), (proj2 (Z.leb_le _ _)) by (cbn; lia).
  cbn [andb]. replace (Z.to_nat (Z.of_nat (length pre) + 1 - 1)) with (length pre + 0)%nat by lia.
  rewrite insert_app_r. cbn [insert list_insert]. rewrite (cons_middle (setter_value _)), (app_assoc pre).
  specialize (IH (pre ++ [setter_value (argument_setter a)])). rewrite length_app in IH. cbn [length] in IH.
  replace (Z.of_nat (length pre) + 1 + 1) with (Z.of_nat (length pre + 1) + 1) by lia. rewrite IH. by rewrite <- app_assoc.
Qed.

(** The values that are sent when a statement's parameters are cleared and all set. *)
Lemma arguments_sent args ps ps' : Forall argument_ok args → length ps = length args →
  set_arguments 1 args (dbmysql_clearParameters ps) = Ok ps' → sent_values ps' = map argument_value args.
Proof.
  intros Hok Hl. rewrite set_arguments_setters by done. intros [= <-]. rewrite setters_round_trip by by apply numbered_ok.
  rewrite cleared_values, Hl. apply (assign_numbered args []).
Qed.

(** A statement whose parameters are clear is given arguments and executed: they are told as
    they are, and the statement stays on its connection. *)
Lemma bound_update q args s1 k h st ps :
  find_query q (holders s1) = Some (k, h) → params st = dbmysql_clearParameters ps → length ps = length args → Forall argument_ok args →
  let x := execute_answer world (executes s1) (connection st) (connections (db s1)) in
  ∃ st1 s2 s' st', bind_arguments k st args s1 = Ok (st1, s2) ∧
    execute_update world q k st1 s2 = Ok (if x_ok x then int32 (x_rows x) else -1, s') ∧
    told s' = (q, map argument_value args, x_ok x) :: told s1 ∧ db s' = db s1 ∧ connects s' = connects s1 ∧ executes s' = S (executes s1) ∧
    connected s' = connected s1 ∧ enabled s' = enabled s1 ∧ others q s1 s' ∧
    find_query q (holders s') = Some (k, with_stmt (Some st') h) ∧ connection st' = connection st ∧ length (params st') = length args.
Proof.
  intros Hf Hps Hl Hok x. pose proof (set_arguments_setters args 1 (params st) Hok) as Hset.
  set (ps' := foldl _ _ _) in Hset. set (st1 := with_params (λ _, ps') st).
  set (s2 := set_holders (alter (with_stmt (Some st1)) k (holders s1)) s1).
  assert (Hbind : bind_arguments k st args s1 = Ok (st1, s2)).
  { unfold bind_arguments. rewrite (prog_bind_ok _ _ s1 ps' s1) by (unfold lift; by rewrite Hset). done. }
  exists st1, s2. unfold execute_update.
  set (s3 := set_told ((q, sent_values ps', x_ok x) :: told s1) (set_counts (connects s1) (prepares s1) (S (executes s1)) s2)).
  rewrite (prog_bind_ok (execute world q st1) _ s2 x s3) by done.
  assert (Hsent : sent_values ps' = map argument_value args) by (apply (arguments_sent args ps); [done..|by rewrite <- Hps]).
  assert (Hlen : length ps' = length args).
  { pose proof (f_equal length Hsent) as He. rewrite length_map in He. rewrite <- He. unfold sent_values. by rewrite ?length_map, ?length_fmap. }
  destruct (dbmysql_executeUpdate (x_ok x) (x_rows x) st1) as [rows st2] eqn:Hu.
  assert (rows = (if x_ok x then int32 (x_rows x) else -1) ∧ connection st2 = connection st ∧ params st2 = ps') as (-> & Hc2 & Hp2).
  { unfold dbmysql_executeUpdate, dbmysql_local_execute in Hu. by destruct (x_ok x); simplify_eq. }
  pose proof (find_query_alter q _ k h (Some st1) Hf) as Hf1.
  eexists _, st2. split; [done|]. split; [done|]. cbn. rewrite Hsent, Hp2. split_and!; try done.
  - intros q' Hq. etransitivity; [exact (find_query_alter_ne q q' _ k _ (Some st2) Hf1 Hq)|exact (find_query_alter_ne q q' _ k _ (Some st1) Hf Hq)].
  - exact (find_query_alter q _ k _ (Some st2) Hf1).
Qed.

(** The whole update, wherever the statement came from. *)
Lemma update_retrieved q args s s0 s1 k h st ps :
  connect_to_database world false s = Ok (true, s0) → retrieve_statement world q s0 = Ok (Some (k, st), s1) →
  find_query q (holders s1) = Some (k, h) → params st = dbmysql_clearParameters ps → length ps = length args → Forall argument_ok args →
  let x := execute_answer world (executes s1) (connection st) (connections (db s1)) in
  ∃ s' st', run_update world q args s = Ok (if x_ok x then int32 (x_rows x) else -1, s') ∧
    told s' = (q, map argument_value args, x_ok x) :: told s1 ∧ db s' = db s1 ∧ connects s' = connects s1 ∧
    connected s' = connected s1 ∧ enabled s' = enabled s1 ∧
    find_query q (holders s') = Some (k, with_stmt (Some st') h) ∧ connection st' = connection st ∧ length (params st') = length args.
Proof.
  intros Hconn Hret Hf Hps Hl Hok x. unfold run_update. rewrite (prog_bind_ok _ _ _ _ _ Hconn). cbv iota.
  rewrite (prog_bind_ok _ _ _ _ _ Hret). cbv iota beta.
  destruct (bound_update q args s1 k h st ps Hf Hps Hl Hok) as (st1 & s2 & s' & st' & Hb & Hu & Ht & Hdb & Hcn & _ & Hct & He & _ & Hf' & Hc' & Hl').
  rewrite (prog_bind_ok _ _ _ _ _ Hb). exists s', st'. by split_and!.
Qed.

Lemma update_cached q args s k st : connected s = true → cached q s k st → Forall argument_ok args → length (params st) = length args →
  let x := execute_answer world (executes s) (connection st) (connections (db s)) in
  ∃ s', run_update world q args s = Ok (if x_ok x then int32 (x_rows x) else -1, s') ∧
    told s' = (q, map argument_value args, x_ok x) :: told s ∧ db s' = db s ∧ connects s' = connects s.
Proof.
  intros Hconn Hc Hok Hl x. destruct (retrieve_cached world q (set_recent (clock s) s) k st Hc) as (s1 & Hr1 & (h & Hf & _) & Hs1 & _).
  destruct (update_retrieved q args s _ s1 k h _ (params st) (connect_connected world s Hconn) Hr1 Hf eq_refl Hl Hok)
    as (s' & st' & Hu & Ht & Hdb & Hcn & _).
  exists s'. rewrite Hs1 in *. by split_and!.
Qed.

(** The end of a connection, and the details of an activation, are told to the database
    parameter for parameter as they are; only the number of bytes, which can exceed an
    [int], is cut to 32 bits. The account is told as the empty text when the connection has
    no request. What the database says about the rows is returned, -1 after a failure. *)
Theorem database_is_told s k st k' st' :
  connected s = true → cached SQL_CONNECTION_CLOSE s k st → length (params st) = 4%nat →
  cached SQL_ADD_DETAILS s k' st' → length (params st') = 9%nat →
  (∀ sn bytes count idle, is_int sn → is_int count →
    ∃ s1, connection_close world sn bytes count idle s = Ok ((), s1) ∧
      told s1 = (SQL_CONNECTION_CLOSE, [SqlInt (int32 bytes); SqlInt count;
                  SqlText (if idle then "timeout" else "normal"); SqlInt sn],
                 x_ok (execute_answer world (executes s) (connection st) (connections (db s)))) :: told s) ∧
  (∀ account ip workstation major minor app_id kms_id cmid minutes, is_int major → is_int minor → is_int minutes →
    ∃ r s1, add_kms_details world (Some <$> account) (Some ip) (Some workstation) major minor (Some app_id) (Some kms_id) (Some cmid) minutes s
        = Ok (r, s1) ∧
      (x_ok (execute_answer world (executes s) (connection st') (connections (db s))) = false → r = -1) ∧
      told s1 = (SQL_ADD_DETAILS, [SqlText (default EmptyString account); SqlText ip; SqlText workstation; SqlInt major;
                  SqlInt minor; SqlText app_id; SqlText kms_id; SqlText cmid; SqlInt minutes],
                 x_ok (execute_answer world (executes s) (connection st') (connections (db s)))) :: told s).
Proof.
  intros Hconn Hc Hl Hc' Hl'. split.
  - intros sn bytes count idle Hsn Hcount. unfold connection_close. set (args := [_; _; _; _]).
    destruct (update_cached SQL_CONNECTION_CLOSE args s k st Hconn Hc) as (s1 & Hu & Ht & _); [|done|].
    { repeat (apply list.Forall_cons; split; [first [done|apply int32_range|by eexists]|]). by apply list.Forall_nil. }
    rewrite (prog_bind_ok _ _ _ _ _ Hu). eexists. split; [done|]. rewrite Ht. by destruct idle.
  - intros account ip workstation major minor app_id kms_id cmid minutes H1 H2 H3. unfold add_kms_details. set (args := [_; _; _; _; _; _; _; _; _]).
    destruct (update_cached SQL_ADD_DETAILS args s k' st' Hconn Hc') as (s1 & Hu & Ht & _); [|done|].
    { repeat (apply list.Forall_cons; split; [first [done|by eexists|by destruct account; eexists]|]). by apply list.Forall_nil. }
    eexists _, _. split; [exact Hu|]. split; [by intros ->|]. rewrite Ht. by destruct account.
Qed.
End telling.

(** ** Product names *)

Section products.
Context `{MysqlClient} (world : database).
Context {M : Type} `{StringMap string M}.

(** [malloc] and [sprintf ("%s-%s")]; null pointers are followed. *)
Definition allocate_product_name_key (app_id kms_id : option string) : outcome string :=
  match app_id, kms_id with
  | Some a, Some k => Ok (a +:+ String "-"%char k)
  | _, _ => Undefined NullDeref
  end.

(** The map keeps the key and the copy of the name; the key is freed if there was a name. *)
Definition product_names_callback (m : M) (app_id kms_id product_name : option string) : outcome M :=
  key ← allocate_product_name_key app_id kms_id;
  match product_name with
  | Some p => '(origin, m') ← sm_put true m key (Some p); Ok m'
  | None => Undefined NullDeref
  end.

Fixpoint product_rows (res : result) (fs : list fetched) (cols : list param) (m : M) : outcome M :=
  match fs with
  | [] => Ok m
  | f :: fs' =>
      let '(row, _, cols1) := dbmysql_result_next f cols in
      if (row : bool) then
        '(app_id, cols2) ← dbmysql_result_getString res 1 (row_cell f 1) cols1;
        '(kms_id, cols3) ← dbmysql_result_getString res 2 (row_cell f 2) cols2;
        '(product, cols4) ← dbmysql_result_getString res 3 (row_cell f 3) cols3;
        m' ← product_names_callback m app_id kms_id product;
        product_rows res fs' cols4 m'
      else Ok m
  end.

Definition read_all_product_names (m : M) : prog (bool * M) :=
  ok ← connect_to_database world false;
  if (ok : bool) then
    p ← retrieve_statement world SQL_ALL_PRODUCT_NAMES;
    match p with
    | None => mret (true, m)
    | Some (k, st) =>
        r ← execute_query world SQL_ALL_PRODUCT_NAMES k st;
        match r with
        | None => mret (true, m)
        | Some (res, fs, cols) =>
            m' ← lift (product_rows res fs cols m);
            close_result;; mret (true, m')
        end
    end
  else mret (true, m).

Definition reload_product_names (m : M) : prog M := r ← read_all_product_names m; mret (r.2).

Definition get_product_name (m : M) (app_id kms_id : option string) : outcome (option string) :=
  key ← allocate_product_name_key app_id kms_id; sm_get m key.

(** *** Set-up *)

(** The queries of the configuration; [str] is [sysconf->str]. *)
Definition load_queries (str : string → option string) (hs : list queries_and_statements) : list queries_and_statements :=
  map (λ h, match query_name h, query h with
            | Some n, None => Holder (index h) (query_name h) (str n) (holder_stmt h)
            | _, _ => h
            end) hs.

(** [enable]: [enable-database]. Nothing is changed when it was done before. *)
Definition new_database_service (enable : Z) (str : string → option string) (now : timeval) : service :=
  let on := negb (enable =? 0) in
  Service on false newInstance (if on then load_queries str stmt_holder else stmt_holder)
    (Timeval 0 0) (Timeval 0 0) now 0 0 0 0 [] (Ledger 0 0 0 0).
End products.

(** *** Reloading the names *)

Section product_names.
Context `{MysqlClient} (world : database).
Context {M : Type} `{StringMapLaws string M}.

Definition text_field (n : string) : db_field := DbField n MYSQL_TYPE_VARCHAR.
Definition text_bind : mysql_bind := bind_of_field MYSQL_TYPE_VARCHAR.
Definition product_fields : list db_field := [text_field "app_id"; text_field "kms_id"; text_field "product"].

Definition product_key (a k : string) : string := a +:+ String "-"%char k.

(** A product: application, activation server, name. *)
Definition product_row : Type := string * string * string.
Definition row_fetch (r : product_row) : fetched := let '(a, k, p) := r in FetchRow [SqlText a; SqlText k; SqlText p].
Definition row_ok (m : M) (r : product_row) : Prop :=
  let '(a, k, p) := r in a ≠ EmptyString ∧ k ≠ EmptyString ∧ p ≠ EmptyString ∧ sm_key m (product_key a k).

(** The specification: each row is entered under its key. *)
Definition enter_products (rows : list product_row) (gm : gmap string (option string)) : gmap string (option string) :=
  foldl (λ gm r, let '(a, k, p) := r in <[product_key a k := Some p]> gm) gm rows.

Lemma get_text res i t b d cols : (1 ≤ i ≤ number_fields res) → cols !! Z.to_nat (i - 1) = Some (b, d) →
  is_null d = false → real_length d = strlen t → t ≠ EmptyString →
  ∃ f, dbmysql_result_getString res i (SqlText t) cols = Ok (Some t, set_param f i cols) ∧ ∀ p, (f p).1 = p.1.
Proof.
  intros Hi Hc Hn Hr Ht. unfold dbmysql_result_getString, column. rewrite !(proj2 (Z.leb_le _ _)) by lia. cbn [andb]. rewrite Hc.
  cbn [fmap option_fmap option_map snd]. rewrite Hn, Hr. rewrite (proj2 (Z.ltb_lt _ _)).
  2:{ destruct t; [done|]. unfold strlen. cbn [String.length]. lia. }
  rewrite fetch_text_ok, Z.leb_refl by done. eexists. split; [done|]. done.
Qed.

(** The three columns, whatever they hold. *)
Definition text_columns (cols : list param) : Prop := map fst cols = [text_bind; text_bind; text_bind].

Lemma set_param_fst f i cols : (∀ p, (f p).1 = p.1) → map fst (set_param f i cols) = map fst cols.
Proof.
  intros Hf. unfold set_param. destruct (_ && _); [|done]. apply list_eq. intros j. rewrite !list_lookup_fmap.
  destruct (decide (j = Z.to_nat (i - 1))) as [->|Hne].
  - rewrite list_lookup_alter_eq. destruct (cols !! _); [|done]. cbn. by rewrite Hf.
  - by rewrite list_lookup_alter_ne.
Qed.

Lemma read_row a k p cols : text_columns cols → a ≠ EmptyString → k ≠ EmptyString → p ≠ EmptyString →
  let cols1 := fetch_row [SqlText a; SqlText k; SqlText p] cols in
  ∃ cols2 cols3 cols4,
    dbmysql_result_getString (Result product_fields) 1 (SqlText a) cols1 = Ok (Some a, cols2) ∧
    dbmysql_result_getString (Result product_fields) 2 (SqlText k) cols2 = Ok (Some k, cols3) ∧
    dbmysql_result_getString (Result product_fields) 3 (SqlText p) cols3 = Ok (Some p, cols4) ∧ text_columns cols4.
Proof.
  intros Ht Ha Hk Hp. destruct cols as [|[b1 d1] [|[b2 d2] [|[b3 d3] [|? ?]]]]; try done. injection Ht as -> -> ->. cbn zeta.
  unfold fetch_row. cbn [zip_with fst snd].
  destruct (store_text text_bind a d1) as [Hn1 Hr1]; [done..|]. destruct (store_text text_bind k d2) as [Hn2 Hr2]; [done..|].
  destruct (store_text text_bind p d3) as [Hn3 Hr3]; [done..|].
  set (c1 := (text_bind, store text_bind (SqlText a) d1)). set (c2 := (text_bind, store text_bind (SqlText k) d2)).
  set (c3 := (text_bind, store text_bind (SqlText p) d3)).
  destruct (get_text (Result product_fields) 1 a text_bind (store text_bind (SqlText a) d1) [c1; c2; c3]) as (f1 & G1 & Hf1); try done.
  destruct (get_text (Result product_fields) 2 k text_bind (store text_bind (SqlText k) d2) (set_param f1 1 [c1; c2; c3])) as (f2 & G2 & Hf2); try done.
  destruct (get_text (Result product_fields) 3 p text_bind (store text_bind (SqlText p) d3) (set_param f2 2 (set_param f1 1 [c1; c2; c3])))
    as (f3 & G3 & Hf3); try done.
  eexists _, _, _. split; [exact G1|]. split; [exact G2|]. split; [exact G3|]. unfold text_columns. by rewrite !set_param_fst.
Qed.

Lemma product_rows_ok rows : ∀ cols m gm, text_columns cols → Forall (row_ok m) rows → sm_rep m gm →
  ∃ m', product_rows (Result product_fields) (map row_fetch rows) cols m = Ok m' ∧ sm_rep m' (enter_products rows gm) ∧
    ∀ k, sm_key m k → sm_key m' k.
Proof.
  induction rows as [|[[a k] p] rows IH]; intros cols m gm Ht Hrows Hrep; [by exists m|].
  apply list.Forall_cons in Hrows as [(Ha & Hk & Hp & Hkey) Hrows]. cbn [map row_fetch product_rows dbmysql_result_next].
  destruct (read_row a k p cols Ht Ha Hk Hp) as (cols2 & cols3 & cols4 & H1' & H2' & H3' & Ht4).
  set (f := FetchRow [SqlText a; SqlText k; SqlText p]).
  change (row_cell f 1) with (SqlText a). change (row_cell f 2) with (SqlText k). change (row_cell f 3) with (SqlText p).
  rewrite H1'. cbn [mbind outcome_bind]. rewrite H2'. cbn [mbind outcome_bind]. rewrite H3'. cbn [mbind outcome_bind].
  unfold product_names_callback, allocate_product_name_key. cbn [mbind outcome_bind]. fold (product_key a k).
  destruct (sm_put_ok m gm (product_key a k) (Some p) Hrep Hkey) as (m1 & -> & Hrep1 & Hkeys). cbn [mbind outcome_bind].
  destruct (IH cols4 m1 (<[product_key a k:=Some p]> gm) Ht4) as (m2 & Hm2 & Hrep2 & Hkeys2); [|exact Hrep1|].
  { eapply list.Forall_impl; [exact Hrows|]. intros [[a' k'] p'] (? & ? & ? & ?). repeat split; try done. by apply Hkeys. }
  exists m2. split; [exact Hm2|]. split; [exact Hrep2|]. intros k' Hk'. by apply Hkeys2, Hkeys.
Qed.

(** A query that succeeds, with columns. *)
Lemma execute_query_succeeds q s k st fs : cached q s k st →
  let x := execute_answer world (executes s) (connection st) (connections (db s)) in
  x_ok x = true → x_meta x = Some fs →
  ∃ s' st', execute_query world q k st s = Ok (Some (Result fs, x_fetches x, new_columns fs), s') ∧
    cached q s' k st' ∧ connection st' = connection st ∧ params st' = params st ∧
    connected s' = connected s ∧ db s' = db s ∧ executes s' = S (executes s) ∧ told s' = (q, sent_values (params st), true) :: told s ∧
    others q s s'.
Proof.
  intros Hc x Hx Hm. unfold execute_query.
  set (s1 := set_told ((q, sent_values (params st), true) :: told s) (set_counts (connects s) (prepares s) (S (executes s)) s)).
  rewrite (prog_bind_ok (execute world q st) _ s x s1) by (unfold execute; fold x; by rewrite Hx).
  rewrite (prog_bind_ok DbService.get _ s1 s1 s1) by done.
  unfold dbmysql_executeQuery. rewrite Hx, Hm. cbn [dbmysql_local_execute internal_fetch_result].
  set (m := Ledger _ _ _ _). set (st' := Stmt _ _ _ _). rewrite (prog_bind_ok _ _ s1 () (set_memory m s1)) by done.
  destruct (put_stmt_cached q (set_memory m s1) k st st' Hc) as (s2 & Hput & Hc2 & Hs2 & Ho).
  rewrite (prog_bind_ok _ _ _ _ _ Hput). exists s2, st'. split; [done|]. split; [done|]. rewrite Hs2 in *. by split_and!.
Qed.

Lemma reload_ok (m : M) gm rows s k st :
  connected s = true → cached SQL_ALL_PRODUCT_NAMES s k st → sm_rep m gm → Forall (row_ok m) rows →
  let x := execute_answer world (executes s) (connection st) (connections (db s)) in
  x_ok x = true → x_meta x = Some product_fields → x_fetches x = map row_fetch rows →
  ∃ m' s', reload_product_names world m s = Ok (m', s') ∧ sm_rep m' (enter_products rows gm) ∧ ∀ k, sm_key m k → sm_key m' k.
Proof.
  intros Hconn Hc Hrep Hrows x Hx Hm Hf.
  destruct (product_rows_ok rows (new_columns product_fields) m gm eq_refl Hrows Hrep) as (m' & Hm' & Hrep' & Hkeys).
  set (s0 := set_recent (clock s) s). assert (Hc0 : cached SQL_ALL_PRODUCT_NAMES s0 k st) by done.
  destruct (retrieve_cached world _ s0 k st Hc0) as (s1 & Hr1 & Hc1 & Hs1 & _).
  set (st1 := with_params dbmysql_clearParameters st) in *.
  assert (Heq : execute_answer world (executes s1) (connection st1) (connections (db s1)) = x) by (by rewrite Hs1).
  destruct (execute_query_succeeds SQL_ALL_PRODUCT_NAMES s1 k st1 product_fields Hc1) as (s2 & ? & Hx2 & _); [by rewrite Heq..|].
  rewrite Heq, Hf in Hx2.
  assert (Hrun : ∃ s', read_all_product_names world m s = Ok ((true, m'), s')).
  { unfold read_all_product_names. rewrite (prog_bind_ok _ _ _ _ _ (connect_connected world s Hconn)). cbv iota.
    rewrite (prog_bind_ok _ _ _ _ _ Hr1). cbv iota beta. rewrite (prog_bind_ok _ _ _ _ _ Hx2). cbv iota beta.
    rewrite (prog_bind_ok (lift _) _ s2 m' s2) by (unfold lift; by rewrite Hm'). by eexists. }
  destruct Hrun as (s3 & Hrun). exists m', s3. split; [|done]. unfold reload_product_names.
  by rewrite (prog_bind_ok _ _ _ _ _ Hrun).
Qed.
End product_names.


(** Two products can have one key. *)
Example product_keys_collide : product_key "win-10" "pro" = product_key "win" "10-pro".
Proof. done. Qed.

(** ** The block of a request *)

(** The request that [check_available] returns does not fit the memory allocated for it:
    where an allocation gives no more than was asked for, the size of a pointer, every
    client the database knows leads to writing outside the block. *)
Theorem request_overflows_block `{MysqlClient} (world : database) ip s k st fs row rest :
  connected s = true → cached SQL_CHECK_AVAILABLE s k st →
  let x := execute_answer world (executes s) (connection st) (connections (db s)) in
  x_ok x = true → x_meta x = Some fs → x_fetches x = FetchRow row :: rest →
  returns (dbmysql_result_getString (Result fs) 2 (row_cell (FetchRow row) 2) (fetch_row row (new_columns fs))) →
  check_available world 8 (Some ip) s = Undefined OutOfBounds.
Proof.
  intros Hconn Hc x Hx Hm Hf [[account cols2] Hacc]. unfold check_available.
  rewrite (prog_bind_ok _ _ _ _ _ (connect_connected world s Hconn)). cbv iota.
  set (s0 := set_recent _ s). assert (Hc0 : cached SQL_CHECK_AVAILABLE s0 k st) by done.
  destruct (retrieve_cached world _ _ _ _ Hc0) as (s1 & Hr1 & Hc1 & Hs1 & _). rewrite (prog_bind_ok _ _ _ _ _ Hr1). cbv iota beta.
  set (st1 := with_params dbmysql_clearParameters st) in *.
  destruct (bind_arguments_cached _ s1 k st1 [AString (Some ip)] _ Hc1 eq_refl) as (s2 & Hb2 & Hc2 & Hs2 & _).
  rewrite (prog_bind_ok _ _ _ _ _ Hb2). set (st2 := with_params _ st1) in *.
  assert (Heq : execute_answer world (executes s2) (connection st2) (connections (db s2)) = x)
    by (rewrite Hs2; cbn; by rewrite Hs1).
  destruct (execute_query_succeeds world _ s2 k st2 fs Hc2) as (s3 & ? & Hx3 & _); [by rewrite Heq..|]. rewrite Heq, Hf in Hx3.
  rewrite (prog_bind_ok _ _ _ _ _ Hx3). cbv iota beta.
  unfold first_fetch, id. cbn [head from_option dbmysql_result_next]. unfold mbind at 1, prog_bind at 1. cbv iota beta. rewrite (prog_bind_ok (lift _) _ s3 (account, cols2) s3) by (unfold lift; by rewrite Hacc).
  done.
Qed.

(** ** Concrete runs *)

#[local] Existing Instance sample_client.

(** A database whose executions on the current connection answer [x]. *)
Definition answering (x : execution) : database :=
  Database (λ _, true) (λ _ _, Some 2%nat) (λ _ c c', if decide (c = c') then x else Execution false 2013 0 None []).

Definition sample_stmt (n : nat) : stmt := Stmt 1 (replicate n (zero_bind, zero_data)) None 0.

(** Connected, with statements of [n] parameters. *)
Definition sample_service (n m : nat) : service :=
  Service true true (DbData true 1)
    (alter (with_stmt (Some (sample_stmt 9))) 9%nat (alter (with_stmt (Some (sample_stmt m))) 1%nat
      (alter (with_stmt (Some (sample_stmt n))) 0%nat (alter (with_stmt (Some (sample_stmt 0))) 13%nat stmt_holder))))
    (Timeval 0 0) (Timeval 0 0) (Timeval 100 0) 0 1 2 0 [] (Ledger 0 0 2 2).

Definition failing_database : database := answering (Execution false 2006 0 None []).

Lemma lost_connection_not_recovered_witness :
  ∃ s1 s2, check_available failing_database 24 (Some "10.0.0.1"%string) (sample_service 1 4) = Ok (None, s1) ∧
    visits failing_database 24 3600 [(60, "10.0.0.2"%string); (299, "10.0.0.3"%string)] s1 = Ok ([None; None], s2).
Proof.
  apply (lost_connection_not_recovered failing_database 24 3600 "10.0.0.1" [(60, "10.0.0.2"%string); (299, "10.0.0.3"%string)]
    (sample_service 1 4) 0 (sample_stmt 1)).
  - intros n c c' Hc. unfold failing_database, answering. cbn. by destruct (decide (c = c')).
  - lia.
  - repeat (apply list.Forall_cons; split; [cbn; lia|]). by apply list.Forall_nil.
  - done.
  - by eexists.
  - done.
  - done.
Defined.

Definition updating_database : database := answering (Execution true 0 1 None []).

Lemma database_is_told_witness :
  ∃ s1, connection_close updating_database 7 4294967300 12 true (sample_service 1 4) = Ok ((), s1) ∧
    told s1 = [(SQL_CONNECTION_CLOSE, [SqlInt 4; SqlInt 12; SqlText "timeout"; SqlInt 7], true)].
Proof.
  apply (database_is_told updating_database (sample_service 1 4) 1 (sample_stmt 4) 9 (sample_stmt 9)); try done; try by eexists.
Defined.

Definition product_database : database :=
  answering (Execution true 0 0 (Some product_fields) (map row_fetch [("win", "k1", "Windows"); ("off", "k1", "Office"); ("win", "k1", "Windows 11")])%string).


Definition known_client : database :=
  answering (Execution true 0 0 (Some [DbField "sn" MYSQL_TYPE_LONG; text_field "account"; DbField "channel" MYSQL_TYPE_LONG])
    [FetchRow [SqlInt 3; SqlText "user"; SqlInt 0]]).

Lemma request_overflows_block_witness :
  check_available known_client 8 (Some "10.0.0.1"%string) (sample_service 1 4) = Undefined OutOfBounds.
Proof.
  apply (request_overflows_block known_client "10.0.0.1" (sample_service 1 4) 0 (sample_stmt 1)
    [DbField "sn" MYSQL_TYPE_LONG; text_field "account"; DbField "channel" MYSQL_TYPE_LONG] [SqlInt 3; SqlText "user"; SqlInt 0] []);
    try done; [by eexists|by eexists].
Defined.

(** With the 24 bytes an allocator gives at least, the request is the row. *)
Example known_client_found :
  (λ r, match r with Ok (q, _) => q | _ => None end) (check_available known_client 24 (Some "10.0.0.1"%string) (sample_service 1 4))
    = Some (DbRequest 3 (Some "user"%string) 0).
Proof. by vm_compute. Qed.

(** A connection with a request that has no account: [setString] is given a null pointer. *)
Example null_account :
  add_kms_details updating_database (Some None) (Some "10.0.0.1") (Some "ws") 10 0 (Some "app") (Some "kms") (Some "cmid") 60
    (sample_service 1 4) = Undefined NullDeref.
Proof. by vm_compute. Qed.
