(* ===== verification/DbLookups.v ===== *)
(** * db_service.c with a database that answers

    [DbService.v] shows what the service does when a statement fails. Here the connection is
    up and the database answers: the lookups of any number of clients, one after the other,
    are told to it with the address of the client, and each returns the row it answered. *)

From S2P Require Import Prelude Utils DbMysql DbService.

Section lookups.
Context `{MysqlClient} (world : database) (block : Z).

(** ** Reading a row of three columns *)

(** A number, a text, and a number. *)
Record request_columns (fs : list db_field) : Prop := RequestColumns {
  rc_sn : ∃ f, fs !! 0%nat = Some f ∧ buffer_type (bind_of_field (fieldType f)) = TYPE_LONG;
  rc_account : ∃ f, fs !! 1%nat = Some f ∧ buffer_type (bind_of_field (fieldType f)) = TYPE_STRING;
  rc_channel : ∃ f, fs !! 2%nat = Some f ∧ buffer_type (bind_of_field (fieldType f)) = TYPE_LONG;
}.

(** The text [getString] reads. *)
Inductive reads_text : sql_value → option string → Prop :=
  | text_null : reads_text SqlNull None
  | text_empty : reads_text (SqlText EmptyString) None
  | text_some t : t ≠ EmptyString → reads_text (SqlText t) (Some t).

Lemma read_int fs (i : nat) f z cols :
  fs !! i = Some f → buffer_type (bind_of_field (fieldType f)) = TYPE_LONG → is_int z →
  column (Result fs) (Z.of_nat i + 1) cols = Some (store (bind_of_field (fieldType f)) (SqlInt z) zero_data) →
  dbmysql_result_getInt (Result fs) (Z.of_nat i + 1) cols = z.
Proof.
  intros Hf Hk Hz Hc. unfold dbmysql_result_getInt, get_union. rewrite Hc.
  destruct (store_int 32 TYPE_LONG (bind_of_field (fieldType f)) z zero_data) as [-> ->];
    [rewrite !elem_of_cons; by auto|done|by destruct (fieldType f)|].
  apply sint_write; [lia|]. unfold is_int, INT_MIN, INT_MAX in Hz. lia.
Qed.

(** Reading a text changes no other column. *)
Lemma read_text fs (i : nat) f cell t cols :
  fs !! i = Some f → buffer_type (bind_of_field (fieldType f)) = TYPE_STRING → reads_text cell t →
  column (Result fs) (Z.of_nat i + 1) cols = Some (store (bind_of_field (fieldType f)) cell zero_data) →
  ∃ cols', dbmysql_result_getString (Result fs) (Z.of_nat i + 1) cell cols = Ok (t, cols') ∧
    ∀ j : nat, j ≠ i → column (Result fs) (Z.of_nat j + 1) cols' = column (Result fs) (Z.of_nat j + 1) cols.
Proof.
  intros Hf Hk Ht Hc. unfold dbmysql_result_getString. rewrite Hc. destruct Ht as [| |t Ht].
  - rewrite store_null. by exists cols.
  - destruct (store_text (bind_of_field (fieldType f)) EmptyString zero_data) as [-> ->]; [done|by destruct (fieldType f)|]. by exists cols.
  - destruct (store_text (bind_of_field (fieldType f)) t zero_data) as [-> ->]; [done|by destruct (fieldType f)|].
    rewrite (proj2 (Z.ltb_lt _ _)) by (destruct t; [done|unfold strlen; cbn; lia]).
    rewrite fetch_text_ok, Z.leb_refl by done. eexists. split; [done|]. intros j Hj. unfold column, set_param.
    destruct (_ && _); [|done]. destruct ((1 <=? Z.of_nat i + 1) && _); [|done]. rewrite list_lookup_alter_ne; [done|lia].
Qed.

(** ** One lookup *)

(** What an execution says about the client: the request of its first row, or nothing. *)
Inductive says (x : execution) : option db_request → Prop :=
  | says_row n cell account c rest :
      x_fetches x = FetchRow [SqlInt n; cell; SqlInt c] :: rest → is_int n → is_int c → reads_text cell account →
      says x (Some (DbRequest n account c))
  | says_nothing rest : x_fetches x = [] ∨ x_fetches x = FetchNoData :: rest → says x None.

(** An execution that succeeds, with the three columns. *)
Definition answers (x : execution) (q : option db_request) : Prop :=
  x_ok x = true ∧ (∃ fs, x_meta x = Some fs ∧ request_columns fs) ∧ says x q.

(** Connected, and the statement of the lookup was prepared on this connection. *)
Definition healthy (s : service) : Prop :=
  connected s = true ∧
  ∃ k st, cached SQL_CHECK_AVAILABLE s k st ∧ connection st = connections (db s) ∧ length (params st) = 1%nat.

Lemma row_request fs n cell account c :
  request_columns fs → is_int n → is_int c → reads_text cell account →
  let cols := fetch_row [SqlInt n; cell; SqlInt c] (new_columns fs) in
  ∃ cols', dbmysql_result_getString (Result fs) 2 cell cols = Ok (account, cols') ∧
    dbmysql_result_getInt (Result fs) 1 cols = n ∧ dbmysql_result_getInt (Result fs) 3 cols' = c.
Proof.
  intros [(f1 & H1 & K1) (f2 & H2 & K2) (f3 & H3 & K3)] Hn Hc Ht cols. set (row := [SqlInt n; cell; SqlInt c]) in *.
  destruct (read_text fs 1 f2 cell account cols H2 K2 Ht) as (cols' & Hs & Hsame).
  { by apply (fetched_column fs row 1 f2 cell). }
  exists cols'. split; [exact Hs|]. split.
  - apply (read_int fs 0 f1); try done. by apply (fetched_column fs row 0 f1).
  - apply (read_int fs 2 f3); try done. rewrite Hsame by done. by apply (fetched_column fs row 2 f3).
Qed.

(** The request is written into a block that was allocated for a pointer: it holds a request, or
    there is none to write. *)
Definition fits (q : option db_request) : bool := (16 <=? block) || negb (bool_decide (is_Some q)).

(** One client: it is told to the database with its address, and the answer is returned, if its
    block holds it. *)
Lemma lookup_ok ip s q :
  healthy s → answers (execute_answer world (executes s) (connections (db s)) (connections (db s))) q →
  ∃ s', check_available world block (Some ip) s = (if fits q then Ok (q, s') else Undefined OutOfBounds) ∧
    healthy s' ∧ executes s' = S (executes s) ∧ db s' = db s ∧
    told s' = (SQL_CHECK_AVAILABLE, [SqlText ip], true) :: told s ∧ others SQL_CHECK_AVAILABLE s s'.
Proof.
  intros (Hconn & k & st & Hc & Hgen & Hlen) (Hx & (fs & Hm & Hfs) & Hsays). rewrite <- Hgen in *. set (x := execute_answer _ _ _ _) in *.
  unfold check_available. rewrite (prog_bind_ok _ _ _ _ _ (connect_connected world s Hconn)). cbv iota.
  set (s0 := set_recent _ s). assert (Hc0 : cached SQL_CHECK_AVAILABLE s0 k st) by done.
  destruct (retrieve_cached world _ _ _ _ Hc0) as (s1 & Hr1 & Hc1 & Hs1 & Ho1). rewrite (prog_bind_ok _ _ _ _ _ Hr1). cbv iota beta.
  set (st1 := with_params dbmysql_clearParameters st) in *.
  destruct (bind_arguments_cached _ s1 k st1 [AString (Some ip)] _ Hc1 eq_refl) as (s2 & Hb2 & Hc2 & Hs2 & Ho2).
  rewrite (prog_bind_ok _ _ _ _ _ Hb2). set (st2 := with_params _ st1) in *.
  assert (Hx2 : execute_answer world (executes s2) (connection st2) (connections (db s2)) = x)
    by (rewrite Hs2; cbn; rewrite Hs1; cbn; by rewrite <- Hgen).
  destruct (execute_query_succeeds world _ s2 k st2 fs Hc2) as (s3 & st3 & Hx3 & Hc3 & Hcn3 & Hp3 & Hct3 & Hdb3 & Hex3 & Htold3 & Ho3);
    [by rewrite Hx2..|]. rewrite Hx2 in Hx3. rewrite (prog_bind_ok _ _ _ _ _ Hx3). cbv iota beta.
  assert (Hsame : connected s2 = true ∧ db s2 = db s ∧ executes s2 = executes s ∧ told s2 = told s)
    by (rewrite Hs2; cbn; rewrite Hs1; by split_and!). destruct Hsame as (Hsc & Hsd & Hse & Hst).
  rewrite Hsc in Hct3. rewrite Hsd in Hdb3. rewrite Hse in Hex3. rewrite Hst in Htold3.
  assert (Hsent : sent_values (params st2) = [SqlText ip]).
  { apply (arguments_sent [AString (Some ip)] (params st)); [|by rewrite Hlen|done].
    apply list.Forall_cons. split; [by eexists|by apply list.Forall_nil]. }
  assert (Hlen2 : length (params st2) = 1%nat).
  { change (params st2) with (set_param (set_text ip) 1 (dbmysql_clearParameters (params st))).
    rewrite set_param_length. unfold dbmysql_clearParameters. by rewrite length_map. }
  assert (Hend : ∀ m, healthy (set_memory m s3) ∧ executes (set_memory m s3) = S (executes s) ∧ db (set_memory m s3) = db s ∧
    told (set_memory m s3) = (SQL_CHECK_AVAILABLE, [SqlText ip], true) :: told s ∧ others SQL_CHECK_AVAILABLE s (set_memory m s3)).
  { intros m. split; [|split; [done|split; [done|split]]].
    - split; [done|]. exists k, st3. split; [done|]. cbn. rewrite Hcn3, Hdb3, Hp3. by split.
    - cbn. by rewrite Htold3, Hsent.
    - intros q' Hq. change (holders (set_memory m s3)) with (holders s3). by rewrite Ho3, Ho2, Ho1. }
  destruct Hsays as [n cell account c rest Hf Hn Hcn Ht|rest Hf].
  - rewrite Hf. unfold first_fetch, id. cbn [head from_option dbmysql_result_next].
    change (row_cell _ 2) with cell. destruct (row_request fs n cell account c Hfs Hn Hcn Ht) as (cols' & Hacc & Hsn & Hch).
    unfold mbind at 1, prog_bind at 1. cbv iota beta. rewrite (prog_bind_ok (lift _) _ s3 (account, cols') s3) by (unfold lift; by rewrite Hacc).
    cbv iota beta. rewrite Hsn, Hch. unfold write_request, fits. rewrite orb_false_r.
    eexists. split; [|apply Hend]. by destruct (16 <=? block).
  - assert (dbmysql_result_next (first_fetch (x_fetches x)) (new_columns fs) = (false, 0, new_columns fs)) as ->
      by (destruct Hf as [-> | ->]; done).
    unfold fits. rewrite orb_true_r. eexists. split; [done|]. apply Hend.
Qed.

(** ** Any number of lookups *)

Fixpoint lookups (ips : list string) : prog (list (option db_request)) :=
  match ips with
  | [] => mret []
  | ip :: ips' => q ← check_available world block (Some ip); qs ← lookups ips'; mret (q :: qs)
  end.

End lookups.

(** ** A concrete database *)

#[local] Existing Instance sample_client.

