(* ===== verification/DbSessions.v ===== *)
(** * The ends of connections in the database

    What the proxy asks of the database, from the check of a client to [connection_close], then
    [db_service_done], which closes a connection to the database that has become too old, and
    what the timer asks ([close_idle]) is run on the service of [DbService.v], each call by the
    function that serves it. The statements and the connection they were prepared on are renewed
    together here, because the database answers and nothing connects again in between; what
    happens when a statement fails is [DbService.lost_connection_not_recovered]. *)

From S2P Require Import Prelude Heap Utils Events PacketAnalyzer ConnTable Proxying ProxySafety ProxyRuns Sessions DbMysql DbService.

Section records.
Context `{MysqlClient} (world : database) (block : Z).
(** [max-db-connection-time] *)
Variable mx : Z.

(** A call of the proxy: what is not asked of the database is served elsewhere. *)
Definition serve_call (call : service_call) : prog () :=
  match call with
  | CheckAvailable ip => _ ← check_available world block (Some ip); mret ()
  | ConnectionBlacklisted ip => _ ← connection_blacklisted world (Some ip); mret ()
  | FailGuessing ip => _ ← fail_guessing world (Some ip); mret ()
  | CheckVip ip => _ ← check_vip world (Some ip); mret ()
  | AddIpToAutoBlacklist ip => _ ← add_ip_to_auto_blacklist world (Some ip); mret ()
  | ConnectionEstablished id account ip => _ ← connection_established world id account (Some ip); mret ()
  | ConnectionNotAllowed ip => connection_not_allowed world (Some ip)
  | ConnectionClose id bytes count idle => connection_close world id bytes count idle
  | Done => db_service_done mx
  | Write _ _ | FindAndIncrease _ | CountSuccess | TouchLogTime => mret ()
  end.

(** A call at a time, or the timer's look at the connection. *)
Inductive request_at :=
  | Call (now : timeval) (call : service_call)
  | Tick (now : timeval).

Definition serve_at (r : request_at) : prog () :=
  match r with
  | Call now call => modify (set_clock now);; serve_call call
  | Tick now => modify (set_clock now);; close_idle now
  end.

Fixpoint serve_all (rs : list request_at) : prog () :=
  match rs with [] => mret () | r :: rs' => serve_at r;; serve_all rs' end.

Abbreviation entry := (query_name_enum * list sql_value * bool)%type.

(** What the database is to execute for a call that ends a connection. *)
Definition record_of (call : service_call) : option entry :=
  match call with
  | ConnectionClose id bytes count idle =>
      Some (SQL_CONNECTION_CLOSE, [SqlInt (int32 bytes); SqlInt count; SqlText (if idle then "timeout" else "normal"); SqlInt id], true)
  | _ => None
  end.
Definition records_of (rs : list request_at) : list entry :=
  omap (λ r, match r with Call _ call => record_of call | Tick _ => None end) rs.

(** The calls among the requests, the executions of the query that ends a connection, and the
    record such an execution completes. *)
Definition calls_of (rs : list request_at) : list service_call :=
  omap (λ r, match r with Call _ call => Some call | Tick _ => None end) rs.
Definition closing (e : entry) : Prop := e.1.1 = SQL_CONNECTION_CLOSE.
Definition row_told (t : entry) : option Z :=
  match t with (SQL_CONNECTION_CLOSE, [_; _; _; SqlInt id], true) => Some id | _ => None end.

#[export] Instance closing_dec e : base.Decision (closing e).
Proof. unfold closing. apply _. Defined.

Lemma rows_told rs : omap row_told (records_of rs) = closed_rows (calls_of rs).
Proof.
  unfold records_of, calls_of, closed_rows. induction rs as [|[now call|now] rs IH]; [done| |exact IH]. cbn [omap list_omap].
  destruct call; cbn [record_of closed_row]; rewrite ?omap_cons_list; cbn [omap list_omap row_told]; by rewrite IH.
Qed.

(** ** The service while the database answers *)

(** The text of the query that ends a connection. *)
Variable close_text : string.

(** A statement that was prepared on the connection in use. *)
Definition usable (d : db_data) (q : query_name_enum) (st : stmt) : Prop :=
  connection st = connections d ∧ (q = SQL_CONNECTION_CLOSE → length (params st) = 4%nat).

(** The queries are those of the table, the one that ends a connection is configured, and the
    statements are usable. *)
Record serving (s : service) : Prop := {
  sv_enabled : enabled s = true;
  sv_link : db_connected (db s) = connected s;
  sv_queries : map index (holders s) = map index stmt_holder;
  sv_close : Forall (λ h, index h = SQL_CONNECTION_CLOSE → query h = Some close_text) (holders s);
  sv_live : Forall (λ h, ∀ st, holder_stmt h = Some st → connected s = true ∧ usable (db s) (index h) st) (holders s);
}.

(** An execution that succeeds, with columns if it is asked for a result, and without an error when
    its first row is fetched. *)
Definition succeeds (x : execution) : Prop :=
  x_ok x = true ∧ is_Some (x_meta x) ∧ ∀ e rest, x_fetches x ≠ FetchError e :: rest.

(** The network and the server answer, and the query that ends a connection has four parameters. *)
Hypothesis connects_well : ∀ n, connect_answer world n = true.
Hypothesis prepares_well : ∀ n text, is_Some (prepare_answer world n text).
Hypothesis four_parameters : ∀ n, prepare_answer world n close_text = Some 4%nat.
Hypothesis executes_well : ∀ n c, succeeds (execute_answer world n c c).

(** Connected by [d]. *)
Definition up (d : db_data) (s : service) : Prop := serving s ∧ connected s = true ∧ db s = d.

(** [m] stays connected by [d], returns a value [a] and has [t] executed, latest first, with [R a t];
    or it writes outside a block of less than 16 bytes. *)
Definition yields {A} (P Q : service → Prop) (m : prog A) (R : A → list entry → Prop) : Prop :=
  ∀ s, P s → m s = Undefined OutOfBounds ∧ block < 16 ∨
    ∃ a s' t, m s = Ok (a, s') ∧ Q s' ∧ told s' = t ++ told s ∧ R a t.

Lemma yields_ret {A} (P : service → Prop) (a : A) (R : A → list entry → Prop) : R a [] → yields P P (mret a) R.
Proof. intros HR s Hs. right. by exists a, s, []. Qed.

Lemma yields_bind {A B} (P Q S : service → Prop) (m : prog A) (f : A → prog B) R (T : B → list entry → Prop) :
  yields P Q m R → (∀ a t, R a t → yields Q S (f a) (λ b t', T b (t' ++ t))) → yields P S (m ≫= f) T.
Proof.
  intros Hm Hf s Hs. destruct (Hm s Hs) as [[Hu Hb]|(a & s' & t & Ha & Hs' & Ht & HR)].
  - left. split; [|done]. unfold mbind, prog_bind. by rewrite Hu.
  - rewrite (prog_bind_ok _ _ _ _ _ Ha). destruct (Hf a t HR s' Hs') as [Hu|(b & s'' & t' & Hb & Hs'' & Ht' & HT)]; [by left|].
    right. exists b, s'', (t' ++ t). split_and!; try done. by rewrite Ht', Ht, app_assoc.
Qed.

Lemma yields_mono {A} (P Q : service → Prop) (m : prog A) (R R' : A → list entry → Prop) :
  yields P Q m R → (∀ a t, R a t → R' a t) → yields P Q m R'.
Proof. intros Hm HR s Hs. destruct (Hm s Hs) as [?|(a & s' & t & ? & ? & ? & ?)]; [by left|right; exists a, s', t; auto]. Qed.

Lemma yields_get d : yields (up d) (up d) DbService.get (λ s t, t = [] ∧ up d s).
Proof. intros s Hs. right. by exists s, s, []. Qed.

(** A change of what is not looked at here. *)
Lemma yields_modify d f : (∀ s, up d s → up d (f s) ∧ told (f s) = told s) → yields (up d) (up d) (modify f) (λ _ t, t = []).
Proof. intros Hf s Hs. destruct (Hf s Hs) as [Hs' Ht]. right. exists (), (f s), []. by split_and!. Qed.

Lemma memory_up d m s : up d s → up d (set_memory m s).
Proof. intros ([] & ? & ?). by repeat split. Qed.

Lemma yields_memory d f : yields (up d) (up d) (modify (λ s, set_memory (f s) s)) (λ _ t, t = []).
Proof. apply yields_modify. intros s Hs. split; [by apply memory_up|done]. Qed.

(** ** The statements *)

(** The place of a query in the table. *)
Definition slot (q : query_name_enum) (k : nat) : Prop := map index stmt_holder !! k = Some q.

Lemma serving_find s q k h : serving s → find_query q (holders s) = Some (k, h) →
  slot q k ∧ index h = q ∧ (q = SQL_CONNECTION_CLOSE → query h = Some close_text) ∧
  ∀ st, holder_stmt h = Some st → usable (db s) q st.
Proof.
  intros [_ _ Hq Hc Hl] Hf. apply list_find_Some in Hf as (Hk & Hi & _). rewrite list.Forall_forall in Hc, Hl.
  apply list_elem_of_lookup_2 in Hk as Hin. split_and!; try done.
  - unfold slot. rewrite <- Hq, list_lookup_fmap, Hk. cbn. by rewrite Hi.
  - intros Hcl. apply Hc; [done|by rewrite Hi].
  - intros st Hst. rewrite <- Hi. by apply (Hl h Hin st).
Qed.

Lemma serving_close_found s : serving s → ∃ k h, find_query SQL_CONNECTION_CLOSE (holders s) = Some (k, h).
Proof.
  intros [_ _ Hq _ _]. destruct (find_query _ _) as [[k h]|] eqn:Hf; [by exists k, h|].
  apply list_find_None in Hf. assert (Hin : SQL_CONNECTION_CLOSE ∈ map index (holders s)) by (rewrite Hq; cbn; set_solver).
  apply list_elem_of_fmap in Hin as (h & Hi & Hin). rewrite list.Forall_forall in Hf. by destruct (Hf h Hin).
Qed.

(** A statement goes to the place of its query. *)
Lemma put_up d q k st s : up d s → slot q k → (∀ st', st = Some st' → usable d q st') →
  up d (set_holders (alter (with_stmt st) k (holders s)) s).
Proof.
  intros ([He Hl Hq Hc Hlive] & Hconn & Hd) Hk Hst. split; [|done]. split; cbn [set_holders enabled connected db holders]; try done.
  - rewrite <- Hq. apply list_eq. intros i. rewrite !list_lookup_fmap. destruct (decide (i = k)) as [->|Hne].
    + rewrite list_lookup_alter_eq. by destruct (holders s !! k).
    + by rewrite list_lookup_alter_ne.
  - apply list.Forall_alter; [done|]. intros h Hh Hq'. exact Hq'.
  - apply list.Forall_alter; [done|]. intros h Hh _ st' [= ->]. split; [done|].
    assert (Hi : index h = q).
    { unfold slot in Hk. rewrite <- Hq, list_lookup_fmap, Hh in Hk. by injection Hk. }
    cbn. rewrite Hi, Hd. by apply Hst.
Qed.

Lemma yields_put d q k st : slot q k → (∀ st', st = Some st' → usable d q st') → yields (up d) (up d) (put_stmt k st) (λ _ t, t = []).
Proof. intros Hk Hst s Hs. right. eexists (), _, []. split; [done|]. split; [by eapply put_up|done]. Qed.

(** A new statement has the parameters of its query, cleared. *)
Lemma yields_create d text : yields (up d) (up d) (create_statement world text)
  (λ r t, t = [] ∧ ∃ st, r = Some st ∧ connection st = connections d ∧ (text = close_text → length (params st) = 4%nat)).
Proof.
  intros s (Hs & Hc & Hd). destruct (prepares_well (prepares s) text) as [n Hn]. right.
  unfold create_statement. cbn [create_statement_loop]. unfold mbind, prog_bind, prepare. rewrite Hn. cbn [mbind outcome_bind].
  eexists _, _, []. split; [done|]. split; [by destruct Hs|]. split; [done|]. split; [done|].
  eexists. split; [done|]. cbn. split; [by rewrite Hd|]. intros ->. rewrite four_parameters in Hn. injection Hn as <-.
  unfold dbmysql_clearParameters. by rewrite length_map, length_replicate.
Qed.

(** The statement of a query, where it has one; the query that ends a connection has. *)
Lemma yields_retrieve d q : yields (up d) (up d) (retrieve_statement world q)
  (λ p t, t = [] ∧ (q = SQL_CONNECTION_CLOSE → is_Some p) ∧
    ∀ k st, p = Some (k, st) → slot q k ∧ usable d q st ∧ ∃ ps, params st = dbmysql_clearParameters ps).
Proof.
  unfold retrieve_statement. eapply yields_bind; [apply yields_get|]. intros s t [-> Hup].
  destruct (find_query q (holders s)) as [[k h]|] eqn:Hf.
  2: { apply yields_ret. split_and!; [done| |done]. intros ->. destruct (serving_close_found s (proj1 Hup)) as (k & h & Hf'). congruence. }
  destruct (serving_find s q k h (proj1 Hup) Hf) as (Hk & _ & Hcl & Hlive). destruct Hup as (_ & _ & Hd).
  apply (yields_bind _ (up d) _ _ _ (λ st t, t = [] ∧ (∀ st', st = Some st' → usable d q st') ∧ (q = SQL_CONNECTION_CLOSE → is_Some st))).
  { destruct (holder_stmt h) as [st|]; [apply yields_ret; split_and!; [done| |by eexists]; intros st' [= <-]; rewrite <- Hd; by apply Hlive|].
    destruct (query h) as [text|] eqn:Hq.
    - eapply yields_mono; [apply yields_create|]. intros r t (-> & st & -> & Hcn & Hlen). split_and!; [done| |by eexists].
      intros st' [= <-]. split; [done|]. intros Hq'. apply Hlen. specialize (Hcl Hq'). congruence.
    - apply yields_ret. split_and!; [done..|]. intros Hq'. by specialize (Hcl Hq'). }
  intros st t (-> & Hst & Hsome). eapply yields_bind; [apply (yields_put d q k); [done|]|].
  - intros st' Hst'. destruct st as [st|]; [|done]. injection Hst' as <-. destruct (Hst st eq_refl) as [Hcn Hlen]. split; [done|].
    intros Hq. cbn. unfold dbmysql_clearParameters. rewrite length_map. by apply Hlen.
  - intros [] t ->. apply yields_ret. split; [done|]. split.
    + intros Hq. destruct (Hsome Hq) as [st' ->]. by eexists.
    + intros k' st' Heq. destruct st as [st|]; [|done]. injection Heq as <- <-. destruct (Hst st eq_refl) as [Hcn Hlen].
      split; [done|]. split; [|by eexists]. split; [done|]. intros Hq. cbn. unfold dbmysql_clearParameters. rewrite length_map. by apply Hlen.
Qed.

(** Texts that are not [NULL]. *)
Definition texts_given (args : list argument) : Prop := Forall (λ a, a ≠ AString None) args.

Lemma set_arguments_given args : ∀ i ps, texts_given args → ∃ ps', set_arguments i args ps = Ok ps' ∧ length ps' = length ps.
Proof.
  induction args as [|a args IH]; intros i ps Ha; [by exists ps|]. apply list.Forall_cons in Ha as [Ha Hargs]. cbn [set_arguments].
  assert (∃ ps1, set_argument i a ps = Ok ps1 ∧ length ps1 = length ps) as (ps1 & -> & Hl).
  { destruct a as [z|[t|]]; [| |done]; (eexists; split; [done|]; apply set_param_length). }
  destruct (IH (i + 1) ps1 Hargs) as (ps' & Hps & Hl'). exists ps'. by rewrite bind_ok, Hps, Hl', Hl.
Qed.

Lemma yields_lift {A} d (o : outcome A) a : o = Ok a → yields (up d) (up d) (lift o) (λ b t, t = [] ∧ b = a).
Proof. intros -> s Hs. right. by exists a, s, []. Qed.

Lemma yields_arguments d q k st args : slot q k → usable d q st → texts_given args →
  yields (up d) (up d) (bind_arguments k st args)
    (λ st' t, t = [] ∧ usable d q st' ∧ set_arguments 1 args (params st) = Ok (params st')).
Proof.
  intros Hk [Hcn Hlen] Hargs. destruct (set_arguments_given args 1 (params st) Hargs) as (ps & Hps & Hl). unfold bind_arguments.
  eapply yields_bind; [by apply yields_lift|]. intros ps' t [-> ->].
  assert (Hu : usable d q (with_params (λ _, ps) st)) by (split; [done|]; intros Hq; cbn; rewrite Hl; by apply Hlen).
  eapply yields_bind; [apply (yields_put d q k); [done|by intros st' [= <-]]|]. intros [] t ->. by apply yields_ret.
Qed.

(** One execution: it is told, and succeeds. *)
Lemma yields_execute d q st : usable d q st →
  yields (up d) (up d) (execute world q st) (λ x t, t = [(q, sent_values (params st), true)] ∧ succeeds x).
Proof.
  intros [Hcn _] s (Hs & Hc & Hd). right. eexists _, _, [_]. split; [done|]. rewrite Hcn, Hd.
  pose proof (executes_well (executes s) (connections d)) as Hx. split; [by destruct Hs|]. split; [done|].
  split; [|done]. by destruct Hx as [-> _].
Qed.

Lemma yields_update d q k st : slot q k → usable d q st →
  yields (up d) (up d) (execute_update world q k st) (λ _ t, t = [(q, sent_values (params st), true)]).
Proof.
  intros Hk Hu. unfold execute_update. eapply yields_bind; [by apply yields_execute|]. intros x t [-> [Hx _]].
  unfold dbmysql_executeUpdate, dbmysql_local_execute. rewrite Hx.
  eapply yields_bind; [by apply (yields_put d q k); [|intros st' [= <-]]|]. intros [] t ->. by apply yields_ret.
Qed.

Lemma yields_query d q k st : slot q k → usable d q st →
  yields (up d) (up d) (execute_query world q k st)
    (λ r t, t = [(q, sent_values (params st), true)] ∧ ∃ res fs cols, r = Some (res, fs, cols) ∧ ∀ e rest, fs ≠ FetchError e :: rest).
Proof.
  intros Hk [Hcn Hlen]. unfold execute_query. eapply yields_bind; [by apply yields_execute|]. intros x t [-> (Hx & [fs Hm] & Hf)].
  eapply yields_bind; [apply yields_get|]. intros s t [-> _]. unfold dbmysql_executeQuery. rewrite Hx, Hm.
  cbn [dbmysql_local_execute internal_fetch_result]. eapply yields_bind; [apply yields_memory|]. intros [] t ->.
  eapply yields_bind; [by apply (yields_put d q k); [|intros st' [= <-]]|]. intros [] t ->. apply yields_ret. split; [done|].
  by eexists _, _, _.
Qed.

(** The text of a column fits what was allocated for it. *)
Lemma yields_text d r i cell cols : yields (up d) (up d) (lift (dbmysql_result_getString r i cell cols)) (λ _ t, t = []).
Proof.
  assert (∃ a, dbmysql_result_getString r i cell cols = Ok a) as [a Ha].
  { unfold dbmysql_result_getString. destruct (column r i cols) as [c|]; [|by eexists]. destruct (is_null c); [by eexists|].
    destruct (0 <? real_length c); [|by eexists]. destruct (fetch_text cell (real_length c)) as [t|] eqn:Ht; [|by eexists].
    apply fetch_text_fits in Ht. rewrite (proj2 (Z.leb_le _ _)) by done. by eexists. }
  eapply yields_mono; [by apply yields_lift|]. by intros b t [-> _].
Qed.

(** A request does not fit a block of less than 16 bytes. *)
Lemma yields_request d id account ch : yields (up d) (up d) (lift (write_request block id account ch)) (λ _ t, t = []).
Proof.
  intros s Hs. unfold lift, write_request. destruct (Z.leb_spec 16 block) as [Hb|Hb]; [|by left].
  right. by eexists _, s, [].
Qed.

(** ** The operations *)

(** Only other queries are executed, and all succeed. *)
Definition elsewhere {A} : A → list entry → Prop := λ _ t, Forall (λ e, ¬ closing e ∧ e.2 = true) t.


(** With a connection, old or new. *)
Lemma connected_yields {A} (m : bool → prog A) R :
  (∀ d, yields (up d) (up d) (m true) R) → yields serving serving (b ← connect_to_database world false; m b) R.
Proof.
  intros Hm s Hs. pose proof Hs as [He Hl Hq Hcl Hlive]. destruct (connected s) eqn:Hc.
  - rewrite (prog_bind_ok _ _ _ _ _ (connect_connected world s Hc)).
    assert (Hup : up (db s) (set_recent (clock s) s)) by (split; [split; cbn; rewrite ?Hc; done|done]).
    destruct (Hm _ _ Hup) as [?|(a & s' & t & H1 & (H2 & _) & H3)]; [by left|right; by exists a, s', t].
  - assert (∃ s0, connect_to_database world false s = Ok (true, s0) ∧ up (db s0) s0 ∧ told s0 = told s) as (s0 & H0 & Hup & Ht).
    { unfold connect_to_database. rewrite He, Hc. cbn [andb negb]. unfold dbmysql_connect. rewrite Hl, connects_well.
      eexists. split; [done|]. split; [|done]. split; [|done]. split; cbn; try done. eapply list.Forall_impl; [exact Hlive|].
      intros h Hh st Hst. by destruct (Hh st Hst). }
    rewrite (prog_bind_ok _ _ _ _ _ H0). destruct (Hm _ _ Hup) as [?|(a & s' & t & H1 & (H2 & _) & H3 & H4)]; [by left|].
    right. exists a, s', t. by rewrite H3, Ht.
Qed.

Lemma update_yields q args : texts_given args → q ≠ SQL_CONNECTION_CLOSE → yields serving serving (run_update world q args) elsewhere.
Proof.
  intros Hargs Hq. apply connected_yields. intros d. cbv iota.
  eapply yields_bind; [apply yields_retrieve|]. intros [[k st]|] t (-> & _ & Hst); [|by apply yields_ret, list.Forall_nil].
  destruct (Hst k st eq_refl) as (Hk & Hu & _). eapply yields_bind; [by apply (yields_arguments d q)|]. intros st1 t (-> & Hu1 & _).
  eapply yields_mono; [by apply yields_update|]. intros r t ->. by apply list.Forall_singleton.
Qed.

(** A lookup: no row of it leads to a new connection. *)
Lemma check_available_yields ip : yields serving serving (check_available world block (Some ip)) elsewhere.
Proof.
  apply connected_yields. intros d. cbv iota.
  eapply yields_bind; [apply yields_retrieve|]. intros [[k st]|] t (-> & _ & Hst); [|by apply yields_ret, list.Forall_nil].
  destruct (Hst k st eq_refl) as (Hk & Hu & _).
  eapply yields_bind; [apply (yields_arguments d SQL_CHECK_AVAILABLE); [done|done|by apply list.Forall_singleton]|].
  intros st1 t (-> & Hu1 & _). eapply yields_bind; [by apply yields_query|]. intros ? t (-> & res & fs & cols & -> & Hf).
  cbv zeta. destruct (dbmysql_result_next (first_fetch fs) cols) as [[row errno] cols1] eqn:Hn.
  assert (errno = 0) as -> by (destruct fs as [|[] fs]; cbn in Hn; try (by simplify_eq); by destruct (Hf errno0 fs)).
  apply (yields_bind _ (up d) _ _ _ (λ _ t, t = [])).
  { destruct row; [|by apply yields_ret]. eapply yields_bind; [apply yields_text|]. intros [account cols2] t ->.
    eapply yields_bind; [apply yields_request|]. intros q t ->. by apply yields_ret. }
  intros q t ->. eapply yields_bind; [apply yields_memory|]. intros [] t ->. eapply (yields_bind _ (up d) _ _ _ (λ _ t, t = [])); [by apply yields_ret|].
  intros [] t ->. apply yields_ret. by apply list.Forall_singleton.
Qed.

Lemma established_yields id account ip : yields serving serving (connection_established world id account (Some ip)) elsewhere.
Proof.
  apply connected_yields. intros d. cbv iota.
  eapply yields_bind; [apply yields_retrieve|]. intros [[k st]|] t (-> & _ & Hst); [|by apply yields_ret, list.Forall_nil].
  destruct (Hst k st eq_refl) as (Hk & Hu & _). eapply yields_bind; [by apply (yields_arguments d SQL_CONNECTION_ESTABLISHED); [| |apply list.Forall_singleton]|].
  intros st1 t (-> & Hu1 & _). eapply yields_bind; [by apply yields_update|]. intros n t ->.
  eapply yields_bind; [apply yields_retrieve|]. intros [[k2 st2]|] t (-> & _ & Hst2); [|by apply yields_ret, list.Forall_singleton].
  destruct (Hst2 k2 st2 eq_refl) as (Hk2 & Hu2 & _).
  eapply yields_bind; [by apply (yields_arguments d SQL_CONNECTION_BEGIN); [| |repeat constructor]|]. intros st3 t (-> & Hu3 & _).
  eapply yields_bind; [by apply yields_update|]. intros n2 t ->.
  eapply yields_bind; [apply yields_retrieve|]. intros [[k3 st4]|] t (-> & _ & Hst3); [|by apply yields_ret; repeat constructor].
  destruct (Hst3 k3 st4 eq_refl) as (Hk3 & Hu4 & _). eapply yields_bind; [by apply yields_query|].
  intros ? t (-> & res & fs & cols & -> & _). destruct (dbmysql_result_next _ _) as [[row e] cols1].
  eapply yields_bind; [apply yields_memory|]. intros [] t ->. apply yields_ret. by repeat constructor.
Qed.

(** A procedure leaves its statement as it is, but for the columns. *)
Lemma multiple_results_usable {P} (handler : result → stmt → P → P) d q sets : ∀ st m p,
  usable d q st → usable d q (multiple_results handler sets st m p).1.1.
Proof.
  induction sets as [|[fs|] sets IH]; intros st m p Hu; [done| |by apply IH]. cbn. by apply IH.
Qed.

Lemma fail_guessing_yields ip : yields serving serving (fail_guessing world (Some ip)) elsewhere.
Proof.
  apply connected_yields. intros d. cbv iota.
  eapply yields_bind; [apply yields_retrieve|]. intros [[k st]|] t (-> & _ & Hst); [|by apply yields_ret, list.Forall_nil].
  destruct (Hst k st eq_refl) as (Hk & Hu & _).
  eapply yields_bind; [by apply (yields_arguments d SQL_CALL_FAILURE_GUESSING); [| |apply list.Forall_singleton]|]. intros st1 t (-> & Hu1 & _).
  eapply yields_bind; [by apply yields_execute|]. intros x t [-> [Hx _]]. eapply yields_bind; [apply yields_get|]. intros s t [-> _]. cbv zeta.
  unfold dbmysql_executeMultipleQuery, dbmysql_local_execute. rewrite Hx. set (h := λ _ _ _, _). 
  pose proof (multiple_results_usable h d SQL_CALL_FAILURE_GUESSING (map (λ _, x_meta x) (x_fetches x)) st1 (memory s) (false, x_fetches x) Hu1) as Hu2.
  destruct (multiple_results h _ _ _ _) as [[st2 m] [answer rest]]. cbn in Hu2.
  eapply yields_bind; [apply (yields_memory d (λ _, m))|]. intros [] t ->.
  eapply yields_bind; [by apply (yields_put d SQL_CALL_FAILURE_GUESSING); [|intros st' [= <-]]|]. intros [] t ->. apply yields_ret. by apply list.Forall_singleton.
Qed.

(** The end of a connection is executed, with its four parameters. *)
Lemma close_yields id bytes count idle : is_int id → is_int count →
  yields serving serving (connection_close world id bytes count idle)
    (λ _ t, ∃ e, t = [e] ∧ record_of (ConnectionClose id bytes count idle) = Some e).
Proof.
  intros Hid Hcount. unfold connection_close. set (args := [_; _; _; _]).
  eapply (yields_bind _ serving); [|intros n t Ht; apply yields_ret; exact Ht]. apply connected_yields. intros d. cbv iota.
  eapply yields_bind; [apply yields_retrieve|].
  intros p t (-> & Hsome & Hst). destruct (Hsome eq_refl) as [[k st] ->]. destruct (Hst k st eq_refl) as (Hk & Hu & ps & Hps).
  eapply yields_bind; [apply (yields_arguments d SQL_CONNECTION_CLOSE _ _ args Hk Hu); by repeat constructor|]. intros st1 t (-> & Hu1 & Hset).
  eapply yields_mono; [by apply yields_update|]. intros n t ->. eexists. split; [done|]. cbn.
  assert (Hlen : length ps = 4%nat).
  { destruct Hu as [_ Hl]. specialize (Hl eq_refl). rewrite Hps in Hl. unfold dbmysql_clearParameters in Hl. by rewrite length_map in Hl. }
  rewrite (arguments_sent args ps (params st1)); [by destruct idle| |by rewrite Hlen|by rewrite <- Hps].
  repeat (apply list.Forall_cons; split; [first [done|apply int32_range|by eexists]|]). by apply list.Forall_nil.
Qed.

(** Closing the connection closes the statements with it. *)
Lemma close_statements_holders hs : ∀ m, (close_statements hs m).1 = map (with_stmt None) hs.
Proof.
  induction hs as [|h hs IH]; intros m; [done|]. cbn [close_statements map].
  set (m1 := match holder_stmt h with Some _ => _ | None => _ end). specialize (IH m1). destruct (close_statements hs m1). cbn in *. by rewrite IH.
Qed.

Lemma disconnect_yields (b : bool) : yields serving serving
  (s ← DbService.get; if connected s && b then close_connection else mret ()) (λ _ t, t = []).
Proof.
  intros s Hs. right. rewrite (prog_bind_ok DbService.get _ s s s) by done. destruct (connected s) eqn:Hc; [|by exists (), s, []].
  destruct b; [|by exists (), s, []]. cbn [andb]. unfold close_connection, close_all_statements.
  pose proof (close_statements_holders (holders s) (memory s)) as Hh. destruct (close_statements _ _) as [hs m] eqn:Hcl. cbn in Hh. subst hs.
  rewrite (prog_bind_ok _ _ s () (set_memory m (set_holders (map (with_stmt None) (holders s)) s))) by by rewrite Hcl.
  eexists (), _, []. split; [done|]. split; [|done]. destruct Hs as [He Hl Hq Hcl' Hlive].
  split; cbn [set_link set_memory set_holders enabled connected db holders]; try done.
  - unfold dbmysql_disconnect. by destruct (db_connected (db s)) eqn:Hd.
  - by rewrite map_map.
  - apply list.Forall_fmap. exact Hcl'.
  - apply list.Forall_fmap. by apply list.Forall_true.
Qed.

(** ** The calls *)

(** What is executed for a call: the record of an end, or other queries. *)
Definition told_for (call : service_call) : () → list entry → Prop :=
  match record_of call with Some e => λ _ t, t = [e] ∧ e.2 = true | None => elsewhere end.

Lemma forget_yields {A} (m : prog A) : yields serving serving m elsewhere → yields serving serving (_ ← m; mret ()) elsewhere.
Proof. intros Hm. eapply yields_bind; [exact Hm|]. intros a t Ht. by apply yields_ret. Qed.

Lemma serve_call_yields call : call_ints call → yields serving serving (serve_call call) (told_for call).
Proof.
  intros Hints. destruct call; unfold told_for; cbn [record_of serve_call].
  - by apply yields_ret, list.Forall_nil.
  - apply forget_yields, check_available_yields.
  - apply forget_yields, update_yields; [by apply list.Forall_singleton|done].
  - by apply yields_ret, list.Forall_nil.
  - apply forget_yields, fail_guessing_yields.
  - apply forget_yields, update_yields; [by apply list.Forall_singleton|done].
  - apply forget_yields, update_yields; [by apply list.Forall_singleton|done].
  - by apply yields_ret, list.Forall_nil.
  - by apply yields_ret, list.Forall_nil.
  - apply forget_yields, established_yields.
  - apply forget_yields, update_yields; [by apply list.Forall_singleton|done].
  - destruct Hints as [Hid Hcount]. eapply yields_mono; [by apply close_yields|]. intros [] t (e & -> & [= <-]). done.
  - intros s Hs. destruct (disconnect_yields (mx * 1000000 <? elapsed_time (clock s) (connection_time s)) s Hs) as [?|(a & s' & t & ? & ? & ? & ->)];
      [by left|right; exists a, s', []; split_and!; try done; by apply list.Forall_nil].
Qed.

Lemma serving_clock now : yields serving serving (modify (set_clock now)) (λ _ t, t = []).
Proof. intros s []. right. by exists (), (set_clock now s), []. Qed.

Lemma serve_at_yields r : match r with Call _ call => call_ints call | Tick _ => True end →
  yields serving serving (serve_at r) (λ _ t, List.filter (λ e, bool_decide (closing e)) t = rev (records_of [r]) ∧ Forall (λ e, e.2 = true) t).
Proof.
  intros Hr. destruct r as [now call|now]; (eapply yields_bind; [apply serving_clock|]); intros [] ? ->.
  - eapply yields_mono; [by apply serve_call_yields|]. intros [] t Ht. rewrite app_nil_r. unfold told_for, records_of in *. cbn [omap list_omap].
    destruct (record_of call) as [e|] eqn:He.
    + destruct Ht as [-> Ht]. destruct call; try done. injection He as <-. split; [done|by apply list.Forall_singleton].
    + unfold elsewhere in Ht. split; [|by eapply list.Forall_impl; [exact Ht|]; intros ? []].
      induction Ht as [|e t [Hn _] Ht IH]; [done|]. cbn. by rewrite bool_decide_false.
  - intros s Hs. destruct (disconnect_yields (database_timeout <? elapsed_time now (recent_use_time s)) s Hs) as [?|(a & s' & t & ? & ? & ? & ->)];
      [by left|right; exists a, s', []; split_and!; try done; by apply list.Forall_nil].
Qed.

(** Whatever is asked, at whatever times: every end of a connection is told, in order. *)
Lemma serve_all_yields rs : Forall call_ints (calls_of rs) →
  yields serving serving (serve_all rs)
    (λ _ t, List.filter (λ e, bool_decide (closing e)) t = rev (records_of rs) ∧ Forall (λ e, e.2 = true) t).
Proof.
  induction rs as [|r rs IH]; intros Hi; [by apply yields_ret; split; [|apply list.Forall_nil]|]. cbn [serve_all].
  assert (Hr : match r with Call _ call => call_ints call | Tick _ => True end ∧ Forall call_ints (calls_of rs)).
  { unfold calls_of in *. destruct r; cbn in Hi; [by apply list.Forall_cons in Hi|done]. }
  eapply yields_bind; [exact (serve_at_yields r (proj1 Hr))|]. intros [] t [Ht Hok]. eapply yields_mono; [exact (IH (proj2 Hr))|].
  intros [] t' [Ht' Hok']. rewrite List.filter_app, Ht', Ht. split; [|by apply Forall_app]. rewrite <- rev_app_distr. unfold records_of. by rewrite <- omap_app.
Qed.

Lemma rows_closing t : omap row_told t = omap row_told (List.filter (λ e, bool_decide (closing e)) t).
Proof.
  induction t as [|[[q vs] ok] t IH]; [done|]. cbn [List.filter]. rewrite omap_cons_list, IH.
  destruct (bool_decide_reflect (closing (q, vs, ok))) as [Hq|Hq]; [by rewrite omap_cons_list|]. destruct q; done || by destruct Hq.
Qed.

End records.

(** ** A concrete run *)

#[local] Existing Instance sample_client.

(** Without a connection; the queries have their texts. *)
Definition idle_service : service :=
  Service true false (DbData false 3) (load_queries Some stmt_holder)
    (Timeval 0 0) (Timeval 0 0) (Timeval 100 0) 0 3 9 20 [] (Ledger 0 0 0 0).

(** Every lookup finds a row of three columns; the other statements do not look at it. *)
Definition willing_database : database :=
  Database (λ _, true) (λ _ text, Some (if decide (text = "sql-connection-close"%string) then 4 else 1)%nat)
    (λ _ _ _, Execution true 0 1 (Some [DbField "sn" MYSQL_TYPE_LONG; text_field "account"; DbField "channel" MYSQL_TYPE_LONG])
      [FetchRow [SqlInt 3; SqlText "user"; SqlInt 0]]).

Lemma idle_service_serving : serving "sql-connection-close" idle_service.
Proof. split; [done..| |]; repeat (apply list.Forall_cons; split; [done|]); by apply list.Forall_nil. Qed.

Lemma willing_prepares n text : is_Some (prepare_answer willing_database n text).
Proof. by eexists. Qed.

Lemma willing_succeeds n c : succeeds (execute_answer willing_database n c c).
Proof. split; [done|]. split; [by eexists|done]. Qed.

Lemma calls_of_calls now cs : calls_of (map (Call now) cs) = cs.
Proof. unfold calls_of. induction cs as [|call cs IH]; [done|]. cbn. by rewrite IH. Qed.

