(* ===== verification/KnownClient.v ===== *)
(** * A client the database knows, from its lookup to its record

    [check_available], what the proxy does with its answer, and [connection_established], one
    after the other on the service of [DbService.v] and the proxy of [Proxying.v]: the
    connection goes to the server the database names, and belongs to the record the database
    has made. *)

From S2P Require Import Prelude Heap Utils Events PacketAnalyzer ConnTable Proxying ProxySafety ProxyRuns Sessions DbMysql DbService DbLookups.

Section known.
Context `{MysqlClient} (world : database) (block : Z).

(** The statement of [q] has [n] parameters and was prepared on the connection in use. *)
Definition fresh (q : query_name_enum) (n : nat) (s : service) : Prop :=
  ∃ k st, cached q s k st ∧ connection st = connections (db s) ∧ length (params st) = n.

Lemma fresh_others q q' n s s' : others q s s' → q' ≠ q → db s' = db s → fresh q' n s → fresh q' n s'.
Proof.
  intros Ho Hq Hdb (k & st & (h & Hf & Hh) & Hc & Hl). exists k, st. rewrite Hdb. split; [|done]. exists h. by rewrite Ho.
Qed.

(** One statement with its arguments. *)
Lemma tell q args s : connected s = true → fresh q (length args) s → Forall argument_ok args →
  ∃ k st s1 st1 s2 r s', retrieve_statement world q s = Ok (Some (k, st), s1) ∧ bind_arguments k st args s1 = Ok (st1, s2) ∧
    execute_update world q k st1 s2 = Ok (r, s') ∧
    told s' = (q, map argument_value args, x_ok (execute_answer world (executes s) (connections (db s)) (connections (db s)))) :: told s ∧
    db s' = db s ∧ connected s' = true ∧ executes s' = S (executes s) ∧ others q s s'.
Proof.
  intros Hconn (k & st & Hc & Hcn & Hlen) Hok. destruct (retrieve_cached world q s k st Hc) as (s1 & Hr & (h & Hf & _) & Hs1 & Ho1).
  destruct (bound_update world q args s1 k h (with_params dbmysql_clearParameters st) (params st) Hf eq_refl Hlen Hok)
    as (st1 & s2 & s' & st' & Hb & Hu & Ht & Hdb & _ & Hex & Hct & _ & Ho2 & _).
  eexists k, (with_params dbmysql_clearParameters st), s1, st1, s2, _, s'. split; [done|]. split; [done|]. split; [exact Hu|].
  assert (Hs : told s1 = told s ∧ db s1 = db s ∧ connected s1 = true ∧ executes s1 = executes s) by (rewrite Hs1; by split_and!).
  destruct Hs as (E1 & E2 & E3 & E4). split_and!; try congruence.
  { rewrite Ht, E1, E2, E4. by rewrite <- Hcn. } intros q' Hq. by rewrite Ho2, Ho1.
Qed.

(** The answer to SELECT LAST_INSERT_ID(): one number, a BIGINT. *)
Definition inserted (x : execution) (z : Z) : Prop :=
  x_ok x = true ∧ - 2 ^ 63 ≤ z < 2 ^ 63 ∧ (∃ f, x_meta x = Some [f] ∧ buffer_type (bind_of_field (fieldType f)) = TYPE_LONGLONG) ∧
  ∃ rest, x_fetches x = FetchRow [SqlInt z] :: rest.

(** A record is made: three statements, and the number the database gave it, as an [int]. *)
Lemma established_ok s n account ip z :
  connected s = true → fresh SQL_CONNECTION_ESTABLISHED 1 s → fresh SQL_CONNECTION_BEGIN 2 s → fresh SQL_LAST_INSERT_ID 0 s →
  is_int n → inserted (execute_answer world (S (S (executes s))) (connections (db s)) (connections (db s))) z →
  let executed i := x_ok (execute_answer world (i + executes s)%nat (connections (db s)) (connections (db s))) in
  ∃ s', connection_established world n account (Some ip) s = Ok (sint 32 z, s') ∧
    told s' = [(SQL_LAST_INSERT_ID, [], true);
               (SQL_CONNECTION_BEGIN, [SqlText ip; SqlText (default EmptyString account)], executed 1%nat);
               (SQL_CONNECTION_ESTABLISHED, [SqlInt n], executed 0%nat)] ++ told s.
Proof.
  intros Hconn F1 F2 F3 Hn (Hx & Hz & (f & Hm & Hk) & rest & Hrow) executed. unfold connection_established.
  rewrite (prog_bind_ok _ _ _ _ _ (connect_connected world s Hconn)). cbv iota. set (s0 := set_recent _ s).
  destruct (tell SQL_CONNECTION_ESTABLISHED [AInt n] s0) as (k1 & st1 & a1 & u1 & b1 & r1 & s1 & H1 & B1 & E1 & T1 & D1 & C1 & X1 & O1);
    [done|done|by apply list.Forall_singleton|].
  rewrite (prog_bind_ok _ _ _ _ _ H1). cbv iota beta. rewrite (prog_bind_ok _ _ _ _ _ B1), (prog_bind_ok _ _ _ _ _ E1).
  destruct (tell SQL_CONNECTION_BEGIN [AString (Some ip); AString (Some (default EmptyString account))] s1)
    as (k2 & st2 & a2 & u2 & b2 & r2 & s2 & H2 & B2 & E2 & T2 & D2 & C2 & X2 & O2);
    [done|by eapply fresh_others|by repeat constructor; eexists|].
  rewrite (prog_bind_ok _ _ _ _ _ H2). cbv iota beta. rewrite (prog_bind_ok _ _ _ _ _ B2), (prog_bind_ok _ _ _ _ _ E2).
  assert (F3' : fresh SQL_LAST_INSERT_ID 0 s2).
  { eapply fresh_others; [exact O2|done|done|]. eapply fresh_others; [exact O1|done|done|done]. }
  destruct F3' as (k3 & st3 & Hc3 & Hcn3 & Hl3). destruct (retrieve_cached world _ _ _ _ Hc3) as (s3 & H3 & Hc3' & Hs3 & _).
  rewrite (prog_bind_ok _ _ _ _ _ H3). cbv iota beta.
  set (st4 := with_params dbmysql_clearParameters st3) in *.
  assert (Hx3 : execute_answer world (executes s3) (connection st4) (connections (db s3)) =
    execute_answer world (S (S (executes s))) (connections (db s)) (connections (db s))).
  { rewrite Hs3. cbn. by rewrite Hcn3, X2, X1, D2, D1. }
  destruct (execute_query_succeeds world _ s3 k3 st4 [f] Hc3') as (s4 & st5 & H4 & _ & _ & _ & _ & _ & _ & T4 & _); [by rewrite Hx3..|].
  rewrite (prog_bind_ok _ _ _ _ _ H4), Hx3, Hrow. cbv iota beta. unfold first_fetch. cbn [head default dbmysql_result_next].
  pose proof (getters_read_row [f] [SqlInt z] 0 f (SqlInt z) eq_refl eq_refl) as [_ Hget]. destruct (Hget Hk Hz) as [_ Hint].
  eexists. split.
  - unfold close_result. cbn -[dbmysql_result_getInt]. by rewrite <- Hint.
  - cbn. rewrite T4. assert (params st3 = []) as Hp by (by destruct (params st3)). unfold st4. cbn. rewrite Hp. cbn.
    rewrite Hs3. cbn. by rewrite T2, T1, X1, D1.
Qed.

(** ** With the proxy *)

Context {I L D : Type} `{EqDecision I} `{EqDecision D}.
Implicit Types (s : proxy I L D) (e : accept_env D).

(** [e] with the answers of the database. *)
Definition from_database (q : db_proxy_request) (row : Z) e : accept_env D :=
  AcceptEnv (ae_memory e) (ae_peer e) (Some q) (ae_blacklisted e) (ae_entry e) (ae_guessing e) (ae_vip e) (ae_vip_again e)
    (ae_added e) (ae_now e) (ae_connect e) (ae_unresolved e) (ae_data e) (ae_epoll_client e) (ae_epoll_server e) row.

Lemma establish_known fdc id ip x q dc e s s' cs :
  establish fdc id ip (Some x) dc e s = Ok (s', cs) → requests s !! x = Some q →
  cs = [ConnectionEstablished (sn q) (account q) ip].
Proof.
  unfold establish. intros H1 Hq. apply bind_ok_inv in H1 as ([p t1] & _ & H1). destruct p as [l|]; [|done].
  destruct (analyzer_allocate _ _) as [[data pl] ls]. apply bind_ok_inv in H1 as ([[ch sh] s2] & Hreg & H1).
  apply bind_ok_inv in Hreg as ([j1 e1] & _ & Hreg). apply bind_ok_inv in Hreg as ([j2 e2] & _ & [= <- <- <-]).
  apply bind_ok_inv in H1 as ([[[iid nth] s3] cs1] & Hc & H1). apply bind_ok_inv in H1 as (t & _ & [= <- <-]).
  cbn [requests with_ev with_fds with_plugin with_strings with_table] in Hc. rewrite (deref_Some _ _ _ Hq), bind_ok in Hc. by injection Hc as <- <- <- <-.
Qed.

Lemma known_calls sock e s s' cs ip v4 q :
  main_listener sock e s = Ok (s', cs) → sock ≠ -1 → ae_peer e = Some (ip, v4) → ae_available e = Some q →
  0 ≤ channel q → 0 ≤ ae_connect e → cs = [CheckAvailable ip; ConnectionEstablished (sn q) (account q) ip].
Proof.
  unfold main_listener, accepting_request. intros H1 Hne Hp Hq Hch Hcon. rewrite (proj2 (Z.eqb_neq _ _) Hne), Hp, Hq in H1.
  apply bind_ok_inv in H1 as (z & _ & H1). unfold decide_channel in H1. rewrite Hq in H1. cbv iota zeta in H1. cbn [channel_of] in H1. rewrite (proj2 (Z.leb_le _ _) Hch) in H1.
  apply bind_ok_inv in H1 as (servers & _ & H1). apply bind_ok_inv in H1 as (a & _ & H1). rewrite (proj2 (Z.leb_le _ _) Hcon) in H1.
  apply bind_ok_inv in H1 as ([s1 cs2] & He & [= <- <-]). apply (establish_known _ _ _ _ q) in He as ->; [done|]. cbn. apply lookup_insert_eq.
Qed.

End known.

(** ** A concrete client *)

#[local] Existing Instance sample_client.

(** The fourth answer is the number of the new record, the others the row of the client. *)
Definition mail_database : database :=
  Database (λ _, true) (λ _ _, Some 0%nat) (λ n _ _,
    if decide (n = 3%nat) then Execution true 0 0 (Some [DbField "id" MYSQL_TYPE_LONGLONG]) [FetchRow [SqlInt 42]]
    else Execution true 0 1 (Some [DbField "sn" MYSQL_TYPE_LONG; text_field "account"; DbField "channel" MYSQL_TYPE_LONG])
           [FetchRow [SqlInt 3; SqlText "user"; SqlInt 0]]).

Definition mail_service : service :=
  Service true true (DbData true 1)
    (alter (with_stmt (Some (sample_stmt 1))) 0%nat (alter (with_stmt (Some (sample_stmt 0))) 2%nat
      (alter (with_stmt (Some (sample_stmt 1))) 5%nat (alter (with_stmt (Some (sample_stmt 2))) 6%nat stmt_holder))))
    (Timeval 0 0) (Timeval 0 0) (Timeval 100 0) 0 1 4 0 [] (Ledger 0 0 4 4).

Lemma start_reached : reached (I := nat) (L := nat) (D := nat) run_conf 3 [] (start run_conf 3).
Proof. split_and!; [apply run_conf_ok|lia|done|by eexists|done]. Qed.

