(* ===== verification/Main.v ===== *)
(** * main.c: set-up and the work of every minute

    What [main] does from its options to its end, as the list of what it calls: which
    configuration file is read ([ConfText.v]), whose rights the process takes, where messages
    go, when the command server and the proxy are started. What the system answers (files,
    users, [fork], whether the parts can be wired and the server started) is given. Then
    what a signal does, and [cron], which the minute timer calls. *)

From stdpp Require Import sorting.
From S2P Require Import Prelude Utils Logger SysConf ConfText.

(** ** The work of every minute *)

(** What [cron] calls, in order. *)
Inductive job := CloseIdleDatabase | CleanIdleConnections | ExpireBlacklist.

(** [last_min] is static, -1 at first. *)
Definition cron (tm : Utils.tm) (last_min : Z) : list job * Z :=
  if tm_min tm =? last_min then ([], last_min)
  else ([CloseIdleDatabase; CleanIdleConnections; ExpireBlacklist], tm_min tm).

(** The timer's calls, one after the other. *)
Fixpoint cron_runs (tms : list Utils.tm) (last_min : Z) : list job :=
  match tms with
  | [] => []
  | tm :: tms' => let '(jobs, l) := cron tm last_min in jobs ++ cron_runs tms' l
  end.

(** How often the minute differs from the one before. *)
Fixpoint minute_changes (tms : list Utils.tm) (last_min : Z) : nat :=
  match tms with
  | [] => 0
  | tm :: tms' => (if tm_min tm =? last_min then 0 else 1) + minute_changes tms' (tm_min tm)
  end.

(** The work is done exactly once for every change of the minute the timer reports. *)
Lemma cron_runs_changes tms : ∀ last_min,
  cron_runs tms last_min = concat (replicate (minute_changes tms last_min) [CloseIdleDatabase; CleanIdleConnections; ExpireBlacklist]).
Proof.
  induction tms as [|tm tms IH]; intros lm; [done|].
  cbn [cron_runs minute_changes]. unfold cron. destruct (Z.eqb_spec (tm_min tm) lm) as [->|Hne]; [apply IH|]. cbn. by rewrite IH.
Qed.

(** ** Signals *)

Inductive signal_act := TerminateConfig | SignalProxyThread | TerminateBlacklist | ExitProcess.

(** [blacklist]: whether the service was made. *)
Definition interrupt (in_main_thread blacklist : bool) : list signal_act :=
  TerminateConfig ::
  (if in_main_thread then SignalProxyThread :: (if blacklist then [TerminateBlacklist] else []) ++ [ExitProcess] else []).

(** ** Files *)

Definition config_files : list string := ["tcp-proxy.conf"; "/usr/local/etc/tcp-proxy.conf"]%string.

(** [readable]: [access (.., R_OK) == 0] *)
Definition config_file (given : option string) (readable : string → bool) : option string :=
  match given with
  | Some f => Some f
  | None => snd <$> list_find readable config_files
  end.

(** The text before the last slash. *)
Fixpoint before_last_slash (s : string) : option string :=
  match s with
  | EmptyString => None
  | String c s' =>
      match before_last_slash s' with
      | Some t => Some (String c t)
      | None => if decide (c = "/"%char) then Some EmptyString else None
      end
  end.

Inductive file_act := Umask (mask : Z) | Mkdir (folder : string) (mode : Z) | Chown (folder : string) (gid : Z).

(** [mask]: the mask before. Only the last directory of the path is made. *)
Definition check_or_mkdir (full_path : option string) (gid mask : Z) (readable : string → bool) (mkdir_ok : bool) : list file_act :=
  match full_path ≫= before_last_slash with
  | None => []
  | Some folder =>
      if readable folder then []
      else Umask 2 :: Mkdir folder 509 :: (if mkdir_ok then [Chown folder gid] else []) ++ [Umask mask]
  end.

(** ** Where messages go *)

Inductive appender := SyslogAppender | ConsoleAppender.

Definition target (testing : bool) (name : string) : option appender :=
  if negb testing && bool_decide (name = "<<syslog>>"%string) then Some SyslogAppender
  else if bool_decide (name = "<<console>>"%string) then Some ConsoleAppender else None.

Definition add_target (testing : bool) (l : logger appender) (name : string) : logger appender :=
  match target testing name with Some a => con_addAppender true a l | None => l end.

(** [logfile]: the text of [log-file]; [names]: its list of texts. One unknown name leaves
    the appenders as they are; a list always replaces them. *)
Definition setup_logging (testing : bool) (logfile : option string) (names : list string) (l : logger appender) : logger appender :=
  match logfile with
  | Some name => match target testing name with Some a => con_addAppender true a (con_clearAppender l) | None => l end
  | None => match names with [] => l | _ => foldl (add_target testing) (con_clearAppender l) names end
  end.

Definition log_targets (testing : bool) (names : list string) : list appender := omap (target testing) names.

Lemma foldl_add_target testing names : ∀ l, appender_list (foldl (add_target testing) l names) = rev (log_targets testing names) ++ appender_list l.
Proof.
  induction names as [|n names IH]; intros l; [done|]. cbn [foldl]. rewrite IH. unfold add_target, log_targets. cbn [omap list_omap].
  destruct (target testing n) as [a|]; [|done]. cbn [rev]. by rewrite <- app_assoc.
Qed.

(** A list of targets installs exactly the known ones, the last one first. *)
Lemma setup_logging_list testing names l : names ≠ [] →
  appender_list (setup_logging testing None names l) = rev (log_targets testing names).
Proof. intros Hn. destruct names; [done|]. unfold setup_logging. by rewrite foldl_add_target, app_nil_r. Qed.

(** ** The program *)

(** What [getopt_long] answers: the three flags, [-c] or [--config] with its argument, or any
    other letter, known to it ([-d], [-v]) or not. *)
Inductive option_answer := ClientFlag | TestingFlag | NoDaemonFlag | ConfigOption (file : string) | OtherOption (c : ascii).

Record options := Options { client_flag : bool; testing_flag : bool; daemon_flag : bool; config_option : option string }.

(** [None]: the usage is printed and the process exits. *)
Fixpoint parse_options (l : list option_answer) (o : options) : option options :=
  match l with
  | [] => Some o
  | ClientFlag :: l' => parse_options l' (Options true (testing_flag o) (daemon_flag o) (config_option o))
  | TestingFlag :: l' => parse_options l' (Options (client_flag o) true (daemon_flag o) (config_option o))
  | NoDaemonFlag :: l' => parse_options l' (Options (client_flag o) (testing_flag o) false (config_option o))
  | ConfigOption f :: l' => parse_options l' (Options (client_flag o) (testing_flag o) (daemon_flag o) (Some f))
  | OtherOption _ :: _ => None
  end.

Definition default_options : options := Options false false true None.

Inductive bean := CmdService | ConfService | BlacklistService | DatabaseService | AnalyzerService | ProxyService.

(** What [main] calls. *)
Inductive main_act :=
  | Populate (s : bean)
  | ReadConfig (file : string)
  | SocketName (name : string)
  | SetPrompt
  | FileAct (a : file_act)
  | Setregid (gid : Z)
  | Setreuid (uid : Z)
  | Fork
  | Detach                                  (* [chdir], [setsid], SIGHUP, two descriptors closed *)
  | ExpiringTimeout (seconds : Z)
  | NewBlacklist (hash_size period : Z)
  | SetAppenders (l : list appender)
  | SetPriority (p : log_priority)
  | NewDatabase
  | NewProxy
  | RegisterCommands
  | AutoWiring
  | StartClient
  | ClientLoop
  | SetLogin
  | StartServer
  | StartProxying
  | InstallSignals
  | RunTimer
  | TerminateBlacklistService.

(** [InTimer]: the minute timer runs; it never comes back ([Threads.timer_never_ends]), so what
    follows it in [main] is never reached. *)
Inductive main_end := Exited (code : Z) | Returned (code : Z) | InTimer.

(** [content]: of the files that can be opened; [getpwnam]: user and group; [fork_result]: what
    [fork] returns; [wiring_ok], [server_ok]: [auto_wiring] and [start_server_in_thread]. *)
Record main_env := MainEnv {
  answers : list option_answer;
  readable : string → bool;
  content : string → option string;
  parser_room : nat;
  getpwnam : string → option (Z * Z);
  umask_before : Z;
  mkdir_ok : bool;
  fork_result : Z;
  wiring_ok : bool;
  server_ok : bool;
}.

Section main.
Context `{Y : Yacc} (e : main_env).

(** The rights of the user [run-as]; [None]: there is no such user. Whether the two calls succeed
    is not looked at. *)
Definition take_identity (socket_file : option string) (run_as : option string) : option (list main_act) :=
  match run_as with
  | Some user =>
      if 0 <? strlen user then
        '(uid, gid) ← getpwnam e user;
        Some (map FileAct (check_or_mkdir socket_file gid (umask_before e) (readable e) (mkdir_ok e)) ++ [Setregid gid; Setreuid uid])
      else Some []
  | None => Some []
  end.

Definition setup_priority (name : option string) : log_priority :=
  match name with Some n => logger_get_priority_by_name n | None => log_notice end.

(** The wiring, the command server, the proxy and the minute timer. *)
Definition run_server : list main_act * main_end :=
  if wiring_ok e then
    if server_ok e then
      ([AutoWiring; StartServer; StartProxying; InstallSignals; RunTimer], InTimer)
    else ([AutoWiring; StartServer], Exited 1)
  else ([AutoWiring; TerminateBlacklistService], Returned 0).

(** The server, in the process that stays. [l]: the logger before. *)
Definition server_main (o : options) (l : logger appender) (conf : sysconf) : outcome (list main_act * main_end) :=
  let size := sysconf_int_or_default "hash-size" 521 conf in
  let period := sysconf_int_or_default "monitor-period" 86400 conf in
  logfile ← sysconf_str "log-file" conf;
  names ← (match logfile with
           | Some _ => Ok []
           | None => r ← string_list "log-file" conf;
                     Ok (match r with Some (Some ns, n) => if 0 <? n then ns else [] | _ => [] end)
           end);
  let l1 := setup_logging (testing_flag o) logfile names l in
  priority_name ← sysconf_str "log-priority" conf;
  let acts := [ExpiringTimeout (sysconf_int_or_default "expiring-timeout" 180 conf); NewBlacklist size period; Populate BlacklistService; SetAppenders (appender_list l1);
               SetPriority (setup_priority priority_name); NewDatabase] in
  if testing_flag o then Ok (acts, Returned 0)
  else
    let '(acts', fin) := run_server in
    Ok (acts ++ [NewProxy; Populate DatabaseService; Populate AnalyzerService; Populate ProxyService; RegisterCommands; SetLogin] ++ acts', fin).

Definition configured_main (o : options) (l : logger appender) (conf : sysconf) : outcome (list main_act * main_end) :=
  socket_file ← sysconf_str_or_default "socket-name" (Some "/var/run/tcp-proxy/tcp-proxy.sock"%string) conf;
  run_as ← sysconf_str "run-as" conf;
  let acts := [SocketName (default EmptyString socket_file); SetPrompt; Populate ConfService] in
  match take_identity socket_file run_as with
  | None => Ok (acts, Exited 1)
  | Some identity =>
      if client_flag o then Ok (acts ++ identity ++ [AutoWiring; RegisterCommands; StartClient; ClientLoop], Exited 0)
      else
        let run_as_daemon := daemon_flag o && negb (sysconf_int_or_default "daemon" 0 conf =? 0) in
        if run_as_daemon && (0 <? fork_result e) then Ok (acts ++ identity ++ [Fork], Exited 0)
        else
          '(acts', fin) ← server_main o l conf;
          Ok (acts ++ identity ++ (if run_as_daemon then [Fork; Detach] else []) ++ acts', fin)
  end.

(** [fopen (NULL)]: when no file is given and none of the two is readable. *)
Definition main (l : logger appender) : outcome (list main_act * main_end) :=
  match parse_options (answers e) default_options with
  | None => Ok ([], Exited 1)
  | Some o =>
      match config_file (config_option o) (readable e) with
      | None => Undefined NullDeref
      | Some f =>
          conf ← new_system_config (parser_room e) (content e f);
          match conf with
          | None => Ok ([Populate CmdService; ReadConfig f], Exited 1)
          | Some c => '(acts, fin) ← configured_main o l c; Ok (Populate CmdService :: ReadConfig f :: acts, fin)
          end
      end
  end.
End main.

(** ** The order of what [main] calls *)

Definition phase (a : main_act) : nat :=
  match a with
  | Populate CmdService | ReadConfig _ => 0
  | SocketName _ | SetPrompt | Populate ConfService => 1
  | FileAct _ => 2
  | Setregid _ => 3
  | Setreuid _ => 4
  | Fork | Detach => 5
  | ExpiringTimeout _ | NewBlacklist _ _ | Populate BlacklistService | SetAppenders _ | SetPriority _ | NewDatabase => 6
  | NewProxy | Populate _ => 7
  | RegisterCommands | SetLogin | AutoWiring => 8
  | StartClient | ClientLoop | StartServer => 9
  | StartProxying => 10
  | InstallSignals => 11
  | RunTimer => 12
  | TerminateBlacklistService => 13
  end.

Definition in_order (l : list main_act) : Prop := StronglySorted (λ a b, (phase a ≤ phase b)%nat) l.

(** In order, and of the phases [lo] to [hi] only. *)
Definition within (lo hi : nat) (l : list main_act) : Prop :=
  in_order l ∧ Forall (λ a, (lo ≤ phase a ≤ hi)%nat) l.

Lemma within_app a b c d l1 l2 : within a b l1 → within c d l2 → (a ≤ c)%nat → (b ≤ c)%nat → (b ≤ d)%nat → within a d (l1 ++ l2).
Proof.
  intros [S1 F1] [S2 F2] Hac Hbc Hbd. split.
  - apply StronglySorted_app_2; [|done..]. intros x y Hx Hy. rewrite Forall_forall in F1, F2.
    specialize (F1 x ltac:(by apply list_elem_of_In)). specialize (F2 y ltac:(by apply list_elem_of_In)). cbn in *. lia.
  - apply list.Forall_app. split; eapply List.Forall_impl; [|exact F1| |exact F2]; cbn; lia.
Qed.

Lemma within_cons lo hi a l : (lo ≤ phase a ≤ hi)%nat → within (phase a) hi l → within lo hi (a :: l).
Proof.
  intros Ha [S F]. split; [apply StronglySorted_cons; split; [|done]|constructor; [done|]];
    eapply List.Forall_impl; [|exact F| |exact F]; cbn; lia.
Qed.

Lemma within_weaken a b a' b' l : within a b l → (a' ≤ a)%nat → (b ≤ b')%nat → within a' b' l.
Proof. intros [S F] Ha Hb. split; [done|]. eapply List.Forall_impl; [|exact F]. cbn. lia. Qed.

Lemma within_files l : within 2 2 (map FileAct l).
Proof.
  split; [|induction l; constructor; cbn; [lia|done]]. unfold in_order.
  induction l as [|a l IH]; cbn; constructor; [done|]. clear IH. induction l; constructor; cbn; [lia|done].
Qed.

(** A list whose acts are all written out. *)
Ltac written_out := split; [repeat constructor; cbn; lia | repeat constructor; cbn; lia].

Lemma identity_within e socket run_as l : take_identity e socket run_as = Some l → within 2 4 l.
Proof.
  unfold take_identity. destruct run_as as [user|]; [|by intros [= <-]; written_out].
  destruct (0 <? strlen user); [|by intros [= <-]; written_out].
  destruct (getpwnam e user) as [[uid gid]|]; [|done]. cbn. intros [= <-].
  apply (within_app 2 2 3 4); [apply within_files|written_out|lia..].
Qed.

Lemma run_server_within e : within 8 13 (run_server e).1.
Proof. unfold run_server. destruct (wiring_ok e), (server_ok e); written_out. Qed.

Lemma server_main_within e o l conf acts fin : server_main e o l conf = Ok (acts, fin) → within 6 13 acts.
Proof.
  unfold server_main. intros H. apply bind_ok_inv in H as (logfile & _ & H). apply bind_ok_inv in H as (names & _ & H).
  cbv zeta in H. apply bind_ok_inv in H as (name & _ & H). destruct (testing_flag o); [by injection H as <- <-; written_out|].
  pose proof (run_server_within e) as Hr. destruct (run_server e) as [acts' fin']. injection H as <- <-.
  repeat (apply within_cons; [cbn; lia|]). exact Hr.
Qed.

Lemma configured_main_within e o l conf acts fin : configured_main e o l conf = Ok (acts, fin) → within 1 13 acts.
Proof.
  unfold configured_main. intros H. apply bind_ok_inv in H as (socket & _ & H). apply bind_ok_inv in H as (run_as & _ & H).
  cbv zeta in H. destruct (take_identity e socket run_as) as [identity|] eqn:Hi; [|injection H as <- <-; written_out].
  apply identity_within in Hi.
  assert (∀ rest, within 5 13 rest →
    within 1 13 (SocketName (default EmptyString socket) :: SetPrompt :: Populate ConfService :: identity ++ rest)) as Hrest.
  { intros rest Hr. do 3 (apply within_cons; [cbn; lia|]). cbn [phase]. apply (within_weaken 2 13); [|lia..].
    apply (within_app 2 4 5 13); [done|done|lia..]. }
  destruct (client_flag o); [injection H as <- <-; apply Hrest; written_out|].
  destruct (_ && (0 <? fork_result e)); [injection H as <- <-; apply Hrest; written_out|].
  apply bind_ok_inv in H as ([acts' fin'] & Hs & H). injection H as <- <-. apply server_main_within in Hs. apply Hrest.
  apply (within_app 5 5 6 13); [destruct (_ && _); written_out|done|lia..].
Qed.

Section order.
Context `{Y : Yacc}.

Lemma main_in_order e l acts fin : main e l = Ok (acts, fin) → in_order acts.
Proof.
  unfold main. intros H. destruct (parse_options _ _) as [o|]; [|injection H as <- <-; constructor].
  destruct (config_file _ _) as [f|]; [|done]. apply bind_ok_inv in H as ([c|] & _ & H).
  - apply bind_ok_inv in H as ([acts' fin'] & Hc & H). injection H as <- <-. apply configured_main_within in Hc.
    assert (within 0 13 (Populate CmdService :: ReadConfig f :: acts')) as [Hw _]; [|exact Hw].
    do 2 (apply within_cons; [cbn; lia|]). by apply (within_weaken 1 13); [|cbn; lia..].
  - injection H as <- <-. repeat constructor.
Qed.

Lemma within_not_in lo hi l a : within lo hi l → (phase a < lo ∨ hi < phase a)%nat → a ∉ l.
Proof. intros [_ F] Ha Hin. rewrite Forall_forall in F. apply list_elem_of_In in Hin. specialize (F a Hin). cbn in F. lia. Qed.

(** What a run of the server in its process consists of. *)
Lemma server_main_shape e o l conf acts fin : server_main e o l conf = Ok (acts, fin) →
  within 6 6 acts ∧ fin = Returned 0 ∨ ∃ p, within 6 8 p ∧ acts = p ++ (run_server e).1 ∧ fin = (run_server e).2.
Proof.
  unfold server_main. intros H. apply bind_ok_inv in H as (logfile & _ & H). apply bind_ok_inv in H as (names & _ & H).
  cbv zeta in H. apply bind_ok_inv in H as (name & _ & H). destruct (testing_flag o); [injection H as <- <-; left; split; [written_out|done]|].
  destruct (run_server e) as [acts' fin']. injection H as <- <-. right.
  eexists (_ :: _ :: _ :: _ :: _ :: _ :: _ :: _ :: _ :: _ :: _ :: _ :: []). split; [|split; [cbn; reflexivity|done]]. written_out.
Qed.

(** What the whole program does after its configuration is read. *)
Inductive main_shape (e : main_env) (o : options) (l : logger appender) (conf : sysconf) : list main_act → main_end → Prop :=
  | shape_no_user head socket run_as : within 0 1 head →
      sysconf_str "run-as" conf = Ok run_as → take_identity e socket run_as = None → main_shape e o l conf head (Exited 1)
  | shape_client head socket run_as identity : within 0 1 head →
      sysconf_str "run-as" conf = Ok run_as → take_identity e socket run_as = Some identity → client_flag o = true →
      main_shape e o l conf (head ++ identity ++ [AutoWiring; RegisterCommands; StartClient; ClientLoop]) (Exited 0)
  | shape_parent head socket run_as identity : within 0 1 head →
      sysconf_str "run-as" conf = Ok run_as → take_identity e socket run_as = Some identity → client_flag o = false →
      main_shape e o l conf (head ++ identity ++ [Fork]) (Exited 0)
  | shape_server head socket run_as identity detach acts fin : within 0 1 head →
      sysconf_str "run-as" conf = Ok run_as → take_identity e socket run_as = Some identity → client_flag o = false →
      within 5 5 detach → server_main e o l conf = Ok (acts, fin) →
      main_shape e o l conf (head ++ identity ++ detach ++ acts) fin.

Lemma main_shaped e l acts fin o f c : main e l = Ok (acts, fin) → parse_options (answers e) default_options = Some o →
  config_file (config_option o) (readable e) = Some f → new_system_config (parser_room e) (content e f) = Ok (Some c) →
  main_shape e o l c acts fin.
Proof.
  unfold main. intros H Ho Hf Hc. rewrite Ho, Hf, Hc, bind_ok in H. apply bind_ok_inv in H as ([acts' fin'] & H & E). injection E as <- <-.
  unfold configured_main in H. apply bind_ok_inv in H as (socket & _ & H). apply bind_ok_inv in H as (run_as & Hr & H). cbv zeta in H.
  set (head := [Populate CmdService; ReadConfig f; SocketName (default EmptyString socket); SetPrompt; Populate ConfService]).
  assert (within 0 1 head) as Hhead by written_out.
  destruct (take_identity e socket run_as) as [identity|] eqn:Hi; [|injection H as <- <-; by apply (shape_no_user e o l c head socket run_as)].
  destruct (client_flag o) eqn:Hcl; [injection H as <- <-; by apply (shape_client e o l c head socket run_as)|].
  destruct (_ && (0 <? fork_result e)); [injection H as <- <-; by apply (shape_parent e o l c head socket run_as)|].
  apply bind_ok_inv in H as ([acts2 fin2] & Hs & H). injection H as <- <-.
  apply (shape_server e o l c head socket run_as identity _ acts2); try done. destruct (_ && _); written_out.
Qed.

Lemma main_cases e l acts fin : main e l = Ok (acts, fin) →
  within 0 0 acts ∧ fin = Exited 1 ∨
  ∃ o f c, parse_options (answers e) default_options = Some o ∧ config_file (config_option o) (readable e) = Some f ∧
    new_system_config (parser_room e) (content e f) = Ok (Some c) ∧ main_shape e o l c acts fin.
Proof.
  intros H. pose proof (main_shaped e l acts fin) as Hshape. unfold main in H. destruct (parse_options _ _) as [o|] eqn:Ho.
  2: { left. injection H as <- <-. split; [written_out|done]. }
  destruct (config_file _ _) as [f|] eqn:Hf; [|done]. apply bind_ok_inv in H as H'. destruct H' as (conf & Hc & H').
  destruct conf as [c|]; [|injection H' as <- <-; left; split; [written_out|done]].
  right. exists o, f, c. do 3 (split; [done|]). apply (Hshape o f c); [|done..]. unfold main. by rewrite Ho, Hf.
Qed.

Lemma not_in_app {A} (x : A) l1 l2 : x ∉ l1 → x ∉ l2 → x ∉ l1 ++ l2.
Proof. rewrite elem_of_app. tauto. Qed.

(** An act of a late phase can only come from the end of the list. *)
Lemma shape_late e o l c acts fin a : main_shape e o l c acts fin → (8 < phase a)%nat → a ∈ acts →
  client_flag o = true ∧ a ∈ [AutoWiring; RegisterCommands; StartClient; ClientLoop] ∨
  client_flag o = false ∧ a ∈ (run_server e).1 ∧ ∃ pre, acts = pre ++ (run_server e).1 ∧ fin = (run_server e).2.
Proof.
  intros Hs Ha Hin. destruct Hs as [head ? ? Hh _ _|head ? ? id Hh _ Hi Hc|head ? ? id Hh _ Hi Hc|head ? ? id det acts fin Hh _ Hi Hc Hd Hsm].
  - by apply (within_not_in _ _ _ a Hh) in Hin; [|lia].
  - left. split; [done|]. apply elem_of_app in Hin as [Hin|[Hin|Hin]%elem_of_app]; [| |done].
    + by apply (within_not_in _ _ _ a Hh) in Hin; [|lia].
    + by apply (within_not_in _ _ _ a (identity_within _ _ _ _ Hi)) in Hin; [|lia].
  - exfalso. revert Hin. apply not_in_app; [by apply (within_not_in _ _ _ a Hh); lia|].
    apply not_in_app; [by apply (within_not_in _ _ _ a (identity_within _ _ _ _ Hi)); lia|].
    apply (within_not_in 5 5); [written_out|lia].
  - right. split; [done|]. apply elem_of_app in Hin as [Hin|[Hin|[Hin|Hin]%elem_of_app]%elem_of_app].
    + by apply (within_not_in _ _ _ a Hh) in Hin; [|lia].
    + by apply (within_not_in _ _ _ a (identity_within _ _ _ _ Hi)) in Hin; [|lia].
    + by apply (within_not_in _ _ _ a Hd) in Hin; [|lia].
    + apply server_main_shape in Hsm as [[Hw _]|(p & Hw & -> & Hfin)]; [by apply (within_not_in _ _ _ a Hw) in Hin; [|lia]|].
      apply elem_of_app in Hin as [Hin|Hin]; [by apply (within_not_in _ _ _ a Hw) in Hin; [|lia]|]. split; [done|].
      exists (head ++ id ++ det ++ p). by rewrite <- !app_assoc.
Qed.

(** Taking an identity sets the group and then the user. *)
Lemma identity_ids e socket user l uid gid : 0 < strlen user → getpwnam e user = Some (uid, gid) →
  take_identity e socket (Some user) = Some l → Setregid gid ∈ l ∧ Setreuid uid ∈ l.
Proof.
  intros Hu Hp. unfold take_identity. rewrite (proj2 (Z.ltb_lt _ _) Hu), Hp. cbn. intros [= <-].
  rewrite !elem_of_app, !elem_of_cons. auto.
Qed.

Lemma shape_user e o l c acts fin user : main_shape e o l c acts fin → sysconf_str "run-as" c = Ok (Some user) → 0 < strlen user →
  match getpwnam e user with
  | Some (uid, gid) => Setregid gid ∈ acts ∧ Setreuid uid ∈ acts
  | None => fin = Exited 1 ∧ Forall (λ a, (phase a ≤ 1)%nat) acts
  end.
Proof.
  intros Hs Hr Hu. destruct (getpwnam e user) as [[uid gid]|] eqn:Hp.
  - assert (∀ socket run_as id, sysconf_str "run-as" c = Ok run_as → take_identity e socket run_as = Some id →
      Setregid gid ∈ id ∧ Setreuid uid ∈ id) as Hid.
    { intros socket run_as id Hr' Hi. rewrite Hr in Hr'. injection Hr' as <-. by apply (identity_ids e socket user). }
    destruct Hs as [head socket run_as _ Hr' Hi|head socket run_as id _ Hr' Hi _|head socket run_as id _ Hr' Hi _|head socket run_as id det acts fin _ Hr' Hi _ _ _];
      [|destruct (Hid _ _ _ Hr' Hi); rewrite !elem_of_app; auto..].
    rewrite Hr in Hr'. injection Hr' as <-. unfold take_identity in Hi. by rewrite (proj2 (Z.ltb_lt _ _) Hu), Hp in Hi.
  - assert (∀ socket run_as, sysconf_str "run-as" c = Ok run_as → take_identity e socket run_as = None) as Hnone.
    { intros socket run_as Hr'. rewrite Hr in Hr'. injection Hr' as <-. unfold take_identity. by rewrite (proj2 (Z.ltb_lt _ _) Hu), Hp. }
    destruct Hs as [head socket run_as [_ Hh] _ _|head socket run_as id _ Hr' Hi _|head socket run_as id _ Hr' Hi _|head socket run_as id det acts fin _ Hr' Hi _ _ _];
      [|specialize (Hnone socket run_as Hr'); congruence..].
    split; [done|]. eapply List.Forall_impl; [|exact Hh]. cbn. lia.
Qed.

(** An act that is not in the list. *)
Ltac absurd_in H := repeat (apply elem_of_cons in H as [H|H]; [discriminate H|]); by apply elem_of_nil in H.

(** C20: what the program does, in order. The phases follow each other: command interface and
    configuration, directory of the socket, group, user, daemon, services, wiring, command server,
    proxy, signals, timer. The command server starts only when all parts are wired, the proxy
    only when the command server runs, and a client starts neither; a program that has started the
    proxy stays in the minute timer. When the configuration names a user, the group and the user
    are set, after the objects of the command interface and of the configuration were made and
    before the daemon, the other services, the sockets and the threads; when there is no such user,
    nothing of that happens and the program fails. *)
Theorem main_order (e : main_env) (l : logger appender) (acts : list main_act) (fin : main_end) :
  main e l = Ok (acts, fin) →
  in_order acts ∧
  (StartServer ∈ acts → wiring_ok e = true ∧ ClientLoop ∉ acts) ∧
  (StartProxying ∈ acts → wiring_ok e = true ∧ server_ok e = true ∧ InstallSignals ∈ acts ∧ fin = InTimer) ∧
  (∀ o f c user, parse_options (answers e) default_options = Some o → config_file (config_option o) (readable e) = Some f →
     new_system_config (parser_room e) (content e f) = Ok (Some c) → sysconf_str "run-as" c = Ok (Some user) → 0 < strlen user →
     match getpwnam e user with
     | Some (uid, gid) => Setregid gid ∈ acts ∧ Setreuid uid ∈ acts
     | None => fin = Exited 1 ∧ Forall (λ a, (phase a ≤ 1)%nat) acts
     end).
Proof.
  intros H. split; [exact (main_in_order e l acts fin H)|]. destruct (main_cases e l acts fin H) as [[Hw ->]|(o & f & c & Ho & Hf & Hc & Hs)].
  { split; [|split]; [intros Hin; by apply (within_not_in _ _ _ _ Hw) in Hin; [|cbn; lia]..|].
    intros o f c user Ho Hf Hc Hr Hu. pose proof (main_shaped e l acts (Exited 1) o f c H Ho Hf Hc) as Hs.
    by apply (shape_user e o l c acts (Exited 1) user). }
  split; [|split].
  - intros Hin. destruct (shape_late e o l c acts fin StartServer Hs ltac:(cbn; lia) Hin) as [[_ Hx]|(Hcl & Hx & _)];
      [absurd_in Hx|].
    split; [unfold run_server in Hx; destruct (wiring_ok e); [done|]; absurd_in Hx|].
    intros Hcli. destruct (shape_late e o l c acts fin ClientLoop Hs ltac:(cbn; lia) Hcli) as [[Hcl' _]|(_ & Hy & _)]; [congruence|].
    unfold run_server in Hy. destruct (wiring_ok e), (server_ok e); absurd_in Hy.
  - intros Hin. destruct (shape_late e o l c acts fin StartProxying Hs ltac:(cbn; lia) Hin) as [[_ Hx]|(_ & Hx & pre & -> & ->)];
      [absurd_in Hx|].
    unfold run_server in *. destruct (wiring_ok e), (server_ok e); try absurd_in Hx.
    do 2 (split; [done|]). split; [|done]. rewrite elem_of_app. right. cbn [fst]. rewrite !elem_of_cons. auto 8.
  - intros o' f' c' user Ho' Hf' Hc' Hr Hu. by apply (shape_user e o' l c' acts fin user); [eapply main_shaped|..].
Qed.

(** [log-file] as a list of targets: the text of the entry is asked for first, which was never
    written. *)
Lemma log_file_list_undefined e o l c run_as socket identity t :
  sysconf_str_or_default "socket-name" (Some "/var/run/tcp-proxy/tcp-proxy.sock"%string) c = Ok socket →
  sysconf_str "run-as" c = Ok run_as → take_identity e socket run_as = Some identity → client_flag o = false → fork_result e = 0 →
  sysconf_ptr "log-file" c = Some t → value t = Unset → configured_main e o l c = Undefined Uninitialised.
Proof.
  intros Hs Hr Hi Hc Hf Ht Hv. unfold configured_main. rewrite Hs, bind_ok, Hr, bind_ok, Hi, Hc, Hf, andb_false_r. cbv zeta.
  assert (sysconf_str "log-file" c = Undefined Uninitialised) as E by (unfold sysconf_str; rewrite Ht; cbn; by rewrite Hv).
  unfold server_main. by rewrite E.
Qed.

End order.

(** *** A run *)

#[local] Existing Instance sample_yacc.

(** A server that starts, with the sample configuration and a line for the user. *)
Definition sample_env : main_env :=
  MainEnv [] (λ f, bool_decide (f = "tcp-proxy.conf"%string))
    (λ _, Some (sample_text +:+ "run-as = " +:+ quoted "proxy" +:+ ";")) 100 (λ _, Some (101, 102)) 18 true 0 true true.

Definition sample_logger : logger appender := Logger [] log_notice true.

Example sample_run : main sample_env sample_logger =
  Ok ([Populate CmdService; ReadConfig "tcp-proxy.conf"; SocketName "/var/run/tcp-proxy/tcp-proxy.sock"; SetPrompt;
       Populate ConfService; FileAct (Umask 2); FileAct (Mkdir "/var/run/tcp-proxy" 509); FileAct (Chown "/var/run/tcp-proxy" 102);
       FileAct (Umask 18); Setregid 102; Setreuid 101; ExpiringTimeout 180; NewBlacklist 513 86400; Populate BlacklistService;
       SetAppenders []; SetPriority log_notice; NewDatabase; NewProxy; Populate DatabaseService; Populate AnalyzerService;
       Populate ProxyService; RegisterCommands; SetLogin; AutoWiring; StartServer; StartProxying; InstallSignals; RunTimer],
      InTimer).
Proof. vm_compute. reflexivity. Qed.

Lemma main_order_witness : Setregid 102 ∈ (match main sample_env sample_logger with Ok (acts, _) => acts | _ => [] end).
Proof.
  destruct (main sample_env sample_logger) as [[acts fin]| |] eqn:H; [|rewrite sample_run in H; discriminate H..].
  destruct (new_system_config 100 (content sample_env "tcp-proxy.conf")) as [[c|]| |] eqn:Hc;
    [|vm_compute in Hc; discriminate Hc..].
  refine (proj1 (proj2 (proj2 (proj2 (main_order sample_env sample_logger acts fin H)))
    default_options "tcp-proxy.conf"%string c "proxy"%string eq_refl eq_refl Hc _ _)).
  - vm_compute in Hc. injection Hc as <-. vm_compute. reflexivity.
  - vm_compute. reflexivity.
Defined.
