(* ===== verification/Services.v ===== *)
(** * The services and their tables of functions

    Every service of the program is an object with a header, a name and a table of pointers to
    functions; the other parts find it by its name in the application context. This file has the
    objects as they are initialised, the declared members of every table, and what [main] and
    the parts it starts register and look up. It composes [Main.v] with [Context.v] over the
    hash map of [HashMap.v]: in a server every service that is looked up is found, and every
    member that is called has a function. *)

From S2P Require Import Prelude Heap StringMap HashMap Context ConfText Main.

(** ** The names *)

Definition COMMAND_LINE_INTERFACE_DEFAULT_CONTEXT_NAME : string := "cmdline-interface".
Definition SYSTEM_CONFIG_DEFAULT_CONTEXT_NAME : string := "system-config".
Definition AUTO_BLACKLIST_DEFAULT_CONTEXT_NAME : string := "auto-blacklist".
Definition DATABASE_SERVICE_DEFAULT_CONTEXT_NAME : string := "database-service".
Definition PACKET_ANALYZER_DEFAULT_CONTEXT_NAME : string := "packet-analyzer".
Definition PROXYING_SERVICE_DEFAULT_CONTEXT_NAME : string := "proxying-service".

(** ** The declared members of the tables *)

(** A member that is given, with the function that it gets. *)
Abbreviation table := (list (string * string)).

Section declared.
Local Open Scope string_scope.

Definition cmdlintf_t : list string :=
  ["add"; "socket_name"; "set_prompt"; "set_timeout"; "start_server"; "start_server_in_thread"; "start_client";
   "cli"; "print"; "regcmd"; "set_login_callback"; "execute"; "terminate"].

Definition system_config_t : list string :=
  ["addentry_integer"; "addentry_string"; "addentry_ip"; "addentry_mac"; "addentry_flag_on"; "addentry_flag_off";
   "add_prepared_list"; "set_list_as_integer"; "set_list_as_string"; "list_append_int"; "list_append_str";
   "str"; "str_or_default"; "integer"; "integer_list"; "string_list"; "int_or_default"; "first_key"; "next_key";
   "data_type"; "terminated"; "terminate"; "get_config_data"].

Definition auto_blacklist_service_t : list string := ["find_and_increase"; "terminate"; "expiring"; "for_each"].

Definition database_service_t : list string :=
  ["check_available"; "connection_close"; "connection_established"; "connection_not_allowed";
   "connection_blacklisted"; "check_vip"; "add_ip_to_auto_blacklist"; "close_idle"; "done"; "set_logger";
   "fail_guessing"; "add_kms_details"; "update_machine_owner"; "reload_product_names"; "get_product_name"].

Definition packet_analyzer_t : list string :=
  ["load_packet_analyzer"; "load"; "unload"; "set_enable"; "set_safe_mode"; "get_safe_mode"; "allocate";
   "release"; "analyze_packet"].

Definition proxying_service_t : list string :=
  ["start_proxying"; "clean_idle_connection"; "get_default_channel"; "get_fallback_channel";
   "set_default_channel"; "set_fallback_channel"].

Definition hash_map_t : list string := ["exists"; "get"; "put_if_absent"; "put"; "remove"; "dispose"].

Definition event_loop_t : list string := ["remove_event"; "add_event"; "looping"; "count"].

Definition minute_timer_t : list string := ["get_day_of_year"; "get_prev_day_of_year"; "terminate"; "start"].

Definition logger_t : list string :=
  ["log"; "fatal"; "error"; "warning"; "notice"; "info"; "debug"; "trace"; "getPriority"; "setPriority";
   "clearAppender"; "addAppender"; "isEnable"].

Definition application_context_t : list string :=
  ["populate"; "error_message"; "get_logger"; "auto_wiring"; "get_bean"; "set_pointer"; "get_pointer"].

Definition dsa_helper_t : list string :=
  ["sign"; "verify"; "ec_curve_name"; "load_ec_public_key"; "have_private_key"; "have_public_key";
   "clear_private_key"; "clear_public_key"; "dispose"].

Definition db_xsql_result_t : list string :=
  ["next"; "close"; "getuInt"; "getInt"; "getShort"; "getBigint"; "getuBigint"; "getString"; "getIndex";
   "getTimestamp"; "getFields"; "getNumberOfFields"].

Definition db_xsql_stmt_t : list string :=
  ["executeQuery"; "executeUpdate"; "executeMultipleQuery"; "clearParameters"; "freeResult"; "setuInt"; "setInt";
   "setShort"; "setString"; "setuBigint"; "setBigint"; "setNull"; "close"].

Definition db_xsql_t : list string :=
  ["newInstance"; "dispose"; "setInfo"; "connect"; "disconnect"; "createStatement"; "setLogger"; "error"; "errno"].

(** ** The tables

    A member that is not named is NULL. *)

Definition cmdlintf_table : table :=
  [("cli", "cmdline_interface"); ("print", "lprint"); ("terminate", "external_terminate");
   ("execute", "external_execute"); ("set_login_callback", "cli_set_login_callback");
   ("set_timeout", "cli_set_timeout"); ("regcmd", "regist_default_command"); ("set_prompt", "cli_set_prompt");
   ("start_server", "start_server"); ("start_client", "start_client");
   ("start_server_in_thread", "start_server_in_thread"); ("socket_name", "cli_socket_name"); ("add", "cli_addcmd")].

Definition system_config_table : table :=
  [("terminate", "terminate"); ("terminated", "terminated"); ("addentry_flag_off", "addentry_flag_off");
   ("addentry_integer", "addentry_integer"); ("addentry_string", "addentry_string"); ("addentry_ip", "addentry_ip");
   ("addentry_mac", "addentry_mac"); ("addentry_flag_on", "addentry_flag_on");
   ("addentry_flag_off", "addentry_flag_off"); ("add_prepared_list", "add_prepared_list");
   ("set_list_as_integer", "set_list_as_integer"); ("set_list_as_string", "set_list_as_string");
   ("list_append_int", "list_append_int"); ("list_append_str", "list_append_str"); ("str", "sysconf_str");
   ("str_or_default", "sysconf_str_or_default"); ("integer", "sysconf_int");
   ("int_or_default", "sysconf_int_or_default"); ("first_key", "sysconf_get_first_key");
   ("next_key", "sysconf_get_next_key"); ("data_type", "data_type"); ("string_list", "string_list");
   ("integer_list", "integer_list")].

Definition auto_blacklist_table : table :=
  [("find_and_increase", "find_and_increase"); ("terminate", "terminate_thread"); ("expiring", "wakeup");
   ("for_each", "for_each")].

Definition database_service_table : table :=
  [("check_available", "check_available"); ("connection_close", "connection_close");
   ("connection_established", "connection_established"); ("connection_not_allowed", "connection_not_allowed");
   ("connection_blacklisted", "connection_blacklisted"); ("add_ip_to_auto_blacklist", "add_ip_to_auto_blacklist");
   ("add_kms_details", "add_kms_details"); ("update_machine_owner", "update_machine_owner");
   ("reload_product_names", "reload_product_names"); ("get_product_name", "get_product_name");
   ("fail_guessing", "fail_guessing"); ("check_vip", "check_vip"); ("close_idle", "close_idle");
   ("done", "db_service_done"); ("set_logger", "set_logger")].

Definition packet_analyzer_table : table :=
  [("load_packet_analyzer", "load_packet_analyzer"); ("load", "module_loader"); ("unload", "module_unload");
   ("allocate", "analyzer_allocate"); ("release", "analyzer_release"); ("analyze_packet", "analyze_packet");
   ("set_enable", "set_enable"); ("set_safe_mode", "set_safe_mode"); ("get_safe_mode", "get_safe_mode")].

Definition proxying_table : table :=
  [("start_proxying", "start_proxying"); ("clean_idle_connection", "clean_idle_connections");
   ("set_default_channel", "set_default_channel"); ("set_fallback_channel", "set_fallback_channel");
   ("get_default_channel", "get_default_channel"); ("get_fallback_channel", "get_fallback_channel")].

Definition hash_map_table : table :=
  [("exists", "exists"); ("get", "get_by_key"); ("put_if_absent", "put_if_absent"); ("put", "overwrite_put");
   ("remove", "remove"); ("dispose", "dispose")].

Definition event_loop_table : table :=
  [("add_event", "ev_add_event"); ("remove_event", "ev_remove_event"); ("looping", "ev_looping"); ("count", "ev_count")].

Definition minute_timer_table : table :=
  [("start", "start_minute_timer"); ("get_day_of_year", "get_day_of_year");
   ("get_prev_day_of_year", "get_prev_day_of_year"); ("terminate", "terminate_minute_timer")].

Definition common_logger_table : table :=
  [("log", "con_log"); ("fatal", "con_fatal"); ("error", "con_error"); ("warning", "con_warning");
   ("notice", "con_notice"); ("info", "con_info"); ("debug", "con_debug"); ("trace", "con_trace");
   ("getPriority", "con_getPriority"); ("setPriority", "con_setPriority"); ("clearAppender", "con_clearAppender");
   ("addAppender", "con_addAppender"); ("isEnable", "con_isEnable")].

Definition null_logger_table : table :=
  [("log", "null_log"); ("fatal", "null_everything"); ("error", "null_everything"); ("warning", "null_everything");
   ("notice", "null_everything"); ("info", "null_everything"); ("debug", "null_everything");
   ("trace", "null_everything"); ("getPriority", "null_getPriority"); ("setPriority", "null_setPriority");
   ("clearAppender", "null_clearAppender"); ("addAppender", "null_addAppender")].

Definition application_context_table : table :=
  [("populate", "populate"); ("error_message", "error_message"); ("get_logger", "get_logger");
   ("auto_wiring", "auto_wiring"); ("get_bean", "get_bean"); ("set_pointer", "set_pointer");
   ("get_pointer", "get_pointer")].

Definition ecdsa_table : table :=
  [("sign", "sign_message"); ("verify", "verify_signature"); ("ec_curve_name", "ec_curve_name");
   ("load_ec_public_key", "load_ec_public_key"); ("have_private_key", "have_private_key");
   ("have_public_key", "have_public_key"); ("clear_private_key", "clear_private_key");
   ("clear_public_key", "clear_public_key"); ("dispose", "dispose")].

Definition mysql_result_table : table :=
  [("close", "dbmysql_result_close"); ("next", "dbmysql_result_next"); ("getInt", "dbmysql_result_getInt");
   ("getShort", "dbmysql_result_getShort"); ("getuInt", "dbmysql_result_getuInt");
   ("getBigint", "dbmysql_result_getBigint"); ("getuBigint", "dbmysql_result_getuBigint");
   ("getString", "dbmysql_result_getString"); ("getTimestamp", "dbmysql_result_getTimestamp");
   ("getIndex", "dbmysql_result_getIndex"); ("getNumberOfFields", "dbmysql_result_getNumberOfFields");
   ("getFields", "dbmysql_result_getFields")].

Definition mysql_stmt_table : table :=
  [("close", "dbmysql_stmt_close"); ("executeQuery", "dbmysql_executeQuery");
   ("executeUpdate", "dbmysql_executeUpdate"); ("executeMultipleQuery", "dbmysql_executeMultipleQuery");
   ("clearParameters", "dbmysql_clearParameters"); ("setInt", "dbmysql_stmt_setInt");
   ("setuInt", "dbmysql_stmt_setuInt"); ("setShort", "dbmysql_stmt_setShort");
   ("setBigint", "dbmysql_stmt_setBigint"); ("setuBigint", "dbmysql_stmt_setuBigint");
   ("setString", "dbmysql_stmt_setString"); ("setNull", "dbmysql_stmt_setNull")].

Definition mysql_table : table :=
  [("newInstance", "newInstance"); ("dispose", "dispose"); ("connect", "dbmysql_connect");
   ("disconnect", "dbmysql_disconnect"); ("errno", "error_number"); ("error", "error_string");
   ("setInfo", "dbmysql_setInfo"); ("createStatement", "dbmysql_createStatement"); ("setLogger", "dbmysql_setLogger")].
End declared.

(** What a member is: the function it was given last, or NULL. *)
Definition member (t : table) (m : string) : option string :=
  snd <$> List.find (λ e, bool_decide (fst e = m)) (rev t).

(** The declared members without a function. *)
Definition unset (declared : list string) (t : table) : list string :=
  filter (λ m, member t m = None) declared.

(** ** The objects *)

Section services.
(** The addresses of the static objects. *)
Context (address : bean → Z).

Definition header_of (b : bean) (name : string) (post_construct : bool) : context_data :=
  ContextData (address b) CONTEXT_MAGIC_NUMBER CONTEXT_MAJOR_VERSION CONTEXT_MINOR_VERSION name None post_construct.

Definition cmdlintf_context : context_data := header_of CmdService COMMAND_LINE_INTERFACE_DEFAULT_CONTEXT_NAME true.
Definition system_config_context : context_data := header_of ConfService SYSTEM_CONFIG_DEFAULT_CONTEXT_NAME false.
Definition auto_blacklist_context : context_data := header_of BlacklistService AUTO_BLACKLIST_DEFAULT_CONTEXT_NAME true.
Definition database_service_context : context_data := header_of DatabaseService DATABASE_SERVICE_DEFAULT_CONTEXT_NAME true.
Definition packet_analyzer_context : context_data := header_of AnalyzerService PACKET_ANALYZER_DEFAULT_CONTEXT_NAME true.
Definition proxying_context : context_data := header_of ProxyService PROXYING_SERVICE_DEFAULT_CONTEXT_NAME true.

Definition context_of (b : bean) : context_data :=
  match b with
  | CmdService => cmdlintf_context
  | ConfService => system_config_context
  | BlacklistService => auto_blacklist_context
  | DatabaseService => database_service_context
  | AnalyzerService => packet_analyzer_context
  | ProxyService => proxying_context
  end.

Definition table_of (b : bean) : list string * list (string * string) :=
  match b with
  | CmdService => (cmdlintf_t, cmdlintf_table)
  | ConfService => (system_config_t, system_config_table)
  | BlacklistService => (auto_blacklist_service_t, auto_blacklist_table)
  | DatabaseService => (database_service_t, database_service_table)
  | AnalyzerService => (packet_analyzer_t, packet_analyzer_table)
  | ProxyService => (proxying_service_t, proxying_table)
  end.

(** The service of a name. *)
Definition named (n : string) : option bean :=
  List.find (λ b, bool_decide (c_name (context_of b) = n))
    [CmdService; ConfService; BlacklistService; DatabaseService; AnalyzerService; ProxyService].

(** ** What the parts ask the application context *)

Context {P : Type} `{Y : Yacc}.

(** [init_packet_analyzer], before it is populated. *)
Definition analyzer_lookups : list string := [SYSTEM_CONFIG_DEFAULT_CONTEXT_NAME].

Definition command_lookups : list string :=
  [SYSTEM_CONFIG_DEFAULT_CONTEXT_NAME; PACKET_ANALYZER_DEFAULT_CONTEXT_NAME; AUTO_BLACKLIST_DEFAULT_CONTEXT_NAME;
   PROXYING_SERVICE_DEFAULT_CONTEXT_NAME].

Definition proxy_lookups : list string :=
  [SYSTEM_CONFIG_DEFAULT_CONTEXT_NAME; AUTO_BLACKLIST_DEFAULT_CONTEXT_NAME; PACKET_ANALYZER_DEFAULT_CONTEXT_NAME;
   DATABASE_SERVICE_DEFAULT_CONTEXT_NAME].

(** The calls of the context that come from a call of [main]: its own, those of the functions it
    calls, and those of the thread it starts. *)
Definition context_calls (a : main_act) : list (ctx_call (P := P)) :=
  match a with
  | Main.Populate AnalyzerService => map GetBean analyzer_lookups ++ [Context.Populate packet_analyzer_context]
  | Main.Populate b => [Context.Populate (context_of b)]
  | Main.AutoWiring => [Context.AutoWiring]
  | RegisterCommands => map GetBean command_lookups
  | StartProxying => map GetBean proxy_lookups
  | _ => []
  end.

(** What every call should answer: a service is accepted, and the name of a service gives that
    service. In a client only the command line and the configuration exist. *)
Definition proper_answer (client : bool) (x : ctx_call (P := P)) : ctx_reply (P := P) :=
  match x with
  | Context.Populate _ => Code 0
  | Context.AutoWiring => Flag true
  | GetBean n =>
      Bean (b ← named n;
            if client && negb (match b with CmdService | ConfService => true | _ => false end) then None else Some (address b))
  | SetPointer _ _ => Flag true
  | GetPointer _ => Variable_ None
  end.

(** The services that have something to construct, in the order they are populated. *)
Definition constructed (x : ctx_call (P := P)) : list Z :=
  match x with Context.Populate c => if has_post_construct c then [c_id c] else [] | _ => [] end.

(** The members each part calls through the pointers it looked up. *)
Definition analyzer_uses : list (bean * list string) := [(ConfService, ["int_or_default"; "str_or_default"])]%string.

Definition command_uses : list (bean * list string) :=
  [(CmdService, ["regcmd"; "add"; "print"; "terminate"]);
   (AnalyzerService, ["get_safe_mode"; "load_packet_analyzer"; "set_enable"; "set_safe_mode"; "unload"]);
   (ProxyService, ["get_default_channel"; "get_fallback_channel"; "set_default_channel"; "set_fallback_channel"])]%string.

Definition proxy_uses : list (bean * list string) :=
  [(ConfService, ["int_or_default"; "string_list"; "terminate"; "terminated"]);
   (BlacklistService, ["find_and_increase"]); (AnalyzerService, ["allocate"; "analyze_packet"; "release"]);
   (DatabaseService, ["add_ip_to_auto_blacklist"; "check_available"; "check_vip"; "connection_blacklisted";
      "connection_close"; "connection_established"; "connection_not_allowed"; "done"; "fail_guessing";
      "reload_product_names"])]%string.

Definition main_uses : list (bean * list string) :=
  [(CmdService, ["cli"; "print"; "set_login_callback"; "set_prompt"; "socket_name"; "start_client"; "start_server_in_thread"]);
   (ConfService, ["int_or_default"; "str"; "str_or_default"; "string_list"; "terminate"]);
   (DatabaseService, ["close_idle"]); (BlacklistService, ["expiring"; "terminate"]);
   (ProxyService, ["clean_idle_connection"; "start_proxying"])]%string.

(** ** What a run of [main] asks *)

Definition is_client (e : main_env) : bool :=
  match parse_options (answers e) default_options with Some o => client_flag o | None => false end.

(** The calls before the identity of the process changes, of a client, of a server up to its
    tests, of its services, and of the proxy thread. *)
Definition boot_calls : list (ctx_call (P := P)) := [Context.Populate cmdlintf_context].
Definition conf_calls : list (ctx_call (P := P)) := boot_calls ++ [Context.Populate system_config_context].
Definition client_calls : list (ctx_call (P := P)) := conf_calls ++ Context.AutoWiring :: map GetBean command_lookups.
Definition tested_calls : list (ctx_call (P := P)) := conf_calls ++ [Context.Populate auto_blacklist_context].
Definition server_calls : list (ctx_call (P := P)) :=
  tested_calls ++ [Context.Populate database_service_context] ++ map GetBean analyzer_lookups ++
  [Context.Populate packet_analyzer_context; Context.Populate proxying_context] ++ map GetBean command_lookups ++ [Context.AutoWiring].
Definition proxied_calls : list (ctx_call (P := P)) := server_calls ++ map GetBean proxy_lookups.

Lemma identity_calls e socket run_as identity : take_identity e socket run_as = Some identity → flat_map context_calls identity = [].
Proof.
  unfold take_identity. destruct run_as as [user|]; [|by intros [= <-]]. destruct (0 <? strlen user); [|by intros [= <-]].
  destruct (getpwnam e user) as [[uid gid]|]; [|done]. cbn. intros [= <-]. rewrite flat_map_app, app_nil_r.
  induction (check_or_mkdir _ _ _ _ _); done.
Qed.

Lemma server_main_calls e o l conf acts fin : server_main e o l conf = Ok (acts, fin) →
  conf_calls ++ flat_map context_calls acts ∈ [tested_calls; server_calls; proxied_calls].
Proof.
  unfold server_main. intros H. apply bind_ok_inv in H as (logfile & _ & H). apply bind_ok_inv in H as (names & _ & H).
  cbv zeta in H. apply bind_ok_inv in H as (name & _ & H). destruct (testing_flag o); [injection H as <- <-; rewrite elem_of_cons; by left|].
  unfold run_server in H. rewrite !elem_of_cons.
  destruct (wiring_ok e), (server_ok e); injection H as <- <-; auto.
Qed.

Lemma main_calls e l acts fin : main e l = Ok (acts, fin) →
  (is_client e = true → flat_map context_calls acts ∈ [[]; boot_calls; conf_calls; client_calls]) ∧
  (is_client e = false → flat_map context_calls acts ∈ [[]; boot_calls; conf_calls; tested_calls; server_calls; proxied_calls]).
Proof.
  unfold main, is_client. destruct (parse_options _ _) as [o|]; [|intros [= <- <-]; split; intros _; apply elem_of_cons; by left].
  destruct (config_file _ _) as [f|]; [|done]. intros H. apply bind_ok_inv in H as ([c|] & _ & H).
  2: { injection H as <- <-. split; intros _; rewrite !elem_of_cons; auto. }
  apply bind_ok_inv in H as ([acts' fin'] & H & E). injection E as <- <-. unfold configured_main in H.
  apply bind_ok_inv in H as (socket & _ & H). apply bind_ok_inv in H as (run_as & _ & H). cbv zeta in H.
  destruct (take_identity e socket run_as) as [identity|] eqn:Hi; [|injection H as <- <-; split; intros _; rewrite !elem_of_cons; auto].
  assert (∀ rest, flat_map context_calls (Main.Populate CmdService :: ReadConfig f :: SocketName (default EmptyString socket) ::
    SetPrompt :: Main.Populate ConfService :: identity ++ rest) = conf_calls ++ flat_map context_calls rest) as Hhead.
  { intros rest. cbn. by rewrite flat_map_app, (identity_calls _ _ _ _ Hi). }
  destruct (client_flag o).
  { injection H as <- <-. split; [|done]. intros _. cbn [app]. rewrite Hhead, !elem_of_cons. auto 6. }
  split; [done|]. intros _. destruct (_ && (0 <? fork_result e)).
  { injection H as <- <-. cbn [app]. rewrite Hhead, !elem_of_cons. auto. }
  apply bind_ok_inv in H as ([acts2 fin2] & Hs & H). injection H as <- <-. cbn [app]. rewrite Hhead, flat_map_app.
  assert (flat_map context_calls (if daemon_flag o && negb (SysConf.sysconf_int_or_default "daemon" 0 c =? 0) then [Fork; Detach] else []) = []) as ->
    by by destruct (_ && _).
  apply server_main_calls in Hs. rewrite !elem_of_cons in *. tauto.
Qed.

(** C19: in every run of the program each service is accepted under its name and constructed when
    it is populated, the wiring succeeds, and every service that the packet analyzer, the commands
    and the proxy thread look up is found; in a client the services of a server are not there. *)
Theorem services_resolve (e : main_env) (l : Logger.logger appender) (acts : list main_act) (fin : main_end) :
  main e l = Ok (acts, fin) →
  let xs := flat_map context_calls acts in
  ∃ s, ctx_run xs (initial_once P) = Ok (map (proper_answer (is_client e)) xs, flat_map constructed xs, s).
Proof.
  intros H. cbv zeta. destruct (main_calls e l acts fin H) as [Hc Hs]. clear H.
  assert (∀ xs, Forall ascii_names xs → (ctx_spec_run xs (Registry ∅ ∅)).1 = (map (proper_answer (is_client e)) xs, flat_map constructed xs) →
    ∃ s, ctx_run xs (initial_once P) = Ok (map (proper_answer (is_client e)) xs, flat_map constructed xs, s)) as Hrun.
  { intros xs Hx Hr. destruct (ctx_run_ok xs (initial_once P) (Registry ∅ ∅)) as (s & -> & _); [apply initial_once_rep| |].
    - revert Hx. apply Forall_impl. apply initial_once_names.
    - exists s. by rewrite Hr. }
  destruct (is_client e); [specialize (Hc eq_refl) as Hin|specialize (Hs eq_refl) as Hin]; clear Hc Hs.
  all: repeat (apply elem_of_cons in Hin as [->|Hin]; [apply Hrun; [by repeat constructor|reflexivity]|]); by apply elem_of_nil in Hin.
Qed.
End services.

(** ** The members that are called *)

(** What the grammar calls while the configuration is read. *)
Definition parser_uses : list (bean * list string) :=
  [(ConfService, ["add_prepared_list"; "addentry_flag_off"; "addentry_flag_on"; "addentry_integer"; "addentry_string"; "list_append_int";
      "list_append_str"; "set_list_as_integer"; "set_list_as_string"])]%string.

(** The tables that are no services, with the members the program calls. *)
Definition table_uses : list (table * list string) :=
  [(hash_map_table, ["dispose"; "get"; "put"; "put_if_absent"]);
   (event_loop_table, ["add_event"; "count"; "looping"; "remove_event"]); (minute_timer_table, ["start"]);
   (common_logger_table, ["addAppender"; "clearAppender"; "debug"; "error"; "fatal"; "getPriority"; "info"; "isEnable";
      "log"; "notice"; "setPriority"; "trace"; "warning"]);
   (application_context_table, ["auto_wiring"; "error_message"; "get_bean"; "get_logger"; "populate"]);
   (mysql_table, ["connect"; "createStatement"; "disconnect"; "errno"; "error"; "newInstance"; "setInfo"; "setLogger"]);
   (mysql_stmt_table, ["clearParameters"; "close"; "executeMultipleQuery"; "executeQuery"; "executeUpdate"; "setInt"; "setString"]);
   (mysql_result_table, ["close"; "getInt"; "getString"; "next"])]%string.

(** No call goes through a member that is NULL. *)
Theorem called_members_set :
  Forall (λ '(b, ms), Forall (λ m, is_Some (member (table_of b).2 m)) ms)
    (main_uses ++ parser_uses ++ analyzer_uses ++ command_uses ++ proxy_uses) ∧
  Forall (λ '(t, ms), Forall (λ m, is_Some (member t m)) ms) table_uses.
Proof. split; repeat constructor; by eexists. Qed.

(** The members without a function: [get_config_data] of the configuration, [isEnable] of the
    null logger, and [freeResult] of a statement, which is in memory that was never written. *)
Theorem unset_members :
  map (λ b, unset (table_of b).1 (table_of b).2)
    [CmdService; ConfService; BlacklistService; DatabaseService; AnalyzerService; ProxyService] =
    [[]; ["get_config_data"%string]; []; []; []; []] ∧
  map (λ '(d, t), unset d t)
    [(hash_map_t, hash_map_table); (event_loop_t, event_loop_table); (minute_timer_t, minute_timer_table);
     (logger_t, common_logger_table); (logger_t, null_logger_table); (application_context_t, application_context_table);
     (dsa_helper_t, ecdsa_table); (db_xsql_t, mysql_table); (db_xsql_stmt_t, mysql_stmt_table);
     (db_xsql_result_t, mysql_result_table)] =
    [[]; []; []; []; ["isEnable"%string]; []; []; []; ["freeResult"%string]; []].
Proof. split; reflexivity. Qed.

(** ** A run *)

#[local] Existing Instance sample_yacc.

Definition sample_address (b : bean) : Z :=
  match b with
  | CmdService => 1001 | ConfService => 1002 | BlacklistService => 1003
  | DatabaseService => 1004 | AnalyzerService => 1005 | ProxyService => 1006
  end.

(** The server of [Main.sample_run]: the proxy thread finds the configuration, the blacklist, the
    packet analyzer and the database. *)
Lemma services_resolve_witness :
  match main sample_env sample_logger with
  | Ok (acts, _) => ∃ before s, ctx_run (flat_map (context_calls sample_address) acts) (initial_once nat) =
      Ok (before ++ map (λ b, Bean (Some (sample_address b))) [ConfService; BlacklistService; AnalyzerService; DatabaseService],
          [1001; 1003; 1004; 1005; 1006], s)
  | _ => False
  end.
Proof.
  destruct (main sample_env sample_logger) as [[acts fin]| |] eqn:H; [|rewrite sample_run in H; discriminate H..].
  destruct (services_resolve sample_address (P := nat) sample_env sample_logger acts fin H) as [s Hs].
  rewrite sample_run in H. injection H as <- _.
  eexists (Code 0 :: _ :: _ :: _ :: _ :: _ :: _ :: _ :: _ :: _ :: _ :: _ :: []), s. exact Hs.
Defined.
