(* ===== verification/Threads.v ===== *)
(** * min_timer.c, and the expiring thread of auto_blacklist.c

    The minute timer is a loop in the main thread that reads the clock and sleeps; a run
    of it is given by the readings. With [cron] of main.c it does the work of every
    minute. The expiring thread waits on a condition variable without a predicate; it and
    the thread that wakes it up or terminates it are interleaved one access at a time; the
    signal handler of main.c runs [terminate_thread] on top of the latter. *)

From stdpp Require Import relations.
From S2P Require Import Prelude Utils Main.

(** ** The minute timer *)

(** What one turn of the loop finds: the flag [terminate], and the clock. *)
Record turn := Turn { t_terminate : bool; t_tv : timeval; t_tm : Utils.tm }.

(** The loop; the result is what it did, its variables, and whether it has ended. *)
Fixpoint timer_loop (rs : list turn) (s : timer) : list timer_action * timer * bool :=
  match rs with
  | [] => ([], s, false)
  | r :: rs' =>
      if t_terminate r then ([], s, true)
      else
        let '(s1, a) := timer_step (t_tv r) (t_tm r) s in
        let '(acts, s2, ended) := timer_loop rs' s1 in
        (a :: acts, s2, ended)
  end.

(** [tv0], [tm0] are read by [init_minute_timer], [tv1] by the second [gettimeofday]. *)
Definition start_minute_timer (tv0 : timeval) (tm0 : Utils.tm) (tv1 : timeval) (rs : list turn)
    : list timer_action * timer * bool :=
  let s0 := init_minute_timer tv0 tm0 in
  timer_loop rs (Timer (Z.quot (tv_sec tv1) time_unit) (Utils.day_of_year s0) (Utils.prev_day_of_year s0)).

Definition get_day_of_year (s : timer) : Z := Utils.day_of_year s.
Definition get_prev_day_of_year (s : timer) : Z := Utils.prev_day_of_year s.

(** [terminate_minute_timer]: the flag is set, and the sleep is interrupted. *)
Inductive timer_signal := SetTerminate | KillTimerThread.
Definition terminate_minute_timer : list timer_signal := [SetTerminate; KillTimerThread].

(** The arguments of the calls of [func]. *)
Definition callbacks (acts : list timer_action) : list (timeval * Utils.tm) :=
  omap (λ a, match a with Callback tv t => Some (tv, t) | Usleep _ => None end) acts.

(** ** Specification: which turns call, and which turns work *)

Definition unit_of (tv : timeval) : Z := Z.quot (tv_sec tv) time_unit.
Definition minute_of (tv : timeval) : Z := Z.quot (tv_sec tv) 60.

(** The turns in a unit other than that of the turn before. *)
Fixpoint new_units (u : Z) (rs : list turn) : list turn :=
  match rs with
  | [] => []
  | r :: rs' => (if unit_of (t_tv r) =? u then [] else [r]) ++ new_units (unit_of (t_tv r)) rs'
  end.

(** The turns in a minute other than that of the turn before. *)
Fixpoint new_minutes (m : Z) (rs : list turn) : list turn :=
  match rs with
  | [] => []
  | r :: rs' => (if minute_of (t_tv r) =? m then [] else [r]) ++ new_minutes (minute_of (t_tv r)) rs'
  end.

(** The turns at which [cron] does its work. *)
Fixpoint working_turns (calls : list turn) (last_min : Z) : list turn :=
  match calls with
  | [] => []
  | r :: calls' =>
      let '(jobs, l) := cron (t_tm r) last_min in
      (match jobs with [] => [] | _ => [r] end) ++ working_turns calls' l
  end.

Definition running (r : turn) : Prop := t_terminate r = false.

(** The timer calls back exactly at the turns in a new unit. *)
Lemma timer_loop_calls rs : ∀ s,
  Forall running rs →
  callbacks (timer_loop rs s).1.1 = (λ r, (t_tv r, t_tm r)) <$> new_units (Utils.last_unit s) rs.
Proof.
  induction rs as [|r rs IH]; intros s Hr; [done|]. apply Forall_cons_1 in Hr as [Hr Hrs].
  cbn [timer_loop]. rewrite Hr. unfold timer_step. fold (unit_of (t_tv r)). cbn [new_units].
  destruct (Z.eqb_spec (unit_of (t_tv r)) (Utils.last_unit s)) as [He|Hne].
  - specialize (IH (Timer (Utils.last_unit s) (tm_yday (t_tm r)) (Utils.day_of_year s)) Hrs).
    destruct (timer_loop rs _) as [[acts s2] ended]. rewrite He. exact IH.
  - specialize (IH (Timer (unit_of (t_tv r)) (tm_yday (t_tm r)) (Utils.day_of_year s)) Hrs).
    destruct (timer_loop rs _) as [[acts s2] ended]. cbn [fst Utils.last_unit] in *.
    rewrite fmap_app, <- IH. unfold callbacks. cbn [omap list_omap]. reflexivity.
Qed.

(** The readings: the clock does not run backwards or jump an hour, and the minute of the
    local time follows it. *)
Fixpoint clock_reads (off t : Z) (rs : list turn) : Prop :=
  match rs with
  | [] => True
  | r :: rs' =>
      t ≤ tv_sec (t_tv r) < t + 3540 ∧ tm_min (t_tm r) = (minute_of (t_tv r) + off) mod 60 ∧
      clock_reads off (tv_sec (t_tv r)) rs'
  end.

(** Within an hour the minute of the hour tells the minute. *)
Lemma same_minute off t u :
  0 ≤ t → t ≤ u < t + 3540 → (Z.quot u 60 + off) mod 60 = (Z.quot t 60 + off) mod 60 → Z.quot u 60 = Z.quot t 60.
Proof.
  intros Ht Hu. assert (0 ≤ Z.quot u 60 - Z.quot t 60 ≤ 59) as Hq by (Z.to_euclidean_division_equations; lia).
  revert Hq. generalize (Z.quot u 60) (Z.quot t 60). intros a b Hq Hm.
  pose proof (Z.div_mod (a + off) 60). pose proof (Z.div_mod (b + off) 60). lia.
Qed.

(** Once [cron] has worked in the minute of [t], it works exactly at the turns in a new
    minute: the turns in between that are in a new unit do nothing. *)
Lemma working_new_minutes off rs : ∀ t,
  0 ≤ t → clock_reads off t rs →
  working_turns (new_units (Z.quot t time_unit) rs) ((Z.quot t 60 + off) mod 60) = new_minutes (Z.quot t 60) rs.
Proof.
  induction rs as [|r rs IH]; intros t Ht Hc; [done|]. destruct Hc as (Hle & Hm & Hc). cbn [new_units new_minutes].
  specialize (IH (tv_sec (t_tv r)) ltac:(lia) Hc). unfold unit_of, minute_of in *.
  destruct (Z.eqb_spec (Z.quot (tv_sec (t_tv r)) time_unit) (Z.quot t time_unit)) as [Hu|Hu].
  - assert (Z.quot (tv_sec (t_tv r)) 60 = Z.quot t 60) as Hq.
    { unfold time_unit in Hu. Z.to_euclidean_division_equations; lia. }
    rewrite Hq, Z.eqb_refl. cbn [app]. rewrite Hq in IH. exact IH.
  - cbn [app working_turns]. unfold cron. rewrite Hm.
    destruct (Z.eqb_spec ((Z.quot (tv_sec (t_tv r)) 60 + off) mod 60) ((Z.quot t 60 + off) mod 60)) as [Hq|Hq].
    + pose proof (same_minute off t _ Ht Hle Hq) as Hq2.
      rewrite Hq2, Z.eqb_refl. cbn [app]. rewrite Hq2 in IH. exact IH.
    + destruct (Z.eqb_spec (Z.quot (tv_sec (t_tv r)) 60) (Z.quot t 60)) as [Hq2|Hq2]; [by rewrite Hq2 in Hq|].
      cbn [app]. by rewrite IH.
Qed.

Definition minute_jobs : list job := [CloseIdleDatabase; CleanIdleConnections; ExpireBlacklist].

Lemma cron_runs_working calls : ∀ lm,
  cron_runs (t_tm <$> calls) lm = concat (replicate (length (working_turns calls lm)) minute_jobs).
Proof.
  induction calls as [|r calls IH]; intros lm; [done|]. cbn [fmap list_fmap cron_runs working_turns].
  unfold cron. destruct (tm_min (t_tm r) =? lm); cbn [app length replicate concat]; by rewrite IH.
Qed.

Lemma new_units_app u pre r rs :
  Forall (λ x, unit_of (t_tv x) = u) pre → unit_of (t_tv r) ≠ u →
  new_units u (pre ++ r :: rs) = r :: new_units (unit_of (t_tv r)) rs.
Proof.
  intros Hpre Hr. induction Hpre as [|x pre Hx _ IH]; cbn [app new_units].
  - by rewrite (proj2 (Z.eqb_neq _ _) Hr).
  - by rewrite Hx, Z.eqb_refl, IH.
Qed.

Lemma clock_reads_app off rs1 : ∀ t r rs,
  clock_reads off t (rs1 ++ r :: rs) →
  t ≤ tv_sec (t_tv r) ∧ tm_min (t_tm r) = (minute_of (t_tv r) + off) mod 60 ∧ clock_reads off (tv_sec (t_tv r)) rs.
Proof.
  induction rs1 as [|x rs1 IH]; intros t r rs (H1 & H2 & H3); [split; [lia|done]|].
  destruct (IH _ _ _ H3) as (H4 & H5 & H6). split; [lia|done].
Qed.

(** C11: the work of every minute. The timer is started at [tv1]; [r0] is the first turn of its
    loop in a new unit of five seconds, [post] the turns after it. If the clock does not run
    backwards or jump by an hour, and the minutes of the local time follow it, then the
    database is closed when idle, the idle connections and the blacklist expire once at [r0]
    and once for each turn of [post] in another minute than the turn before it, in this
    order, and at no other time. *)
Theorem minute_work off tv0 tm0 tv1 pre r0 post :
  let rs := pre ++ r0 :: post in
  0 ≤ tv_sec tv1 → Forall running rs → clock_reads off (tv_sec tv1) rs →
  Forall (λ r, unit_of (t_tv r) = unit_of tv1) pre → unit_of (t_tv r0) ≠ unit_of tv1 →
  cron_runs (snd <$> callbacks (start_minute_timer tv0 tm0 tv1 rs).1.1) (-1) =
    concat (replicate (S (length (new_minutes (minute_of (t_tv r0)) post))) minute_jobs).
Proof.
  intros rs Ht Hr Hc Hpre H0. destruct (clock_reads_app _ _ _ _ _ Hc) as (Hle & Hm & Hpost).
  unfold start_minute_timer. rewrite timer_loop_calls by done. rewrite <- list_fmap_compose.
  change (snd ∘ (λ r, (t_tv r, t_tm r))) with t_tm. rewrite cron_runs_working.
  change (Utils.last_unit _) with (unit_of tv1). unfold rs. rewrite new_units_app by done. cbn [working_turns].
  unfold cron. rewrite Hm, (proj2 (Z.eqb_neq _ _)) by (pose proof (Z.mod_pos_bound (minute_of (t_tv r0) + off) 60); lia).
  cbn [app length]. unfold unit_of at 1, minute_of. rewrite (working_new_minutes off) by (done || lia). done.
Qed.

(** Once the flag is read as set, nothing more is done. *)
Lemma timer_loop_ends rs r rest : ∀ s,
  Forall running rs → t_terminate r = true →
  timer_loop (rs ++ r :: rest) s = ((timer_loop rs s).1.1, (timer_loop rs s).1.2, true).
Proof.
  induction rs as [|x rs IH]; intros s Hr Ht; cbn [app timer_loop]; [by rewrite Ht|].
  apply Forall_cons_1 in Hr as [-> Hrs]. destruct (timer_step _ _ s) as [s1 a]. rewrite IH by done.
  by destruct (timer_loop rs s1) as [[acts s2] ended].
Qed.

(** Only [terminate_minute_timer] ends the loop, and nothing calls it. *)
Lemma timer_never_ends tv0 tm0 tv1 rs : Forall running rs → (start_minute_timer tv0 tm0 tv1 rs).2 = false.
Proof.
  unfold start_minute_timer. generalize (Timer (Z.quot (tv_sec tv1) time_unit)
    (Utils.day_of_year (init_minute_timer tv0 tm0)) (Utils.prev_day_of_year (init_minute_timer tv0 tm0))).
  intros s Hr. revert s. induction Hr as [|r rs Hr _ IH]; intros s; [done|]. cbn [timer_loop]. rewrite Hr.
  destruct (timer_step _ _ s) as [s1 a]. specialize (IH s1). by destruct (timer_loop rs s1) as [[acts s2] ended].
Qed.

(** After a turn the variables hold the day of this turn and that of the turn before. *)
Lemma day_change_seen r s acts s' ended :
  timer_loop [r] s = (acts, s', ended) → running r →
  get_day_of_year s' = tm_yday (t_tm r) ∧ get_prev_day_of_year s' = get_day_of_year s.
Proof.
  intros H Hr. cbn [timer_loop] in H. rewrite Hr in H. unfold timer_step in H.
  destruct (_ =? _); by simplify_eq.
Qed.

Definition at_second (t : Z) : turn := Turn false (Timeval t 0) (Tm (t mod 60) ((t / 60) mod 60) 0 0 0 0 0).

(** Started eight seconds before the minute; it works at the next unit, and in the new minute. *)
Lemma minute_work_witness :
  cron_runs (snd <$> callbacks (start_minute_timer (Timeval 52 0) (Tm 52 0 0 0 0 0 0) (Timeval 52 0)
    [at_second 53; at_second 55; at_second 57; at_second 60; at_second 65]).1.1) (-1) = minute_jobs ++ minute_jobs.
Proof.
  apply (minute_work 0 (Timeval 52 0) (Tm 52 0 0 0 0 0 0) (Timeval 52 0) [at_second 53] (at_second 55)
    [at_second 57; at_second 60; at_second 65]).
  - simpl. lia.
  - by repeat constructor.
  - by repeat split.
  - by repeat constructor.
  - by vm_compute.
Defined.

(** ** The expiring thread *)

(** Where the thread of [expiring_main] is; [pthread_cond_wait] unlocks and sleeps at once. *)
Inductive expirer_at :=
  | ETest                  (* about to read [terminate] *)
  | ELock
  | EWait                  (* holds the mutex *)
  | ESleep
  | EWake                  (* signalled, or woken up without a signal *)
  | EExpire                (* holds the mutex, runs [expiring] *)
  | EUnlock                (* holds the mutex *)
  | EEnded.

(** Where the caller of [wakeup] or [terminate_thread] is. *)
Inductive caller_at :=
  | CIdle
  | CStore                 (* [terminate_thread], before the store *)
  | CLock
  | CSignal                (* holds the mutex *)
  | CUnlock.               (* holds the mutex *)

Inductive lock_holder := Nobody | Expirer | Caller.

(** [expiries]: how often [expiring] has been called. *)
Record expiry_threads := ExpiryThreads {
  terminate : bool; expiring_mutex : lock_holder; expirer : expirer_at; caller : caller_at; expiries : nat
}.

Definition thread_created : expiry_threads := ExpiryThreads false Nobody ETest CIdle 0.

Inductive expirer_step : expiry_threads → expiry_threads → Prop :=
  | ex_enter x c n : expirer_step (ExpiryThreads false x ETest c n) (ExpiryThreads false x ELock c n)
  | ex_leave x c n : expirer_step (ExpiryThreads true x ETest c n) (ExpiryThreads true x EEnded c n)
  | ex_lock t c n : expirer_step (ExpiryThreads t Nobody ELock c n) (ExpiryThreads t Expirer EWait c n)
  | ex_wait t x c n : expirer_step (ExpiryThreads t x EWait c n) (ExpiryThreads t Nobody ESleep c n)
  | ex_relock t c n : expirer_step (ExpiryThreads t Nobody EWake c n) (ExpiryThreads t Expirer EExpire c n)
  | ex_expire t x c n : expirer_step (ExpiryThreads t x EExpire c n) (ExpiryThreads t x EUnlock c (S n))
  | ex_unlock t x c n : expirer_step (ExpiryThreads t x EUnlock c n) (ExpiryThreads t Nobody ETest c n).

Inductive caller_step : expiry_threads → expiry_threads → Prop :=
  | ca_wakeup t x e n : caller_step (ExpiryThreads t x e CIdle n) (ExpiryThreads t x e CLock n)
  | ca_terminate t x e n : caller_step (ExpiryThreads t x e CIdle n) (ExpiryThreads t x e CStore n)
  | ca_store t x e n : caller_step (ExpiryThreads t x e CStore n) (ExpiryThreads true x e CLock n)
  | ca_lock t e n : caller_step (ExpiryThreads t Nobody e CLock n) (ExpiryThreads t Caller e CSignal n)
  | ca_signal t x n : caller_step (ExpiryThreads t x ESleep CSignal n) (ExpiryThreads t x EWake CUnlock n)
  | ca_signal_none t x e n : e ≠ ESleep → caller_step (ExpiryThreads t x e CSignal n) (ExpiryThreads t x e CUnlock n)
  | ca_unlock t x e n : caller_step (ExpiryThreads t x e CUnlock n) (ExpiryThreads t Nobody e CIdle n).

(** A wake-up without a signal. *)
Inductive spurious_wakeup : expiry_threads → expiry_threads → Prop :=
  | ex_spurious t x c n : spurious_wakeup (ExpiryThreads t x ESleep c n) (ExpiryThreads t x EWake c n).

Definition expiry_step (a b : expiry_threads) : Prop := expirer_step a b ∨ caller_step a b ∨ spurious_wakeup a b.

Definition expiry_reachable : expiry_threads → Prop := rtc expiry_step thread_created.

Definition expirer_holds (e : expirer_at) : bool := match e with EWait | EExpire | EUnlock => true | _ => false end.
Definition caller_holds (c : caller_at) : bool := match c with CSignal | CUnlock => true | _ => false end.

(** The mutex has one lock_holder; a thread that has ended was terminated; and a terminated thread
    is past its test only if it read the flag before, so it sleeps or is about to. *)
Record expiry_inv (s : expiry_threads) : Prop := ExpiryInv {
  ei_mutex : expiring_mutex s =
    (if expirer_holds (expirer s) then Expirer else if caller_holds (caller s) then Caller else Nobody);
  ei_excl : expirer_holds (expirer s) = true → caller_holds (caller s) = false;
  ei_ended : expirer s = EEnded → terminate s = true;
}.

Lemma expiry_step_inv s s' : expiry_step s s' → expiry_inv s → expiry_inv s'.
Proof.
  intros [Hs|[Hs|Hs]]; destruct Hs; intros [H1 H2 H3]; split; cbn in *;
    try (intuition (subst; congruence)); try (destruct e; cbn in *; naive_solver); destruct c; cbn in *; naive_solver.
Qed.

Lemma expiry_reachable_inv s : expiry_reachable s → expiry_inv s.
Proof.
  intros H. assert (Hgo : ∀ a b, rtc expiry_step a b → expiry_inv a → expiry_inv b).
  { induction 1; eauto using expiry_step_inv. }
  eapply Hgo; [done|]. by split.
Qed.

(** Accesses to the end of a thread that is terminated. *)
Definition to_end (e : expirer_at) : nat :=
  match e with EWake => 4 | EExpire => 3 | EUnlock => 2 | ETest => 1 | _ => 0 end.

(** The thread has read the flag and has not been woken up since. *)
Definition before_signal (e : expirer_at) : Prop := e = ELock ∨ e = EWait ∨ e = ESleep.

(** A step in which nobody calls the service, and no wake-up is spurious. *)

(** A thread left alone before its wait goes to sleep and stays there. *)
Lemma alone_asleep a b :
  rtc expirer_step a b → before_signal (expirer a) → before_signal (expirer b) ∧ expiries b = expiries a.
Proof.
  induction 1 as [a|a b c Hs _ IH]; intros Ha; [done|].
  assert (before_signal (expirer b) ∧ expiries b = expiries a) as [Hb <-]; [|by apply IH].
  unfold before_signal in *. destruct Hs; cbn in *; naive_solver.
Qed.

(** A thread that was woken up expires before it sleeps again or ends. *)
Lemma woken_expires a b :
  rtc expiry_step a b → expirer a = EWake → expirer b = ESleep ∨ expirer b = EEnded → (expiries a < expiries b)%nat.
Proof.
  set (due := λ s, (expiries s + match expirer s with EWake | EExpire => 1 | _ => 0 end)%nat).
  intros H Ha Hb. assert (Hgo : ∀ a b, rtc expiry_step a b → (due a ≤ due b)%nat).
  { induction 1 as [|x y z Hs _ IH]; [done|]. etransitivity; [|exact IH]. unfold due.
    destruct Hs as [Hs|[Hs|Hs]]; destruct Hs; cbn; repeat case_match; lia. }
  specialize (Hgo _ _ H). unfold due in Hgo. rewrite Ha in Hgo. destruct Hb as [Hb|Hb]; rewrite Hb in Hgo; lia.
Qed.

(** A step during a call of [terminate_thread]: of the expiring thread, a spurious wake-up, or of
    the caller, who does not begin another call. *)
Definition call_step (a b : expiry_threads) : Prop :=
  expirer_step a b ∨ spurious_wakeup a b ∨ (caller_step a b ∧ caller a ≠ CIdle).

Lemma call_step_inv a b : rtc call_step a b → expiry_inv a → expiry_inv b.
Proof.
  induction 1 as [|a b c Hs _ IH]; [done|]. intros Ha. apply IH. apply (expiry_step_inv a); [|done].
  unfold expiry_step. destruct Hs as [?|[?|[? _]]]; tauto.
Qed.

(** Once past its store, the call has set the flag. *)
Lemma call_stores a b : rtc call_step a b → (caller a = CStore ∨ caller a ≠ CStore ∧ terminate a = true) →
  caller b = CStore ∨ caller b ≠ CStore ∧ terminate b = true.
Proof.
  induction 1 as [|a b c Hs _ IH]; [done|]. intros Ha. apply IH. clear IH.
  destruct Hs as [Hs|[Hs|[Hs Hne]]]; destruct Hs; cbn in *; naive_solver.
Qed.

(** A thread that is asleep when the flag is set, before the signal. *)
Lemma call_wakes a b : rtc call_step a b → expiry_inv a → terminate a = true →
  (¬ before_signal (expirer a) ∨ expirer a = ESleep ∧ (caller a = CLock ∨ caller a = CSignal)) →
  ¬ before_signal (expirer b) ∨ expirer b = ESleep ∧ (caller b = CLock ∨ caller b = CSignal).
Proof.
  induction 1 as [|a b c Hs _ IH]; [done|]. intros Hi Ht Ha.
  assert (Hi' : expiry_inv b) by (apply (call_step_inv a); [by apply rtc_once|done]).
  apply IH; [done|..]; clear IH; destruct Hs as [Hs|[Hs|[Hs Hne]]]; destruct Hs; cbn in *; unfold before_signal in *; naive_solver.
Qed.

(** A terminated thread that does not wait for a signal ends within four accesses. *)
Lemma ends_soon n : ∀ a b, expiry_inv a → terminate a = true → caller a = CIdle → ¬ before_signal (expirer a) →
  nsteps expirer_step n a b → (n ≤ to_end (expirer a))%nat ∧ (expirer b = EEnded ∨ ∃ c, expirer_step b c).
Proof.
  induction n as [|n IH]; intros a b Hi Ht Hc Hb Hr; inversion Hr; subst.
  - split; [lia|]. destruct Hi as [H1 _ _]. destruct b as [t x e c k]. cbn in *. subst t c. unfold before_signal in Hb.
    destruct e; cbn in H1; subst x; try (exfalso; tauto); [right; eexists; by constructor..|by left].
  - match goal with H1 : expirer_step a ?y, H2 : nsteps _ n ?y b |- _ => rename y into m; rename H1 into Hs; rename H2 into Hm end.
    assert (Hi' : expiry_inv m) by (apply (expiry_step_inv a); [by left|done]).
    destruct (IH m b) as [Hle Hend]; [done| | | |done|].
    + by destruct Hs.
    + by destruct Hs.
    + destruct Hs; cbn in *; unfold before_signal in *; naive_solver.
    + split; [|done]. destruct Hs; cbn in *; unfold before_signal in *; naive_solver lia.
Qed.

(** C29: termination of the expiring thread. A call of [terminate_thread], at any time and with any
    steps of the thread in between: when it returns the flag is set. The thread has ended, or is
    on its way: it always can go on until it has ended, and ends within four accesses; unless it
    tested the flag before it was set and was not asleep yet when the signal came: then it
    goes to sleep without expiring anything and, left alone, sleeps for ever. A thread that is
    asleep when the flag has been set does not miss the signal. *)
Theorem termination_or_sleep s0 s :
  expiry_reachable s0 → caller s0 = CStore → rtc call_step s0 s → caller s = CIdle →
  terminate s = true ∧
  (∀ s1, rtc call_step s0 s1 → caller s1 = CLock → expirer s1 = ESleep → rtc call_step s1 s → ¬ before_signal (expirer s)) ∧
  (¬ before_signal (expirer s) → ∀ n s', nsteps expirer_step n s s' →
     (n ≤ 4)%nat ∧ (expirer s' = EEnded ∨ ∃ s'', expirer_step s' s'')) ∧
  (before_signal (expirer s) → ∀ s', rtc expirer_step s s' → before_signal (expirer s') ∧ expiries s' = expiries s).
Proof.
  intros Hr H0 Hcall Hc. pose proof (expiry_reachable_inv _ Hr) as Hi0. pose proof (call_step_inv _ _ Hcall Hi0) as Hi.
  assert (Hset : ∀ x, rtc call_step s0 x → caller x ≠ CStore → terminate x = true).
  { intros x Hx Hne. destruct (call_stores _ _ Hx (or_introl H0)) as [?|[_ ?]]; [congruence|done]. }
  split; [apply Hset; [done|congruence]|]. split; [|split].
  - intros s1 H1 Hc1 He1 H2.
    destruct (call_wakes _ _ H2) as [?|[_ [?|?]]]; [by eapply call_step_inv| |right; auto|done|congruence|congruence].
    apply Hset; [done|congruence].
  - intros Hb n s' Hn. destruct (ends_soon n s s' Hi) as [Hle Hend]; [apply Hset; [done|congruence]|done..|].
    split; [|done]. etransitivity; [exact Hle|]. destruct (expirer s); cbn; lia.
  - intros Hb s' Hs'. by apply alone_asleep.
Qed.

(** The handler of SIGINT and SIGTERM runs in the main thread, on top of what that thread was
    doing, and calls [terminate_thread]; the main thread is also the caller of [wakeup]. *)
Definition interrupted (s : expiry_threads) : expiry_threads :=
  ExpiryThreads (terminate s) (expiring_mutex s) (expirer s) CStore (expiries s).

(** A signal that comes while the main thread holds the mutex for [wakeup]: the handler never
    gets it, so the process does not end. *)
Theorem handler_deadlocks s s' :
  expiry_reachable s → caller_holds (caller s) = true → rtc expiry_step (interrupted s) s' →
  caller s' = CStore ∨ caller s' = CLock.
Proof.
  intros [H1 H2 _]%expiry_reachable_inv Hc Hr.
  set (stuck := λ x, expiring_mutex x = Caller ∧ expirer_holds (expirer x) = false ∧ (caller x = CStore ∨ caller x = CLock)).
  assert (Hgo : ∀ a b, rtc expiry_step a b → stuck a → stuck b).
  { induction 1 as [|a b b' Hs _ IH]; [done|]. intros Ha. apply IH. unfold stuck in *.
    destruct Hs as [Hs|[Hs|Hs]]; destruct Hs; cbn in *; naive_solver. }
  apply (Hgo _ _ Hr). unfold stuck. cbn. rewrite Hc in *. destruct (expirer_holds (expirer s)); [discriminate (H2 eq_refl)|].
  split_and!; [done..|by left].
Qed.

(** The thread has tested the flag, and is stopped before it takes the mutex. *)
Definition missing : expiry_threads := ExpiryThreads false Nobody ELock CStore 0.
Definition missed : expiry_threads := ExpiryThreads true Nobody ELock CIdle 0.

Lemma missing_reachable : expiry_reachable missing.
Proof.
  unfold expiry_reachable, missing, thread_created. eapply rtc_l; [left; apply ex_enter|].
  eapply rtc_l; [right; left; apply ca_terminate|]. apply rtc_refl.
Qed.

Lemma missed_called : rtc call_step missing missed.
Proof.
  unfold missing, missed. eapply rtc_l; [right; right; split; [apply ca_store|done]|].
  eapply rtc_l; [right; right; split; [apply ca_lock|done]|].
  eapply rtc_l; [right; right; split; [by apply ca_signal_none|done]|].
  eapply rtc_l; [right; right; split; [apply ca_unlock|done]|]. apply rtc_refl.
Qed.

(** It sleeps for ever. A thread that is asleep is woken up by the call, and ends. *)
Lemma termination_or_sleep_witness : terminate missed = true ∧ ∀ s', rtc expirer_step missed s' → expirer s' ≠ EEnded.
Proof.
  destruct (termination_or_sleep missing missed missing_reachable eq_refl missed_called eq_refl) as (Ht & _ & _ & H).
  split; [exact Ht|]. intros s' Hr. destruct (H ltac:(by left) s' Hr) as [[Hb|[Hb|Hb]] _]; by rewrite Hb.
Defined.
