(* ===== verification/Signature.v ===== *)
(** * ds_ecdsa_impl.c and digital_signature.c: signatures

    A helper object keeps a private and a public key. The objects of the program and those of
    the OpenSSL library it allocates and frees live in one heap, so that leaks and uses after
    free show. The library is not part of the program: what it computes is the class
    [OpenSSL], whose laws are what its manual says. The library's objects can be allocated;
    for the program's own ones the answer of [malloc] is given. *)

From S2P Require Import Prelude Heap.

(** ** The library *)

Class OpenSSL := {
  ec_key : Type;
  ec_point : Type;
  sha256 : string → string;
  (** The most bytes a signature with the key has. *)
  ECDSA_size : ec_key → Z;
  (** [None]: the call fails, and stores this length. *)
  ECDSA_sign : string → ec_key → option string;
  failed_length : Z;
  (** 1: valid, 0: not valid, -1: an error, as for a signature that cannot be decoded. *)
  ECDSA_verify : string → string → ec_key → Z;
  PEM_read_bio_ECPrivateKey : string → option ec_key;
  PEM_read_bio_EC_PUBKEY : string → option ec_key;
  known_curve : Z → bool;
  EC_KEY_new_by_curve_name : Z → ec_key;
  EC_POINT_hex2point : Z → string → option ec_point;
  EC_KEY_set_public_key : ec_key → ec_point → option ec_key;
  private_hex : ec_key → string;
  public_hex : ec_key → string;
  EC_GROUP_get_curve_name : ec_key → Z;
}.

Class OpenSSLLaws `{OpenSSL} := {
  sign_length d k b : ECDSA_sign d k = Some b → strlen b ≤ ECDSA_size k;
  verify_range d b k : ECDSA_verify d b k = 1 ∨ ECDSA_verify d b k = 0 ∨ ECDSA_verify d b k = -1;
  (** Verifying uses the public part of a key only: its point and its curve. *)
  verify_sign d k k' b : public_hex k' = public_hex k → EC_GROUP_get_curve_name k' = EC_GROUP_get_curve_name k →
    ECDSA_sign d k = Some b → ECDSA_verify d b k' = 1;
}.

Section signature.
Context `{SSL : OpenSSL}.

(** What a cell of the heap holds. [Bytes]: a buffer with its capacity; [Data]:
    [struct ecdsa_helper_data_t]; [Helper]: [struct dsa_helper_t]; [Signature]:
    [struct dsa_signature_t]. *)
Inductive object :=
  | Key (k : ec_key)
  | Point
  | Group
  | Bio
  | Bytes (capacity : Z) (content : string)
  | Signature (buffer : ptr) (len : Z)
  | Data (private_key public_key : ptr) (curve_name : Z)
  | Helper (data : ptr).

Implicit Types (h : heap object) (p self : ptr).

Definition alloc (memory : bool) (o : object) h : ptr * heap object :=
  match malloc memory h with Some l => (Some l, <[l := o]> h) | None => (None, h) end.

Definition key_at h p : outcome ec_key := o ← deref h p; match o with Key k => Ok k | _ => Undefined UseAfterFree end.
Definition data_at h p : outcome (ptr * ptr * Z) :=
  o ← deref h p; match o with Data a b c => Ok (a, b, c) | _ => Undefined UseAfterFree end.
Definition bytes_at h p : outcome string :=
  o ← deref h p; match o with Bytes _ s => Ok s | _ => Undefined UseAfterFree end.
(** The first [n] bytes of a buffer, if they were written. *)
Definition first_bytes h p (n : Z) : outcome string :=
  s ← bytes_at h p; if n <=? strlen s then Ok (str_take (Z.to_nat n) s) else Undefined Uninitialised.
Definition signature_at h p : outcome (ptr * Z) :=
  o ← deref h p; match o with Signature b n => Ok (b, n) | _ => Undefined UseAfterFree end.
Definition helper_data h self : outcome ptr :=
  o ← deref h self; match o with Helper d => Ok d | _ => Undefined UseAfterFree end.

(** ** digital_signature.c *)

(** Without memory the digest goes to a static array of the library, and [NULL] is returned. *)
Definition sha256digest (memory : bool) (message : string) h : ptr * heap object :=
  alloc memory (Bytes 32 (sha256 message)) h.

Definition free_signature (data : ptr) h : outcome (heap object) :=
  match data with
  | None => Ok h
  | Some _ =>
      '(b, _) ← signature_at h data;
      h1 ← (match b with Some _ => free_cell h b | None => Ok h end);
      free_cell h1 data
  end.

Definition new_dsa_signature (memory : bool) h : outcome (ptr * heap object) :=
  let '(p, h1) := alloc memory (Signature None 0) h in
  h2 ← store h1 p (Signature None 0); Ok (p, h2).

(** The text printed: two digits for each byte. *)
Definition print_signature (hex2 : ascii → string) (sig : ptr) h : outcome string :=
  '(b, n) ← signature_at h sig;
  if n =? 0 then Ok EmptyString
  else s ← first_bytes h b n; Ok (String.concat EmptyString (map hex2 (list_ascii_of_string s))).

(** ** ds_ecdsa_impl.c *)

(** [bio]: whether the library can make the buffer to read from. *)
Definition create_key (bio : bool) (key : string) (func : string → option ec_key) h : outcome (ptr * heap object) :=
  let '(b, h1) := alloc bio Bio h in
  match b with
  | None => Ok (None, h1)
  | Some _ =>
      let '(k, h2) := match func key with Some k => alloc true (Key k) h1 | None => (None, h1) end in
      h3 ← free_cell h2 b; Ok (k, h3)
  end.

(** [ECDSA_sign] with its buffers. *)
Definition run_sign (digest buffer sig : ptr) (k : ec_key) h : outcome (heap object) :=
  d ← bytes_at h digest;
  match ECDSA_sign d k with
  | Some b =>
      o ← deref h buffer;
      match o with
      | Bytes cap _ =>
          if strlen b <=? cap then h1 ← store h buffer (Bytes cap b); store h1 sig (Signature buffer (strlen b))
          else Undefined OutOfBounds
      | _ => Undefined UseAfterFree
      end
  | None => store h sig (Signature buffer failed_length)
  end.

(** The three answers of [malloc]: the structure, its buffer, the digest. *)
Definition sign_message (m_signature m_buffer m_digest : bool) self (message : string) h : outcome (ptr * heap object) :=
  data ← helper_data h self;
  match data with
  | None => Ok (None, h)
  | Some _ =>
      '(private_key, _, _) ← data_at h data;
      match private_key with
      | None => Ok (None, h)
      | Some _ =>
          '(sig, h1) ← new_dsa_signature m_signature h;
          k ← key_at h1 private_key;
          let size := ECDSA_size k in
          h2 ← store h1 sig (Signature None size);
          let '(buffer, h3) := alloc m_buffer (Bytes size EmptyString) h2 in
          h4 ← store h3 sig (Signature buffer size);
          let '(digest, h5) := sha256digest m_digest message h4 in
          h6 ← run_sign digest buffer sig k h5;
          h7 ← free_cell h6 digest;
          Ok (sig, h7)
      end
  end.

(** [ECDSA_verify] with its buffers. *)
Definition run_verify (digest sig key : ptr) h : outcome Z :=
  k ← key_at h key; d ← bytes_at h digest; '(b, n) ← signature_at h sig; s ← first_bytes h b n; Ok (ECDSA_verify d s k).

(** The [int] of the library becomes a [bool]. *)
Definition verify_signature (m_digest : bool) self (message : string) (sig : ptr) h : outcome (bool * heap object) :=
  data ← helper_data h self;
  match data with
  | None => Ok (false, h)
  | Some _ =>
      let '(digest, h1) := sha256digest m_digest message h in
      '(private_key, public_key, _) ← data_at h1 data;
      verification ←
        match public_key, private_key with
        | Some _, _ => run_verify digest sig public_key h1
        | None, Some _ => run_verify digest sig private_key h1
        | None, None => Ok 0
        end;
      h2 ← free_cell h1 digest;
      Ok (negb (verification =? 0), h2)
  end.

Definition set_public (data public_key : ptr) h : outcome (heap object) :=
  '(a, _, c) ← data_at h data; store h data (Data a public_key c).
Definition set_private (data private_key : ptr) h : outcome (heap object) :=
  '(_, b, c) ← data_at h data; store h data (Data private_key b c).

(** Functions of the library that are given [NULL] for the key or the group of an unknown
    curve are undefined. [EC_POINT_hex2point] fills the point it is given, or answers [NULL]. *)
Definition load_ec_public_key self (curve_name : Z) (public_key_hex : string) h : outcome (bool * heap object) :=
  data ← helper_data h self;
  '(_, old, _) ← data_at h data;
  h1 ← (match old with None => h' ← free_cell h old; set_public data None h' | Some _ => Ok h end);
  if known_curve curve_name then
    let k := EC_KEY_new_by_curve_name curve_name in
    let '(key, h2) := alloc true (Key k) h1 in
    h3 ← set_public data key h2;
    let '(group, h4) := alloc true Group h3 in
    let '(point, h5) := alloc true Point h4 in
    let '(public_point, rc) := match EC_POINT_hex2point curve_name public_key_hex with
                               | Some q => (point, EC_KEY_set_public_key k q)
                               | None => (None, None)
                               end in
    h6 ← (match rc with Some k' => store h5 key (Key k') | None => Ok h5 end);
    h7 ← free_cell h6 group;
    h8 ← free_cell h7 public_point;
    match rc with
    | None => h9 ← free_cell h8 key; h10 ← set_public data None h9; Ok (false, h10)
    | Some _ => Ok (true, h8)
    end
  else Undefined NullDeref.

Definition ec_curve_name self h : outcome Z := data ← helper_data h self; '(_, _, c) ← data_at h data; Ok c.
Definition have_private_key self h : outcome bool :=
  data ← helper_data h self; '(a, _, _) ← data_at h data; Ok (bool_decide (is_Some a)).
Definition have_public_key self h : outcome bool :=
  data ← helper_data h self; '(_, b, _) ← data_at h data; Ok (bool_decide (is_Some b)).

Definition clear_private_key self h : outcome (heap object) :=
  data ← helper_data h self; '(a, _, _) ← data_at h data;
  match a with Some _ => h1 ← free_cell h a; set_private data None h1 | None => Ok h end.
Definition clear_public_key self h : outcome (heap object) :=
  data ← helper_data h self; '(_, b, _) ← data_at h data;
  match b with Some _ => h1 ← free_cell h b; set_public data None h1 | None => Ok h end.

Definition dispose_helper self h : outcome (heap object) :=
  match self with
  | None => Ok h
  | Some _ =>
      data ← helper_data h self;
      h' ← (match data with
            | None => Ok h
            | Some _ =>
                h1 ← clear_private_key self h; h2 ← clear_public_key self h1;
                h3 ← free_cell h2 data; store h3 self (Helper None)
            end);
      free_cell h' self
  end.

(** The key given as a text, if one is given. *)
Definition given_key (bio : bool) (key : option string) (func : string → option ec_key) h : outcome (ptr * heap object) :=
  match key with Some t => create_key bio t func h | None => Ok (None, h) end.

(** The result has what was printed: the private key among it. The two texts the library
    allocates are not freed. *)
Definition new_ecdsa (m_self m_data bio1 bio2 : bool) (private_key public_key : option string) h
    : outcome (ptr * heap object * list string) :=
  let '(self, h1) := alloc m_self (Helper None) h in
  match self with
  | None => Ok (None, h1, [])
  | Some _ =>
      let '(data, h2) := alloc m_data (Data None None 0) h1 in
      h3 ← store h2 self (Helper data);
      match data with
      | None => h4 ← dispose_helper self h3; Ok (None, h4, [])
      | Some _ =>
          '(priv, h4) ← given_key bio1 private_key PEM_read_bio_ECPrivateKey h3;
          h5 ← set_private data priv h4;
          '(pub, h6) ← given_key bio2 public_key PEM_read_bio_EC_PUBKEY h5;
          h7 ← set_public data pub h6;
          match priv with
          | None => Ok (self, h7, [])
          | Some _ =>
              k ← key_at h7 priv;
              let '(_, h8) := alloc true (Bytes (strlen (private_hex k) + 1) (private_hex k)) h7 in
              let '(_, h9) := alloc true (Bytes (strlen (public_hex k) + 1) (public_hex k)) h8 in
              '(a, b, _) ← data_at h9 data;
              h10 ← store h9 data (Data a b (EC_GROUP_get_curve_name k));
              Ok (self, h10, [private_hex k; public_hex k])
          end
      end
  end.

(** ** Verdicts *)

Lemma alloc_fresh o h : ∃ l, alloc true o h = (Some l, <[l := o]> h) ∧ h !! l = None.
Proof. exists (fresh_loc h). split; [done|]. apply fresh_loc_fresh. Qed.

(** The helper [self] has these keys. *)
Record has_keys h (self : ptr) (d : loc) (priv pub : ptr) (c : Z) : Prop := {
  keys_helper : helper_data h self = Ok (Some d);
  keys_data : h !! d = Some (Data priv pub c);
}.

(** The signature object [sig] holds the bytes [s]. *)
Definition has_signature h (sig : ptr) (s : string) : Prop :=
  ∃ b n t, signature_at h sig = Ok (b, n) ∧ bytes_at h b = Ok t ∧ n ≤ strlen t ∧ s = str_take (Z.to_nat n) t.

(** The key a signature is verified with: the public one, if there is one. *)
Definition verifying_key (priv pub : ptr) : ptr := match pub with Some _ => pub | None => priv end.

Lemma deref_insert {A} (h : heap A) l o p a : h !! l = None → deref h p = Ok a → deref (<[l := o]> h) p = Ok a.
Proof.
  intros Hl. destruct p as [q|]; [|done]. cbn. destruct (h !! q) as [b|] eqn:Hq; [|done]. intros [= ->].
  by rewrite lookup_insert_ne, Hq by congruence.
Qed.

(** What can be read from a heap can be read after an allocation. *)
Lemma read_insert {A} (get : object → outcome A) h l o p a : h !! l = None →
  (x ← deref h p; get x) = Ok a → (x ← deref (<[l := o]> h) p; get x) = Ok a.
Proof.
  intros Hl H. apply bind_ok_inv in H as (x & Hx & H). by rewrite (deref_insert h l o p x Hl Hx).
Qed.

Lemma verify_ok h self d priv pub c key k sig s message :
  has_keys h self d priv pub c → verifying_key priv pub = Some key → h !! key = Some (Key k) → has_signature h sig s →
  verify_signature true self message sig h = Ok (negb (ECDSA_verify (sha256 message) s k =? 0), h).
Proof.
  intros [Hh Hd] Hv Hk (b & n & t & Hs & Hb & Hn & ->). unfold verify_signature, sha256digest. rewrite Hh, bind_ok. cbn [mbind].
  destruct (alloc_fresh (Bytes 32 (sha256 message)) h) as (l & -> & Hl). cbn beta iota.
  assert (data_at (<[l := Bytes 32 (sha256 message)]> h) (Some d) = Ok (priv, pub, c)) as ->.
  { apply (read_insert _ _ _ _ _ _ Hl). cbn. by rewrite Hd. }
  rewrite bind_ok.
  assert (run_verify (Some l) sig (Some key) (<[l := Bytes 32 (sha256 message)]> h) =
    Ok (ECDSA_verify (sha256 message) (str_take (Z.to_nat n) t) k)) as Hrun.
  { unfold run_verify, first_bytes, key_at, signature_at, bytes_at in *.
    rewrite (read_insert _ _ _ _ (Some key) k Hl) by (cbn; by rewrite Hk). rewrite bind_ok.
    cbn [deref]. rewrite lookup_insert_eq, !bind_ok. rewrite (read_insert _ _ _ _ _ _ Hl Hs), bind_ok.
    rewrite (read_insert _ _ _ _ _ _ Hl Hb), !bind_ok. by rewrite (proj2 (Z.leb_le _ _) Hn). }
  destruct pub as [q|]; cbn in Hv; [injection Hv as ->|subst priv];
    rewrite Hrun, bind_ok; cbn [free_cell]; by rewrite lookup_insert_eq, bind_ok, delete_insert_id.
Qed.

(** ** Signing *)

Lemma store_insert_eq {A} (h : heap A) l a b : store (<[l := a]> h) (Some l) b = Ok (<[l := b]> h).
Proof. cbn. by rewrite lookup_insert_eq, insert_insert_eq. Qed.

Lemma store_insert_ne {A} (h h' : heap A) l l' a b : l' ≠ l →
  store h (Some l) b = Ok h' → store (<[l' := a]> h) (Some l) b = Ok (<[l' := a]> h').
Proof.
  intros Hne. cbn. rewrite lookup_insert_ne by done. destruct (h !! l); [|done]. intros [= <-]. by rewrite insert_insert_ne.
Qed.

Lemma free_insert_eq {A} (h : heap A) l a : h !! l = None → free_cell (<[l := a]> h) (Some l) = Ok h.
Proof. intros H. cbn. by rewrite lookup_insert_eq, delete_insert_id. Qed.

Lemma deref_insert_eq {A} (h : heap A) l a : deref (<[l := a]> h) (Some l) = Ok a.
Proof. cbn. by rewrite lookup_insert_eq. Qed.

Lemma deref_insert_ne {A} (h : heap A) l l' a : l' ≠ l → deref (<[l' := a]> h) (Some l) = deref h (Some l).
Proof. intros H. cbn. by rewrite lookup_insert_ne. Qed.

Lemma fresh_insert {A} (h : heap A) l l' (a : A) : <[l := a]> h !! l' = None → l ≠ l' ∧ h !! l' = None.
Proof.
  intros H. destruct (decide (l = l')) as [->|Hne]; [by rewrite lookup_insert_eq in H|]. by rewrite lookup_insert_ne in H.
Qed.

Lemma sign_ok h self d kl pub c k message b :
  has_keys h self d (Some kl) pub c → h !! kl = Some (Key k) →
  ECDSA_sign (sha256 message) k = Some b → strlen b ≤ ECDSA_size k →
  ∃ sl bl, h !! sl = None ∧ h !! bl = None ∧ sl ≠ bl ∧
    sign_message true true true self message h =
      Ok (Some sl, <[bl := Bytes (ECDSA_size k) b]> (<[sl := Signature (Some bl) (strlen b)]> h)).
Proof.
  intros [Hh Hd] Hk Hb Hlen. unfold sign_message, new_dsa_signature, sha256digest. rewrite Hh, bind_ok.
  unfold data_at at 1. cbn [deref]. rewrite Hd, !bind_ok.
  destruct (alloc_fresh (Signature None 0) h) as (sl & -> & Hsl). rewrite store_insert_eq, !bind_ok.
  unfold key_at. rewrite deref_insert_ne by congruence. cbn [deref]. rewrite Hk, !bind_ok, store_insert_eq, bind_ok.
  destruct (alloc_fresh (Bytes (ECDSA_size k) EmptyString) (<[sl := Signature None (ECDSA_size k)]> h)) as (bl & -> & Hbl).
  apply fresh_insert in Hbl as [Hne Hbl]. rewrite (store_insert_ne _ _ _ _ _ _ (not_eq_sym Hne) (store_insert_eq _ _ _ _)), bind_ok.
  destruct (alloc_fresh (Bytes 32 (sha256 message)) (<[bl := Bytes (ECDSA_size k) EmptyString]> (<[sl := Signature (Some bl) (ECDSA_size k)]> h))) as (dl & -> & Hdl).
  pose proof Hdl as [Hbd [Hsd Hd0]%fresh_insert]%fresh_insert.
  unfold run_sign, bytes_at. rewrite deref_insert_eq, !bind_ok, Hb. rewrite deref_insert_ne, deref_insert_eq, bind_ok by congruence.
  rewrite (proj2 (Z.leb_le _ _) Hlen). rewrite (store_insert_ne _ _ _ _ _ _ (not_eq_sym Hbd) (store_insert_eq _ _ _ _)), bind_ok.
  rewrite (store_insert_ne _ _ _ _ _ _ (not_eq_sym Hsd) (store_insert_ne _ _ _ _ _ _ (not_eq_sym Hne) (store_insert_eq _ _ _ _))), bind_ok.
  rewrite free_insert_eq, bind_ok; [by exists sl, bl|]. by rewrite !lookup_insert_ne by done.
Qed.

(** Signing needs a private key. *)
Lemma sign_without_key m1 m2 m3 h self d pub c message :
  has_keys h self d None pub c → sign_message m1 m2 m3 self message h = Ok (None, h).
Proof. intros [Hh Hd]. unfold sign_message. rewrite Hh, bind_ok. unfold data_at. cbn [deref]. by rewrite Hd. Qed.

Lemma has_keys_insert h self d priv pub c l o : h !! l = None → has_keys h self d priv pub c → has_keys (<[l := o]> h) self d priv pub c.
Proof.
  intros Hl [Hh Hd]. split; [by apply (read_insert _ _ _ _ _ _ Hl)|]. by rewrite lookup_insert_ne by congruence.
Qed.

Lemma free_signature_ok h sl bl n cap b : sl ≠ bl → h !! sl = None → h !! bl = None →
  free_signature (Some sl) (<[bl := Bytes cap b]> (<[sl := Signature (Some bl) n]> h)) = Ok h.
Proof.
  intros Hne Hs Hb. unfold free_signature, signature_at. rewrite deref_insert_ne, deref_insert_eq, !bind_ok by congruence.
  rewrite free_insert_eq, bind_ok by by rewrite lookup_insert_ne. by apply free_insert_eq.
Qed.

(** C21: what a helper with a private key signs, it verifies, with its public key if it has one and
    else with the private one, when the two are a pair; with another public key the verdict is what the
    library says of it (not 0). Signing, verifying and freeing the signature
    leave no object behind, read nothing that was not written and stay inside the buffers. *)
Theorem signed_is_verified `{!OpenSSLLaws} (h : heap object) (self : ptr) (d kl vl : loc) (pub : ptr) (c : Z) (k v : ec_key)
    (message b : string) :
  has_keys h self d (Some kl) pub c → h !! kl = Some (Key k) →
  verifying_key (Some kl) pub = Some vl → h !! vl = Some (Key v) →
  ECDSA_sign (sha256 message) k = Some b →
  ∃ sig h' verdict, sign_message true true true self message h = Ok (sig, h') ∧ has_signature h' sig b ∧
    verify_signature true self message sig h' = Ok (verdict, h') ∧ verdict = negb (ECDSA_verify (sha256 message) b v =? 0) ∧
    (public_hex v = public_hex k → EC_GROUP_get_curve_name v = EC_GROUP_get_curve_name k → verdict = true) ∧
    free_signature sig h' = Ok h.
Proof.
  intros Hkeys Hk Hv Hvl Hb. destruct (sign_ok h self d kl pub c k message b Hkeys Hk Hb (sign_length _ _ _ Hb)) as (sl & bl & Hs & Hbl & Hne & Hsign).
  eexists _, _, _. split; [exact Hsign|].
  set (h' := <[bl := Bytes (ECDSA_size k) b]> (<[sl := Signature (Some bl) (strlen b)]> h)).
  assert (has_signature h' (Some sl) b) as Hsig.
  { exists (Some bl), (strlen b), b. unfold h', signature_at, bytes_at. rewrite deref_insert_ne, !deref_insert_eq by congruence.
    do 2 (split; [done|]). split; [lia|]. unfold strlen. rewrite Nat2Z.id. symmetry. by apply str_take_all. }
  split; [exact Hsig|]. split; [|split; [done|split; [|by apply free_signature_ok]]].
  - assert (<[sl := Signature (Some bl) (strlen b)]> h !! bl = None) as Hbl' by by rewrite lookup_insert_ne.
    apply (verify_ok h' self d (Some kl) pub c vl v (Some sl) b message); [|done| |exact Hsig].
    + by repeat apply has_keys_insert.
    + unfold h'. by rewrite !lookup_insert_ne by congruence.
  - intros Hp Hg. by rewrite (verify_sign _ _ _ _ Hp Hg Hb).
Qed.

(** The verdict on a signature is that the library did not answer 0. So a signature that
    was checked and is wrong is rejected, but one the library could not check, because it
    cannot be decoded for example, counts as valid like a genuine one. Nothing is
    accepted without a key, and no object is left behind. *)
Theorem signature_verdicts (h : heap object) (self : ptr) (d : loc) (priv pub : ptr) (c : Z) (sig : ptr) (s message : string) :
  has_keys h self d priv pub c → has_signature h sig s →
  (∀ key k, verifying_key priv pub = Some key → h !! key = Some (Key k) →
     let verdict := ECDSA_verify (sha256 message) s k in
     (verdict = 1 → verify_signature true self message sig h = Ok (true, h)) ∧
     (verdict = 0 → verify_signature true self message sig h = Ok (false, h)) ∧
     (verdict = -1 → verify_signature true self message sig h = Ok (true, h))) ∧
  (verifying_key priv pub = None → verify_signature true self message sig h = Ok (false, h)).
Proof.
  intros Hkeys Hsig. split.
  - intros key k Hv Hk. cbv zeta. rewrite (verify_ok h self d priv pub c key k sig s message Hkeys Hv Hk Hsig).
    split; [by intros ->|]. by split; intros ->.
  - intros Hv. destruct pub; [done|]. cbn in Hv. subst priv. destruct Hkeys as [Hh Hd]. unfold verify_signature, sha256digest.
    rewrite Hh, bind_ok. destruct (alloc_fresh (Bytes 32 (sha256 message)) h) as (l & -> & Hl). unfold data_at.
    rewrite deref_insert_ne by congruence. cbn [deref]. rewrite Hd, !bind_ok. by rewrite free_insert_eq, bind_ok.
Qed.

(** ** The life of a helper *)

(** The key a pointer leads to is a live object, apart from the helper and its data. *)
Definition live_key h (s d : loc) (p : ptr) : Prop := ∀ l, p = Some l → (∃ k, h !! l = Some (Key k)) ∧ l ≠ s ∧ l ≠ d.

Definition without (p : ptr) h : heap object := match p with Some l => delete l h | None => h end.

(** Lookups after allocations and deletions at other places. *)
Ltac look := repeat first
  [rewrite bind_ok | rewrite lookup_insert_eq | rewrite lookup_insert_ne by congruence
  | rewrite lookup_delete_eq | rewrite lookup_delete_ne by congruence].

Lemma clear_private_ok h s d priv pub c : has_keys h (Some s) d priv pub c → s ≠ d → live_key h s d priv →
  ∃ h', clear_private_key (Some s) h = Ok h' ∧ has_keys h' (Some s) d None pub c ∧ (∀ i, i ≠ d → h' !! i = without priv h !! i).
Proof.
  intros [Hh Hd] Hsd Hp. unfold clear_private_key. rewrite Hh, bind_ok. unfold data_at at 1. cbn [deref]. rewrite Hd, !bind_ok.
  destruct priv as [a|]; [|by exists h].
  destruct (Hp a eq_refl) as ((k & Hk) & Has & Had). cbn [free_cell without]. rewrite Hk, bind_ok. unfold set_private, data_at. cbn [deref].
  rewrite lookup_delete_ne, Hd, !bind_ok by congruence. unfold store. rewrite lookup_delete_ne, Hd by congruence. eexists. split; [done|].
  split; [split|].
  - unfold helper_data in *. cbn [deref] in *. by look.
  - by look.
  - intros i Hi. by look.
Qed.

Lemma clear_public_ok h s d priv pub c : has_keys h (Some s) d priv pub c → s ≠ d → live_key h s d pub →
  ∃ h', clear_public_key (Some s) h = Ok h' ∧ has_keys h' (Some s) d priv None c ∧ (∀ i, i ≠ d → h' !! i = without pub h !! i).
Proof.
  intros [Hh Hd] Hsd Hp. unfold clear_public_key. rewrite Hh, bind_ok. unfold data_at at 1. cbn [deref]. rewrite Hd, !bind_ok.
  destruct pub as [a|]; [|by exists h].
  destruct (Hp a eq_refl) as ((k & Hk) & Has & Had). cbn [free_cell without]. rewrite Hk, bind_ok. unfold set_public, data_at. cbn [deref].
  rewrite lookup_delete_ne, Hd, !bind_ok by congruence. unfold store. rewrite lookup_delete_ne, Hd by congruence. eexists. split; [done|].
  split; [split|].
  - unfold helper_data in *. cbn [deref] in *. by look.
  - by look.
  - intros i Hi. by look.
Qed.

Lemma without_ne p h i : p ≠ Some i → without p h !! i = h !! i.
Proof. destruct p as [l|]; [|done]. intros H. cbn. by rewrite lookup_delete_ne by congruence. Qed.

(** [dispose] frees the keys, the data and the helper. *)
Lemma dispose_ok h s d priv pub c : has_keys h (Some s) d priv pub c → s ≠ d →
  live_key h s d priv → live_key h s d pub → (∀ l, priv = Some l → pub ≠ Some l) →
  dispose_helper (Some s) h = Ok (delete s (delete d (without pub (without priv h)))).
Proof.
  intros Hk Hsd Hp Hq Hpq. unfold dispose_helper. rewrite (keys_helper _ _ _ _ _ _ Hk), bind_ok.
  destruct (clear_private_ok h s d priv pub c Hk Hsd Hp) as (h1 & -> & Hk1 & H1). rewrite bind_ok.
  destruct (clear_public_ok h1 s d None pub c Hk1 Hsd) as (h2 & -> & Hk2 & H2).
  { intros l Hl. destruct (Hq l Hl) as ((k & Hlk) & Hls & Hld). split; [|done]. exists k. rewrite H1, without_ne; [done| |done].
    intros Heq. by apply (Hpq l). }
  rewrite bind_ok. cbn [free_cell]. rewrite (keys_data _ _ _ _ _ _ Hk2), bind_ok.
  assert (∃ o, h2 !! s = Some o) as [o Ho].
  { destruct Hk2 as [Hh2 _]. unfold helper_data in Hh2. cbn in Hh2. destruct (h2 !! s); [by eexists|done]. }
  unfold store. rewrite lookup_delete_ne, Ho, bind_ok by done. cbn [free_cell]. rewrite lookup_insert_eq. f_equal.
  apply map_eq. intros i. destruct (decide (i = s)) as [->|]; [by rewrite !lookup_delete_eq|].
  rewrite !(lookup_delete_ne _ s), lookup_insert_ne by done. destruct (decide (i = d)) as [->|]; [by rewrite !lookup_delete_eq|].
  rewrite !(lookup_delete_ne _ d), H2 by done. destruct pub as [q|]; cbn [without]; [|by apply H1].
  destruct (decide (i = q)) as [->|]; [by rewrite !lookup_delete_eq|]. rewrite !(lookup_delete_ne _ q) by done. by apply H1.
Qed.

(** The key that is loaded from a text. *)
Definition loaded (bio : bool) (key : option string) (func : string → option ec_key) : option ec_key :=
  if bio then key ≫= func else None.

Lemma given_key_ok bio key func h :
  match loaded bio key func with
  | None => given_key bio key func h = Ok (None, h)
  | Some k => ∃ l, h !! l = None ∧ given_key bio key func h = Ok (Some l, <[l := Key k]> h)
  end.
Proof.
  unfold loaded, given_key, create_key. destruct key as [t|]; [|by destruct bio]. destruct bio; [|done]. cbn [mbind option_bind].
  destruct (alloc_fresh Bio h) as (b & -> & Hb). destruct (func t) as [k|].
  - destruct (alloc_fresh (Key k) (<[b := Bio]> h)) as (l & -> & Hl). apply fresh_insert in Hl as [Hne Hl]. exists l. split; [done|].
    rewrite insert_insert_ne by congruence. by rewrite free_insert_eq, bind_ok by by rewrite lookup_insert_ne.
  - by rewrite free_insert_eq, bind_ok.
Qed.

Lemma set_private_ok h d a a' b c : h !! d = Some (Data a b c) → set_private (Some d) a' h = Ok (<[d := Data a' b c]> h).
Proof. intros H. unfold set_private, data_at. cbn [deref]. rewrite H, !bind_ok. cbn. by rewrite H. Qed.

Lemma set_public_ok h d a b b' c : h !! d = Some (Data a b c) → set_public (Some d) b' h = Ok (<[d := Data a b' c]> h).
Proof. intros H. unfold set_public, data_at. cbn [deref]. rewrite H, !bind_ok. cbn. by rewrite H. Qed.

(** A helper and its data, before any key. *)
Lemma new_helper_ok h : ∃ s d, h !! s = None ∧ h !! d = None ∧ s ≠ d ∧
  ∀ b1 b2 pk qk, new_ecdsa true true b1 b2 pk qk h =
    let h3 := <[d := Data None None 0]> (<[s := Helper (Some d)]> h) in
    '(priv, h4) ← given_key b1 pk PEM_read_bio_ECPrivateKey h3;
    h5 ← set_private (Some d) priv h4;
    '(pub, h6) ← given_key b2 qk PEM_read_bio_EC_PUBKEY h5;
    h7 ← set_public (Some d) pub h6;
    match priv with
    | None => Ok (Some s, h7, [])
    | Some _ =>
        k ← key_at h7 priv;
        let '(_, h8) := alloc true (Bytes (strlen (private_hex k) + 1) (private_hex k)) h7 in
        let '(_, h9) := alloc true (Bytes (strlen (public_hex k) + 1) (public_hex k)) h8 in
        '(a, b, _) ← data_at h9 (Some d);
        h10 ← store h9 (Some d) (Data a b (EC_GROUP_get_curve_name k));
        Ok (Some s, h10, [private_hex k; public_hex k])
    end.
Proof.
  destruct (alloc_fresh (Helper None) h) as (s & Es & Hs).
  destruct (alloc_fresh (Data None None 0) (<[s := Helper None]> h)) as (d & Ed & Hd). pose proof Hd as [Hne Hd']%fresh_insert.
  exists s, d. do 3 (split; [done|]). intros b1 b2 pk qk. unfold new_ecdsa. rewrite Es, Ed.
  by rewrite (store_insert_ne _ _ _ _ _ _ (not_eq_sym Hne) (store_insert_eq _ _ _ _)), bind_ok.
Qed.

(** The two texts of a private key that are left. *)
Definition leaked (k : ec_key) (x y : loc) h : heap object :=
  <[y := Bytes (strlen (public_hex k) + 1) (public_hex k)]> (<[x := Bytes (strlen (private_hex k) + 1) (private_hex k)]> h).

Ltac fresh_facts := repeat match goal with H : <[_ := _]> _ !! _ = None |- _ => apply fresh_insert in H; destruct H end.
(** Two heaps agree at every place. *)
Ltac everywhere := apply map_eq; let i := fresh "i" in intros i;
  repeat (rewrite lookup_insert || rewrite lookup_delete); repeat case_decide; simplify_eq; congruence.

(** What changed when one of the two keys was loaded: the key is new, and the data has it. *)
Record key_loaded (h h' : heap object) (d : loc) (p : ptr) (k : option ec_key) (data : object) : Prop := {
  loaded_some : is_Some p ↔ is_Some k;
  loaded_data : h' !! d = Some data;
  loaded_new l : p = Some l → h !! l = None ∧ l ≠ d ∧ h' !! l = Key <$> k;
  loaded_frame i : i ≠ d → p ≠ Some i → h' !! i = h !! i;
}.

Lemma insert_loaded h d o o' : h !! d = Some o' → key_loaded h (<[d := o]> h) d None None o.
Proof. intros Hd. split; [split; by intros []|by look|done|]. intros i Hi _. by look. Qed.

Lemma insert_key_loaded h d l k o o' : h !! d = Some o' → h !! l = None → key_loaded h (<[d := o]> (<[l := Key k]> h)) d (Some l) (Some k) o.
Proof.
  intros Hd Hl. split; [by split; intros _; eexists|by look| |].
  - intros l' [= <-]. split; [done|]. split; [congruence|]. by look.
  - intros i Hi Hne. by look.
Qed.

Lemma load_private h d o a bio key func : h !! d = Some (Data o a 0) →
  ∃ p h4 h5, given_key bio key func h = Ok (p, h4) ∧ set_private (Some d) p h4 = Ok h5 ∧
    key_loaded h h5 d p (loaded bio key func) (Data p a 0).
Proof.
  intros Hd. pose proof (given_key_ok bio key func h) as H. destruct (loaded bio key func) as [k|].
  - destruct H as (l & Hl & ->). eexists _, _, _. split; [done|]. rewrite (set_private_ok _ d o (Some l) a 0) by by look.
    split; [done|]. by eapply insert_key_loaded.
  - rewrite H. eexists _, _, _. split; [done|]. rewrite (set_private_ok _ d o None a 0) by done. split; [done|]. by eapply insert_loaded.
Qed.

Lemma load_public h d o a bio key func : h !! d = Some (Data a o 0) →
  ∃ p h4 h5, given_key bio key func h = Ok (p, h4) ∧ set_public (Some d) p h4 = Ok h5 ∧
    key_loaded h h5 d p (loaded bio key func) (Data a p 0).
Proof.
  intros Hd. pose proof (given_key_ok bio key func h) as H. destruct (loaded bio key func) as [k|].
  - destruct H as (l & Hl & ->). eexists _, _, _. split; [done|]. rewrite (set_public_ok _ d a o (Some l) 0) by by look.
    split; [done|]. by eapply insert_key_loaded.
  - rewrite H. eexists _, _, _. split; [done|]. rewrite (set_public_ok _ d a o None 0) by done. split; [done|]. by eapply insert_loaded.
Qed.

(** The two loads of [new_ecdsa], from a helper without keys. *)
Lemma two_keys h s d b1 b2 pk qk : h !! s = None → h !! d = None → s ≠ d →
  let h3 := <[d := Data None None 0]> (<[s := Helper (Some d)]> h) in
  ∃ priv pub h4 h5 h6 h7,
    given_key b1 pk PEM_read_bio_ECPrivateKey h3 = Ok (priv, h4) ∧ set_private (Some d) priv h4 = Ok h5 ∧
    given_key b2 qk PEM_read_bio_EC_PUBKEY h5 = Ok (pub, h6) ∧ set_public (Some d) pub h6 = Ok h7 ∧
    key_loaded h3 h5 d priv (loaded b1 pk PEM_read_bio_ECPrivateKey) (Data priv None 0) ∧
    key_loaded h5 h7 d pub (loaded b2 qk PEM_read_bio_EC_PUBKEY) (Data priv pub 0) ∧
    h7 !! s = Some (Helper (Some d)) ∧ live_key h7 s d priv ∧ live_key h7 s d pub ∧ (∀ l, priv = Some l → pub ≠ Some l) ∧
    delete s (delete d (without pub (without priv h7))) = h.
Proof.
  intros Hs Hd Hsd h3. destruct (load_private h3 d None None b1 pk PEM_read_bio_ECPrivateKey) as (priv & h4 & h5 & E4 & E5 & L1).
  { unfold h3. by look. }
  destruct (load_public h5 d None priv b2 qk PEM_read_bio_EC_PUBKEY) as (pub & h6 & h7 & E6 & E7 & L2); [apply (loaded_data _ _ _ _ _ _ L1)|].
  exists priv, pub, h4, h5, h6, h7. do 4 (split; [done|]). do 2 (split; [done|]).
  destruct L1 as [S1 D1 N1 F1], L2 as [S2 D2 N2 F2].
  assert (h3 !! s = Some (Helper (Some d))) as H3s by (unfold h3; by look).
  assert (priv ≠ Some s) as Hps by (intros E; destruct (N1 s E); congruence).
  assert (h5 !! s = Some (Helper (Some d))) as H5s by by rewrite F1.
  assert (pub ≠ Some s) as Hqs by (intros E; destruct (N2 s E); congruence).
  split; [by rewrite F2|].
  assert (∀ l, priv = Some l → pub ≠ Some l) as Hpq.
  { intros l Hl E. destruct (N1 l Hl) as (_ & _ & K1). destruct (N2 l E) as (K2 & _). rewrite K2 in K1.
    destruct (proj1 S1 ltac:(by eexists)) as [k Hk]. by rewrite Hk in K1. }
  split; [|split; [|split; [exact Hpq|]]].
  - intros l Hl. destruct (N1 l Hl) as (_ & Hld & K1). destruct (proj1 S1 ltac:(by eexists)) as [k Hk]. rewrite Hk in K1.
    split; [|split; congruence]. exists k. rewrite F2; [done..|]. by apply Hpq.
  - intros l Hl. destruct (N2 l Hl) as (_ & Hld & K1). destruct (proj1 S2 ltac:(by eexists)) as [k Hk]. rewrite Hk in K1.
    split; [|split; congruence]. by exists k.
  - apply map_eq. intros i. destruct (decide (i = s)) as [->|Hi]; [by look|]. rewrite lookup_delete_ne by done.
    destruct (decide (i = d)) as [->|Hid]; [by look|]. rewrite lookup_delete_ne by done.
    destruct (decide (pub = Some i)) as [E|Hqi].
    { rewrite E. cbn [without]. rewrite lookup_delete_eq. destruct (N2 i E) as (K & _). rewrite F1 in K by (by try intros ?%Hpq).
      unfold h3 in K. revert K. by look. }
    rewrite without_ne by done. destruct (decide (priv = Some i)) as [E|Hpi].
    { rewrite E. cbn [without]. rewrite lookup_delete_eq. destruct (N1 i E) as (K & _). unfold h3 in K. revert K. by look. }
    rewrite without_ne, F2, F1 by done. unfold h3. by look.
Qed.
(** The end of a helper whose heap has more cells than it needs. *)
Lemma dispose_frame h0 h s d priv pub c : has_keys h (Some s) d priv pub c → s ≠ d →
  live_key h s d priv → live_key h s d pub → (∀ l, priv = Some l → pub ≠ Some l) →
  delete s (delete d (without pub (without priv h))) = h0 → dispose_helper (Some s) h = Ok h0.
Proof. intros Hk Hsd Hp Hq Hpq <-. by eapply dispose_ok. Qed.

Lemma without_insert p l o h : p ≠ Some l → without p (<[l := o]> h) = <[l := o]> (without p h).
Proof. destruct p as [q|]; [|done]. intros H. cbn. by rewrite delete_insert_ne by congruence. Qed.

Lemma live_key_insert h s d p l o : h !! l = None ∨ l = d → live_key h s d p → live_key (<[l := o]> h) s d p.
Proof.
  intros Hl Hp q Hq. destruct (Hp q Hq) as ((k & Hk) & Hqs & Hqd). split; [|done]. exists k.
  rewrite lookup_insert_ne; [done|]. by destruct Hl; congruence.
Qed.

(** The end of [new_ecdsa] with a private key: the two texts. *)
Lemma private_key_texts h7 s d a pub k : h7 !! s = Some (Helper (Some d)) → h7 !! d = Some (Data (Some a) pub 0) → h7 !! a = Some (Key k) → s ≠ d →
  ∃ x y, h7 !! x = None ∧ h7 !! y = None ∧ x ≠ y ∧
    (k ← key_at h7 (Some a);
     let '(_, h8) := alloc true (Bytes (strlen (private_hex k) + 1) (private_hex k)) h7 in
     let '(_, h9) := alloc true (Bytes (strlen (public_hex k) + 1) (public_hex k)) h8 in
     '(a, b, _) ← data_at h9 (Some d);
     h10 ← store h9 (Some d) (Data a b (EC_GROUP_get_curve_name k));
     Ok (Some s, h10, [private_hex k; public_hex k])) =
    Ok (Some s, <[d := Data (Some a) pub (EC_GROUP_get_curve_name k)]> (leaked k x y h7), [private_hex k; public_hex k]).
Proof.
  intros Hs Hd Ha Hsd. unfold key_at. cbn [deref]. rewrite Ha, !bind_ok.
  destruct (alloc_fresh (Bytes (strlen (private_hex k) + 1) (private_hex k)) h7) as (x & -> & Hx).
  destruct (alloc_fresh (Bytes (strlen (public_hex k) + 1) (public_hex k)) (<[x := Bytes (strlen (private_hex k) + 1) (private_hex k)]> h7)) as (y & -> & Hy).
  apply fresh_insert in Hy as [Hxy Hy]. exists x, y. do 3 (split; [done|]).
  unfold data_at. rewrite !deref_insert_ne by congruence. cbn [deref]. rewrite Hd, !bind_ok.
  unfold store. look. rewrite Hd, bind_ok. done.
Qed.

(** The keys a helper has, read off the heap, and what it says of them. *)
Lemma has_keys_at h s d priv pub c : h !! s = Some (Helper (Some d)) → h !! d = Some (Data priv pub c) → has_keys h (Some s) d priv pub c.
Proof. intros H1 H2. split; [|done]. unfold helper_data. cbn [deref]. by rewrite H1. Qed.

Lemma has_keys_answers h s d priv pub c : has_keys h s d priv pub c →
  have_private_key s h = Ok (bool_decide (is_Some priv)) ∧ have_public_key s h = Ok (bool_decide (is_Some pub)) ∧ ec_curve_name s h = Ok c.
Proof.
  intros [H1 H2]. unfold have_private_key, have_public_key, ec_curve_name, data_at. rewrite H1, !bind_ok.
  destruct s; cbn [deref] in *; by rewrite H2, !bind_ok.
Qed.

(** Without memory for its data a helper is given back at once. *)
Lemma helper_without_data b1 b2 pk qk h : new_ecdsa true false b1 b2 pk qk h = Ok (None, h, []).
Proof.
  unfold new_ecdsa. destruct (alloc_fresh (Helper None) h) as (s & -> & Hs). cbn beta iota.
  unfold alloc at 1. cbn [malloc]. rewrite store_insert_eq, bind_ok. unfold dispose_helper, helper_data.
  rewrite deref_insert_eq, !bind_ok. by rewrite free_insert_eq, bind_ok.
Qed.

(** The end of a helper that has printed its texts: they are all it leaves. *)
Lemma dispose_leaves_texts h h7 s d a pub k x y c : h7 !! s = Some (Helper (Some d)) → s ≠ d →
  live_key h7 s d (Some a) → live_key h7 s d pub → pub ≠ Some a → h7 !! x = None → h7 !! y = None → x ≠ y → is_Some (h7 !! d) →
  delete s (delete d (without pub (without (Some a) h7))) = h →
  dispose_helper (Some s) (<[d := Data (Some a) pub c]> (leaked k x y h7)) = Ok (leaked k x y h).
Proof.
  intros Hs Hsd Hp Hq Hpq Hx Hy Hxy [o Hd] Hend.
  assert (∀ p, live_key h7 s d p → live_key (<[d := Data (Some a) pub c]> (leaked k x y h7)) s d p) as Hlive.
  { intros p Hlp. unfold leaked. apply live_key_insert; [by right|]. apply live_key_insert; [left; by look|]. by apply live_key_insert; [left|]. }
  destruct (Hp a eq_refl) as ((ka & Ha) & _).
  assert (pub ≠ Some x ∧ pub ≠ Some y) as [Hqx Hqy].
  { split; intros E; destruct (Hq _ E) as ((? & ?) & _); congruence. }
  eapply (dispose_frame _ _ s d (Some a) pub c); [apply has_keys_at; unfold leaked; by look|done|by apply Hlive..|intros ? [= <-]; done|].
  rewrite <- Hend. unfold leaked.
  apply map_eq. intros i. destruct (decide (i = s)) as [->|]; [by look|]. destruct (decide (i = d)) as [->|]; [by look|]. look.
  destruct (decide (i = y)) as [->|]; [|destruct (decide (i = x)) as [->|]]; look;
    [rewrite without_ne by done; cbn [without]; by look..|].
  destruct (decide (pub = Some i)) as [->|]; [by cbn [without]; look|]. rewrite !(without_ne pub) by done. cbn [without].
  destruct (decide (i = a)) as [->|]; by look.
Qed.

(** C22: a helper from its creation to its end, whatever the keys given are: it is created when
    there is memory, [dispose] frees it with both keys exactly once, and without a private key
    nothing is left. With a private key the two texts that were printed, the private key among
    them, stay allocated for ever. Without memory nothing is created and nothing is left. *)
Theorem helper_lifetime (m_self m_data b1 b2 : bool) (pk qk : option string) (h : heap object) :
  ∃ self h1 printed h2,
    new_ecdsa m_self m_data b1 b2 pk qk h = Ok (self, h1, printed) ∧ dispose_helper self h1 = Ok h2 ∧
    if m_self && m_data then
      is_Some self ∧
      have_private_key self h1 = Ok (bool_decide (is_Some (loaded b1 pk PEM_read_bio_ECPrivateKey))) ∧
      have_public_key self h1 = Ok (bool_decide (is_Some (loaded b2 qk PEM_read_bio_EC_PUBKEY))) ∧
      match loaded b1 pk PEM_read_bio_ECPrivateKey with
      | None => h2 = h ∧ printed = [] ∧ ec_curve_name self h1 = Ok 0
      | Some k => (∃ x y, h !! x = None ∧ h !! y = None ∧ x ≠ y ∧ h2 = leaked k x y h) ∧
          printed = [private_hex k; public_hex k] ∧ ec_curve_name self h1 = Ok (EC_GROUP_get_curve_name k)
      end
    else self = None ∧ h2 = h ∧ printed = [].
Proof.
  destruct m_self; [|exists None, h, [], h; done]. destruct m_data; cbn [andb].
  2: { exists None, h, [], h. by rewrite helper_without_data. }
  destruct (new_helper_ok h) as (s & d & Hs & Hd & Hsd & Hnew).
  destruct (two_keys h s d b1 b2 pk qk Hs Hd Hsd) as (priv & pub & h4 & h5 & h6 & h7 & E4 & E5 & E6 & E7 & L1 & L2 & H7s & Hp & Hq & Hpq & Hend).
  specialize (Hnew b1 b2 pk qk). cbv zeta in *. rewrite E4, bind_ok, E5, bind_ok, E6, bind_ok, E7, bind_ok in Hnew.
  pose proof (loaded_some _ _ _ _ _ _ L1) as S1. pose proof (loaded_data _ _ _ _ _ _ L2) as D2.
  rewrite <- (bool_decide_ext _ _ (loaded_some _ _ _ _ _ _ L2)), <- (bool_decide_ext _ _ S1).
  destruct (loaded b1 pk PEM_read_bio_ECPrivateKey) as [k|].
  - destruct (proj2 S1 ltac:(by eexists)) as [a ->]. destruct (loaded_new _ _ _ _ _ _ L1 a eq_refl) as (_ & Had & Ha).
    rewrite <- (loaded_frame _ _ _ _ _ _ L2 a Had (Hpq a eq_refl)) in Ha. cbn in Ha.
    destruct (private_key_texts h7 s d a pub k H7s D2 Ha Hsd) as (x & y & Hx & Hy & Hxy & Htexts). rewrite Htexts in Hnew.
    eexists _, _, _, (leaked k x y h). split; [done|]. split; [by eapply dispose_leaves_texts; eauto|].
    split; [by eexists|]. edestruct has_keys_answers as (V1 & V2 & V3); [|split; [exact V1|split; [exact V2|split]]].
    { apply has_keys_at; unfold leaked; by look. }
    { assert (∀ i, h7 !! i = None → h !! i = None) as Hnone; [|by exists x, y; auto].
      intros i Hi. rewrite <- Hend. rewrite !lookup_delete_None. right. right.
      destruct pub as [q|]; cbn [without]; rewrite ?lookup_delete_None; by auto. }
    done.
  - destruct priv as [a|]; [by destruct (proj1 S1 ltac:(by eexists))|].
    assert (has_keys h7 (Some s) d None pub 0) as Hk1 by by apply has_keys_at.
    destruct (has_keys_answers _ _ _ _ _ _ Hk1) as (V1 & V2 & V3). exists (Some s), h7, [], h. split; [done|].
    split; [by apply (dispose_frame h h7 s d None pub 0)|]. split; [by eexists|]. by auto.
Qed.

(** ** Loading a public key *)

(** What the text of a point makes of the new key of a curve. *)
Definition public_key_of (curve_name : Z) (hex : string) : option ec_key :=
  q ← EC_POINT_hex2point curve_name hex; EC_KEY_set_public_key (EC_KEY_new_by_curve_name curve_name) q.

(** The helper gets the new key, or none. Nothing of the heap before is freed, so the public
    key it had is lost; and a text that is no point leaves the point made for it. *)
Theorem load_ec_public_key_ok h s d priv pub c curve hex :
  has_keys h (Some s) d priv pub c → s ≠ d → known_curve curve = true →
  ∃ l, h !! l = None ∧
    load_ec_public_key (Some s) curve hex h =
      Ok (match public_key_of curve hex with
          | Some k => (true, <[l := Key k]> (<[d := Data priv (Some l) c]> h))
          | None => (false, match EC_POINT_hex2point curve hex with
                            | Some _ => <[d := Data priv None c]> h
                            | None => <[l := Point]> (<[d := Data priv None c]> h)
                            end)
          end).
Proof.
  intros [Hh Hd] Hsd Hc. unfold load_ec_public_key. rewrite Hh, bind_ok. unfold data_at at 1. cbn [deref]. rewrite Hd, !bind_ok, Hc.
  assert ((match pub with None => h' ← free_cell h pub; set_public (Some d) None h' | Some _ => Ok h end) = Ok h) as ->.
  { destruct pub; [done|]. cbn [free_cell]. rewrite bind_ok, (set_public_ok _ _ _ _ _ _ Hd). by rewrite insert_id. }
  rewrite bind_ok. set (k0 := EC_KEY_new_by_curve_name curve).
  destruct (alloc_fresh (Key k0) h) as (l & -> & Hl). rewrite (set_public_ok _ d priv pub (Some l) c), bind_ok by by look.
  set (h3 := <[d := Data priv (Some l) c]> (<[l := Key k0]> h)).
  destruct (alloc_fresh Group h3) as (g & -> & Hg). destruct (alloc_fresh Point (<[g := Group]> h3)) as (p & -> & Hp).
  pose proof Hg as Hg'. pose proof Hp as Hp'. unfold h3 in Hg', Hp'. fresh_facts.
  unfold public_key_of. fold k0. destruct (EC_POINT_hex2point curve hex) as [q|]; cbn [mbind option_bind];
    [destruct (EC_KEY_set_public_key k0 q) as [k|]|]; cbn beta iota zeta; unfold store, free_cell, h3; look.
  - exists l. split; [done|]. f_equal. f_equal. everywhere.
  - rewrite (set_public_ok _ d priv (Some l) None c), bind_ok by by look. exists l. split; [done|]. f_equal. f_equal. everywhere.
  - rewrite (set_public_ok _ d priv (Some l) None c), bind_ok by by look. exists p. split; [done|]. f_equal. f_equal. everywhere.
Qed.
End signature.

(** ** Witnesses *)

(** A library for examples: a signature is the key followed by the digest, and the empty text
    cannot be decoded. *)
#[local] Instance toy_ssl : OpenSSL := {|
  ec_key := string; ec_point := string;
  sha256 m := str_take 32 m;
  ECDSA_size _ := 72;
  ECDSA_sign d k := if strlen (k +:+ d) <=? 72 then Some (k +:+ d) else None;
  failed_length := 0;
  ECDSA_verify d b k := if decide (b = k +:+ d) then 1 else if decide (b = EmptyString) then -1 else 0;
  PEM_read_bio_ECPrivateKey t := Some t;
  PEM_read_bio_EC_PUBKEY t := Some t;
  known_curve c := c =? 714;
  EC_KEY_new_by_curve_name _ := EmptyString;
  EC_POINT_hex2point _ t := Some t;
  EC_KEY_set_public_key _ q := Some q;
  private_hex k := k;
  public_hex k := k;
  EC_GROUP_get_curve_name _ := 714;
|}.

#[local] Instance toy_laws : OpenSSLLaws.
Proof.
  split.
  - intros d k b. cbn. destruct (Z.leb_spec (strlen (k +:+ d)) 72); [by intros [= <-]|done].
  - intros d b k. cbn. repeat case_decide; auto.
  - intros d k k' b. cbn. intros -> _. destruct (_ <=? _); [|done]. intros [= <-]. by rewrite decide_True.
Qed.

(** A helper with a private key, and a signature object. *)
Definition sample_heap (s : string) : heap object :=
  {[ 1%positive := Helper (Some 2%positive); 2%positive := Data (Some 3%positive) None 714; 3%positive := Key ("key"%string : ec_key);
     4%positive := Signature (Some 5%positive) (strlen s); 5%positive := Bytes 72 s ]}.

(** With a public key too: the same, or another one. *)
Definition pair_heap (public : string) : heap object :=
  <[6%positive := Key (public : ec_key)]> (<[2%positive := Data (Some 3%positive) (Some 6%positive) 714]> (sample_heap "")).

Lemma signed_is_verified_witness :
  (∃ sig h', sign_message true true true (Some 1%positive) "hello" (pair_heap "key") = Ok (sig, h') ∧ has_signature h' sig "keyhello" ∧
    verify_signature true (Some 1%positive) "hello" sig h' = Ok (true, h') ∧ free_signature sig h' = Ok (pair_heap "key")) ∧
  (∃ sig h', sign_message true true true (Some 1%positive) "hello" (pair_heap "other") = Ok (sig, h') ∧
    verify_signature true (Some 1%positive) "hello" sig h' = Ok (false, h')).
Proof.
  split.
  - destruct (signed_is_verified (pair_heap "key") (Some 1%positive) 2 3 6 (Some 6%positive) 714 "key" "key" "hello" "keyhello")
      as (sig & h' & verdict & H1 & H2 & H3 & _ & H4 & H5); [split|..]; try (vm_compute; reflexivity).
    rewrite (H4 eq_refl eq_refl) in H3. by exists sig, h'.
  - destruct (signed_is_verified (pair_heap "other") (Some 1%positive) 2 3 6 (Some 6%positive) 714 "key" "other" "hello" "keyhello")
      as (sig & h' & verdict & H1 & _ & H3 & H4 & _); [split|..]; try (vm_compute; reflexivity).
    subst verdict. by exists sig, h'.
Defined.

Lemma signature_verdicts_witness :
  verify_signature true (Some 1%positive) "hello" (Some 4%positive) (sample_heap "") = Ok (true, sample_heap "").
Proof.
  refine (proj2 (proj2 (proj1 (signature_verdicts (sample_heap "") (Some 1%positive) 2 (Some 3%positive) None 714 (Some 4%positive) EmptyString "hello" _ _)
    3%positive ("key"%string : ec_key) eq_refl eq_refl)) _).
  - by split; vm_compute.
  - exists (Some 5%positive), 0, EmptyString. vm_compute. repeat split; discriminate.
  - vm_compute. reflexivity.
Defined.
